(* ===== verification/_CoqProject ===== *)
-Q . S2P
Prelude.v
Base.v
Parts.v
TagPath.v
DicomFlow.v
Fixtures.v
Dataset.v
HeaderFilter.v
HeaderDataset.v
TagFilter.v
IndeterminateLength.v
Framing.v
Observation.v
Warnings.v
RewriteDataset.v
FilterDataset.v
DiscardDataset.v
PruneDataset.v
ElementFlow.v
Deflate.v
DeflateMachine.v
DicomFlows.v
