(* ===== verification/Prelude.v ===== *)
(** * dicom-streams-js: the part-stream flows of [dicom-flows.js], verified

    ** The program

    [src/src/dicom-flows.js] is a library of stream stages over DICOM
    "parts": the structural events (element header, value chunk, sequence,
    item, their delimitations, deflated chunk) a tokenizer makes of a DICOM
    byte stream.  A stage consumes parts one at a time and emits parts.
    The file defines

    - [toBytesFlow], which replaces each part by its bytes;
    - [tagFilter] and the four filters built on it ([whitelistFilter],
      [blacklistFilter], [groupLengthDiscardFilter], [fmiDiscardFilter]),
      which keep or drop each part by a predicate on the tag path it is at;
    - [headerFilter], which keeps or drops each element by a predicate on
      its header;
    - [toIndeterminateLengthSequences], which rewrites sequences and items
      to indeterminate length and supplies their delimitations;
    - [DeflateDatasetFlow] / [deflateDatasetFlow], which watches the file
      meta information for the transfer syntax and diverts the dataset
      through a raw deflater when it is the deflated one.

    The first four are anonymous classes over the mixins of
    [dicom-flow.js], handed to [create]; the last extends [Detour].  The
    siblings the file requires ([dicom-flow.js], [parts.js], [tag-path.js],
    [base.js], [detour.js], [uid.js]) and the libraries ([zlib],
    [readable-stream], [multipipe]) are not among the sources: what the
    file uses of them is modelled from the specification, and kept apart
    from the code of the file, so that a statement says which of the two
    it is about.

    ** The files

    - [Prelude] (this file): byte strings and [Buffer.slice]; the state
      monad in which a handler runs (scope [flow_scope]) and [flatMapM],
      the loop of a stage over a list; [Result] and [flatMapR], the same
      with exceptions; the hint database [flow] and the tactics.
    - [Base]: the constants and tag predicates of [base.js].
    - [Parts]: the tagged union [Part], the property reads
      ([part.bytes], [part.tag], ...) and the [instanceof] tests.
    - [TagPath]: the interface [TrunkOrder] ([isTrunkOf], [hasTrunk] and
      their laws) and its model, paths as lists of steps.
    - [DicomFlow]: the stage contract.  [FlowState] holds the fields of an
      object, [Flow] its handlers, [FlowClass] a class (constructor, and
      methods with [this] abstracted); a mixin is a function on classes;
      [bindThis] ties [this]; [create] makes a [Stage]; [runFrom] and [run]
      feed it a list; [pipe] chains two.
    - [Fixtures]: the bytes, parts and streams of
      [test/element-flows-test.ts], for the witnesses and examples.
    - [Dataset]: the dataset a stream is the traversal of, as a tree
      (elements, fragment sequences, sequences with their items), with
      its well-formedness, and the interface between stages and
      datasets: the classes [OnDatasets] and [DatasetMap], with their
      instances for [pipe].
    - [HeaderFilter]: [headerFilter] (lines 59-79).
    - [HeaderDataset]: [headerFilter] on datasets.
    - [TagFilter]: [tagFilter] and the four filters (lines 26-57).
    - [IndeterminateLength]: [toIndeterminateLengthSequences]
      (lines 81-129).
    - [Framing]: what [toIndeterminateLengthSequences] promises about the
      framing of its output: declared lengths that agree with the bytes,
      every determinate scope closed, the stack as a mirror of the
      output, and the streams it leaves as they are.
    - [Observation]: the fields of its state a stage reads, as
      equivalences on [FlowState] the stages are [Proper] for.
    - [Warnings]: the warn log of each stage.
    - [RewriteDataset]: [toIndeterminateLengthSequences] on datasets.
    - [FilterDataset]: [tagFilter] on datasets.
    - [DiscardDataset]: [groupLengthDiscardFilter] and [fmiDiscardFilter]
      on datasets, and discarding as a filter on trees.
    - [PruneDataset]: [blacklistFilter] and [whitelistFilter] on
      datasets, as the pruning of subtrees.
    - [ElementFlow]: the element assembler of [element-flows.js], from the
      specification, and the four tests of
      [test/element-flows-test.ts] with their probe.
    - [Deflate]: [toBytesFlow], [DeflateDatasetFlow], [deflateDatasetFlow]
      (lines 1-24 and 131-167), with [Detour] and the deflater.
    - [DeflateMachine]: the two-mode machine the specification describes,
      as a step relation, and the states of [DeflateDatasetFlow] against
      it.
    - [DicomFlows]: [module.exports] (lines 169-179) and the stages in
      chains: which orders of composition are safe.

    ** How the code is modelled

    A handler [onX(part)] is a function [Part -> State FlowState (list
    Part)]: it reads and writes the fields of [this] and returns the parts
    it emits.  An anonymous class [class extends M(N(Base)) { constructor;
    onX }] is the [FlowClass] whose constructor runs [super()] first and
    whose methods override those of [M (N Base)]; [super.onX] is the
    method of the class below, [this.onX] the method of the finished
    object.  Each overriding method of the file is one definition, named
    after the function and the method ([headerFilter_onPart],
    [toIndeterminateLengthSequences_onSequence], ...), and takes what it
    closes over as arguments.  [process] of [DeflateDatasetFlow] returns a
    [Result]: it evaluates the identifier [Tag], which the file does not
    bind, so the bindings of the module are an argument ([ModuleScope]).
    An argument left out ([undefined]) is [None].

    ** What is proved

    - Of the code alone (no layer, no collaborator beyond an interface):
      [headerFilter]'s [onPart] over a stream refines an abstract filter,
      only drops, keeps value chunks with their header, composes by
      conjunction; the keep conditions of the white and black lists are
      closed upwards and downwards in any trunk order, and overlap;
      [tagFilter]'s [onPart] recomputes its verdict on every part and
      consults the default condition at the empty path only; the handlers
      of [toIndeterminateLengthSequences] emit no determinate sequence, no
      determinate item outside fragments, leave indeterminate parts and
      fragment items alone, and write the sentinel over the last four
      header bytes; [process] throws at the first header of the file meta
      information as the file stands, and with [Tag] bound collects the
      transfer syntax, passes everything else, and can switch late; the
      comparison after [trim] accepts the identifier between ASCII white
      space and not before a padding zero byte.
    - Of the stages (code over the modelled layers): each created stage
      equals a flat step function ([tagFilter_refines_step],
      [toIndeterminateLengthSequences_refines_step]) or its [onPart] loop
      ([headerFilter_refines_spec]); [toIndeterminateLengthSequences] is
      idempotent on every stream; tag filters only drop and never lose an
      established path; the detour is one way and what it emits inflates
      to the bytes it was given.
    - Of the framing ([Framing]): the handlers keep the declared length
      of every sequence and item consistent with its bytes
      ([handlers_keep_lengths_consistent]), and so does the stage; a
      determinate scope is closed once the bytes it was owed have passed
      ([toIndeterminateLengthSequences_closes]); the scopes emitted and
      not yet closed are the scopes on the stack
      ([toIndeterminateLengthSequences_balanced]).
    - Of datasets ([Dataset], [RewriteDataset], [FilterDataset],
      [HeaderDataset]): a stream that is the traversal of a well-formed
      dataset, nested to any depth, with scopes of determinate and
      indeterminate length in any mix and with fragment sequences, is
      taken by [toIndeterminateLengthSequences] to the traversal of the
      dataset with every scope indeterminate and delimited
      ([toIndeterminateLengthSequences_rewrites]), by a tag filter to the
      parts whose tag path in the tree the keep condition accepts
      ([tagFilter_filters]), and by a header filter to the dataset
      without the rejected elements ([headerFilter_onPart_filters]); a
      fragment sequence rejected by its header loses the header alone
      ([headerFilter_onPart_leaves_fragments]).  The proofs go by
      segments: a relation ([Rewrites], [Filters]) says what a stage
      emits for a piece of the stream from every state that fits, and is
      closed under concatenation and nesting.
    - Of the filters that discard by tag ([DiscardDataset]): on a
      well-formed dataset [groupLengthDiscardFilter] emits the dataset
      without its group lengths, at every depth, those of the file meta
      information kept ([groupLengthDiscardFilter_discards]), and
      [fmiDiscardFilter] the dataset without the file meta information
      ([fmiDiscardFilter_discards]).  Discards compose by disjunction,
      are idempotent, commute with each other and with the rewriting,
      and keep a dataset whose scopes have their delimitations well
      formed.
    - Of the list filters ([PruneDataset]): the keep conditions of the
      two lists are closed under trunks, and a tag filter with such a
      condition emits the traversal of the dataset pruned of what the
      condition rejects ([blacklistFilter_prunes],
      [whitelistFilter_prunes]), provided the condition does not reject
      the header of a sequence over items it keeps: the path of a
      sequence header is not a trunk of the paths of its items, so a
      list can take the one and leave the others.
    - Of fixed points ([Framing]): the streams
      [toIndeterminateLengthSequences] emits unchanged are the stable
      ones and no others ([toIndeterminateLengthSequences_fixpoints]).
    - Of what a stage observes ([Observation], [Warnings]): a tag filter
      reads the fragment flag, the open scopes and the tag path, the
      rewriter the fragment flag, the open scopes and the sentinel, a
      header filter its verdict; states that agree on these give the
      same output.  The warn log of a filter is the group length
      elements of the stream, when warnings are on; the rewriter logs
      nothing.
    - Of the deflate stage as a machine ([DeflateMachine]): the machine
      of two modes is read in a module scope, its rule for a header of
      the file meta information asking for [Tag] to be bound.  In every
      scope, the one of [dicom-flows.js] included, what [process] and
      [transform] return is the step of the machine and they throw
      exactly where the machine is stuck ([process_refines_modeStep],
      [transform_throws_stuck]); the machine is deterministic and one
      way, and total where [Tag] is bound; every state reached from a
      new object has a mode, entered over the deflated transfer syntax
      only ([reaches_consistent]); with [Tag] unbound no state but the
      first is reached ([reaches_unbound]).
    - Of the assembler ([ElementFlow]): it reassembles every well-framed
      stream, whatever the chunking ([elementFlow_roundtrip]); it stops
      at a value chunk it cannot account for; the flag it keeps is the
      flag of the mixins it is layered on.  The model is checked against
      the expectations of the four tests ([elementFlow_tests]), which
      says that the model agrees with the tests, not that
      [element-flows.js] does.
    - Of chains ([DicomFlows]): a tag filter guarantees the value event;
      rewriting before filtering gives consistent, indeterminate
      sequences, and on a dataset the filtered rewritten dataset;
      filtering before rewriting leaves scopes open when a scope is
      closed by its byte count, and agrees with the other order when
      every scope has its delimitation ([rewrite_filter_commute]);
      rewriting and then discarding the group lengths normalises a
      dataset ([rewrite_then_discard_dataset]); the
      white list before the black list of the same path is not empty on
      a nested stream.
    - Each theorem with hypotheses has a witness at the data of the tests;
      the examples run the stages on the streams of the tests.

    ** Bounds and fuel

    - [bindThis fuel C] unrolls [this] to a depth; a call that would go
      deeper reaches [stuckFlow] and emits nothing.  [create] uses
      [thisDepth = 4].  The depth is a device of the model, which the
      program does not have.  That it is enough is proved, not assumed:
      the handlers of [headerFilter] are the same for every depth from 2
      ([headerFilter_this_stable]), those of
      [toIndeterminateLengthSequences] from 2
      ([toIndeterminateLengthSequences_this_stable]), those of [tagFilter]
      from 4 ([tagFilter_this_stable]), for every part and every state.
    - The liveness theorem of [Framing] is about finite streams: it says
      that any stream long enough to carry the bytes a scope is owed has
      made the stage emit the delimitation; no fairness assumption is
      needed beyond those bytes arriving.
    - The theorems on datasets hold for trees of any size and depth:
      they are proved by the mutual induction of [Dataset], with no
      bound.  A dataset is well formed when every part has its bytes,
      every scope of determinate length declares the bytes of its
      content, and every value has chunks only.
    - Streams are finite lists; a stage is run by [flatMapM], which is
      structural.  Nothing else is bounded: lengths, tags and indices are
      integers ([Z]) and are only compared, added and subtracted, where
      JavaScript numbers are exact.
    - [trim] strips the UTF-8 encodings of the code points
      [String.prototype.trim] strips; comparing the result with an ASCII
      text decides [buffer.toString().trim() === text] exactly.

    ** What is not modelled

    The asynchronous plumbing of Node streams (scheduling by
    [process.nextTick], back-pressure, error events, cancellation); the
    deflate algorithm (an interface, [RawDeflate], with its round-trip
    law); the tokenizer, the character sets and the tag dictionary, none
    of which is among the sources (the streams of the tests are given as
    the parts a tokenizer makes of their bytes; of the character sets
    only the tests are among the sources, and decoding rests on the
    platform's decoders); the text of the warnings [GroupLengthWarnings]
    logs (the tags warned about are kept).  The element assembler is
    modelled from the specification alone: it emits elements, not parts,
    so the two layers it is built on are inlined rather than applied as
    mixins, and [elementFlow_tracks_fragments] ties them to the mixins. *)

From Stdlib Require Export ZArith List Lia Bool.
From Stdlib Require Export Strings.Byte.
From stdpp Require Export base tactics decidable option list.
Export ListNotations.

#[global] Open Scope Z_scope.

(** ** Byte strings

    A Node [Buffer] is a list of bytes; its [length] is a JavaScript
    number, kept here as an integer. *)

Abbreviation Bytes := (list byte).

#[export] Instance byte_eq_decision : EqDecision byte := byte_eq_dec.

Definition blen (b : Bytes) : Z := Z.of_nat (length b).

Lemma blen_nonneg (b : Bytes) : 0 <= blen b.
Proof. unfold blen; lia. Qed.

Lemma blen_app (a b : Bytes) : blen (a ++ b) = blen a + blen b.
Proof. unfold blen; rewrite length_app; lia. Qed.

Lemma blen_nil_iff (b : Bytes) : blen b <= 0 <-> b = [].
Proof. unfold blen; destruct b; cbn; split; intros; (lia || congruence). Qed.

(** [buf.slice(start, end)] of Node: an index below zero counts from the
    end of the buffer, and both indices are clamped to the buffer. *)
Definition sliceIndex (len i : Z) : Z :=
  if i <? 0 then Z.max (i + len) 0 else Z.min i len.

Definition slice (b : Bytes) (start end_ : Z) : Bytes :=
  let s := sliceIndex (blen b) start in
  let e := sliceIndex (blen b) end_ in
  take (Z.to_nat (e - s)) (drop (Z.to_nat s) b).

Lemma sliceIndex_bounds (len i : Z) : 0 <= len -> 0 <= sliceIndex len i <= len.
Proof. unfold sliceIndex; intros; destruct (i <? 0) eqn:E; lia. Qed.

Lemma slice_0 (b : Bytes) (e : Z) : slice b 0 e = take (Z.to_nat (sliceIndex (blen b) e)) b.
Proof.
  unfold slice. replace (sliceIndex (blen b) 0) with 0.
  - rewrite Z.sub_0_r. reflexivity.
  - unfold sliceIndex; cbn. pose proof (blen_nonneg b); lia.
Qed.

Lemma blen_take (n : nat) (b : Bytes) : blen (take n b) = Z.min (Z.of_nat n) (blen b).
Proof. unfold blen; rewrite length_take; lia. Qed.

Lemma blen_slice_0 (b : Bytes) (e : Z) : blen (slice b 0 e) = sliceIndex (blen b) e.
Proof.
  rewrite slice_0, blen_take.
  pose proof (sliceIndex_bounds (blen b) e (blen_nonneg b)). lia.
Qed.

(** Dropping the last [k] bytes of a buffer that has them. *)
Lemma slice_drop_last (b : Bytes) (k : Z) :
  0 <= k <= blen b -> slice b 0 (blen b - k) = take (Z.to_nat (blen b - k)) b.
Proof.
  intros Hk. rewrite slice_0. f_equal. f_equal.
  unfold sliceIndex. destruct (blen b - k <? 0) eqn:E; lia.
Qed.

(** ... and of one that does not: the end index counts from the end
    once more. *)
Lemma blen_slice_short (b : Bytes) (k : Z) :
  blen b < k -> blen (slice b 0 (blen b - k)) = Z.max (2 * blen b - k) 0.
Proof.
  intros Hk. rewrite blen_slice_0. unfold sliceIndex.
  destruct (blen b - k <? 0) eqn:E; lia.
Qed.

(** ** The state monad

    A method of a stage reads and writes the fields of [this] and returns
    a value: a function from the object's state to the value and the new
    state. *)

Definition State (S A : Type) : Type := S -> A * S.

Definition sret {S A} (a : A) : State S A := fun s => (a, s).

Definition sbind {S A B} (m : State S A) (k : A -> State S B) : State S B :=
  fun s => let (a, s') := m s in k a s'.

Definition sget {S} : State S S := fun s => (s, s).

Definition sgets {S A} (f : S -> A) : State S A := fun s => (f s, s).

Definition smodify {S} (f : S -> S) : State S unit := fun s => (tt, f s).

Declare Scope flow_scope.
Delimit Scope flow_scope with flow.

Notation "'let*' x ':=' m 'in' k" := (sbind m (fun x => k))
  (at level 10, x name, m at level 100, k at level 200,
   format "'[v' 'let*'  x  ':='  m  'in' '/' k ']'") : flow_scope.
Notation "m1 ';;' m2" := (sbind m1 (fun _ => m2))
  (at level 100, m2 at level 200, right associativity) : flow_scope.

#[global] Open Scope flow_scope.

Create HintDb flow discriminated.
Create Rewrite HintDb flow.
#[export] Hint Unfold sret sbind sget sgets smodify : flow.

Section StateLaws.
Context {S A B C : Type}.

Lemma sbind_sret_l (a : A) (k : A -> State S B) (s : S) :
  sbind (sret a) k s = k a s.
Proof. reflexivity. Qed.

Lemma sbind_sret_r (m : State S A) (s : S) : sbind m sret s = m s.
Proof. unfold sbind, sret; destruct (m s); reflexivity. Qed.

Lemma sbind_assoc (m : State S A) (k : A -> State S B) (h : B -> State S C) (s : S) :
  sbind (sbind m k) h s = sbind m (fun a => sbind (k a) h) s.
Proof. unfold sbind; destruct (m s); reflexivity. Qed.

Lemma sbind_ext (m : State S A) (k k' : A -> State S B) (s : S) :
  (forall a s', k a s' = k' a s') -> sbind m k s = sbind m k' s.
Proof. intros H; unfold sbind; destruct (m s); apply H. Qed.
End StateLaws.

(** [flatMapM f l] runs [f] on each element of [l] in order and concatenates
    what the calls return: the shape of every "for each part, push what
    the handler returns" loop of the program. *)

Fixpoint flatMapM {S A B} (f : A -> State S (list B)) (l : list A) : State S (list B) :=
  match l with
  | [] => sret []
  | x :: l' => let* ys := f x in let* zs := flatMapM f l' in sret (ys ++ zs)
  end.

Section FlatMapM.
Context {S A B : Type} (f : A -> State S (list B)).

Lemma flatMapM_nil (s : S) : flatMapM f [] s = ([], s).
Proof. reflexivity. Qed.

Lemma flatMapM_cons (x : A) (l : list A) (s : S) :
  flatMapM f (x :: l) s =
    (fst (f x s) ++ fst (flatMapM f l (snd (f x s))),
     snd (flatMapM f l (snd (f x s)))).
Proof.
  cbn; unfold sbind, sret. destruct (f x s) as [ys s1]; cbn.
  destruct (flatMapM f l s1); reflexivity.
Qed.

Lemma flatMapM_single (x : A) (s : S) : flatMapM f [x] s = f x s.
Proof. cbn; unfold sbind, sret. destruct (f x s); cbn. rewrite app_nil_r. reflexivity. Qed.

Lemma flatMapM_app (l1 l2 : list A) (s : S) :
  flatMapM f (l1 ++ l2) s =
    (fst (flatMapM f l1 s) ++ fst (flatMapM f l2 (snd (flatMapM f l1 s))),
     snd (flatMapM f l2 (snd (flatMapM f l1 s)))).
Proof.
  revert s; induction l1 as [|x l1 IH]; intros s.
  - cbn. destruct (flatMapM f l2 s); reflexivity.
  - rewrite <- app_comm_cons, !flatMapM_cons, IH; cbn.
    rewrite app_assoc; reflexivity.
Qed.

(** A loop respects every relation on states its body respects. *)
Lemma flatMapM_proper (R : relation S) (l : list A) :
  (forall x, Proper (R ==> prod_relation eq R) (f x)) ->
  Proper (R ==> prod_relation eq R) (flatMapM f l).
Proof.
  intros Hf. induction l as [|x l IH]; intros s1 s2 Hs; [split; [reflexivity | exact Hs]|].
  rewrite !flatMapM_cons. destruct (Hf x s1 s2 Hs) as [Ho Hs'].
  destruct (IH _ _ Hs') as [Ho' Hs'']. split; cbn [fst snd] in *; [congruence | exact Hs''].
Qed.

Lemma flatMapM_ext (g : A -> State S (list B)) (l : list A) (s : S) :
  (forall x s', f x s' = g x s') -> flatMapM f l s = flatMapM g l s.
Proof.
  intros H; revert s; induction l as [|x l IH]; intros s; [reflexivity|].
  cbn; unfold sbind. rewrite H. destruct (g x s) as [ys s1].
  rewrite IH; reflexivity.
Qed.

(** Two loop bodies that agree on the states satisfying an invariant the
    second preserves give the same loop from such a state. *)
Lemma flatMapM_ext_inv (g : A -> State S (list B)) (I : S -> Prop) (l : list A) (s : S) :
  (forall x s', I s' -> f x s' = g x s' /\ I (snd (g x s'))) ->
  I s -> flatMapM f l s = flatMapM g l s.
Proof.
  intros H; revert s; induction l as [|x l IH]; intros s Hs; [reflexivity|].
  cbn; unfold sbind. destruct (H x s Hs) as [-> Hs'].
  destruct (g x s) as [ys s1]; cbn in Hs'. rewrite (IH _ Hs'); reflexivity.
Qed.

(** An invariant of the state that every call preserves holds after the
    loop. *)
Lemma flatMapM_invariant (I : S -> Prop) (l : list A) (s : S) :
  (forall x s', I s' -> I (snd (f x s'))) -> I s -> I (snd (flatMapM f l s)).
Proof.
  intros H; revert s; induction l as [|x l IH]; intros s Hs; [exact Hs|].
  rewrite flatMapM_cons; cbn. apply IH, H, Hs.
Qed.

(** A property of the emitted elements that every call ensures (from
    states satisfying the invariant) holds of all the output. *)
Lemma flatMapM_Forall (I : S -> Prop) (P : B -> Prop) (l : list A) (s : S) :
  (forall x s', I s' -> I (snd (f x s')) /\ Forall P (fst (f x s'))) ->
  I s -> Forall P (fst (flatMapM f l s)).
Proof.
  intros H; revert s; induction l as [|x l IH]; intros s Hs; [constructor|].
  rewrite flatMapM_cons; cbn. destruct (H x s Hs) as [Hs' HP].
  apply Forall_app; split; [exact HP | apply IH, Hs'].
Qed.

(** The same for a loop over a list whose elements satisfy [Q]. *)
Lemma flatMapM_Forall_on (Q : A -> Prop) (I : S -> Prop) (P : B -> Prop)
    (l : list A) (s : S) :
  (forall x s', Q x -> I s' -> I (snd (f x s')) /\ Forall P (fst (f x s'))) ->
  Forall Q l -> I s -> Forall P (fst (flatMapM f l s)).
Proof.
  intros H Hl; revert s; induction Hl as [|x l Hx _ IH]; intros s Hs; [constructor|].
  rewrite flatMapM_cons; cbn. destruct (H x s Hx Hs) as [Hs' HP].
  apply Forall_app; split; [exact HP | apply IH, Hs'].
Qed.
End FlatMapM.

(** Feeding the output of one loop to a second loop: when the second
    loop reproduces what each call of the first emits, from related
    states and to related states, it reproduces the whole output. *)
Lemma flatMapM_replay {S1 S2 A B : Type} (f : A -> State S1 (list B))
    (g : B -> State S2 (list B)) (R : S1 -> S2 -> Prop) :
  (forall a s1 s2, R s1 s2 ->
     fst (flatMapM g (fst (f a s1)) s2) = fst (f a s1) /\
     R (snd (f a s1)) (snd (flatMapM g (fst (f a s1)) s2))) ->
  forall l s1 s2, R s1 s2 ->
    fst (flatMapM g (fst (flatMapM f l s1)) s2) = fst (flatMapM f l s1) /\
    R (snd (flatMapM f l s1)) (snd (flatMapM g (fst (flatMapM f l s1)) s2)).
Proof.
  intros Hf l; induction l as [|a l IH]; intros s1 s2 HR; [split; [reflexivity | exact HR]|].
  rewrite (flatMapM_cons f); cbn [fst snd]. rewrite flatMapM_app; cbn [fst snd].
  destruct (Hf a s1 s2 HR) as [-> HR']. destruct (IH _ _ HR') as [-> HR''].
  split; [reflexivity | exact HR''].
Qed.

(** ** Exceptions

    A call that can throw returns a [Result]: the value, or what was
    thrown. *)

Inductive Result (E A : Type) : Type :=
| Ok (a : A)
| Throw (e : E).
Arguments Ok {E A} _.
Arguments Throw {E A} _.

Definition rbind {E A B} (r : Result E A) (k : A -> Result E B) : Result E B :=
  match r with Ok a => k a | Throw e => Throw e end.

Definition isOk {E A} (r : Result E A) : bool :=
  match r with Ok _ => true | Throw _ => false end.

(** A loop over a list whose body can throw: what was emitted before the
    exception was emitted, and the loop ends with the exception. *)
Fixpoint flatMapR {E S A B} (f : A -> S -> Result E (list B * S)) (l : list A) (s : S)
  : list B * Result E S :=
  match l with
  | [] => ([], Ok s)
  | x :: l' =>
      match f x s with
      | Throw e => ([], Throw e)
      | Ok (out, s1) => let (out', r) := flatMapR f l' s1 in (out ++ out', r)
      end
  end.

Section FlatMapR.
Context {E S A B : Type} (f : A -> S -> Result E (list B * S)).

Lemma flatMapR_cons_ok (x : A) (l : list A) (s s1 : S) (out : list B) :
  f x s = Ok (out, s1) ->
  flatMapR f (x :: l) s = (out ++ fst (flatMapR f l s1), snd (flatMapR f l s1)).
Proof. intros E1; cbn. rewrite E1. destruct (flatMapR f l s1); reflexivity. Qed.

Lemma flatMapR_cons_throw (x : A) (l : list A) (s : S) (e : E) :
  f x s = Throw e -> flatMapR f (x :: l) s = ([], Throw e).
Proof. intros E1; cbn. rewrite E1. reflexivity. Qed.

(** A loop that did not throw on a prefix goes on from where the prefix
    left it. *)
Lemma flatMapR_app_ok (l1 l2 : list A) (s s1 : S) (out : list B) :
  flatMapR f l1 s = (out, Ok s1) ->
  flatMapR f (l1 ++ l2) s = (out ++ fst (flatMapR f l2 s1), snd (flatMapR f l2 s1)).
Proof.
  revert s out; induction l1 as [|x l1 IH]; intros s out; cbn.
  - intros [= <- <-]. destruct (flatMapR f l2 s); reflexivity.
  - destruct (f x s) as [[o s']|e]; [|discriminate].
    destruct (flatMapR f l1 s') as [o' r] eqn:E1. intros [= <- ->].
    rewrite (IH s' o' E1), app_assoc. reflexivity.
Qed.

(** The last step of a loop that did not throw. *)
Lemma flatMapR_snoc (l : list A) (x : A) (s s1 s2 : S) (out o : list B) :
  flatMapR f l s = (out, Ok s1) -> f x s1 = Ok (o, s2) ->
  flatMapR f (l ++ [x]) s = (out ++ o, Ok s2).
Proof.
  intros E1 E2. rewrite (flatMapR_app_ok _ _ _ _ _ E1). cbn. rewrite E2.
  cbn. rewrite app_nil_r. reflexivity.
Qed.

Lemma flatMapR_snoc_inv (l : list A) (x : A) (s s2 : S) (out : list B) :
  flatMapR f (l ++ [x]) s = (out, Ok s2) ->
  exists out1 s1 o,
    flatMapR f l s = (out1, Ok s1) /\ f x s1 = Ok (o, s2) /\ out = out1 ++ o.
Proof.
  revert s out; induction l as [|a l IH]; intros s out; cbn.
  - destruct (f x s) as [[o s1]|] eqn:E1; [|discriminate]. intros [= <- <-].
    exists [], s, o. rewrite app_nil_r. auto.
  - destruct (f a s) as [[o1 s1]|]; [|discriminate].
    destruct (flatMapR f (l ++ [x]) s1) as [o' r] eqn:E3. intros [= <- ->].
    apply IH in E3 as (out1 & s1' & o & -> & E2 & ->).
    exists (o1 ++ out1), s1', o. rewrite app_assoc. auto.
Qed.

(** A property of the emitted elements that every call ensures, from
    the states of an invariant, holds of all that is emitted, thrown or
    not. *)
Lemma flatMapR_Forall (I : S -> Prop) (P : B -> Prop) (l : list A) (s : S) :
  (forall x s' out s'', I s' -> f x s' = Ok (out, s'') -> I s'' /\ Forall P out) ->
  I s -> Forall P (fst (flatMapR f l s)).
Proof.
  intros Hf; revert s; induction l as [|x l IH]; intros s Hs; cbn; [constructor|].
  destruct (f x s) as [[out s1]|e] eqn:E1; [|constructor].
  destruct (Hf _ _ _ _ Hs E1) as [Hs1 Hout]. specialize (IH s1 Hs1).
  destruct (flatMapR f l s1); cbn in *. apply Forall_app; auto.
Qed.

(** An invariant of the state that every call that returns keeps holds
    of the state the loop returns. *)
Lemma flatMapR_invariant (I : S -> Prop) (l : list A) (s s' : S) :
  (forall x s0 out s1, I s0 -> f x s0 = Ok (out, s1) -> I s1) ->
  I s -> snd (flatMapR f l s) = Ok s' -> I s'.
Proof.
  intros Hf; revert s; induction l as [|x l IH]; intros s Hs; cbn.
  - intros [= <-]; exact Hs.
  - destruct (f x s) as [[out s1]|e] eqn:E1; [|discriminate].
    specialize (IH s1 (Hf _ _ _ _ Hs E1)).
    destruct (flatMapR f l s1); cbn in *. exact IH.
Qed.

End FlatMapR.

(** A loop whose body, on the elements of the list and from the states of
    an invariant, returns its element and keeps the invariant, returns
    the list. *)
Lemma flatMapR_identity {E S A} (f : A -> S -> Result E (list A * S))
    (Q : A -> Prop) (I : S -> Prop) (l : list A) (s : S) :
  (forall x s', Q x -> I s' -> exists s'', f x s' = Ok ([x], s'') /\ I s'') ->
  Forall Q l -> I s -> exists s', flatMapR f l s = (l, Ok s') /\ I s'.
Proof.
  intros Hf Hl; revert s; induction Hl as [|x l Hx _ IH]; intros s Hs; [eauto|].
  destruct (Hf x s Hx Hs) as (s1 & E1 & Hs1). destruct (IH s1 Hs1) as (s2 & E2 & Hs2).
  exists s2. rewrite (flatMapR_cons_ok _ _ _ _ _ _ E1), E2. auto.
Qed.

(** Two loops in a row, the first of which returned. *)
Lemma flatMapR_then {E S A B} (f : A -> S -> Result E (list B * S))
    (l1 l2 : list A) (s s1 : S) (out1 out2 : list B) (r : Result E S) :
  flatMapR f l1 s = (out1, Ok s1) -> flatMapR f l2 s1 = (out2, r) ->
  flatMapR f (l1 ++ l2) s = (out1 ++ out2, r).
Proof. intros E1 E2. rewrite (flatMapR_app_ok _ _ _ _ _ _ E1), E2. reflexivity. Qed.

(** A stream made of units, each of which the loop turns into its own
    output from the states of an invariant that it keeps: the loop turns
    the stream into the outputs of the units, in order. *)
Lemma flatMapR_units {E S A B T} (f : A -> S -> Result E (list B * S))
    (parts : T -> list A) (outs : T -> list B) (Q : T -> Prop) (I : S -> Prop)
    (ts : list T) (s : S) :
  (forall t s', Q t -> I s' ->
     exists s'', flatMapR f (parts t) s' = (outs t, Ok s'') /\ I s'') ->
  Forall Q ts -> I s ->
  exists s', flatMapR f (flat_map parts ts) s = (flat_map outs ts, Ok s') /\ I s'.
Proof.
  intros Hf Hts; revert s; induction Hts as [|t ts Ht _ IH]; intros s Hs; [eauto|].
  destruct (Hf t s Ht Hs) as (s1 & E1 & Hs1). destruct (IH s1 Hs1) as (s2 & E2 & Hs2).
  exists s2. split; [|exact Hs2]. cbn [flat_map]. eapply flatMapR_then; eassumption.
Qed.

(** ** Boolean list functions

    JavaScript's [Array.prototype.filter], [some] and [map] take boolean
    callbacks: they are [List.filter], [existsb] and [map]. *)

Section BoolLists.
Context {A : Type}.

Lemma filter_true (l : list A) : List.filter (fun _ => true) l = l.
Proof. induction l; cbn; congruence. Qed.

Lemma filter_false (l : list A) : List.filter (fun _ => false) l = [].
Proof. induction l; cbn; congruence. Qed.

Lemma filter_all (p : A -> bool) (l : list A) :
  Forall (fun x => p x = true) l -> List.filter p l = l.
Proof. induction 1 as [|x l Hx _ IH]; cbn; [|rewrite Hx, IH]; reflexivity. Qed.

Lemma filter_none (p : A -> bool) (l : list A) :
  Forall (fun x => p x = false) l -> List.filter p l = [].
Proof. induction 1 as [|x l Hx _ IH]; cbn; [|rewrite Hx, IH]; reflexivity. Qed.

Lemma filter_sublist (p : A -> bool) (l : list A) : sublist (List.filter p l) l.
Proof.
  induction l as [|x l IH]; cbn; [constructor|].
  destruct (p x); [apply sublist_skip | apply sublist_cons]; exact IH.
Qed.

Lemma filter_idem (p : A -> bool) (l : list A) :
  List.filter p (List.filter p l) = List.filter p l.
Proof.
  induction l as [|x l IH]; cbn; [reflexivity|].
  destruct (p x) eqn:E; cbn; rewrite ?E, IH; reflexivity.
Qed.

Lemma existsb_false_iff (p : A -> bool) (l : list A) :
  existsb p l = false <-> Forall (fun x => p x = false) l.
Proof.
  induction l as [|x l IH]; cbn; [split; [constructor | reflexivity]|].
  rewrite orb_false_iff, IH, Forall_cons; reflexivity.
Qed.
(** A map that fixes every element of a list fixes the list. *)
Lemma map_fixed (f : A -> A) (l : list A) : Forall (fun x => f x = x) l -> map f l = l.
Proof. induction 1 as [|x l Hx _ IH]; cbn; congruence. Qed.

End BoolLists.

#[export] Hint Rewrite @filter_true @filter_false @filter_idem : flow.
#[export] Hint Rewrite app_nil_r app_nil_l : flow.
#[export] Hint Resolve blen_nonneg : flow.

(** [implb_rel a b]: [a] implies [b], as a relation on booleans for
    [Proper] statements about predicates. *)
Definition implb_rel (a b : bool) : Prop := implb a b = true.

#[export] Instance implb_rel_preorder : PreOrder implb_rel.
Proof. split; [intros []; reflexivity | intros [] [] []; cbv; congruence]. Qed.

Lemma implb_rel_true (a b : bool) : implb_rel a b <-> (a = true -> b = true).
Proof. unfold implb_rel; destruct a, b; cbn; intuition congruence. Qed.

(** ** Tactics *)

(** [flow_unfold] exposes the monadic plumbing of a goal. *)
Ltac flow_unfold := autounfold with flow in *; cbn in *.

(** [case_if] splits on the first boolean test of the goal and keeps the
    equation. *)
Ltac case_if :=
  match goal with
  | |- context [if ?b then _ else _] =>
      let E := fresh "E" in destruct b eqn:E
  end.

