(* ===== verification/Base.v ===== *)
(** * Base: constants and tag predicates of [base.js]

    The byte-level contracts every stage shares: the indeterminate-length
    sentinel, the file-meta-information group, the group-length tag pattern
    and the encoded delimitation items.  [base.js] is not among the sources;
    the definitions follow the specification's section on external
    interfaces and the DICOM encoding of the two delimitation tags
    (FFFE,E0DD) and (FFFE,E00D). *)

From S2P Require Import Prelude.

(** A tag is the 32-bit number [group * 2^16 + element]. *)
Abbreviation Tag := Z.

(** [0xFFFFFFFF] in the length field means "closed by a delimitation". *)
Definition indeterminateLength : Z := 0xFFFFFFFF.

(** Element number zero within its group. *)
Definition isGroupLength (tag : Tag) : bool := Z.land tag 0xFFFF =? 0.

(** Group number [0x0002]. *)
Definition isFileMetaInformation (tag : Tag) : bool := Z.shiftr tag 16 =? 0x0002.

(** The eight bytes of a sequence delimitation item: tag (FFFE,E0DD) in
    the stream's byte order and a zero length. *)
Definition sequenceDelimitation (bigEndian : bool) : Bytes :=
  if bigEndian
  then [xff; xfe; xe0; xdd; x00; x00; x00; x00]
  else [xfe; xff; xdd; xe0; x00; x00; x00; x00].

(** The eight bytes of an item delimitation item: tag (FFFE,E00D). *)
Definition itemDelimitation (bigEndian : bool) : Bytes :=
  if bigEndian
  then [xff; xfe; xe0; x0d; x00; x00; x00; x00]
  else [xfe; xff; x0d; xe0; x00; x00; x00; x00].

(** ** Facts *)

Lemma isGroupLength_spec (tag : Tag) :
  isGroupLength tag = true <-> tag mod 2 ^ 16 = 0.
Proof.
  unfold isGroupLength. rewrite Z.eqb_eq.
  change 0xFFFF with (Z.ones 16). rewrite Z.land_ones by lia. reflexivity.
Qed.

Lemma isFileMetaInformation_spec (tag : Tag) :
  isFileMetaInformation tag = true <-> 0x00020000 <= tag < 0x00030000.
Proof.
  unfold isFileMetaInformation. rewrite Z.eqb_eq, Z.shiftr_div_pow2 by lia.
  change (2 ^ 16) with 65536. split; intros H.
  - pose proof (Z.div_mod tag 65536 ltac:(lia)).
    pose proof (Z.mod_pos_bound tag 65536 ltac:(lia)). lia.
  - symmetry; apply (Z.div_unique tag 65536 2 (tag - 131072)); lia.
Qed.

(** A tag of the form [group * 2^16 + element] with 16-bit parts is a
    group length iff [element = 0] and file meta information iff
    [group = 2]. *)
Lemma isGroupLength_make (group element : Z) :
  0 <= element < 2 ^ 16 ->
  isGroupLength (group * 2 ^ 16 + element) = (element =? 0).
Proof.
  intros H. unfold isGroupLength. change 0xFFFF with (Z.ones 16).
  rewrite Z.land_ones by lia.
  rewrite Z.add_comm, Z.mod_add by lia. rewrite Z.mod_small by lia. reflexivity.
Qed.

Lemma isFileMetaInformation_make (group element : Z) :
  0 <= element < 2 ^ 16 ->
  isFileMetaInformation (group * 2 ^ 16 + element) = (group =? 2).
Proof.
  intros H. unfold isFileMetaInformation. rewrite Z.shiftr_div_pow2 by lia.
  rewrite Z.add_comm, Z.div_add by lia. rewrite Z.div_small by lia. reflexivity.
Qed.

Lemma sequenceDelimitation_length (bigEndian : bool) :
  blen (sequenceDelimitation bigEndian) = 8.
Proof. destruct bigEndian; reflexivity. Qed.

Lemma itemDelimitation_length (bigEndian : bool) :
  blen (itemDelimitation bigEndian) = 8.
Proof. destruct bigEndian; reflexivity. Qed.

Lemma sequenceDelimitation_not_nil (bigEndian : bool) :
  sequenceDelimitation bigEndian <> [].
Proof. destruct bigEndian; discriminate. Qed.

Lemma itemDelimitation_not_nil (bigEndian : bool) :
  itemDelimitation bigEndian <> [].
Proof. destruct bigEndian; discriminate. Qed.

(** The two delimitation items differ, whatever the byte order of each. *)
Lemma delimitations_differ (b1 b2 : bool) :
  sequenceDelimitation b1 <> itemDelimitation b2.
Proof. destruct b1, b2; discriminate. Qed.

#[export] Hint Rewrite sequenceDelimitation_length itemDelimitation_length : flow.
#[export] Hint Resolve sequenceDelimitation_not_nil itemDelimitation_not_nil : flow.
