(* ===== verification/Parts.v ===== *)
(** * Parts: the structural events that flow through every stage

    [Part] is the tagged union of [parts.js] with the fields the
    specification's data model lists; the constructors take their
    arguments in the order [dicom-flows.js] passes them
    ([new SequencePart(tag, length, bigEndian, explicitVR, bytes)] and so
    on).  The accessors model the property reads of [dicom-flows.js]
    ([part.bytes], [part.tag], [p.indeterminate], ...): a property a part
    kind does not have reads as a default, as such reads only occur behind
    an [instanceof] test or in a handler that the dispatch calls with its
    own kind. *)

From S2P Require Import Prelude Base.

Inductive Part : Type :=
| HeaderPart (tag : Tag) (vr : Z) (length : Z) (isFmi bigEndian explicitVR : bool)
    (bytes : Bytes)
| ValueChunk (bytes : Bytes) (last : bool)
| SequencePart (tag : Tag) (length : Z) (bigEndian explicitVR : bool) (bytes : Bytes)
| SequenceDelimitationPart (bigEndian : bool) (bytes : Bytes)
| ItemPart (index : Z) (length : Z) (bigEndian : bool) (bytes : Bytes)
| ItemDelimitationPart (index : Z) (bigEndian : bool) (bytes : Bytes)
| DeflatedChunk (bigEndian : bool) (bytes : Bytes).

#[export] Instance Part_eq_decision : EqDecision Part.
Proof. solve_decision. Defined.

(** ** Property reads *)

Definition partBytes (p : Part) : Bytes :=
  match p with
  | HeaderPart _ _ _ _ _ _ b | ValueChunk b _ | SequencePart _ _ _ _ b
  | SequenceDelimitationPart _ b | ItemPart _ _ _ b | ItemDelimitationPart _ _ b
  | DeflatedChunk _ b => b
  end.

Definition partTag (p : Part) : Tag :=
  match p with
  | HeaderPart t _ _ _ _ _ _ | SequencePart t _ _ _ _ => t
  | _ => 0
  end.

Definition partLength (p : Part) : Z :=
  match p with
  | HeaderPart _ _ l _ _ _ _ | SequencePart _ l _ _ _ | ItemPart _ l _ _ => l
  | _ => 0
  end.

Definition partIndex (p : Part) : Z :=
  match p with
  | ItemPart i _ _ _ | ItemDelimitationPart i _ _ => i
  | _ => 0
  end.

Definition partBigEndian (p : Part) : bool :=
  match p with
  | HeaderPart _ _ _ _ be _ _ | SequencePart _ _ be _ _
  | SequenceDelimitationPart be _ | ItemPart _ _ be _ | ItemDelimitationPart _ be _
  | DeflatedChunk be _ => be
  | ValueChunk _ _ => false
  end.

Definition partExplicitVR (p : Part) : bool :=
  match p with
  | HeaderPart _ _ _ _ _ e _ | SequencePart _ _ _ e _ => e
  | _ => false
  end.

Definition partIsFmi (p : Part) : bool :=
  match p with
  | HeaderPart _ _ _ fmi _ _ _ => fmi
  | _ => false
  end.

(** [length == sentinel] iff [indeterminate]: the flag of a sequence or an
    item is derived from its length.  The handlers read the flag
    ([p.indeterminate], lines 90 and 111 of [dicom-flows.js]); that it
    is this function of the length is the invariant the specification
    gives for [parts.js], which is not among the sources. *)
Definition indeterminate (p : Part) : bool :=
  match p with
  | SequencePart _ l _ _ _ | ItemPart _ l _ _ => l =? indeterminateLength
  | _ => false
  end.

(** ** [instanceof] tests *)

Definition isHeaderPart (p : Part) : bool :=
  match p with HeaderPart _ _ _ _ _ _ _ => true | _ => false end.
Definition isValueChunk (p : Part) : bool :=
  match p with ValueChunk _ _ => true | _ => false end.
Definition isSequencePart (p : Part) : bool :=
  match p with SequencePart _ _ _ _ _ => true | _ => false end.
Definition isSequenceDelimitationPart (p : Part) : bool :=
  match p with SequenceDelimitationPart _ _ => true | _ => false end.
Definition isItemPart (p : Part) : bool :=
  match p with ItemPart _ _ _ _ => true | _ => false end.
Definition isItemDelimitationPart (p : Part) : bool :=
  match p with ItemDelimitationPart _ _ _ => true | _ => false end.
Definition isDeflatedChunk (p : Part) : bool :=
  match p with DeflatedChunk _ _ => true | _ => false end.

(** The bytes of a part stream, in order: what re-serialisation writes. *)
Definition streamBytes (ps : list Part) : Bytes := flat_map partBytes ps.

(** ** Facts *)

Lemma streamBytes_app (ps qs : list Part) :
  streamBytes (ps ++ qs) = streamBytes ps ++ streamBytes qs.
Proof. apply flat_map_app. Qed.

Lemma streamBytes_cons (p : Part) (ps : list Part) :
  streamBytes (p :: ps) = partBytes p ++ streamBytes ps.
Proof. reflexivity. Qed.

Lemma streamBytes_empty (ps : list Part) :
  Forall (fun p => partBytes p = []) ps -> streamBytes ps = [].
Proof.
  induction 1 as [|p ps Hp _ IH]; [reflexivity|].
  rewrite streamBytes_cons, Hp, IH; reflexivity.
Qed.

Lemma indeterminate_length (p : Part) :
  indeterminate p = true -> partLength p = indeterminateLength.
Proof. destruct p; cbn; try discriminate; apply Z.eqb_eq. Qed.

Lemma indeterminate_kind (p : Part) :
  indeterminate p = true -> isSequencePart p || isItemPart p = true.
Proof. destruct p; cbn; congruence. Qed.

#[export] Hint Rewrite streamBytes_app streamBytes_cons : flow.
