(* ===== verification/TagPath.v ===== *)
(** * TagPath: the nesting address of the part being processed

    [tag-path.js] is not among the sources.  What [dicom-flows.js] uses of
    a tag path is small: the two relations [isTrunkOf] and [hasTrunk], the
    tag of the current step ([tag()]) and the distinguished empty path.

    - [TrunkOrder] is that interface with the laws the specification
      gives the relations (an ancestor-or-equal order on step sequences);
      the filters' keep conditions are defined and proved against it.
    - [Step], [TagPath] and [stepsTrunkOf] are the model of the
      specification's data model: a path is a sequence of steps, each a
      bare tag or a (sequence tag, item index) pair, and a trunk is a
      prefix of the step sequence.  The instance [TagPath_TrunkOrder]
      discharges the interface.

    The path is stored as the program's object is linked: the current step
    first, each step pointing at the [previous()] one.  [rev] gives the
    step sequence from the root, so a trunk is a suffix of the stored
    list. *)

From S2P Require Import Prelude Base.

(** ** The interface *)

Class TrunkOrder (P : Type) : Type := {
  (** [a.isTrunkOf(b)]: [a] is an ancestor of, or equal to, [b]. *)
  isTrunkOf : P -> P -> bool;
  (** [a.hasTrunk(b)]: the inverse relation. *)
  hasTrunk : P -> P -> bool;
  hasTrunk_inverse : forall a b, hasTrunk a b = isTrunkOf b a;
  isTrunkOf_refl : forall a, isTrunkOf a a = true;
  isTrunkOf_trans : forall a b c,
    isTrunkOf a b = true -> isTrunkOf b c = true -> isTrunkOf a c = true;
  (** Two trunks of one path are comparable: the ancestors of a path form
      a chain. *)
  isTrunkOf_comparable : forall a b c,
    isTrunkOf a c = true -> isTrunkOf b c = true ->
    isTrunkOf a b = true \/ isTrunkOf b a = true
}.

(** ** The model *)

Inductive Step : Type :=
| TagStep (tag : Tag)
| ItemStep (tag : Tag) (item : Z).

#[export] Instance Step_eq_decision : EqDecision Step.
Proof. solve_decision. Defined.

Abbreviation TagPath := (list Step).

(** "No element context yet". *)
Definition emptyTagPath : TagPath := [].

(** [path.tag()]: the tag of the current step.  The empty path has none;
    the bit tests the callers apply read a missing tag as zero. *)
Definition pathTag (p : TagPath) : Tag :=
  match p with
  | [] => 0
  | TagStep t :: _ | ItemStep t _ :: _ => t
  end.

(** The step sequence of [a] is a prefix of that of [b]. *)
Definition stepsTrunkOf (a b : TagPath) : bool := bool_decide (a `suffix_of` b).

Section Steps.
Implicit Types a b c : TagPath.

Lemma stepsTrunkOf_true a b : stepsTrunkOf a b = true <-> a `suffix_of` b.
Proof. apply bool_decide_eq_true. Qed.

Lemma stepsTrunkOf_false a b : stepsTrunkOf a b = false <-> ~ a `suffix_of` b.
Proof. apply bool_decide_eq_false. Qed.

(** The specification's wording: the step sequence of [a], read from the
    root, is a prefix of that of [b]. *)
Lemma stepsTrunkOf_prefix a b : stepsTrunkOf a b = true <-> rev a `prefix_of` rev b.
Proof.
  rewrite stepsTrunkOf_true, suffix_prefix_reverse. unfold reverse.
  rewrite <- !rev_alt. reflexivity.
Qed.

Lemma stepsTrunkOf_refl a : stepsTrunkOf a a = true.
Proof. apply stepsTrunkOf_true; reflexivity. Qed.

Lemma stepsTrunkOf_trans a b c :
  stepsTrunkOf a b = true -> stepsTrunkOf b c = true -> stepsTrunkOf a c = true.
Proof. rewrite !stepsTrunkOf_true; intros; etrans; eassumption. Qed.

Lemma stepsTrunkOf_comparable a b c :
  stepsTrunkOf a c = true -> stepsTrunkOf b c = true ->
  stepsTrunkOf a b = true \/ stepsTrunkOf b a = true.
Proof. rewrite !stepsTrunkOf_true; apply suffix_weak_total. Qed.

End Steps.

#[export] Instance TagPath_TrunkOrder : TrunkOrder TagPath := {
  isTrunkOf := stepsTrunkOf;
  hasTrunk a b := stepsTrunkOf b a;
  hasTrunk_inverse _ _ := eq_refl;
  isTrunkOf_refl := stepsTrunkOf_refl;
  isTrunkOf_trans := stepsTrunkOf_trans;
  isTrunkOf_comparable := stepsTrunkOf_comparable
}.

(** ** Facts of the model, beyond the interface *)

Section Model.
Implicit Types a b c : TagPath.

Lemma isTrunkOf_suffix a b : isTrunkOf a b = true <-> a `suffix_of` b.
Proof. apply stepsTrunkOf_true. Qed.

Lemma isTrunkOf_antisym a b :
  isTrunkOf a b = true -> isTrunkOf b a = true -> a = b.
Proof. rewrite !isTrunkOf_suffix; intros; apply (anti_symm suffix); assumption. Qed.

Lemma emptyTagPath_isTrunkOf b : isTrunkOf emptyTagPath b = true.
Proof. apply isTrunkOf_suffix, suffix_nil. Qed.

Lemma isTrunkOf_empty a : isTrunkOf a emptyTagPath = true -> a = emptyTagPath.
Proof. rewrite isTrunkOf_suffix; apply suffix_nil_inv. Qed.

(** Going one step deeper keeps every trunk. *)
Lemma isTrunkOf_step a b (s : Step) :
  isTrunkOf a b = true -> isTrunkOf a (s :: b) = true.
Proof. rewrite !isTrunkOf_suffix; apply suffix_cons_r. Qed.

Lemma isTrunkOf_cons a b (s : Step) :
  isTrunkOf a (s :: b) = bool_decide (a = s :: b) || isTrunkOf a b.
Proof.
  apply eq_true_iff_eq.
  rewrite orb_true_iff, bool_decide_eq_true, !isTrunkOf_suffix.
  split.
  - intros H. destruct a as [|x a]; [right; apply suffix_nil|].
    apply suffix_cons_inv in H; tauto.
  - intros [->|H]; [reflexivity | apply suffix_cons_r, H].
Qed.

Lemma isTrunkOf_depth a b : isTrunkOf a b = true -> (length a <= length b)%nat.
Proof. rewrite isTrunkOf_suffix; apply suffix_length. Qed.

End Model.

(** ** Facts of the interface *)

Section Order.
Context {P : Type} `{TrunkOrder P}.

(** The trunk order is a preorder on paths. *)
#[export] Instance isTrunkOf_preorder : PreOrder (fun a b : P => isTrunkOf a b = true).
Proof.
  split; [intros a; apply isTrunkOf_refl | intros a b c; apply isTrunkOf_trans].
Qed.

Lemma hasTrunk_true (a b : P) : hasTrunk a b = true <-> isTrunkOf b a = true.
Proof. rewrite hasTrunk_inverse; reflexivity. Qed.

End Order.

#[export] Hint Rewrite @hasTrunk_inverse : flow.
#[export] Hint Resolve isTrunkOf_refl isTrunkOf_step emptyTagPath_isTrunkOf : flow.
