(* ===== verification/DicomFlow.v ===== *)
(** * DicomFlow: the stage contract and the capability layers

    [dicom-flow.js] is not among the sources; this file models it from the
    specification's section on the stage contract, in the shape
    [dicom-flows.js] uses it: a flow class has one handler per part kind
    and [onPart]; a capability layer is a mixin, a function from a class to
    the class that extends it; handlers call [super] (the class below) and
    [this] (the object being built, whatever class finally extends the
    chain).

    - [Flow] is the method table of an object, [FlowClass] a class: its
      constructor and its methods with [this] abstracted.
    - [IdentityFlow] and [DeferToPartFlow] are the two base classes.
    - [InFragments], [GroupLengthWarnings], [GuaranteedValueEvent],
      [GuaranteedDelimitationEvents] and [TagPathTracking] are the layers.
    - [bindThis] ties [this] to the finished class, by unrolling: a handler
      reaches [this] through at most [thisDepth] nested calls, which the
      stability lemmas of each concrete stage establish.
    - [create] turns a class into a [Stage]: the initial state its
      constructor builds and [accept], the dispatch on the part kind.
    - [run] feeds a finite stream through a stage; [pipe] chains two
      stages.

    All fields of all layers live in one record, [FlowState]; a class only
    touches the fields of the layers it is built from. *)

From S2P Require Import Prelude Base Parts TagPath.

(** ** The dictionary collaborator

    Which header opens a fragment sequence is decided by the tag
    dictionary, an injected predicate. *)

Class Dictionary : Type := { fragmentBearing : Tag -> bool }.

(** ** State *)

Record FlowState : Type := mkFlowState {
  inFragments : bool;            (* InFragments *)
  silent : bool;                 (* GroupLengthWarnings *)
  warnLog : list Tag;            (* tags warned about, oldest first *)
  partStack : list (Part * Z);   (* GuaranteedDelimitationEvents: open scopes, innermost first *)
  tagPath : TagPath;             (* TagPathTracking *)
  keeping : bool;                (* the filters *)
  indeterminateBytes : Bytes     (* toIndeterminateLengthSequences *)
}.

#[export] Instance FlowState_eq_decision : EqDecision FlowState.
Proof. solve_decision. Defined.

Definition set_inFragments (b : bool) (s : FlowState) : FlowState :=
  mkFlowState b (silent s) (warnLog s) (partStack s) (tagPath s) (keeping s)
    (indeterminateBytes s).
Definition set_silent (b : bool) (s : FlowState) : FlowState :=
  mkFlowState (inFragments s) b (warnLog s) (partStack s) (tagPath s) (keeping s)
    (indeterminateBytes s).
Definition set_warnLog (l : list Tag) (s : FlowState) : FlowState :=
  mkFlowState (inFragments s) (silent s) l (partStack s) (tagPath s) (keeping s)
    (indeterminateBytes s).
Definition set_partStack (l : list (Part * Z)) (s : FlowState) : FlowState :=
  mkFlowState (inFragments s) (silent s) (warnLog s) l (tagPath s) (keeping s)
    (indeterminateBytes s).
Definition set_tagPath (p : TagPath) (s : FlowState) : FlowState :=
  mkFlowState (inFragments s) (silent s) (warnLog s) (partStack s) p (keeping s)
    (indeterminateBytes s).
Definition set_keeping (b : bool) (s : FlowState) : FlowState :=
  mkFlowState (inFragments s) (silent s) (warnLog s) (partStack s) (tagPath s) b
    (indeterminateBytes s).
Definition set_indeterminateBytes (b : Bytes) (s : FlowState) : FlowState :=
  mkFlowState (inFragments s) (silent s) (warnLog s) (partStack s) (tagPath s)
    (keeping s) b.

(** The object before any constructor ran: a field not yet assigned reads
    as false, or as empty. *)
Definition rawObject : FlowState := mkFlowState false false [] [] emptyTagPath false [].

(** ** Method tables and classes *)

Definition Handler : Type := Part -> State FlowState (list Part).

Record Flow : Type := mkFlow {
  onHeader : Handler;
  onValueChunk : Handler;
  onSequence : Handler;
  onSequenceDelimitation : Handler;
  onItem : Handler;
  onItemDelimitation : Handler;
  onDeflatedChunk : Handler;
  onPart : Handler
}.

Record FlowClass : Type := mkClass {
  construct : FlowState -> FlowState;
  methods : Flow -> Flow
}.

Definition with_onHeader (h : Handler) (f : Flow) : Flow :=
  mkFlow h (onValueChunk f) (onSequence f) (onSequenceDelimitation f) (onItem f)
    (onItemDelimitation f) (onDeflatedChunk f) (onPart f).
Definition with_onValueChunk (h : Handler) (f : Flow) : Flow :=
  mkFlow (onHeader f) h (onSequence f) (onSequenceDelimitation f) (onItem f)
    (onItemDelimitation f) (onDeflatedChunk f) (onPart f).
Definition with_onSequence (h : Handler) (f : Flow) : Flow :=
  mkFlow (onHeader f) (onValueChunk f) h (onSequenceDelimitation f) (onItem f)
    (onItemDelimitation f) (onDeflatedChunk f) (onPart f).
Definition with_onSequenceDelimitation (h : Handler) (f : Flow) : Flow :=
  mkFlow (onHeader f) (onValueChunk f) (onSequence f) h (onItem f)
    (onItemDelimitation f) (onDeflatedChunk f) (onPart f).
Definition with_onItem (h : Handler) (f : Flow) : Flow :=
  mkFlow (onHeader f) (onValueChunk f) (onSequence f) (onSequenceDelimitation f) h
    (onItemDelimitation f) (onDeflatedChunk f) (onPart f).
Definition with_onItemDelimitation (h : Handler) (f : Flow) : Flow :=
  mkFlow (onHeader f) (onValueChunk f) (onSequence f) (onSequenceDelimitation f) (onItem f)
    h (onDeflatedChunk f) (onPart f).
Definition with_onPart (h : Handler) (f : Flow) : Flow :=
  mkFlow (onHeader f) (onValueChunk f) (onSequence f) (onSequenceDelimitation f) (onItem f)
    (onItemDelimitation f) (onDeflatedChunk f) h.

(** ** Base classes *)

(** Every handler passes its part through. *)
Definition IdentityFlow : FlowClass :=
  let pass : Handler := fun p => sret [p] in
  mkClass (fun s => s) (fun _ => mkFlow pass pass pass pass pass pass pass pass).

(** Every handler defers to [this.onPart]; a class that extends it
    supplies [onPart]. *)
Definition DeferToPartFlow : FlowClass :=
  mkClass (fun s => s)
    (fun this =>
       let defer : Handler := fun p => onPart this p in
       mkFlow defer defer defer defer defer defer defer (fun p => sret [p])).

(** ** InFragments *)

(** The header that opens a fragment sequence: indeterminate length and a
    fragment-bearing tag. *)
Definition isFragments `{Dictionary} (p : Part) : bool :=
  isHeaderPart p && (partLength p =? indeterminateLength) && fragmentBearing (partTag p).

(** Seeing that header sets the flag. *)
Definition enterFragments `{Dictionary} (part : Part) (s : FlowState) : FlowState :=
  if isFragments part then set_inFragments true s else s.

Definition InFragments `{Dictionary} (Super : FlowClass) : FlowClass :=
  mkClass
    (fun s => set_inFragments false (construct Super s))
    (fun this =>
       let sup := methods Super this in
       with_onHeader
         (fun part => smodify (enterFragments part) ;; onHeader sup part)
         (with_onSequenceDelimitation
            (fun part =>
               smodify (set_inFragments false) ;;
               onSequenceDelimitation sup part)
            sup)).

(** ** GroupLengthWarnings *)

Definition warnsGroupLength (part : Part) (s : FlowState) : bool :=
  negb (silent s) && isGroupLength (partTag part)
  && negb (isFileMetaInformation (partTag part)).

(** The warning is logged; the part is not touched. *)
Definition noteGroupLength (part : Part) (s : FlowState) : FlowState :=
  if warnsGroupLength part s then set_warnLog (warnLog s ++ [partTag part]) s else s.

Definition GroupLengthWarnings (Super : FlowClass) : FlowClass :=
  mkClass
    (fun s => set_silent false (construct Super s))
    (fun this =>
       let sup := methods Super this in
       with_onHeader (fun part => smodify (noteGroupLength part) ;; onHeader sup part)
         (with_onSequence
            (fun part => smodify (noteGroupLength part) ;; onSequence sup part) sup)).

(** ** GuaranteedValueEvent *)

(** The synthesized value event of an element of length zero. *)
Definition valueChunkMarker : Part := ValueChunk [] true.

Definition GuaranteedValueEvent (Super : FlowClass) : FlowClass :=
  mkClass
    (construct Super)
    (fun this =>
       let sup := methods Super this in
       with_onHeader
         (fun part =>
            let* out := onHeader sup part in
            let* vs :=
              if partLength part =? 0 then onValueChunk this valueChunkMarker
              else sret [] in
            sret (out ++ vs))
         sup).

(** ** GuaranteedDelimitationEvents *)

(** A synthesized delimitation carries no bytes. *)
Definition isDelimitationMarker (p : Part) : bool :=
  (isSequenceDelimitationPart p || isItemDelimitationPart p)
  && bool_decide (partBytes p = []).

(** The bytes of [part] are consumed from every open scope of determinate
    length. *)
Definition subtractLength (part : Part) (stack : list (Part * Z)) : list (Part * Z) :=
  map (fun e => if indeterminate (fst e) then e
                else (fst e, snd e - blen (partBytes part))) stack.

(** A scope of determinate length whose bytes are used up. *)
Definition expired (e : Part * Z) : bool :=
  negb (indeterminate (fst e)) && (snd e <=? 0).

(** Close the expired scopes, innermost first: each gets a delimitation
    event with no bytes, delivered to the object's own handler. *)
Definition maybeDelimit (this : Flow) : State FlowState (list Part) :=
  let* s := sget in
  smodify (set_partStack (List.filter (fun e => negb (expired e)) (partStack s))) ;;
  flatMapM
    (fun e =>
       if isItemPart (fst e)
       then onItemDelimitation this (ItemDelimitationPart (partIndex (fst e)) false [])
       else onSequenceDelimitation this (SequenceDelimitationPart false []))
    (List.filter expired (partStack s)).

(** The three things a part does to the stack of open scopes. *)
Definition consume (part : Part) (s : FlowState) : FlowState :=
  set_partStack (subtractLength part (partStack s)) s.

Definition pushScope (part : Part) (s : FlowState) : FlowState :=
  set_partStack ((part, partLength part) :: subtractLength part (partStack s)) s.

Definition popScope (guard : FlowState -> bool) (part : Part) (s : FlowState) : FlowState :=
  if negb (isDelimitationMarker part) && guard s
  then set_partStack (tail (partStack s)) s else s.

Definition subtractAndEmit (this : Flow) (handle : Handler) (part : Part)
  : State FlowState (list Part) :=
  smodify (consume part) ;;
  let* out := handle part in
  let* ds := maybeDelimit this in
  sret (out ++ ds).

(** A scope is opened: it joins the stack with its declared length. *)
Definition openScope (this : Flow) (handle : Handler) (part : Part)
  : State FlowState (list Part) :=
  smodify (pushScope part) ;;
  let* out := handle part in
  let* ds := maybeDelimit this in
  sret (out ++ ds).

(** A delimitation that came with the stream closes the innermost scope;
    a synthesized one is delivered to the handlers below and does not
    leave the stage. *)
Definition closeScope (this : Flow) (handle : Handler) (guard : FlowState -> bool)
    (part : Part) : State FlowState (list Part) :=
  smodify (popScope guard part) ;;
  subtractAndEmit this
    (fun p => let* out := handle p in
              sret (List.filter (fun d => negb (isDelimitationMarker d)) out))
    part.

Definition GuaranteedDelimitationEvents (Super : FlowClass) : FlowClass :=
  mkClass
    (fun s => set_partStack [] (construct Super s))
    (fun this =>
       let sup := methods Super this in
       mkFlow
         (subtractAndEmit this (onHeader sup))
         (subtractAndEmit this (onValueChunk sup))
         (openScope this (onSequence sup))
         (closeScope this (onSequenceDelimitation sup) (fun s => negb (inFragments s)))
         (fun part s =>
            if inFragments s then subtractAndEmit this (onItem sup) part s
            else openScope this (onItem sup) part s)
         (closeScope this (onItemDelimitation sup) (fun _ => true))
         (subtractAndEmit this (onDeflatedChunk sup))
         (onPart sup)).

(** ** TagPathTracking *)

(** A new element at the current level: it replaces the element before
    it, or is the first of the item just opened. *)
Definition thenElement (tag : Tag) (t : TagPath) : TagPath :=
  match t with
  | ItemStep _ _ :: _ => TagStep tag :: t
  | _ => TagStep tag :: tail t
  end.

(** An item of the sequence at the current step. *)
Definition thenItem (index : Z) (t : TagPath) : TagPath :=
  match t with
  | [] => []
  | _ => ItemStep (pathTag t) index :: tail t
  end.

(** Back to the item from the last element inside it; a delimitation
    with no item to close leaves the path alone. *)
Definition thenItemEnd (t : TagPath) : TagPath :=
  match t with
  | ItemStep _ _ :: _ => t
  | _ :: (ItemStep _ _ :: _) as prev => prev
  | _ => t
  end.

(** Back to the sequence element from its last item. *)
Definition thenSequenceEnd (t : TagPath) : TagPath :=
  match t with
  | [] => []
  | _ => TagStep (pathTag t) :: tail t
  end.

Definition TagPathTracking (Super : FlowClass) : FlowClass :=
  let move (f : FlowState -> TagPath) : State FlowState unit :=
    smodify (fun s => set_tagPath (f s) s) in
  mkClass
    (fun s => set_tagPath emptyTagPath (construct Super s))
    (fun this =>
       let sup := methods Super this in
       mkFlow
         (fun part =>
            move (fun s => thenElement (partTag part) (tagPath s)) ;; onHeader sup part)
         (onValueChunk sup)
         (fun part =>
            move (fun s => thenElement (partTag part) (tagPath s)) ;; onSequence sup part)
         (fun part =>
            move (fun s => if inFragments s then tagPath s
                           else thenSequenceEnd (tagPath s)) ;;
            onSequenceDelimitation sup part)
         (fun part =>
            move (fun s => if inFragments s then tagPath s
                           else thenItem (partIndex part) (tagPath s)) ;;
            onItem sup part)
         (fun part =>
            move (fun s => thenItemEnd (tagPath s)) ;; onItemDelimitation sup part)
         (onDeflatedChunk sup)
         (onPart sup)).

(** ** Objects and stages *)

(** The method table no call should reach: it answers nothing. *)
Definition stuckFlow : Flow :=
  let stuck : Handler := fun _ => sret [] in
  mkFlow stuck stuck stuck stuck stuck stuck stuck stuck.

(** [this] bound to the class itself, [fuel] calls deep. *)
Fixpoint bindThis (fuel : nat) (C : FlowClass) : Flow :=
  match fuel with
  | O => stuckFlow
  | S n => methods C (bindThis n C)
  end.

(** Nested calls through [this] that a handler of the layers above can
    make: header, synthesized value or delimitation, [onPart]; one more
    for the delimitations that a delimitation's own bytes trigger. *)
Definition thisDepth : nat := 4.

(** The dispatch on the part kind. *)
Definition handlePart (f : Flow) (part : Part) : State FlowState (list Part) :=
  match part with
  | HeaderPart _ _ _ _ _ _ _ => onHeader f part
  | ValueChunk _ _ => onValueChunk f part
  | SequencePart _ _ _ _ _ => onSequence f part
  | SequenceDelimitationPart _ _ => onSequenceDelimitation f part
  | ItemPart _ _ _ _ => onItem f part
  | ItemDelimitationPart _ _ _ => onItemDelimitation f part
  | DeflatedChunk _ _ => onDeflatedChunk f part
  end.

(** A stage: private state and one operation, [accept]. *)
Record Stage (S : Type) : Type := mkStage {
  initial : S;
  accept : Part -> State S (list Part)
}.
Arguments mkStage {S} _ _.
Arguments initial {S} _.
Arguments accept {S} _ _ _.

Definition create (C : FlowClass) : Stage FlowState :=
  mkStage (construct C rawObject) (handlePart (bindThis thisDepth C)).

(** The parts a stage emits for a finite stream, from a given state and
    from its initial state. *)
Definition runFrom {S} (st : Stage S) (ps : list Part) (s : S) : list Part * S :=
  flatMapM (accept st) ps s.

Definition run {S} (st : Stage S) (ps : list Part) : list Part :=
  fst (runFrom st ps (initial st)).

(** Chaining: what the first stage emits is what the second accepts. *)
Definition pipe {S1 S2} (a : Stage S1) (b : Stage S2) : Stage (S1 * S2) :=
  mkStage (initial a, initial b)
    (fun part s =>
       let (out1, s1) := accept a part (fst s) in
       let (out2, s2) := flatMapM (accept b) out1 (snd s) in
       (out2, (s1, s2))).

(** ** Facts: running and chaining *)

#[export] Hint Unfold runFrom run : flow.

Section Running.
Context {S : Type} (st : Stage S).

Lemma runFrom_nil (s : S) : runFrom st [] s = ([], s).
Proof. reflexivity. Qed.

Lemma runFrom_cons (p : Part) (ps : list Part) (s : S) :
  runFrom st (p :: ps) s =
    (fst (accept st p s) ++ fst (runFrom st ps (snd (accept st p s))),
     snd (runFrom st ps (snd (accept st p s)))).
Proof. apply flatMapM_cons. Qed.

(** Processing is forward-only: what a stage emits for a stream followed
    by another is what it emits for the first, then what it emits for the
    second from the state the first left. *)
Lemma runFrom_app (ps qs : list Part) (s : S) :
  runFrom st (ps ++ qs) s =
    (fst (runFrom st ps s) ++ fst (runFrom st qs (snd (runFrom st ps s))),
     snd (runFrom st qs (snd (runFrom st ps s)))).
Proof. apply flatMapM_app. Qed.

Lemma run_prefix (ps qs : list Part) : run st ps `prefix_of` run st (ps ++ qs).
Proof. unfold run. rewrite runFrom_app; cbn. apply prefix_app_r; reflexivity. Qed.

(** Invariants of the state and properties of the output, by induction on
    the stream. *)
Lemma runFrom_invariant (I : S -> Prop) (ps : list Part) (s : S) :
  (forall p s', I s' -> I (snd (accept st p s'))) ->
  I s -> I (snd (runFrom st ps s)).
Proof. apply flatMapM_invariant. Qed.

Lemma runFrom_Forall (I : S -> Prop) (P : Part -> Prop) (ps : list Part) (s : S) :
  (forall p s', I s' -> I (snd (accept st p s')) /\ Forall P (fst (accept st p s'))) ->
  I s -> Forall P (fst (runFrom st ps s)).
Proof. apply flatMapM_Forall. Qed.

(** Three shapes of per-part facts that lift to streams. *)
Lemma runFrom_silent (ps : list Part) (s : S) :
  (forall p s', fst (accept st p s') = []) -> fst (runFrom st ps s) = [].
Proof.
  intros H0; revert s; induction ps as [|p ps IH]; intros s; [reflexivity|].
  rewrite runFrom_cons; cbn. rewrite H0, IH. reflexivity.
Qed.

Lemma runFrom_bytes (I : S -> Prop) (ps : list Part) (s : S) :
  (forall p s', I s' ->
     I (snd (accept st p s')) /\ streamBytes (fst (accept st p s')) = partBytes p) ->
  I s -> streamBytes (fst (runFrom st ps s)) = streamBytes ps.
Proof.
  intros H0; revert s; induction ps as [|p ps IH]; intros s Hs; [reflexivity|].
  rewrite runFrom_cons; cbn [fst]. destruct (H0 p s Hs) as [Hs' Hb].
  rewrite streamBytes_app, Hb, (IH _ Hs'). reflexivity.
Qed.

Lemma runFrom_sublist (g : Part -> list Part) (ps : list Part) (s : S) :
  (forall p s', fst (accept st p s') `sublist_of` g p) ->
  fst (runFrom st ps s) `sublist_of` flat_map g ps.
Proof.
  intros H0; revert s; induction ps as [|p ps IH]; intros s; [constructor|].
  rewrite runFrom_cons; cbn. apply sublist_app; auto.
Qed.

End Running.

(** Two stages whose states are related by [R] and whose [accept]s agree
    on related states and keep them related emit the same stream. *)
Lemma runFrom_simulation {S1 S2} (a : Stage S1) (b : Stage S2) (R : S1 -> S2 -> Prop)
    (ps : list Part) (s1 : S1) (s2 : S2) :
  (forall p x y, R x y ->
     fst (accept a p x) = fst (accept b p y) /\
     R (snd (accept a p x)) (snd (accept b p y))) ->
  R s1 s2 ->
  fst (runFrom a ps s1) = fst (runFrom b ps s2) /\
  R (snd (runFrom a ps s1)) (snd (runFrom b ps s2)).
Proof.
  intros H; revert s1 s2; induction ps as [|p ps IH]; intros s1 s2 HR; [auto|].
  rewrite !runFrom_cons; cbn. destruct (H p s1 s2 HR) as [-> HR'].
  destruct (IH _ _ HR') as [-> HR'']; auto.
Qed.

(** A chain emits what its second stage emits for the output of the
    first. *)
Lemma runFrom_pipe {S1 S2} (a : Stage S1) (b : Stage S2) (ps : list Part)
    (s1 : S1) (s2 : S2) :
  fst (runFrom (pipe a b) ps (s1, s2)) = fst (runFrom b (fst (runFrom a ps s1)) s2) /\
  snd (runFrom (pipe a b) ps (s1, s2)) =
    (snd (runFrom a ps s1), snd (runFrom b (fst (runFrom a ps s1)) s2)).
Proof.
  revert s1 s2; induction ps as [|p ps IH]; intros s1 s2; [auto|].
  rewrite (runFrom_cons (pipe a b)), (runFrom_cons a).
  cbn [pipe accept fst snd].
  destruct (accept a p s1) as [out1 s1'] eqn:Ea; cbn [fst snd].
  rewrite (runFrom_app b).
  change (flatMapM (accept b) out1 s2) with (runFrom b out1 s2).
  destruct (runFrom b out1 s2) as [out2 s2']; cbn [fst snd].
  destruct (IH s1' s2') as [-> ->]. auto.
Qed.

Lemma run_pipe {S1 S2} (a : Stage S1) (b : Stage S2) (ps : list Part) :
  run (pipe a b) ps = run b (run a ps).
Proof. unfold run; cbn [pipe initial]. apply runFrom_pipe. Qed.

(** ** Tactics for the class plumbing *)

(** [flow_compute] resolves the method tables of a created stage down to
    the handler bodies, leaving the state effects and the delimitation
    machinery folded. *)
Ltac flow_compute :=
  cbv beta iota zeta delta
    [create accept initial thisDepth bindThis methods construct handlePart
     IdentityFlow DeferToPartFlow InFragments GroupLengthWarnings
     GuaranteedValueEvent GuaranteedDelimitationEvents TagPathTracking
     with_onHeader with_onValueChunk with_onSequence with_onSequenceDelimitation
     with_onItem with_onItemDelimitation with_onPart
     onHeader onValueChunk onSequence onSequenceDelimitation onItem
     onItemDelimitation onDeflatedChunk onPart stuckFlow
     sbind sret smodify sget sgets].

(** ** Facts: the state effects of the layers *)

Section Effects.
Context `{Dictionary}.

Lemma noteGroupLength_frame (part : Part) (s : FlowState) :
  inFragments (noteGroupLength part s) = inFragments s /\
  silent (noteGroupLength part s) = silent s /\
  partStack (noteGroupLength part s) = partStack s /\
  tagPath (noteGroupLength part s) = tagPath s /\
  keeping (noteGroupLength part s) = keeping s /\
  indeterminateBytes (noteGroupLength part s) = indeterminateBytes s.
Proof. unfold noteGroupLength; destruct (warnsGroupLength part s); cbn; auto 10. Qed.

Lemma noteGroupLength_silent (part : Part) (s : FlowState) :
  silent s = true -> noteGroupLength part s = s.
Proof. unfold noteGroupLength, warnsGroupLength; intros ->; reflexivity. Qed.

(** The header of a fragment sequence declares the indeterminate
    length. *)
Lemma isFragments_length (part : Part) :
  isFragments part = true -> (partLength part =? 0) = false.
Proof.
  unfold isFragments. intros Hp. apply andb_true_iff in Hp as [Hp _].
  apply andb_true_iff in Hp as [_ Hp]. apply Z.eqb_eq in Hp. rewrite Hp. reflexivity.
Qed.

Lemma enterFragments_frame (part : Part) (s : FlowState) :
  silent (enterFragments part s) = silent s /\
  warnLog (enterFragments part s) = warnLog s /\
  partStack (enterFragments part s) = partStack s /\
  tagPath (enterFragments part s) = tagPath s /\
  keeping (enterFragments part s) = keeping s /\
  indeterminateBytes (enterFragments part s) = indeterminateBytes s.
Proof. unfold enterFragments; destruct (isFragments part); cbn; auto 10. Qed.

Lemma isFragments_header (part : Part) :
  isFragments part = true -> isHeaderPart part = true.
Proof. unfold isFragments; intros H0; repeat (apply andb_true_iff in H0 as [H0 _]); exact H0. Qed.

End Effects.

(** ** Facts: tag-path moves *)

Lemma thenElement_tag (tag : Tag) (t : TagPath) : pathTag (thenElement tag t) = tag.
Proof. destruct t as [|[]]; reflexivity. Qed.

Lemma thenElement_not_empty (tag : Tag) (t : TagPath) : thenElement tag t <> emptyTagPath.
Proof. destruct t as [|[]]; discriminate. Qed.

Lemma thenItem_not_empty (index : Z) (t : TagPath) :
  t <> emptyTagPath -> thenItem index t <> emptyTagPath.
Proof. unfold emptyTagPath; destruct t; cbn; congruence. Qed.

Lemma thenItemEnd_not_empty (t : TagPath) :
  t <> emptyTagPath -> thenItemEnd t <> emptyTagPath.
Proof. unfold emptyTagPath; destruct t as [|[] [|[] ?]]; cbn; congruence. Qed.

Lemma thenSequenceEnd_not_empty (t : TagPath) :
  t <> emptyTagPath -> thenSequenceEnd t <> emptyTagPath.
Proof. unfold emptyTagPath; destruct t; cbn; congruence. Qed.

Lemma thenItem_tag (index : Z) (t : TagPath) : pathTag (thenItem index t) = pathTag t.
Proof. destruct t as [|[]]; reflexivity. Qed.

Lemma thenSequenceEnd_tag (t : TagPath) : pathTag (thenSequenceEnd t) = pathTag t.
Proof. destruct t as [|[]]; reflexivity. Qed.

(** Moving within a level keeps the depth; opening an item's first
    element adds a step; leaving the last element of an item removes
    one. *)
Lemma thenItem_depth (index : Z) (t : TagPath) : length (thenItem index t) = length t.
Proof. destruct t; reflexivity. Qed.

Lemma thenSequenceEnd_depth (t : TagPath) : length (thenSequenceEnd t) = length t.
Proof. destruct t; reflexivity. Qed.

Lemma thenSequenceEnd_idem (t : TagPath) :
  thenSequenceEnd (thenSequenceEnd t) = thenSequenceEnd t.
Proof. destruct t as [|[]]; reflexivity. Qed.

Lemma thenItemEnd_idem (t : TagPath) : thenItemEnd (thenItemEnd t) = thenItemEnd t.
Proof. destruct t as [|[] [|[] ?]]; reflexivity. Qed.

(** The enclosing levels are never rewritten: an element, an item or an
    end keeps every step above the current one. *)
Lemma thenElement_previous (tag : Tag) (t : TagPath) :
  tail (thenElement tag t) = match t with ItemStep _ _ :: _ => t | _ => tail t end.
Proof. destruct t as [|[]]; reflexivity. Qed.

#[export] Hint Resolve thenElement_not_empty thenItem_not_empty thenItemEnd_not_empty
  thenSequenceEnd_not_empty : flow.
#[export] Hint Rewrite thenElement_tag thenItem_tag thenSequenceEnd_tag : flow.

(** ** Facts: the delimitation machinery *)

(** No open scope is used up. *)
Definition quiet (s : FlowState) : Prop :=
  Forall (fun e => expired e = false) (partStack s).

(** The delimitation events the object's own handlers answer with, for
    the scopes that expired in [s]. *)
Definition deliver (emitItem : Z -> State FlowState (list Part))
    (emitSequence : State FlowState (list Part)) (e : Part * Z)
  : State FlowState (list Part) :=
  if isItemPart (fst e) then emitItem (partIndex (fst e)) else emitSequence.

Definition delimitWith (emitItem : Z -> State FlowState (list Part))
    (emitSequence : State FlowState (list Part)) : State FlowState (list Part) :=
  fun s =>
    flatMapM (deliver emitItem emitSequence) (List.filter expired (partStack s))
      (set_partStack (List.filter (fun e => negb (expired e)) (partStack s)) s).

Section Delimitation.

Lemma set_partStack_same (s : FlowState) : set_partStack (partStack s) s = s.
Proof. destruct s; reflexivity. Qed.

Lemma set_tagPath_same (s : FlowState) : set_tagPath (tagPath s) s = s.
Proof. destruct s; reflexivity. Qed.

Lemma quiet_filter (l : list (Part * Z)) (s : FlowState) :
  quiet (set_partStack (List.filter (fun e => negb (expired e)) l) s).
Proof.
  unfold quiet; cbn. apply Forall_forall; intros e He.
  apply list_elem_of_In, filter_In in He as [_ He].
  destruct (expired e); [discriminate | reflexivity].
Qed.

Lemma quiet_filter_expired (s : FlowState) :
  quiet s -> List.filter expired (partStack s) = [].
Proof. apply filter_none. Qed.

Lemma quiet_filter_live (s : FlowState) :
  quiet s -> List.filter (fun e => negb (expired e)) (partStack s) = partStack s.
Proof.
  intros Hq; apply filter_all. eapply Forall_impl; [exact Hq|].
  cbn; intros e ->; reflexivity.
Qed.

(** With no expired scope nothing is delimited, whatever [this] is. *)
Lemma maybeDelimit_quiet (this : Flow) (s : FlowState) :
  quiet s -> maybeDelimit this s = ([], s).
Proof.
  intros Hq. unfold maybeDelimit; flow_compute.
  rewrite quiet_filter_expired, quiet_filter_live, set_partStack_same by assumption.
  reflexivity.
Qed.

(** A part without bytes consumes nothing. *)
Lemma subtractLength_empty (part : Part) (stack : list (Part * Z)) :
  partBytes part = [] -> subtractLength part stack = stack.
Proof.
  intros E; unfold subtractLength; rewrite E; cbn.
  induction stack as [|[q n] stack IH]; cbn; [reflexivity|].
  rewrite IH, Z.sub_0_r. destruct (indeterminate q); reflexivity.
Qed.

Lemma isDelimitationMarker_bytes (part : Part) :
  isDelimitationMarker part = true -> partBytes part = [].
Proof.
  unfold isDelimitationMarker; intros E. apply andb_true_iff in E as [_ E].
  apply bool_decide_eq_true in E; exact E.
Qed.

Lemma isDelimitationMarker_not (part : Part) :
  partBytes part <> [] -> isDelimitationMarker part = false.
Proof.
  intros Hb. destruct (isDelimitationMarker part) eqn:E; [|reflexivity].
  apply isDelimitationMarker_bytes in E. contradiction.
Qed.

(** Once the object's delimitation handlers are known on quiet states,
    [maybeDelimit] is the loop over the expired scopes with them. *)
Lemma maybeDelimit_resolved (this : Flow)
    (emitItem : Z -> State FlowState (list Part))
    (emitSequence : State FlowState (list Part)) (s : FlowState) :
  (forall i s', quiet s' ->
     onItemDelimitation this (ItemDelimitationPart i false []) s' = emitItem i s' /\
     quiet (snd (emitItem i s'))) ->
  (forall s', quiet s' ->
     onSequenceDelimitation this (SequenceDelimitationPart false []) s' = emitSequence s' /\
     quiet (snd (emitSequence s'))) ->
  maybeDelimit this s = delimitWith emitItem emitSequence s.
Proof.
  intros HI HS. unfold maybeDelimit, delimitWith; flow_compute.
  apply (flatMapM_ext_inv _ _ quiet); [|apply quiet_filter].
  intros e s' Hq; unfold deliver. destruct (isItemPart (fst e)); auto.
Qed.

Lemma delimitWith_quiet (emitItem : Z -> State FlowState (list Part))
    (emitSequence : State FlowState (list Part)) (s : FlowState) :
  (forall i s', quiet s' -> quiet (snd (emitItem i s'))) ->
  (forall s', quiet s' -> quiet (snd (emitSequence s'))) ->
  quiet (snd (delimitWith emitItem emitSequence s)).
Proof.
  intros HI HS. unfold delimitWith.
  apply flatMapM_invariant; [|apply quiet_filter].
  intros e s' Hq; unfold deliver. destruct (isItemPart (fst e)); auto.
Qed.

End Delimitation.

#[export] Hint Resolve quiet_filter : flow.

Arguments subtractLength : simpl never.
Arguments maybeDelimit : simpl never.
Arguments consume : simpl never.
Arguments pushScope : simpl never.
Arguments popScope : simpl never.
Arguments noteGroupLength : simpl never.
Arguments enterFragments : simpl never.
Arguments isDelimitationMarker : simpl never.

(** [quiet] only looks at the stack. *)
Lemma quiet_stack (s s' : FlowState) : partStack s' = partStack s -> quiet s -> quiet s'.
Proof. unfold quiet; intros ->; auto. Qed.

Lemma consume_empty (part : Part) (s : FlowState) :
  partBytes part = [] -> consume part s = s.
Proof.
  intros E; unfold consume. rewrite subtractLength_empty by exact E.
  apply set_partStack_same.
Qed.

Lemma popScope_marker (guard : FlowState -> bool) (part : Part) (s : FlowState) :
  isDelimitationMarker part = true -> popScope guard part s = s.
Proof. unfold popScope; intros ->; reflexivity. Qed.

Lemma delimitWith_quiet_id (emitItem : Z -> State FlowState (list Part))
    (emitSequence : State FlowState (list Part)) (s : FlowState) :
  quiet s -> delimitWith emitItem emitSequence s = ([], s).
Proof.
  intros Hq; unfold delimitWith.
  rewrite quiet_filter_expired, quiet_filter_live, set_partStack_same by assumption.
  reflexivity.
Qed.

#[export] Hint Rewrite consume_empty popScope_marker using (reflexivity || assumption) : flow.

(** *** The combinators, unfolded once *)

Lemma subtractAndEmit_eq (this : Flow) (handle : Handler) (part : Part) (s : FlowState) :
  subtractAndEmit this handle part s =
    (fst (handle part (consume part s)) ++
       fst (maybeDelimit this (snd (handle part (consume part s)))),
     snd (maybeDelimit this (snd (handle part (consume part s))))).
Proof.
  unfold subtractAndEmit, sbind, smodify, sret.
  destruct (handle part (consume part s)) as [out s1]; cbn.
  destruct (maybeDelimit this s1); reflexivity.
Qed.

Lemma openScope_eq (this : Flow) (handle : Handler) (part : Part) (s : FlowState) :
  openScope this handle part s =
    (fst (handle part (pushScope part s)) ++
       fst (maybeDelimit this (snd (handle part (pushScope part s)))),
     snd (maybeDelimit this (snd (handle part (pushScope part s))))).
Proof.
  unfold openScope, sbind, smodify, sret.
  destruct (handle part (pushScope part s)) as [out s1]; cbn.
  destruct (maybeDelimit this s1); reflexivity.
Qed.

Lemma closeScope_eq (this : Flow) (handle : Handler) (guard : FlowState -> bool)
    (part : Part) (s : FlowState) :
  closeScope this handle guard part s =
    let s0 := consume part (popScope guard part s) in
    (List.filter (fun d => negb (isDelimitationMarker d)) (fst (handle part s0)) ++
       fst (maybeDelimit this (snd (handle part s0))),
     snd (maybeDelimit this (snd (handle part s0)))).
Proof.
  unfold closeScope, sbind, smodify, sret. rewrite subtractAndEmit_eq.
  cbv zeta. destruct (handle part (consume part (popScope guard part s))); reflexivity.
Qed.

(** A synthesized delimitation, delivered when no scope is expired, is
    answered by the handler below alone: nothing is popped, consumed or
    delimited, and the marker itself is not emitted. *)
Lemma closeScope_marker (this : Flow) (handle : Handler) (guard : FlowState -> bool)
    (part : Part) (s : FlowState) :
  isDelimitationMarker part = true -> quiet s ->
  (forall s, partStack (snd (handle part s)) = partStack s) ->
  closeScope this handle guard part s =
    (List.filter (fun d => negb (isDelimitationMarker d)) (fst (handle part s)),
     snd (handle part s)).
Proof.
  intros Hm Hq Hs. rewrite closeScope_eq; cbv zeta.
  rewrite popScope_marker, consume_empty by auto using isDelimitationMarker_bytes.
  rewrite maybeDelimit_quiet, app_nil_r; [reflexivity|].
  revert Hq; apply quiet_stack, Hs.
Qed.

Arguments subtractAndEmit : simpl never.
Arguments openScope : simpl never.
Arguments closeScope : simpl never.

(** *** What each effect leaves alone *)

Section Frames.
Context `{Dictionary}.
Variables (part : Part) (s : FlowState).

Lemma consume_tagPath : tagPath (consume part s) = tagPath s.
Proof. reflexivity. Qed.
Lemma consume_inFragments : inFragments (consume part s) = inFragments s.
Proof. reflexivity. Qed.
Lemma pushScope_tagPath : tagPath (pushScope part s) = tagPath s.
Proof. reflexivity. Qed.
Lemma pushScope_inFragments : inFragments (pushScope part s) = inFragments s.
Proof. reflexivity. Qed.
Lemma popScope_tagPath (guard : FlowState -> bool) :
  tagPath (popScope guard part s) = tagPath s.
Proof. unfold popScope; case_if; reflexivity. Qed.
Lemma popScope_inFragments (guard : FlowState -> bool) :
  inFragments (popScope guard part s) = inFragments s.
Proof. unfold popScope; case_if; reflexivity. Qed.
Lemma noteGroupLength_tagPath : tagPath (noteGroupLength part s) = tagPath s.
Proof. apply noteGroupLength_frame. Qed.
Lemma noteGroupLength_inFragments : inFragments (noteGroupLength part s) = inFragments s.
Proof. apply noteGroupLength_frame. Qed.
Lemma noteGroupLength_partStack : partStack (noteGroupLength part s) = partStack s.
Proof. apply noteGroupLength_frame. Qed.
Lemma enterFragments_tagPath : tagPath (enterFragments part s) = tagPath s.
Proof. apply enterFragments_frame. Qed.
Lemma enterFragments_partStack : partStack (enterFragments part s) = partStack s.
Proof. apply enterFragments_frame. Qed.

Lemma noteGroupLength_keeping : keeping (noteGroupLength part s) = keeping s.
Proof. apply noteGroupLength_frame. Qed.
Lemma noteGroupLength_silence : silent (noteGroupLength part s) = silent s.
Proof. apply noteGroupLength_frame. Qed.
Lemma enterFragments_keeping : keeping (enterFragments part s) = keeping s.
Proof. apply enterFragments_frame. Qed.
Lemma enterFragments_silent : silent (enterFragments part s) = silent s.
Proof. apply enterFragments_frame. Qed.
Lemma enterFragments_warnLog : warnLog (enterFragments part s) = warnLog s.
Proof. apply enterFragments_frame. Qed.
Lemma popScope_keeping (guard : FlowState -> bool) :
  keeping (popScope guard part s) = keeping s.
Proof. unfold popScope; case_if; reflexivity. Qed.
Lemma popScope_silent (guard : FlowState -> bool) :
  silent (popScope guard part s) = silent s.
Proof. unfold popScope; case_if; reflexivity. Qed.
Lemma popScope_warnLog (guard : FlowState -> bool) :
  warnLog (popScope guard part s) = warnLog s.
Proof. unfold popScope; case_if; reflexivity. Qed.

Lemma consume_indeterminateBytes :
  indeterminateBytes (consume part s) = indeterminateBytes s.
Proof. reflexivity. Qed.
Lemma pushScope_indeterminateBytes :
  indeterminateBytes (pushScope part s) = indeterminateBytes s.
Proof. reflexivity. Qed.
Lemma popScope_indeterminateBytes (guard : FlowState -> bool) :
  indeterminateBytes (popScope guard part s) = indeterminateBytes s.
Proof. unfold popScope; case_if; reflexivity. Qed.
Lemma enterFragments_indeterminateBytes :
  indeterminateBytes (enterFragments part s) = indeterminateBytes s.
Proof. apply enterFragments_frame. Qed.
Lemma consume_keeping : keeping (consume part s) = keeping s.
Proof. reflexivity. Qed.
Lemma pushScope_keeping : keeping (pushScope part s) = keeping s.
Proof. reflexivity. Qed.

End Frames.

#[export] Hint Rewrite @consume_tagPath @consume_inFragments @pushScope_tagPath
  @pushScope_inFragments @popScope_tagPath @popScope_inFragments
  @noteGroupLength_tagPath @noteGroupLength_inFragments @noteGroupLength_partStack
  @enterFragments_tagPath @enterFragments_partStack
  @noteGroupLength_keeping @noteGroupLength_silence @enterFragments_keeping
  @enterFragments_silent @enterFragments_warnLog @popScope_keeping @popScope_silent
  @popScope_warnLog @consume_indeterminateBytes @pushScope_indeterminateBytes
  @popScope_indeterminateBytes @enterFragments_indeterminateBytes
  @consume_keeping @pushScope_keeping : flow.

(** [flow_frames] pushes the field reads of a goal through the setters
    and the layer effects. *)
Ltac flow_frames :=
  repeat first
    [ progress cbn [inFragments silent warnLog partStack tagPath keeping
                    indeterminateBytes
                    set_inFragments set_silent set_warnLog set_partStack
                    set_tagPath set_keeping set_indeterminateBytes fst snd]
    | progress (autorewrite with flow) ].
