(* ===== verification/Fixtures.v ===== *)
(** * Fixtures: the concrete parts and paths the witnesses run on

    The byte arrays are those of [test/element-flows-test.ts]; the parts
    are what the tokenizer makes of them (explicit VR, little endian).
    The dictionary is the standard one: Pixel Data (7FE0,0010) is the
    fragment-bearing tag. *)

From S2P Require Import Prelude Base Parts TagPath DicomFlow.

(** ** Tags *)

Definition Tag_StudyDate : Tag := 0x00080020.
Definition Tag_DerivationCodeSequence : Tag := 0x00089215.
Definition Tag_PatientName : Tag := 0x00100010.
Definition Tag_PixelData : Tag := 0x7FE00010.
Definition Tag_FileMetaInformationGroupLength : Tag := 0x00020000.
Definition Tag_TransferSyntaxUID : Tag := 0x00020010.
Definition Tag_ImplementationVersionName : Tag := 0x00020013.

#[export] Instance standardDictionary : Dictionary :=
  {| fragmentBearing := fun tag => tag =? Tag_PixelData |}.

(** ** Value representations, as their two characters *)

Definition VR_DA : Z := 0x4441.
Definition VR_PN : Z := 0x504E.
Definition VR_OB : Z := 0x4F42.
Definition VR_UI : Z := 0x5549.
Definition VR_UL : Z := 0x554C.
Definition VR_SH : Z := 0x5348.

(** ** Parts *)

(** [Buffer.from([8, 0, 32, 0, 68, 65, 0, 0])]: a Study Date of length
    zero. *)
Definition studyDateEmpty_bytes : Bytes := [x08; x00; x20; x00; x44; x41; x00; x00].

Definition studyDateEmpty : Part :=
  HeaderPart Tag_StudyDate VR_DA 0 false false true studyDateEmpty_bytes.

(** Patient Name "John^Doe": header and value. *)
Definition patientNameHeader : Part :=
  HeaderPart Tag_PatientName VR_PN 8 false false true
    [x10; x00; x10; x00; x50; x4e; x08; x00].

Definition johnDoe : Bytes := [x4a; x6f; x68; x6e; x5e; x44; x6f; x65].

Definition patientNameValue : Part := ValueChunk johnDoe true.

(** [item(4)] and the two fragments of the fragment tests. *)
Definition item4 (index : Z) : Part :=
  ItemPart index 4 false [xfe; xff; x00; xe0; x04; x00; x00; x00].

Definition fragment1 : Bytes := [x01; x02; x03; x04].
Definition fragment2 : Bytes := [x05; x06; x07; x08].

(** Pixel Data announcing fragments: indeterminate length. *)
Definition pixelDataFragments : Part :=
  HeaderPart Tag_PixelData VR_OB indeterminateLength false false true
    [xe0; x7f; x10; x00; x4f; x42; x00; x00; xff; xff; xff; xff].

(** [sequence(Tag.DerivationCodeSequence, 24)] and [item(16)]: a sequence
    and an item of determinate length. *)
Definition derivationSequence24 : Part :=
  SequencePart Tag_DerivationCodeSequence 24 false true
    [x08; x00; x15; x92; x53; x51; x00; x00; x18; x00; x00; x00].

Definition item16 : Part :=
  ItemPart 1 16 false [xfe; xff; x00; xe0; x10; x00; x00; x00].

(** The same two with indeterminate length, and their delimitations. *)
Definition derivationSequence : Part :=
  SequencePart Tag_DerivationCodeSequence indeterminateLength false true
    [x08; x00; x15; x92; x53; x51; x00; x00; xff; xff; xff; xff].

Definition item1 : Part :=
  ItemPart 1 indeterminateLength false [xfe; xff; x00; xe0; xff; xff; xff; xff].

Definition itemEnd1 : Part := ItemDelimitationPart 1 false (itemDelimitation false).

Definition sequenceEnd : Part := SequenceDelimitationPart false (sequenceDelimitation false).

(** A file-meta-information group length, and the transfer syntax
    header. *)
Definition fmiGroupLength : Part :=
  HeaderPart Tag_FileMetaInformationGroupLength VR_UL 4 true false true
    [x02; x00; x00; x00; x55; x4c; x04; x00].

Definition fmiGroupLengthValue : Part := ValueChunk [x36; x00; x00; x00] true.

Definition transferSyntaxHeader : Part :=
  HeaderPart Tag_TransferSyntaxUID VR_UI 20 true false true
    [x02; x00; x10; x00; x55; x49; x14; x00].

(** "1.2.840.10008.1.2.1" (Explicit VR Little Endian), padded with a zero
    byte to even length. *)
Definition explicitVRLittleEndian : Bytes :=
  [x31; x2e; x32; x2e; x38; x34; x30; x2e; x31; x30; x30; x30; x38; x2e;
   x31; x2e; x32; x2e; x31; x00].

Definition transferSyntaxValue : Part := ValueChunk explicitVRLittleEndian true.

Definition implementationVersionHeader : Part :=
  HeaderPart Tag_ImplementationVersionName VR_SH 2 true false true
    [x02; x00; x13; x00; x53; x48; x02; x00].

Definition implementationVersionValue : Part := ValueChunk [x76; x31] true.

(** ** Conditions *)

(** Keeps Patient Name and nothing else. *)
Definition onlyPatientName (p : Part) : bool := partTag p =? Tag_PatientName.

(** ** Paths *)

(** Patient Name inside item 1 of the Derivation Code Sequence, the item,
    and the sequence element. *)
Definition path_item1 : TagPath := [ItemStep Tag_DerivationCodeSequence 1].
Definition path_nameInItem1 : TagPath := TagStep Tag_PatientName :: path_item1.
Definition path_sequence : TagPath := [TagStep Tag_DerivationCodeSequence].
Definition path_patientName : TagPath := [TagStep Tag_PatientName].

(** ** Streams *)

(** Streams made of the data of [test/element-flows-test.ts]. *)
Definition stream_elements : list Part :=
  [patientNameHeader; patientNameValue; studyDateEmpty].

Definition stream_fragments : list Part :=
  [pixelDataFragments; item4 1; ValueChunk fragment1 true;
   item4 2; ValueChunk fragment2 true; sequenceEnd].

Definition stream_determinate : list Part :=
  [derivationSequence24; item16; patientNameHeader; patientNameValue].

Definition stream_indeterminate : list Part :=
  [derivationSequence; item1; patientNameHeader; patientNameValue; itemEnd1; sequenceEnd].

(** A file meta information group whose transfer syntax is followed by
    another element. *)
Definition stream_fmi : list Part :=
  [fmiGroupLength; fmiGroupLengthValue; transferSyntaxHeader; transferSyntaxValue;
   implementationVersionHeader; implementationVersionValue].
