(* ===== verification/Dataset.v ===== *)
(** * Dataset: the tree a part stream is the traversal of

    The stages work on a stream; what the stream encodes is a tree: a
    dataset is a list of nodes, a node is an element (its header and the
    chunks of its value) or a sequence (its header, its items, each with
    a dataset of its own, and the delimitations where the encoding has
    them).  This file is the abstract side of the refinement theorems of
    [RewriteDataset], [FilterDataset] and [HeaderDataset]: the tree, its
    traversal, its size in bytes, what makes it well formed, and the
    accounting of the stack of open scopes over a traversal.  It ends
    with the interface those theorems are instances of: [OnDatasets]
    says what a stage emits on the traversal of a dataset, [DatasetMap]
    that it emits the traversal of another dataset, and a chain of two
    stages has the instance made of theirs.

    - A scope of determinate length declares the size of its content and
      has no delimitation; a scope of indeterminate length declares the
      sentinel and ends with a delimitation that has its bytes.
    - Every part has at least one byte: headers and delimitations always
      do, and the chunks of a value are not empty.  The stages count
      bytes, so a part without bytes would arrive after the scope it ends
      was closed.
    - A fragment sequence (encapsulated pixel data) is a node without
      children: its header, then the items and the chunks of the
      fragments in a row, then its delimitation.  Its items are not
      scopes: the stages count their bytes and open nothing. *)

From S2P Require Import Prelude Base Parts TagPath DicomFlow Fixtures.

(** ** The tree *)

Inductive Node : Type :=
| ElementNode (header : Part) (chunks : list Part)
| FragmentsNode (header : Part) (fragments : list Part) (delimitation : Part)
| SequenceNode (sequence : Part) (items : Items) (delimitation : option Part)
with Items : Type :=
| NoItems
| ConsItem (item : Part) (body : Nodes) (delimitation : option Part) (rest : Items)
with Nodes : Type :=
| NoNodes
| ConsNode (node : Node) (rest : Nodes).

Scheme Node_mut := Induction for Node Sort Prop
with Items_mut := Induction for Items Sort Prop
with Nodes_mut := Induction for Nodes Sort Prop.

Combined Scheme Dataset_mutind from Node_mut, Items_mut, Nodes_mut.

(** ** The traversal *)

Fixpoint nodeParts (n : Node) : list Part :=
  match n with
  | ElementNode header chunks => header :: chunks
  | FragmentsNode header fragments delimitation => header :: fragments ++ [delimitation]
  | SequenceNode sequence items delimitation =>
      sequence :: itemsParts items ++ option_list delimitation
  end
with itemsParts (l : Items) : list Part :=
  match l with
  | NoItems => []
  | ConsItem item body delimitation rest =>
      (item :: nodesParts body ++ option_list delimitation) ++ itemsParts rest
  end
with nodesParts (l : Nodes) : list Part :=
  match l with
  | NoNodes => []
  | ConsNode node rest => nodeParts node ++ nodesParts rest
  end.

(** The size of a stream in bytes. *)
Definition size (ps : list Part) : Z := blen (streamBytes ps).

(** ** Well-formed trees *)

(** How a scope is closed: a determinate one by its length, the size of
    its content; an indeterminate one by a delimitation of its kind that
    came with bytes. *)
Definition scopeClosed (isDelimitation : Part -> bool) (scope : Part)
    (content : list Part) (delimitation : option Part) : Prop :=
  match delimitation with
  | None => indeterminate scope = false /\ partLength scope = size content
  | Some d =>
      indeterminate scope = true /\ isDelimitation d = true /\ partBytes d <> []
  end.

Section WellFormed.
Context `{Dictionary}.

Definition wfChunk (c : Part) : Prop := isValueChunk c = true /\ partBytes c <> [].

(** What lies between the header of a fragment sequence and its
    delimitation: the items of the fragments and the chunks of their
    bytes. *)
Definition wfFragment (p : Part) : Prop :=
  isItemPart p || isValueChunk p = true /\ partBytes p <> [].

Fixpoint wfNode (n : Node) : Prop :=
  match n with
  | ElementNode header chunks =>
      isHeaderPart header = true /\ isFragments header = false /\
      partBytes header <> [] /\ Forall wfChunk chunks
  | FragmentsNode header fragments delimitation =>
      isFragments header = true /\ partBytes header <> [] /\
      Forall wfFragment fragments /\
      isSequenceDelimitationPart delimitation = true /\ partBytes delimitation <> []
  | SequenceNode sequence items delimitation =>
      isSequencePart sequence = true /\ partBytes sequence <> [] /\ wfItems items /\
      scopeClosed isSequenceDelimitationPart sequence (itemsParts items) delimitation
  end
with wfItems (l : Items) : Prop :=
  match l with
  | NoItems => True
  | ConsItem item body delimitation rest =>
      isItemPart item = true /\ partBytes item <> [] /\ wfNodes body /\
      scopeClosed isItemDelimitationPart item (nodesParts body) delimitation /\
      wfItems rest
  end
with wfNodes (l : Nodes) : Prop :=
  match l with
  | NoNodes => True
  | ConsNode node rest => wfNode node /\ wfNodes rest
  end.

End WellFormed.

(** ** Sizes *)

Lemma size_nil : size [] = 0.
Proof. reflexivity. Qed.

Lemma size_app (ps qs : list Part) : size (ps ++ qs) = size ps + size qs.
Proof. unfold size. rewrite streamBytes_app, blen_app. reflexivity. Qed.

Lemma size_cons (p : Part) (ps : list Part) : size (p :: ps) = blen (partBytes p) + size ps.
Proof. unfold size. rewrite streamBytes_cons, blen_app. reflexivity. Qed.

Lemma size_nonneg (ps : list Part) : 0 <= size ps.
Proof. apply blen_nonneg. Qed.

Lemma blen_pos (b : Bytes) : b <> [] -> 0 < blen b.
Proof.
  intros Hb. destruct (Z_le_gt_dec (blen b) 0) as [Hle | Hgt]; [|lia].
  apply blen_nil_iff in Hle. contradiction.
Qed.

Lemma size_cons_pos (p : Part) (ps : list Part) : partBytes p <> [] -> 0 < size (p :: ps).
Proof.
  intros Hp. rewrite size_cons. pose proof (blen_pos _ Hp). pose proof (size_nonneg ps). lia.
Qed.

#[export] Hint Rewrite size_nil size_app size_cons : flow.

(** ** The stack of open scopes over a traversal *)

(** [n] bytes consumed from every open scope of determinate length. *)
Definition subtractBytes (n : Z) (stack : list (Part * Z)) : list (Part * Z) :=
  map (fun e => if indeterminate (fst e) then e else (fst e, snd e - n)) stack.

(** Every open scope of determinate length still has [n] bytes to
    come. *)
Definition owed (n : Z) (stack : list (Part * Z)) : Prop :=
  Forall (fun e => indeterminate (fst e) = false -> n <= snd e) stack.

Definition live (stack : list (Part * Z)) : list (Part * Z) :=
  List.filter (fun e => negb (expired e)) stack.

Section Accounting.
Implicit Types (stack : list (Part * Z)) (n m : Z).

Lemma subtractLength_bytes (part : Part) stack :
  subtractLength part stack = subtractBytes (blen (partBytes part)) stack.
Proof. reflexivity. Qed.

Lemma subtractBytes_cons n (e : Part * Z) stack :
  subtractBytes n (e :: stack) =
    (if indeterminate (fst e) then e else (fst e, snd e - n)) :: subtractBytes n stack.
Proof. reflexivity. Qed.

Lemma subtractBytes_0 stack : subtractBytes 0 stack = stack.
Proof.
  unfold subtractBytes. apply map_fixed, Forall_forall. intros [p k] _; cbn.
  rewrite Z.sub_0_r. destruct (indeterminate p); reflexivity.
Qed.

Lemma subtractBytes_add n m stack :
  subtractBytes m (subtractBytes n stack) = subtractBytes (n + m) stack.
Proof.
  unfold subtractBytes. rewrite map_map. apply map_ext. intros [p k]; cbn.
  destruct (indeterminate p) eqn:E; cbn; rewrite E; [reflexivity|]. f_equal. lia.
Qed.

(** While more is owed than is consumed nothing expires. *)
Lemma subtractBytes_quiet n m stack :
  owed m stack -> n < m -> Forall (fun e => expired e = false) (subtractBytes n stack).
Proof.
  intros Ho Hlt. unfold subtractBytes. apply Forall_map.
  eapply Forall_impl; [exact Ho|]. intros [p k]; cbn. unfold expired.
  destruct (indeterminate p) eqn:E; cbn; rewrite E; cbn; [reflexivity|].
  intros Hk. specialize (Hk eq_refl). apply Z.leb_gt. lia.
Qed.

Lemma subtractBytes_owed n m stack :
  owed (n + m) stack -> owed m (subtractBytes n stack).
Proof.
  intros Ho. unfold owed, subtractBytes. apply Forall_map.
  eapply Forall_impl; [exact Ho|]. intros [p k]; cbn.
  destruct (indeterminate p) eqn:E; cbn; rewrite E; [discriminate|].
  intros Hk _. specialize (Hk eq_refl). lia.
Qed.

Lemma owed_le n m stack : owed m stack -> n <= m -> owed n stack.
Proof.
  intros Ho Hle. eapply Forall_impl; [exact Ho|]. intros e He Hd.
  specialize (He Hd). lia.
Qed.

Lemma live_quiet stack : Forall (fun e => expired e = false) stack -> live stack = stack.
Proof.
  intros Hq. apply filter_all. eapply Forall_impl; [exact Hq|]. cbn; intros e ->; reflexivity.
Qed.

Lemma live_is_quiet stack : Forall (fun e => expired e = false) (live stack).
Proof.
  apply Forall_forall. intros e He.
  apply list_elem_of_In, filter_In in He as [_ He]. destruct (expired e); [discriminate|reflexivity].
Qed.

Lemma owed_live n stack : owed n stack -> owed n (live stack).
Proof.
  unfold owed, live. rewrite !Forall_forall. intros Ho e He. apply Ho.
  apply list_elem_of_In. apply list_elem_of_In, filter_In in He as [He _]. exact He.
Qed.

End Accounting.

(** ** The traversal of a well-formed tree

    A traversal that is not empty has bytes: it starts with a header. *)

Section Traversal.
Context `{Dictionary}.

Lemma nodeParts_pos (n : Node) : wfNode n -> 0 < size (nodeParts n).
Proof.
  destruct n; cbn [wfNode nodeParts].
  - intros (_ & _ & Hb & _). apply size_cons_pos, Hb.
  - intros (_ & Hb & _). apply size_cons_pos, Hb.
  - intros (_ & Hb & _). apply size_cons_pos, Hb.
Qed.

Lemma nodesParts_pos (l : Nodes) : wfNodes l -> nodesParts l <> [] -> 0 < size (nodesParts l).
Proof.
  destruct l as [|n rest]; [intros _ []; reflexivity|]. intros (Hn & _) _. cbn [nodesParts].
  rewrite size_app. pose proof (nodeParts_pos n Hn). pose proof (size_nonneg (nodesParts rest)).
  lia.
Qed.

Lemma itemsParts_pos (l : Items) : wfItems l -> itemsParts l <> [] -> 0 < size (itemsParts l).
Proof.
  destruct l; [intros _ []; reflexivity|]. intros (_ & Hb & _) _. cbn [itemsParts app].
  apply size_cons_pos, Hb.
Qed.

End Traversal.

(** ** Stages on datasets

    What the stage files promise of a stage, and what the chains of
    [DicomFlows] are proved against: a stage is specified on datasets
    when what it emits on the traversal of a well-formed dataset is a
    function of the tree; it maps datasets when that is the traversal of
    a well-formed dataset again, so that the next stage of a chain is on
    its ground. *)

Section Interface.
Context `{Dictionary}.

Class OnDatasets {S : Type} (st : Stage S) (emits : Nodes -> list Part) : Prop :=
  on_datasets : forall ns, wfNodes ns -> run st (nodesParts ns) = emits ns.

Class DatasetMap {S : Type} (st : Stage S) (f : Nodes -> Nodes) : Prop := {
  dataset_map_run : forall ns, wfNodes ns -> run st (nodesParts ns) = nodesParts (f ns);
  dataset_map_wf : forall ns, wfNodes ns -> wfNodes (f ns)
}.

#[export] Instance DatasetMap_OnDatasets {S : Type} (st : Stage S) (f : Nodes -> Nodes) :
  DatasetMap st f -> OnDatasets st (fun ns => nodesParts (f ns)).
Proof. intros Hf ns. apply dataset_map_run. Qed.

(** A chain behind a stage that maps datasets. *)
#[export] Instance pipe_OnDatasets {S1 S2 : Type} (a : Stage S1) (b : Stage S2)
    (f : Nodes -> Nodes) (emits : Nodes -> list Part) :
  DatasetMap a f -> OnDatasets b emits -> OnDatasets (pipe a b) (fun ns => emits (f ns)).
Proof.
  intros Ha Hb ns Hwf. rewrite run_pipe, dataset_map_run by exact Hwf.
  apply Hb, dataset_map_wf, Hwf.
Qed.

#[export] Instance pipe_DatasetMap {S1 S2 : Type} (a : Stage S1) (b : Stage S2)
    (f g : Nodes -> Nodes) :
  DatasetMap a f -> DatasetMap b g -> DatasetMap (pipe a b) (fun ns => g (f ns)).
Proof.
  intros Ha Hb. split; intros ns Hwf.
  - rewrite run_pipe, (dataset_map_run (st := a)) by exact Hwf.
    apply dataset_map_run, dataset_map_wf, Hwf.
  - apply (dataset_map_wf (st := b)), (dataset_map_wf (st := a)), Hwf.
Qed.

End Interface.

(** ** The datasets of the tests *)

(** An element in the item of a sequence, both of determinate length:
    the traversal is [stream_determinate]. *)
Definition dataset_determinate : Nodes :=
  ConsNode
    (SequenceNode derivationSequence24
       (ConsItem item16
          (ConsNode (ElementNode patientNameHeader [patientNameValue]) NoNodes)
          None NoItems)
       None)
    NoNodes.

(** A determinate item in an indeterminate sequence, followed by an
    element at the top level. *)
Definition dataset_mixed : Nodes :=
  ConsNode
    (SequenceNode derivationSequence
       (ConsItem item16
          (ConsNode (ElementNode patientNameHeader [patientNameValue]) NoNodes)
          None NoItems)
       (Some sequenceEnd))
    (ConsNode (ElementNode patientNameHeader [patientNameValue]) NoNodes).

(** The same with the delimitations: the traversal is
    [stream_indeterminate]. *)
Definition dataset_indeterminate : Nodes :=
  ConsNode
    (SequenceNode derivationSequence
       (ConsItem item1
          (ConsNode (ElementNode patientNameHeader [patientNameValue]) NoNodes)
          (Some itemEnd1) NoItems)
       (Some sequenceEnd))
    NoNodes.

Example dataset_determinate_parts : nodesParts dataset_determinate = stream_determinate.
Proof. reflexivity. Qed.

Example dataset_indeterminate_parts :
  nodesParts dataset_indeterminate = stream_indeterminate.
Proof. reflexivity. Qed.

(** Encapsulated pixel data in an item of determinate length: the
    fragment sequence of the tests ([stream_fragments]) after an element. *)
Definition dataset_fragments : Nodes :=
  ConsNode
    (SequenceNode derivationSequence
       (ConsItem (ItemPart 1 60 false [xfe; xff; x00; xe0; x3c; x00; x00; x00])
          (ConsNode (ElementNode patientNameHeader [patientNameValue])
             (ConsNode
                (FragmentsNode pixelDataFragments
                   [item4 1; ValueChunk fragment1 true; item4 2; ValueChunk fragment2 true]
                   sequenceEnd)
                NoNodes))
          None NoItems)
       (Some sequenceEnd))
    NoNodes.

Lemma dataset_determinate_wf : wfNodes dataset_determinate.
Proof. cbn. repeat split; try discriminate. repeat constructor; discriminate. Qed.

Lemma dataset_indeterminate_wf : wfNodes dataset_indeterminate.
Proof. cbn. repeat split; try discriminate; repeat constructor; discriminate. Qed.

Lemma dataset_fragments_wf : wfNodes dataset_fragments.
Proof. cbn. repeat split; try discriminate; repeat constructor; discriminate. Qed.

Lemma dataset_mixed_wf : wfNodes dataset_mixed.
Proof. cbn. repeat split; try discriminate; repeat constructor; discriminate. Qed.
