(* ===== verification/HeaderFilter.v ===== *)
(** * HeaderFilter: [headerFilter] of [dicom-flows.js]

    An element-local filter: a header is kept or dropped by a predicate on
    the header itself, its value chunks follow it, and every other part
    passes and re-arms the filter.  The stage is the class
    [GroupLengthWarnings(InFragments(DeferToPartFlow))] extended with a
    constructor and [onPart]. *)

From S2P Require Import Prelude Base Parts TagPath DicomFlow Fixtures.

Section HeaderFilter.
Context `{Dictionary}.

(** [onPart] of the class (the method body, on the object's state). *)
Definition headerFilter_onPart (keepCondition : Part -> bool) : Handler :=
  fun part s =>
    if isHeaderPart part then
      let s' := set_keeping (keepCondition part) s in
      (if keeping s' then [part] else [], s')
    else if isValueChunk part then
      (if keeping s then [part] else [], s)
    else
      ([part], set_keeping true s).

(** The constructor: [super()], then the two fields. *)
Definition headerFilter_constructor (Super : FlowClass) (warnings : bool)
  : FlowState -> FlowState :=
  fun s => set_keeping true (set_silent (negb warnings) (construct Super s)).

(** The anonymous class. *)
Definition headerFilterClass (keepCondition : Part -> bool) (warnings : bool) : FlowClass :=
  let Super := GroupLengthWarnings (InFragments DeferToPartFlow) in
  mkClass (headerFilter_constructor Super warnings)
    (fun this => with_onPart (headerFilter_onPart keepCondition) (methods Super this)).

(** [headerFilter(keepCondition, logGroupLengthWarnings)]; an argument
    left out is [None]. *)
Definition headerFilter (keepCondition : Part -> bool)
    (logGroupLengthWarnings : option bool) : Stage FlowState :=
  let warnings :=
    match logGroupLengthWarnings with None => false | Some w => w end in
  create (headerFilterClass keepCondition warnings).

(** ** Specification

    What the filter is to emit for a stream, given whether it is currently
    keeping: the decision of a header holds for the value chunks after it,
    and any other part is emitted and resets the decision. *)

Fixpoint headerFilter_spec (keepCondition : Part -> bool) (k : bool) (ps : list Part)
  : list Part :=
  match ps with
  | [] => []
  | p :: ps' =>
      if isHeaderPart p then
        if keepCondition p then p :: headerFilter_spec keepCondition true ps'
        else headerFilter_spec keepCondition false ps'
      else if isValueChunk p then
        if k then p :: headerFilter_spec keepCondition k ps'
        else headerFilter_spec keepCondition k ps'
      else p :: headerFilter_spec keepCondition true ps'
  end.

(** The flag the filter is left with. *)
Fixpoint headerFilter_spec_keeping (keepCondition : Part -> bool) (k : bool)
    (ps : list Part) : bool :=
  match ps with
  | [] => k
  | p :: ps' =>
      headerFilter_spec_keeping keepCondition
        (if isHeaderPart p then keepCondition p
         else if isValueChunk p then k else true) ps'
  end.

(** The state in which [onPart] runs: what the layers below the class did
    to it on the way. *)
Definition headerFilter_layers (part : Part) (s : FlowState) : FlowState :=
  match part with
  | HeaderPart _ _ _ _ _ _ _ => enterFragments part (noteGroupLength part s)
  | SequencePart _ _ _ _ _ => noteGroupLength part s
  | SequenceDelimitationPart _ _ => set_inFragments false s
  | _ => s
  end.

(** ** [onPart] over a stream

    [DeferToPartFlow] hands every part to [onPart]: what the class emits
    for a stream is [onPart] run on each part in turn.  The statements of
    this section are about that loop alone. *)

Section OnPart.
Variable keepCondition : Part -> bool.

Lemma headerFilter_onPart_out (part : Part) (s : FlowState) :
  fst (headerFilter_onPart keepCondition part s) =
    headerFilter_spec keepCondition (keeping s) [part].
Proof.
  unfold headerFilter_onPart; cbn.
  destruct (isHeaderPart part); [cbn; destruct (keepCondition part); reflexivity|].
  destruct (isValueChunk part); [destruct (keeping s)|]; reflexivity.
Qed.

Lemma headerFilter_onPart_keeping (part : Part) (s : FlowState) :
  keeping (snd (headerFilter_onPart keepCondition part s)) =
    if isHeaderPart part then keepCondition part
    else if isValueChunk part then keeping s else true.
Proof.
  unfold headerFilter_onPart.
  destruct (isHeaderPart part); [reflexivity|].
  destruct (isValueChunk part); reflexivity.
Qed.

Lemma headerFilter_onPart_state (part : Part) (s : FlowState) :
  snd (headerFilter_onPart keepCondition part s) =
    set_keeping (if isHeaderPart part then keepCondition part
                 else if isValueChunk part then keeping s else true) s.
Proof.
  unfold headerFilter_onPart.
  destruct (isHeaderPart part); [|destruct (isValueChunk part)]; destruct s; reflexivity.
Qed.

(** [onPart] writes [keeping] and nothing else. *)
Lemma headerFilter_onPart_frame (part : Part) (s : FlowState) :
  set_keeping (keeping s) (snd (headerFilter_onPart keepCondition part s)) = s.
Proof.
  unfold headerFilter_onPart.
  destruct (isHeaderPart part); [|destruct (isValueChunk part)]; destruct s; reflexivity.
Qed.

Lemma headerFilter_spec_cons (k : bool) (p : Part) (ps : list Part) :
  headerFilter_spec keepCondition k (p :: ps) =
    headerFilter_spec keepCondition k [p] ++
    headerFilter_spec keepCondition
      (if isHeaderPart p then keepCondition p
       else if isValueChunk p then k else true) ps.
Proof.
  cbn. destruct (isHeaderPart p); [destruct (keepCondition p); reflexivity|].
  destruct (isValueChunk p); [destruct k|]; reflexivity.
Qed.

Lemma headerFilter_onPart_run (ps : list Part) (s : FlowState) :
  fst (flatMapM (headerFilter_onPart keepCondition) ps s) =
    headerFilter_spec keepCondition (keeping s) ps.
Proof.
  revert s; induction ps as [|p ps IH]; intros s; [reflexivity|].
  rewrite flatMapM_cons, headerFilter_spec_cons; cbn [fst snd].
  rewrite IH, headerFilter_onPart_out, headerFilter_onPart_keeping. reflexivity.
Qed.

Lemma headerFilter_onPart_run_state (ps : list Part) (s : FlowState) :
  snd (flatMapM (headerFilter_onPart keepCondition) ps s) =
    set_keeping (headerFilter_spec_keeping keepCondition (keeping s) ps) s.
Proof.
  revert s; induction ps as [|p ps IH]; intros s; [destruct s; reflexivity|].
  rewrite flatMapM_cons; cbn [fst snd headerFilter_spec_keeping].
  rewrite IH, headerFilter_onPart_state. destruct s; reflexivity.
Qed.

(** C3: running [onPart] over a stream emits what the specification
    prescribes for the initial value of [keeping], and leaves the object
    as it was but for the flag the specification prescribes. *)
Theorem headerFilter_onPart_refines_spec (ps : list Part) (s : FlowState) :
  flatMapM (headerFilter_onPart keepCondition) ps s =
    (headerFilter_spec keepCondition (keeping s) ps,
     set_keeping (headerFilter_spec_keeping keepCondition (keeping s) ps) s).
Proof.
  rewrite <- headerFilter_onPart_run, <- headerFilter_onPart_run_state.
  apply surjective_pairing.
Qed.

(** after a part that is neither a header nor a value chunk the filter
    is keeping again, whatever it was doing. *)
Theorem headerFilter_onPart_rearms (part : Part) (s : FlowState) :
  isHeaderPart part = false -> isValueChunk part = false ->
  headerFilter_onPart keepCondition part s = ([part], set_keeping true s).
Proof. unfold headerFilter_onPart; intros -> ->; reflexivity. Qed.

(** C26: the value chunks after a header share its fate: from the state a
    header leaves, a run of value chunks is emitted whole or not at
    all. *)
Theorem headerFilter_onPart_values_follow (header : Part) (chunks : list Part)
    (s : FlowState) :
  isHeaderPart header = true -> Forall (fun c => isValueChunk c = true) chunks ->
  fst (flatMapM (headerFilter_onPart keepCondition) (header :: chunks) s) =
    if keepCondition header then header :: chunks else [].
Proof.
  intros Hh Hc. rewrite headerFilter_onPart_run. cbn; rewrite Hh.
  assert (Hrun : forall k, headerFilter_spec keepCondition k chunks =
                           if k then chunks else []).
  { intros k. induction Hc as [|c cs Hc _ IH]; [destruct k; reflexivity|].
    cbn. destruct c; try discriminate. cbn. rewrite IH. destruct k; reflexivity. }
  rewrite !Hrun. destruct (keepCondition header); reflexivity.
Qed.

(** The loop only drops: what it emits is a subsequence of the stream. *)
Theorem headerFilter_onPart_sublist (ps : list Part) (s : FlowState) :
  fst (flatMapM (headerFilter_onPart keepCondition) ps s) `sublist_of` ps.
Proof.
  rewrite headerFilter_onPart_run. generalize (keeping s).
  induction ps as [|p ps IH]; intros k; cbn; [constructor|].
  repeat case_if; auto using sublist_skip, sublist_cons.
Qed.

(** Every header the loop emits satisfies the keep condition. *)
Theorem headerFilter_onPart_keeps_only (ps : list Part) (s : FlowState) :
  Forall (fun p => isHeaderPart p = true -> keepCondition p = true)
    (fst (flatMapM (headerFilter_onPart keepCondition) ps s)).
Proof.
  rewrite headerFilter_onPart_run. generalize (keeping s).
  induction ps as [|p ps IH]; intros k; cbn; [constructor|].
  repeat case_if; auto; constructor; auto; congruence.
Qed.

(** Sequences, items, delimitations and deflated chunks all pass, in
    order. *)
Theorem headerFilter_onPart_structure (ps : list Part) (s : FlowState) :
  List.filter (fun p => negb (isHeaderPart p || isValueChunk p))
    (fst (flatMapM (headerFilter_onPart keepCondition) ps s)) =
  List.filter (fun p => negb (isHeaderPart p || isValueChunk p)) ps.
Proof.
  rewrite headerFilter_onPart_run. generalize (keeping s).
  induction ps as [|p ps IH]; intros k; [reflexivity|].
  cbn [headerFilter_spec List.filter].
  destruct (isHeaderPart p) eqn:Eh; cbn [orb negb].
  - destruct (keepCondition p); cbn [List.filter]; rewrite ?Eh; cbn; apply IH.
  - destruct (isValueChunk p) eqn:Ev; cbn [negb].
    + destruct k; cbn [List.filter]; rewrite ?Eh, ?Ev; cbn; apply IH.
    + cbn [List.filter]; rewrite Eh, Ev; cbn. f_equal; apply IH.
Qed.

End OnPart.

Lemma headerFilter_spec_compose (k1 k2 : Part -> bool) (b1 b2 : bool) (ps : list Part) :
  headerFilter_spec k2 b2 (headerFilter_spec k1 b1 ps) =
    headerFilter_spec (fun p => k1 p && k2 p) (b1 && b2) ps.
Proof.
  revert b1 b2; induction ps as [|p ps IH]; intros b1 b2; [reflexivity|].
  cbn [headerFilter_spec].
  destruct (isHeaderPart p) eqn:Eh.
  - destruct (k1 p); cbn [andb].
    + cbn [headerFilter_spec]. rewrite Eh. destruct (k2 p); rewrite IH; reflexivity.
    + rewrite IH. reflexivity.
  - destruct (isValueChunk p) eqn:Ev.
    + destruct b1; cbn [andb headerFilter_spec]; rewrite ?Eh, ?Ev.
      * destruct b2; rewrite IH; reflexivity.
      * rewrite IH; reflexivity.
    + cbn [headerFilter_spec]. rewrite Eh, Ev, IH. reflexivity.
Qed.

(** the loop with the condition that keeps every header, started
    keeping, is the identity. *)
Theorem headerFilter_onPart_identity (ps : list Part) (s : FlowState) :
  keeping s = true ->
  fst (flatMapM (headerFilter_onPart (fun _ => true)) ps s) = ps.
Proof.
  intros Hk. rewrite headerFilter_onPart_run, Hk.
  induction ps as [|p ps IH]; cbn; [reflexivity|].
  destruct (isHeaderPart p), (isValueChunk p); congruence.
Qed.

(** C34: two loops in a row are one loop with the conjunction of the
    conditions, started with the conjunction of the flags. *)
Theorem headerFilter_onPart_compose (k1 k2 : Part -> bool) (ps : list Part)
    (s1 s2 s : FlowState) :
  keeping s = keeping s1 && keeping s2 ->
  fst (flatMapM (headerFilter_onPart k2)
         (fst (flatMapM (headerFilter_onPart k1) ps s1)) s2) =
  fst (flatMapM (headerFilter_onPart (fun p => k1 p && k2 p)) ps s).
Proof.
  intros Hk. rewrite !headerFilter_onPart_run, Hk.
  apply headerFilter_spec_compose.
Qed.

(** ** The class resolved *)

Section Resolved.
Variables (keepCondition : Part -> bool) (warnings : option bool).

(** Every handler of the created object is [onPart] after the effects of
    the layers. *)
Lemma headerFilter_accept (part : Part) (s : FlowState) :
  accept (headerFilter keepCondition warnings) part s =
    headerFilter_onPart keepCondition part (headerFilter_layers part s).
Proof. destruct part; reflexivity. Qed.

(** [this] is reached through one nested call ([onPart]): binding it any
    deeper than two levels changes nothing, so the depth [create] uses is
    enough. *)
Theorem headerFilter_this_stable (n : nat) (part : Part) (s : FlowState) :
  handlePart (bindThis (2 + n)
    (headerFilterClass keepCondition (default false warnings))) part s =
  accept (headerFilter keepCondition warnings) part s.
Proof. destruct warnings, part; reflexivity. Qed.

Lemma headerFilter_layers_keeping (part : Part) (s : FlowState) :
  keeping (headerFilter_layers part s) = keeping s.
Proof. destruct part; cbn [headerFilter_layers]; flow_frames; reflexivity. Qed.

Lemma headerFilter_runFrom (ps : list Part) (s : FlowState) :
  fst (runFrom (headerFilter keepCondition warnings) ps s) =
    headerFilter_spec keepCondition (keeping s) ps.
Proof.
  revert s; induction ps as [|p ps IH]; intros s; [reflexivity|].
  rewrite runFrom_cons, headerFilter_spec_cons, headerFilter_accept; cbn [fst snd].
  rewrite IH, headerFilter_onPart_out, headerFilter_onPart_keeping.
  rewrite headerFilter_layers_keeping. reflexivity.
Qed.

Corollary headerFilter_run (ps : list Part) :
  run (headerFilter keepCondition warnings) ps = headerFilter_spec keepCondition true ps.
Proof. unfold run; rewrite headerFilter_runFrom; reflexivity. Qed.

(** The stage emits, for every stream and from every state, what the
    [onPart] loop emits: the layers below the class do not disturb the
    filter, and a freshly created stage emits what the specification
    prescribes for a filter that starts keeping. *)
Theorem headerFilter_refines_spec (ps : list Part) (s : FlowState) :
  fst (runFrom (headerFilter keepCondition warnings) ps s) =
    fst (flatMapM (headerFilter_onPart keepCondition) ps s) /\
  run (headerFilter keepCondition warnings) ps = headerFilter_spec keepCondition true ps.
Proof.
  split; [|apply headerFilter_run].
  rewrite headerFilter_runFrom, headerFilter_onPart_run. reflexivity.
Qed.

End Resolved.

(** Logging group-length warnings never changes what is emitted. *)
Theorem headerFilter_warnings_irrelevant (keepCondition : Part -> bool)
    (w w' : option bool) (ps : list Part) :
  run (headerFilter keepCondition w) ps = run (headerFilter keepCondition w') ps.
Proof. rewrite !headerFilter_run. reflexivity. Qed.

(** chaining two header filters is filtering by the conjunction of their
    conditions. *)
Theorem headerFilter_pipe (k1 k2 : Part -> bool) (w1 w2 w : option bool) (ps : list Part) :
  run (pipe (headerFilter k1 w1) (headerFilter k2 w2)) ps =
    run (headerFilter (fun p => k1 p && k2 p) w) ps.
Proof. rewrite run_pipe, !headerFilter_run. apply headerFilter_spec_compose. Qed.

End HeaderFilter.

(** ** The theorems at the streams of the tests *)

Lemma headerFilter_onPart_rearms_witness :
  headerFilter_onPart (fun _ => false) sequenceEnd (set_keeping false rawObject) =
    ([sequenceEnd], set_keeping true (set_keeping false rawObject)).
Proof. apply headerFilter_onPart_rearms; reflexivity. Defined.

Lemma headerFilter_onPart_values_follow_witness :
  fst (flatMapM (headerFilter_onPart (fun _ => false))
         [patientNameHeader; patientNameValue] rawObject) = [].
Proof.
  apply (headerFilter_onPart_values_follow (fun _ => false) patientNameHeader
           [patientNameValue] rawObject); [reflexivity | repeat constructor].
Defined.

Lemma headerFilter_onPart_identity_witness :
  fst (flatMapM (headerFilter_onPart (fun _ => true)) stream_indeterminate
         (set_keeping true rawObject)) = stream_indeterminate.
Proof. apply headerFilter_onPart_identity; reflexivity. Defined.

Lemma headerFilter_onPart_compose_witness :
  fst (flatMapM (headerFilter_onPart (fun p => negb (isGroupLength (partTag p))))
         (fst (flatMapM (headerFilter_onPart onlyPatientName) stream_elements
                 (set_keeping true rawObject)))
         (set_keeping true rawObject)) =
  fst (flatMapM (headerFilter_onPart
                   (fun p => onlyPatientName p && negb (isGroupLength (partTag p))))
         stream_elements (set_keeping true rawObject)).
Proof. apply headerFilter_onPart_compose; reflexivity. Defined.
