(* ===== verification/HeaderDataset.v ===== *)
(** * HeaderDataset: [headerFilter] on the tree

    What a header filter does to a dataset, read off the tree of
    [Dataset]: an element goes or stays whole, by the verdict on its
    header; sequences, items and delimitations always pass.  The stage
    keeps no account of nesting or of lengths, so this holds of every
    well-formed dataset whatever the lengths declare.

    The header of a fragment sequence is a header like any other, and
    the verdict on it holds for the value chunks up to the next part
    that is not one: the first item.  A filter that drops the pixel data
    by its header therefore drops the header and leaves the items, the
    bytes of the fragments and the delimitation in the stream
    ([headerFilter_onPart_leaves_fragments]). *)

From S2P Require Import Prelude Base Parts TagPath DicomFlow Fixtures Dataset HeaderFilter.

(** ** The filtered tree *)

Section Filtered.
Variable keepCondition : Part -> bool.

(** What is left of the fragments after a header judged [k]: the chunks
    before the first item follow the verdict, the rest passes. *)
Fixpoint followFragments (k : bool) (fragments : list Part) : list Part :=
  match fragments with
  | [] => []
  | p :: rest =>
      if isItemPart p then p :: rest
      else (if k then [p] else []) ++ followFragments k rest
  end.

Fixpoint headerNode (n : Node) : list Part :=
  match n with
  | ElementNode header chunks => if keepCondition header then header :: chunks else []
  | FragmentsNode header fragments delimitation =>
      (if keepCondition header then [header] else []) ++
      followFragments (keepCondition header) fragments ++ [delimitation]
  | SequenceNode sequence items delimitation =>
      sequence :: headerItems items ++ option_list delimitation
  end
with headerItems (l : Items) : list Part :=
  match l with
  | NoItems => []
  | ConsItem item body delimitation rest =>
      (item :: headerNodes body ++ option_list delimitation) ++ headerItems rest
  end
with headerNodes (l : Nodes) : list Part :=
  match l with
  | NoNodes => []
  | ConsNode node rest => headerNode node ++ headerNodes rest
  end.

(** ** The specification of the stream, over segments *)

Local Abbreviation spec := (headerFilter_spec keepCondition).
Local Abbreviation keepingAfter := (headerFilter_spec_keeping keepCondition).

Lemma headerFilter_spec_app (k : bool) (ps qs : list Part) :
  spec k (ps ++ qs) = spec k ps ++ spec (keepingAfter k ps) qs.
Proof.
  revert k; induction ps as [|p ps IH]; intros k; [reflexivity|].
  rewrite <- app_comm_cons, (headerFilter_spec_cons _ k p (ps ++ qs)),
    (headerFilter_spec_cons _ k p ps), IH, app_assoc. reflexivity.
Qed.

(** Without a header, a filter that keeps lets everything pass. *)
Lemma headerFilter_spec_plain (ps : list Part) :
  Forall (fun p => isHeaderPart p = false) ps -> spec true ps = ps.
Proof.
  induction 1 as [|p ps Hp _ IH]; [reflexivity|]. cbn. rewrite Hp.
  destruct (isValueChunk p); rewrite IH; reflexivity.
Qed.

(** Without a header or an item, every part follows the verdict. *)
Lemma headerFilter_spec_chunks (k : bool) (chunks : list Part) :
  Forall (fun p => isValueChunk p = true) chunks ->
  spec k chunks = if k then chunks else [].
Proof.
  induction 1 as [|p ps Hp _ IH]; [destruct k; reflexivity|]. cbn. rewrite Hp.
  destruct p; try discriminate. cbn. rewrite IH. destruct k; reflexivity.
Qed.

Lemma headerFilter_spec_delimitation (k : bool) (delimitation : option Part)
    (isDelimitation : Part -> bool) (scope : Part) (content : list Part) :
  scopeClosed isDelimitation scope content delimitation ->
  (forall d, isDelimitation d = true -> isHeaderPart d || isValueChunk d = false) ->
  spec k (option_list delimitation) = option_list delimitation.
Proof.
  intros Hcl Hk. destruct delimitation as [d|]; [|reflexivity].
  destruct Hcl as (_ & Hd & _). apply Hk in Hd. apply orb_false_iff in Hd as [Hh Hc].
  cbn. rewrite Hh, Hc. reflexivity.
Qed.

Section Tree.
Context `{Dictionary}.

Lemma headerFilter_spec_fragments (k : bool) (fragments : list Part) (d : Part) :
  Forall wfFragment fragments -> isSequenceDelimitationPart d = true ->
  spec k (fragments ++ [d]) = followFragments k fragments ++ [d].
Proof.
  intros Hfr Hd. induction Hfr as [|p fragments (Hp & _) Hfr IH].
  - destruct d; try discriminate; reflexivity.
  - rewrite <- app_comm_cons, headerFilter_spec_cons.
    destruct p; try discriminate; cbn [isItemPart isHeaderPart isValueChunk followFragments].
    + rewrite IH. cbn. destruct k; reflexivity.
    + rewrite headerFilter_spec_plain; [reflexivity|].
      apply Forall_app; split; [|repeat constructor; destruct d; try discriminate; reflexivity].
      eapply Forall_impl; [exact Hfr|]. intros q (Hq & _).
      destruct q; try discriminate; reflexivity.
Qed.

(** The specification of the stream on the traversal of a tree: whatever
    the filter was keeping before. *)
Lemma headerFilter_spec_dataset :
  (forall n, wfNode n -> forall k, spec k (nodeParts n) = headerNode n) /\
  (forall l, wfItems l -> forall k, spec k (itemsParts l) = headerItems l) /\
  (forall l, wfNodes l -> forall k, spec k (nodesParts l) = headerNodes l).
Proof.
  apply Dataset_mutind; cbn [wfNode wfItems wfNodes nodeParts itemsParts nodesParts
    headerNode headerItems headerNodes]; auto.
  - intros header chunks (Hh & _ & _ & Hcs) k. rewrite headerFilter_spec_cons. cbn.
    rewrite Hh, headerFilter_spec_chunks
      by (eapply Forall_impl; [exact Hcs | intros c Hc; apply Hc]).
    destruct (keepCondition header); reflexivity.
  - intros header fragments delimitation (Hh & _ & Hfr & Hd & _) k.
    assert (isHeaderPart header = true) as Hk.
    { unfold isFragments in Hh. destruct (isHeaderPart header); [reflexivity | discriminate]. }
    rewrite headerFilter_spec_cons, Hk, headerFilter_spec_fragments by assumption.
    cbn. rewrite Hk. destruct (keepCondition header); reflexivity.
  - intros sequence items IH delimitation (Hk & _ & Hwf & Hcl) k.
    rewrite headerFilter_spec_cons, headerFilter_spec_app, IH by exact Hwf.
    rewrite (headerFilter_spec_delimitation _ _ _ _ _ Hcl)
      by (intros d Hd; destruct d; try discriminate; reflexivity).
    destruct sequence; try discriminate; reflexivity.
  - intros item body IHbody delimitation rest IHrest (Hk & _ & Hwf & Hcl & Hrest) k.
    rewrite headerFilter_spec_app, IHrest by exact Hrest. f_equal.
    rewrite headerFilter_spec_cons, headerFilter_spec_app, IHbody by exact Hwf.
    rewrite (headerFilter_spec_delimitation _ _ _ _ _ Hcl)
      by (intros d Hd; destruct d; try discriminate; reflexivity).
    destruct item; try discriminate; reflexivity.
  - intros node IHnode rest IHrest (Hn & Hrest) k.
    rewrite headerFilter_spec_app, IHnode, IHrest by assumption. reflexivity.
Qed.

End Tree.
End Filtered.

Section Stage.
Context `{Dictionary}.
Variables (keepCondition : Part -> bool) (warnings : option bool).

#[export] Instance headerFilter_OnDatasets :
  OnDatasets (headerFilter keepCondition warnings) (headerNodes keepCondition).
Proof.
  intros ns Hwf. rewrite headerFilter_run.
  destruct (headerFilter_spec_dataset keepCondition) as (_ & _ & Hns). apply Hns, Hwf.
Qed.

(** C5: a header filter is correct on datasets: over the traversal of a
    well-formed dataset, and whatever it was keeping before, [onPart]
    emits the dataset without the elements whose header the keep
    condition rejects; a rejected element goes with the chunks of its
    value, sequences, items and delimitations stay, and of a fragment
    sequence only its header and the chunks before its first item follow
    the verdict. *)
Theorem headerFilter_onPart_filters (ns : Nodes) (s : FlowState) :
  wfNodes ns ->
  fst (flatMapM (headerFilter_onPart keepCondition) (nodesParts ns) s) =
    headerNodes keepCondition ns.
Proof.
  intros Hwf. rewrite headerFilter_onPart_run.
  destruct (headerFilter_spec_dataset keepCondition) as (_ & _ & Hns). apply Hns, Hwf.
Qed.

(** The same of the stage. *)
Corollary headerFilter_filters (ns : Nodes) :
  wfNodes ns ->
  run (headerFilter keepCondition warnings) (nodesParts ns) = headerNodes keepCondition ns.
Proof. apply on_datasets. Qed.

(** C23: dropping a fragment sequence by its header leaves all but the header
    in the stream: [onPart] forwards its items, the bytes of its
    fragments and its delimitation. *)
Theorem headerFilter_onPart_leaves_fragments (header item : Part) (fragments : list Part)
    (delimitation : Part) (s : FlowState) :
  wfNode (FragmentsNode header (item :: fragments) delimitation) ->
  isItemPart item = true -> keepCondition header = false ->
  fst (flatMapM (headerFilter_onPart keepCondition)
         (header :: item :: fragments ++ [delimitation]) s) =
  item :: fragments ++ [delimitation].
Proof.
  intros Hwf Hi Hk. rewrite headerFilter_onPart_run.
  destruct (headerFilter_spec_dataset keepCondition) as (Hn & _).
  change (header :: item :: fragments ++ [delimitation])
    with (nodeParts (FragmentsNode header (item :: fragments) delimitation)).
  rewrite (Hn _ Hwf (keeping s)). cbn [headerNode followFragments]. rewrite Hk, Hi.
  reflexivity.
Qed.

End Stage.

(** ** The datasets of the tests *)

(** The keep condition of a filter that is to remove the pixel data. *)
Definition withoutPixelData (p : Part) : bool := negb (partTag p =? Tag_PixelData).

Example headerFilter_pixelData :
  run (headerFilter withoutPixelData None) stream_fragments =
    [item4 1; ValueChunk fragment1 true; item4 2; ValueChunk fragment2 true; sequenceEnd].
Proof. reflexivity. Qed.

Example headerFilter_dataset_fragments :
  run (headerFilter withoutPixelData None) (nodesParts dataset_fragments) =
    [derivationSequence; ItemPart 1 60 false [xfe; xff; x00; xe0; x3c; x00; x00; x00];
     patientNameHeader; patientNameValue;
     item4 1; ValueChunk fragment1 true; item4 2; ValueChunk fragment2 true; sequenceEnd;
     sequenceEnd].
Proof. reflexivity. Qed.

Lemma headerFilter_onPart_filters_witness :
  fst (flatMapM (headerFilter_onPart withoutPixelData) (nodesParts dataset_fragments)
         (initial (headerFilter withoutPixelData None))) =
    headerNodes withoutPixelData dataset_fragments.
Proof. apply headerFilter_onPart_filters, dataset_fragments_wf. Defined.

Lemma headerFilter_onPart_leaves_fragments_witness :
  fst (flatMapM (headerFilter_onPart withoutPixelData)
         (pixelDataFragments :: item4 1 ::
            [ValueChunk fragment1 true; item4 2; ValueChunk fragment2 true] ++ [sequenceEnd])
         (initial (headerFilter withoutPixelData None))) =
  item4 1 :: [ValueChunk fragment1 true; item4 2; ValueChunk fragment2 true] ++ [sequenceEnd].
Proof.
  apply headerFilter_onPart_leaves_fragments; [|reflexivity..].
  cbn. repeat split; try discriminate; repeat constructor; discriminate.
Defined.
