(* ===== verification/TagFilter.v ===== *)
(** * TagFilter: [tagFilter] and the four filters built on it

    [tagFilter] keeps or drops every part by a predicate on the tag path
    the part is at; before any element was seen the path is empty and a
    default predicate on the part decides.  The stage is the class
    [TagPathTracking(GuaranteedDelimitationEvents(GuaranteedValueEvent(
    GroupLengthWarnings(InFragments(DeferToPartFlow)))))] extended with a
    constructor and [onPart].  [whitelistFilter], [blacklistFilter],
    [groupLengthDiscardFilter] and [fmiDiscardFilter] are instances. *)

From S2P Require Import Prelude Base Parts TagPath DicomFlow Fixtures.

(** ** The keep conditions of the four filters

    The two list filters only use the trunk relations of the paths: they
    are defined for any type of paths with a [TrunkOrder]. *)

Section KeepConditions.
Context {P : Type} `{TrunkOrder P}.

(** On the way to, or inside, a whitelisted subtree. *)
Definition whitelist_keepCondition (whitelist : list P) (currentPath : P) : bool :=
  existsb (fun t => hasTrunk t currentPath || isTrunkOf t currentPath) whitelist.

(** Not at or below a blacklisted path. *)
Definition blacklist_keepCondition (blacklist : list P) (currentPath : P) : bool :=
  negb (existsb (fun t => isTrunkOf t currentPath) blacklist).

End KeepConditions.

(** Not a group length, unless of the file meta information. *)
Definition groupLengthDiscard_keepCondition (tagPath : TagPath) : bool :=
  negb (isGroupLength (pathTag tagPath)) || isFileMetaInformation (pathTag tagPath).

(** Not file meta information. *)
Definition fmiDiscard_keepCondition (tagPath : TagPath) : bool :=
  negb (isFileMetaInformation (pathTag tagPath)).

Section TagFilter.
Context `{Dictionary}.

(** ** The class *)

(** [onPart]: recompute [keeping], then forward the part or nothing.
    The code tests [this.tagPath === emptyTagPath], the identity of two
    objects; paths are compared here by what they hold, which is the same
    test as long as the empty path is the one object [emptyTagPath] and
    every other path has a tag, as the specification says of
    [tag-path.js]. *)
Definition tagFilter_onPart (keepCondition : TagPath -> bool) (defCond : Part -> bool)
  : Handler :=
  fun part s =>
    let s' :=
      set_keeping
        (if bool_decide (tagPath s = emptyTagPath) then defCond part
         else keepCondition (tagPath s)) s in
    (if keeping s' then [part] else [], s').

(** The constructor: [super()], then the two fields. *)
Definition tagFilter_constructor (Super : FlowClass) (warnings : bool)
  : FlowState -> FlowState :=
  fun s => set_keeping false (set_silent (negb warnings) (construct Super s)).

(** The anonymous class. *)
Definition tagFilterClass (keepCondition : TagPath -> bool) (defCond : Part -> bool)
    (warnings : bool) : FlowClass :=
  let Super :=
    TagPathTracking (GuaranteedDelimitationEvents (GuaranteedValueEvent
      (GroupLengthWarnings (InFragments DeferToPartFlow)))) in
  mkClass (tagFilter_constructor Super warnings)
    (fun this => with_onPart (tagFilter_onPart keepCondition defCond) (methods Super this)).

(** [tagFilter(keepCondition, defaultCondition, logGroupLengthWarnings)];
    an argument left out is [None]. *)
Definition tagFilter (keepCondition : TagPath -> bool)
    (defaultCondition : option (Part -> bool)) (logGroupLengthWarnings : option bool)
  : Stage FlowState :=
  let warnings :=
    match logGroupLengthWarnings with None => false | Some w => w end in
  let defCond :=
    match defaultCondition with None => fun _ => true | Some d => d end in
  create (tagFilterClass keepCondition defCond warnings).

(** ** The four filters *)

Definition whitelistFilter (whitelist : list TagPath) : Stage FlowState :=
  tagFilter (whitelist_keepCondition whitelist) (Some (fun _ => false)) None.

Definition blacklistFilter (blacklist : list TagPath) : Stage FlowState :=
  tagFilter (blacklist_keepCondition blacklist) None None.

Definition groupLengthDiscardFilter : Stage FlowState :=
  tagFilter groupLengthDiscard_keepCondition None None.

Definition fmiDiscardFilter : Stage FlowState :=
  tagFilter fmiDiscard_keepCondition (Some (fun _ => false)) None.


(** ** The keep conditions, against the trunk order *)

Section KeepConditionFacts.
Context {P : Type} `{TrunkOrder P}.
Implicit Types (p q w : P) (l : list P).

Lemma whitelist_keepCondition_true l p :
  whitelist_keepCondition l p = true <->
  exists w, In w l /\ (isTrunkOf p w = true \/ isTrunkOf w p = true).
Proof.
  unfold whitelist_keepCondition. rewrite existsb_exists.
  split; intros (w & Hw & Hk); exists w; split; auto.
  - apply orb_true_iff in Hk. rewrite hasTrunk_true in Hk. exact Hk.
  - apply orb_true_iff. rewrite hasTrunk_true. exact Hk.
Qed.

Lemma blacklist_keepCondition_false l p :
  blacklist_keepCondition l p = false <-> exists b, In b l /\ isTrunkOf b p = true.
Proof.
  unfold blacklist_keepCondition. rewrite negb_false_iff, existsb_exists. reflexivity.
Qed.

Lemma whitelist_keepCondition_app l1 l2 p :
  whitelist_keepCondition (l1 ++ l2) p =
    whitelist_keepCondition l1 p || whitelist_keepCondition l2 p.
Proof. apply existsb_app. Qed.

Lemma blacklist_keepCondition_app l1 l2 p :
  blacklist_keepCondition (l1 ++ l2) p =
    blacklist_keepCondition l1 p && blacklist_keepCondition l2 p.
Proof. unfold blacklist_keepCondition. rewrite existsb_app, negb_orb. reflexivity. Qed.

(** C10: what the blacklist drops, it drops with everything below it. *)
Theorem blacklist_drops_descendants l p q :
  blacklist_keepCondition l p = false -> isTrunkOf p q = true ->
  blacklist_keepCondition l q = false.
Proof.
  rewrite !blacklist_keepCondition_false. intros (b & Hb & Hbp) Hpq.
  exists b; split; [exact Hb | eapply isTrunkOf_trans; eassumption].
Qed.

(** The kept paths of a white list are closed under trunks. *)
Lemma whitelist_kept_above l p q :
  isTrunkOf p q = true -> whitelist_keepCondition l q = true ->
  whitelist_keepCondition l p = true.
Proof.
  rewrite !whitelist_keepCondition_true. intros Hpq (w & Hw & [Hqw|Hwq]);
    exists w; (split; [exact Hw|]).
  - left; eapply isTrunkOf_trans; eassumption.
  - destruct (isTrunkOf_comparable p w q Hpq Hwq); auto.
Qed.

(** C8: what the whitelist keeps, it keeps with everything above it: the
    sequences and items on the way to a kept element are kept. *)
Theorem whitelist_keeps_ancestors l p q :
  whitelist_keepCondition l q = true -> isTrunkOf p q = true ->
  whitelist_keepCondition l p = true.
Proof. intros Hq Hpq. exact (whitelist_kept_above l p q Hpq Hq). Qed.

(** Everything at or below a whitelisted path is kept. *)
Theorem whitelist_keeps_subtree l w p :
  In w l -> isTrunkOf w p = true -> whitelist_keepCondition l p = true.
Proof. intros Hw Hwp. apply whitelist_keepCondition_true. eauto. Qed.

(** whatever blacklisting a list drops, whitelisting the same list
    keeps. *)
Theorem blacklist_dropped_whitelist_kept l p :
  blacklist_keepCondition l p = false -> whitelist_keepCondition l p = true.
Proof.
  rewrite blacklist_keepCondition_false, whitelist_keepCondition_true.
  intros (b & Hb & Hbp). eauto.
Qed.

(** C29: the two filters of one list are not complementary: a proper ancestor
    of a listed path passes both. *)
Theorem whitelist_blacklist_overlap w p :
  isTrunkOf p w = true -> isTrunkOf w p = false ->
  whitelist_keepCondition [w] p = true /\ blacklist_keepCondition [w] p = true.
Proof.
  intros Hpw Hwp. split.
  - apply whitelist_keepCondition_true. exists w; cbn; auto.
  - unfold blacklist_keepCondition; cbn. rewrite Hwp. reflexivity.
Qed.

(** A longer list whitelists more and blacklists more. *)
#[export] Instance whitelist_keepCondition_incl :
  Proper (@incl P ==> eq ==> implb_rel) whitelist_keepCondition.
Proof.
  intros l1 l2 Hl p ? <-. unfold implb_rel.
  destruct (whitelist_keepCondition l1 p) eqn:E; [|reflexivity]; cbn.
  apply whitelist_keepCondition_true in E as (w & Hw & Hk).
  apply whitelist_keepCondition_true; eauto.
Qed.

End KeepConditionFacts.

(** ** [onPart], on the object's state *)

Section OnPart.
Variables (keepCondition : TagPath -> bool) (defCond : Part -> bool).

(** The verdict is recomputed on every part: it never depends on the
    verdict on the part before. *)
Theorem tagFilter_onPart_recomputes (b : bool) (part : Part) (s : FlowState) :
  tagFilter_onPart keepCondition defCond part (set_keeping b s) =
    tagFilter_onPart keepCondition defCond part s.
Proof. destruct s; reflexivity. Qed.

(** A part is forwarded, alone, exactly when the object is keeping
    afterwards, and nothing but the flag is written. *)
Theorem tagFilter_onPart_forwards (part : Part) (s : FlowState) :
  fst (tagFilter_onPart keepCondition defCond part s) =
    (if keeping (snd (tagFilter_onPart keepCondition defCond part s)) then [part] else []) /\
  set_keeping (keeping s) (snd (tagFilter_onPart keepCondition defCond part s)) = s.
Proof. destruct s; split; reflexivity. Qed.

(** The default condition decides only at the empty path. *)
Theorem tagFilter_onPart_default (d' : Part -> bool) (part : Part) (s : FlowState) :
  tagPath s <> emptyTagPath ->
  tagFilter_onPart keepCondition defCond part s = tagFilter_onPart keepCondition d' part s.
Proof. intros Hne. unfold tagFilter_onPart. rewrite !bool_decide_eq_false_2; auto. Qed.

End OnPart.

(** with the condition of [whitelistFilter] for the empty list and its
    default, [onPart] forwards nothing, in any state. *)
Theorem tagFilter_onPart_whitelist_nil (part : Part) (s : FlowState) :
  fst (tagFilter_onPart (whitelist_keepCondition []) (fun _ => false) part s) = [].
Proof. unfold tagFilter_onPart; cbn. destruct (bool_decide _); reflexivity. Qed.

(** C40: at or below a blacklisted path [onPart] forwards nothing. *)
Theorem tagFilter_onPart_blacklist_drops (blacklist : list TagPath) (b : TagPath)
    (defCond : Part -> bool) (part : Part) (s : FlowState) :
  In b blacklist -> isTrunkOf b (tagPath s) = true -> tagPath s <> emptyTagPath ->
  fst (tagFilter_onPart (blacklist_keepCondition blacklist) defCond part s) = [].
Proof.
  intros Hb Ht Hne. unfold tagFilter_onPart; cbn.
  rewrite bool_decide_eq_false_2 by exact Hne.
  replace (blacklist_keepCondition blacklist (tagPath s)) with false; [reflexivity|].
  symmetry; apply blacklist_keepCondition_false; eauto.
Qed.

(** C33: at, below or on the way to a whitelisted path [onPart] forwards the
    part. *)
Theorem tagFilter_onPart_whitelist_keeps (whitelist : list TagPath) (w : TagPath)
    (defCond : Part -> bool) (part : Part) (s : FlowState) :
  In w whitelist -> tagPath s <> emptyTagPath ->
  isTrunkOf w (tagPath s) = true \/ isTrunkOf (tagPath s) w = true ->
  fst (tagFilter_onPart (whitelist_keepCondition whitelist) defCond part s) = [part].
Proof.
  intros Hw Hne Ht. unfold tagFilter_onPart; cbn.
  rewrite bool_decide_eq_false_2 by exact Hne.
  replace (whitelist_keepCondition whitelist (tagPath s)) with true; [reflexivity|].
  symmetry; apply whitelist_keepCondition_true; exists w; tauto.
Qed.

(** ** The class resolved *)

Section Resolved.
Variables (keepCondition : TagPath -> bool) (defCond : Part -> bool) (warnings : bool).

Let C := tagFilterClass keepCondition defCond warnings.
Let part_ := tagFilter_onPart keepCondition defCond.

(** The verdict on a part, in the state [onPart] finds. *)
Definition tagFilter_keeps (part : Part) (s : FlowState) : bool :=
  if bool_decide (tagPath s = emptyTagPath) then defCond part
  else keepCondition (tagPath s).

(** What the layers do to the state before [onPart] runs. *)
Definition tagFilter_layers (part : Part) (s : FlowState) : FlowState :=
  match part with
  | HeaderPart _ _ _ _ _ _ _ =>
      enterFragments part (noteGroupLength part
        (consume part (set_tagPath (thenElement (partTag part) (tagPath s)) s)))
  | SequencePart _ _ _ _ _ =>
      noteGroupLength part
        (pushScope part (set_tagPath (thenElement (partTag part) (tagPath s)) s))
  | ItemPart _ _ _ _ =>
      if inFragments s then consume part s
      else pushScope part (set_tagPath (thenItem (partIndex part) (tagPath s)) s)
  | SequenceDelimitationPart _ _ =>
      set_inFragments false
        (consume part (popScope (fun s => negb (inFragments s)) part
          (set_tagPath (if inFragments s then tagPath s
                        else thenSequenceEnd (tagPath s)) s)))
  | ItemDelimitationPart _ _ _ =>
      consume part (popScope (fun _ => true) part
        (set_tagPath (thenItemEnd (tagPath s)) s))
  | ValueChunk _ _ | DeflatedChunk _ _ => consume part s
  end.

(** The object's answer to the delimitation synthesized for an expired
    scope: nothing is emitted; the path moves and [keeping] is
    recomputed. *)
Definition tagFilter_itemEnd (index : Z) : State FlowState (list Part) :=
  fun s =>
    let part := ItemDelimitationPart index false [] in
    ([], snd (part_ part (tagFilter_layers part s))).

Definition tagFilter_sequenceEnd : State FlowState (list Part) :=
  fun s =>
    let part := SequenceDelimitationPart false [] in
    ([], snd (part_ part (tagFilter_layers part s))).

Definition tagFilter_delimit : State FlowState (list Part) :=
  delimitWith tagFilter_itemEnd tagFilter_sequenceEnd.

(** One step of the stage, flat: the layers move the state, the verdict
    is taken there, the part is emitted if kept (a synthesized
    delimitation never is), an element of length zero gets its empty value
    chunk under the same verdict, and the scopes that expired are closed. *)
Definition tagFilter_step (part : Part) : State FlowState (list Part) :=
  fun s =>
    let s1 := tagFilter_layers part s in
    let k := tagFilter_keeps part s1 in
    let out := if k && negb (isDelimitationMarker part) then [part] else [] in
    let vs :=
      if k && (isHeaderPart part && (partLength part =? 0))
      then [valueChunkMarker] else [] in
    (out ++ vs, snd (tagFilter_delimit (set_keeping k s1))).

Lemma tagFilter_onPart_stack (part : Part) (s : FlowState) :
  partStack (snd (part_ part s)) = partStack s.
Proof. reflexivity. Qed.


(** *** Levels of resolution

    [this] is resolved to level 1 when its [onPart] is the class's, to
    level 2 when moreover it answers synthesized delimitations (on quiet
    states) as the class does, to level 3 when moreover its value-chunk
    handler is the step.  The methods of the class over a [this] of level
    [k] are of level [k + 1]; over a [this] of level 3 all of them are
    the step. *)

Definition resolved1 (this : Flow) : Prop :=
  forall p s, onPart this p s = part_ p s.

Definition resolved2 (this : Flow) : Prop :=
  resolved1 this /\
  (forall i s, quiet s ->
     onItemDelimitation this (ItemDelimitationPart i false []) s = tagFilter_itemEnd i s) /\
  (forall s, quiet s ->
     onSequenceDelimitation this (SequenceDelimitationPart false []) s =
       tagFilter_sequenceEnd s).

Definition resolved3 (this : Flow) : Prop :=
  resolved2 this /\
  (forall s, onValueChunk this valueChunkMarker s = tagFilter_step valueChunkMarker s).

Lemma tagFilter_itemEnd_quiet (i : Z) (s : FlowState) :
  quiet s -> quiet (snd (tagFilter_itemEnd i s)).
Proof. apply quiet_stack. cbn. rewrite popScope_marker, consume_empty; reflexivity. Qed.

Lemma tagFilter_sequenceEnd_quiet (s : FlowState) :
  quiet s -> quiet (snd (tagFilter_sequenceEnd s)).
Proof. apply quiet_stack. cbn. rewrite popScope_marker, consume_empty; reflexivity. Qed.

Lemma tagFilter_delimit_quiet (s : FlowState) : quiet (snd (tagFilter_delimit s)).
Proof.
  apply delimitWith_quiet; auto using tagFilter_itemEnd_quiet, tagFilter_sequenceEnd_quiet.
Qed.

Lemma tagFilter_delimit_out (s : FlowState) : fst (tagFilter_delimit s) = [].
Proof.
  unfold tagFilter_delimit, delimitWith.
  generalize (set_partStack (List.filter (fun e => negb (expired e)) (partStack s)) s).
  induction (List.filter expired (partStack s)) as [|e l IH]; intros s0; [reflexivity|].
  rewrite flatMapM_cons; cbn [fst]. rewrite IH, app_nil_r.
  unfold deliver; destruct (isItemPart (fst e)); reflexivity.
Qed.

Lemma maybeDelimit_tagFilter (this : Flow) (s : FlowState) :
  resolved2 this -> maybeDelimit this s = ([], snd (tagFilter_delimit s)).
Proof.
  intros (_ & HI & HS).
  rewrite (maybeDelimit_resolved this tagFilter_itemEnd tagFilter_sequenceEnd).
  - rewrite (surjective_pairing (delimitWith _ _ s)). f_equal. apply tagFilter_delimit_out.
  - intros i s' Hq; split; [apply HI, Hq | apply tagFilter_itemEnd_quiet, Hq].
  - intros s' Hq; split; [apply HS, Hq | apply tagFilter_sequenceEnd_quiet, Hq].
Qed.

Lemma resolved1_methods (this : Flow) : resolved1 (methods C this).
Proof. intros p s; reflexivity. Qed.

Lemma tagFilter_onPart_eq (part : Part) (s : FlowState) :
  part_ part s =
    (if tagFilter_keeps part s then [part] else [], set_keeping (tagFilter_keeps part s) s).
Proof. reflexivity. Qed.

Lemma tagFilter_onPart_unmarked (part : Part) (s : FlowState) :
  List.filter (fun d => negb (isDelimitationMarker d)) (fst (part_ part s)) =
    if isDelimitationMarker part then [] else fst (part_ part s).
Proof.
  rewrite tagFilter_onPart_eq; cbn [fst].
  destruct (tagFilter_keeps part s); cbn; destruct (isDelimitationMarker part); reflexivity.
Qed.

Lemma resolved2_methods (this : Flow) : resolved1 this -> resolved2 (methods C this).
Proof.
  intros Hp; split; [apply resolved1_methods|]; split.
  - intros i s Hq. cbn.
    rewrite closeScope_marker;
      [ | reflexivity | revert Hq; apply quiet_stack; reflexivity
        | intros; rewrite Hp; reflexivity ].
    rewrite !Hp, tagFilter_onPart_unmarked. unfold tagFilter_itemEnd, tagFilter_layers.
    rewrite popScope_marker, consume_empty; reflexivity.
  - intros s Hq. cbn.
    rewrite closeScope_marker;
      [ | reflexivity | revert Hq; apply quiet_stack; reflexivity
        | intros; unfold sbind, smodify; rewrite Hp; reflexivity ].
    unfold sbind, smodify; rewrite !Hp, tagFilter_onPart_unmarked.
    unfold tagFilter_sequenceEnd, tagFilter_layers.
    rewrite popScope_marker, consume_empty; reflexivity.
Qed.

(** With a [this] of level 2, the three combinators of the delimitation
    layer close the expired scopes silently. *)
Lemma subtractAndEmit_tagFilter (this : Flow) (handle : Handler) (part : Part)
    (s : FlowState) :
  resolved2 this ->
  subtractAndEmit this handle part s =
    (fst (handle part (consume part s)),
     snd (tagFilter_delimit (snd (handle part (consume part s))))).
Proof.
  intros H2. rewrite subtractAndEmit_eq, maybeDelimit_tagFilter by exact H2.
  cbn [fst snd]; rewrite app_nil_r; reflexivity.
Qed.

Lemma openScope_tagFilter (this : Flow) (handle : Handler) (part : Part) (s : FlowState) :
  resolved2 this ->
  openScope this handle part s =
    (fst (handle part (pushScope part s)),
     snd (tagFilter_delimit (snd (handle part (pushScope part s))))).
Proof.
  intros H2. rewrite openScope_eq, maybeDelimit_tagFilter by exact H2.
  cbn [fst snd]; rewrite app_nil_r; reflexivity.
Qed.

Lemma closeScope_tagFilter (this : Flow) (handle : Handler) (guard : FlowState -> bool)
    (part : Part) (s : FlowState) :
  resolved2 this ->
  closeScope this handle guard part s =
    let s0 := consume part (popScope guard part s) in
    (List.filter (fun d => negb (isDelimitationMarker d)) (fst (handle part s0)),
     snd (tagFilter_delimit (snd (handle part s0)))).
Proof.
  intros H2. rewrite closeScope_eq; cbv zeta.
  rewrite maybeDelimit_tagFilter by exact H2.
  cbn [fst snd]; rewrite app_nil_r; reflexivity.
Qed.

Lemma tagFilter_keeps_nonempty (p q : Part) (s : FlowState) :
  tagPath s <> emptyTagPath -> tagFilter_keeps p s = tagFilter_keeps q s.
Proof. intros Hne; unfold tagFilter_keeps. rewrite bool_decide_eq_false_2; auto. Qed.

Lemma tagFilter_keeps_ext (p : Part) (s s' : FlowState) :
  tagPath s = tagPath s' -> tagFilter_keeps p s = tagFilter_keeps p s'.
Proof. unfold tagFilter_keeps; intros ->; reflexivity. Qed.

(** Closing tactic of the case analyses below: both sides are explicit
    pairs up to the boolean shape of the emitted list. *)
Ltac step_done :=
  unfold tagFilter_step; rewrite ?tagFilter_onPart_eq;
  unfold isDelimitationMarker;
  cbn -[tagFilter_delimit tagFilter_keeps Z.eqb];
  repeat match goal with
         | |- context [tagFilter_keeps ?p ?s] => destruct (tagFilter_keeps p s)
         | |- context [bool_decide ?P] => destruct (bool_decide P)
         end;
  cbn -[tagFilter_delimit Z.eqb]; rewrite ?app_nil_r; try reflexivity.

Lemma resolved3_methods (this : Flow) : resolved2 this -> resolved3 (methods C this).
Proof.
  intros H2; split; [apply resolved2_methods, H2|].
  intros s. cbn. rewrite subtractAndEmit_tagFilter by exact H2.
  destruct H2 as [Hp _]; rewrite !Hp. step_done.
Qed.

Lemma tagFilter_delimit_idem (s : FlowState) :
  tagFilter_delimit (snd (tagFilter_delimit s)) = ([], snd (tagFilter_delimit s)).
Proof. apply delimitWith_quiet_id, tagFilter_delimit_quiet. Qed.

Lemma tagFilter_step_valueMarker (s : FlowState) :
  tagFilter_step valueChunkMarker s =
    (if tagFilter_keeps valueChunkMarker s then [valueChunkMarker] else [],
     snd (tagFilter_delimit (set_keeping (tagFilter_keeps valueChunkMarker s) s))).
Proof.
  unfold tagFilter_step; cbn [tagFilter_layers valueChunkMarker].
  rewrite consume_empty by reflexivity. step_done.
Qed.

Lemma tagFilter_layers_header_path (part : Part) (s : FlowState) :
  isHeaderPart part = true ->
  tagPath (tagFilter_layers part s) = thenElement (partTag part) (tagPath s).
Proof. destruct part; try discriminate; intros _; cbn. autorewrite with flow. reflexivity. Qed.

(** Over a [this] of level 3, every handler of the class is the step. *)
Lemma tagFilter_methods_step (this : Flow) (part : Part) (s : FlowState) :
  resolved3 this -> handlePart (methods C this) part s = tagFilter_step part s.
Proof.
  intros [H2 Hv]; pose proof H2 as [Hp _].
  destruct part; cbn -[Z.eqb];
    rewrite ?subtractAndEmit_tagFilter, ?openScope_tagFilter, ?closeScope_tagFilter
      by exact H2; cbv zeta; unfold sbind, smodify, sret; rewrite ?Hp;
    try solve [step_done].
  - rewrite tagFilter_onPart_eq. cbv beta iota. cbn [partLength].
    destruct (length =? 0) eqn:El.
    + rewrite Hv, tagFilter_step_valueMarker. cbn [fst snd].
      rewrite tagFilter_delimit_idem. cbn [snd].
      match goal with |- context [set_keeping ?k ?s1] =>
        rewrite (tagFilter_keeps_ext valueChunkMarker (set_keeping k s1) s1) by reflexivity;
        rewrite (tagFilter_keeps_nonempty valueChunkMarker
                   (HeaderPart tag vr length isFmi bigEndian explicitVR bytes) s1)
      end.
      * unfold tagFilter_step; cbn -[tagFilter_delimit tagFilter_keeps Z.eqb].
        rewrite El. step_done.
      * autorewrite with flow. apply thenElement_not_empty.
    + unfold tagFilter_step; cbn -[tagFilter_delimit tagFilter_keeps Z.eqb].
      rewrite El. step_done.
  - rewrite tagFilter_onPart_unmarked. step_done.
  - unfold tagFilter_step; cbn [tagFilter_layers].
    destruct (inFragments s); [rewrite set_tagPath_same|]; step_done.
  - rewrite tagFilter_onPart_unmarked. step_done.
Qed.

(** Binding [this] three levels deep reaches level 3, and any deeper
    binding stays there. *)
Lemma tagFilter_bindThis_resolved (n : nat) : resolved3 (bindThis (3 + n) C).
Proof.
  induction n as [|n IH].
  - apply resolved3_methods, resolved2_methods, resolved1_methods.
  - apply resolved3_methods, IH.
Qed.
End Resolved.

(** ** The stage is the step *)

Section Stage.
Variables (keepCondition : TagPath -> bool) (defaultCondition : option (Part -> bool))
  (warnings : option bool).

(** The default condition when the argument is left out. *)
Definition tagFilter_defCond : Part -> bool :=
  match defaultCondition with None => fun _ => true | Some d => d end.

(** [accept] of the created stage is the flat step. *)
Lemma tagFilter_accept (part : Part) (s : FlowState) :
  accept (tagFilter keepCondition defaultCondition warnings) part s =
    tagFilter_step keepCondition tagFilter_defCond part s.
Proof.
  unfold tagFilter, create; cbn [accept].
  apply tagFilter_methods_step, (tagFilter_bindThis_resolved _ _ _ 0).
Qed.

(** C14: the layered class, with [this] bound as [create] binds it, refines
    the flat step: on every stream and from every state the stage emits
    what the step emits and ends in the state the step ends in. *)
Theorem tagFilter_refines_step (ps : list Part) (s : FlowState) :
  runFrom (tagFilter keepCondition defaultCondition warnings) ps s =
    flatMapM (tagFilter_step keepCondition tagFilter_defCond) ps s.
Proof. apply flatMapM_ext. intros p s'. apply tagFilter_accept. Qed.

(** Of the model, not of the program: [bindThis] unrolls [this] to a
    depth, and unrolling it deeper than [create] does changes no handler,
    so the depth is enough for every part and every state. *)
Lemma tagFilter_this_stable (n : nat) (part : Part) (s : FlowState) :
  handlePart
    (bindThis (thisDepth + n)
       (tagFilterClass keepCondition tagFilter_defCond (default false warnings)))
    part s =
  accept (tagFilter keepCondition defaultCondition warnings) part s.
Proof.
  rewrite tagFilter_accept. apply tagFilter_methods_step, tagFilter_bindThis_resolved.
Qed.

End Stage.

(** ** What a tag filter emits *)

Section Emission.
Variables (keepCondition : TagPath -> bool) (defCond : Part -> bool).

Let step := tagFilter_step keepCondition defCond.
Let keeps := tagFilter_keeps keepCondition defCond.

(** The path at which the verdict on a part is taken. *)
Definition tagFilter_path (part : Part) (s : FlowState) : TagPath :=
  tagPath (tagFilter_layers part s).

Lemma tagFilter_path_eq (part : Part) (s : FlowState) :
  tagFilter_path part s =
    match part with
    | HeaderPart _ _ _ _ _ _ _ | SequencePart _ _ _ _ _ =>
        thenElement (partTag part) (tagPath s)
    | ItemPart _ _ _ _ =>
        if inFragments s then tagPath s else thenItem (partIndex part) (tagPath s)
    | SequenceDelimitationPart _ _ =>
        if inFragments s then tagPath s else thenSequenceEnd (tagPath s)
    | ItemDelimitationPart _ _ _ => thenItemEnd (tagPath s)
    | ValueChunk _ _ | DeflatedChunk _ _ => tagPath s
    end.
Proof.
  unfold tagFilter_path; destruct part; cbn [tagFilter_layers];
    try destruct (inFragments s); flow_frames; reflexivity.
Qed.

Lemma tagFilter_path_not_empty (part : Part) (s : FlowState) :
  tagPath s <> emptyTagPath -> tagFilter_path part s <> emptyTagPath.
Proof.
  intros Hne. rewrite tagFilter_path_eq.
  destruct part; try destruct (inFragments s); auto with flow.
Qed.

Lemma tagFilter_step_out (part : Part) (s : FlowState) :
  fst (step part s) =
    if keeps part (tagFilter_layers part s)
    then (if isDelimitationMarker part then [] else [part]) ++
         (if isHeaderPart part && (partLength part =? 0) then [valueChunkMarker] else [])
    else [].
Proof.
  subst step keeps; unfold tagFilter_step; cbn [fst].
  destruct (tagFilter_keeps _ _ part _), (isDelimitationMarker part); reflexivity.
Qed.

Lemma tagFilter_step_state (part : Part) (s : FlowState) :
  snd (step part s) =
    snd (tagFilter_delimit keepCondition defCond
           (set_keeping (keeps part (tagFilter_layers part s)) (tagFilter_layers part s))).
Proof. reflexivity. Qed.

(** Closing the expired scopes leaves a non-empty path non-empty. *)
Lemma tagFilter_delimit_path (s : FlowState) :
  tagPath s <> emptyTagPath ->
  tagPath (snd (tagFilter_delimit keepCondition defCond s)) <> emptyTagPath.
Proof.
  intros Hne. unfold tagFilter_delimit, delimitWith.
  apply (flatMapM_invariant _ (fun s => tagPath s <> emptyTagPath)); [|exact Hne].
  intros e s' Hs'. unfold deliver.
  destruct (isItemPart (fst e)); cbn; flow_frames;
    try destruct (inFragments s'); auto with flow.
Qed.

(** Once an element was seen the path is never empty again. *)
Lemma tagFilter_step_path (part : Part) (s : FlowState) :
  tagPath s <> emptyTagPath -> tagPath (snd (step part s)) <> emptyTagPath.
Proof.
  intros Hne. rewrite tagFilter_step_state.
  apply tagFilter_delimit_path. cbn. apply tagFilter_path_not_empty, Hne.
Qed.

(** A header or a sequence establishes the path, wherever the stage
    was. *)
Lemma tagFilter_step_establishes (part : Part) (s : FlowState) :
  isHeaderPart part || isSequencePart part = true ->
  tagPath (snd (step part s)) <> emptyTagPath.
Proof.
  intros Hk. rewrite tagFilter_step_state.
  apply tagFilter_delimit_path. cbn. fold (tagFilter_path part s).
  rewrite tagFilter_path_eq. destruct part; try discriminate; auto with flow.
Qed.

(** The default condition is only consulted at the empty path: a step
    from a state whose path is established does not depend on it. *)
Lemma tagFilter_keeps_default (d' : Part -> bool) (part : Part) (s : FlowState) :
  tagPath s <> emptyTagPath ->
  keeps part s = tagFilter_keeps keepCondition d' part s.
Proof.
  intros Hne; subst keeps; unfold tagFilter_keeps.
  rewrite bool_decide_eq_false_2; auto.
Qed.

Lemma tagFilter_delimit_default (d' : Part -> bool) (s : FlowState) :
  tagPath s <> emptyTagPath ->
  tagFilter_delimit keepCondition defCond s = tagFilter_delimit keepCondition d' s.
Proof.
  intros Hne. unfold tagFilter_delimit, delimitWith.
  apply (flatMapM_ext_inv _ _ (fun s => tagPath s <> emptyTagPath)); [|exact Hne].
  intros e s' Hs'. unfold deliver, tagFilter_itemEnd, tagFilter_sequenceEnd.
  destruct (isItemPart (fst e)); cbn [fst snd]; rewrite !tagFilter_onPart_eq; cbn [snd];
    (rewrite (tagFilter_keeps_default d');
     [split; [reflexivity|] |]);
    cbn [tagFilter_layers]; flow_frames; try destruct (inFragments s'); auto with flow.
Qed.

Lemma tagFilter_step_default (d' : Part -> bool) (part : Part) (s : FlowState) :
  tagPath s <> emptyTagPath ->
  step part s = tagFilter_step keepCondition d' part s.
Proof.
  intros Hne. subst step; unfold tagFilter_step.
  fold (keeps part (tagFilter_layers part s)).
  rewrite (tagFilter_keeps_default d') by (apply tagFilter_path_not_empty, Hne).
  rewrite (tagFilter_delimit_default d'); [reflexivity|].
  cbn. apply tagFilter_path_not_empty, Hne.
Qed.

(** Conditions that keep nothing: the step emits nothing. *)
Lemma tagFilter_step_nothing (part : Part) (s : FlowState) :
  (forall t, keepCondition t = false) -> (forall p, defCond p = false) ->
  fst (step part s) = [].
Proof.
  intros Hk Hd. rewrite tagFilter_step_out. subst keeps; unfold tagFilter_keeps.
  rewrite Hk, Hd. destruct (bool_decide _); reflexivity.
Qed.

(** Conditions that keep everything: the step emits the bytes of the
    part. *)
Lemma tagFilter_step_all_bytes (part : Part) (s : FlowState) :
  (forall t, keepCondition t = true) -> (forall p, defCond p = true) ->
  streamBytes (fst (step part s)) = partBytes part.
Proof.
  intros Hk Hd. rewrite tagFilter_step_out. subst keeps; unfold tagFilter_keeps.
  rewrite Hk, Hd, Tauto.if_same, streamBytes_app.
  destruct (isHeaderPart part && (partLength part =? 0)); cbn [streamBytes flat_map];
    rewrite ?app_nil_r; destruct (isDelimitationMarker part) eqn:Em; cbn;
    rewrite ?app_nil_r; try reflexivity; symmetry; apply isDelimitationMarker_bytes, Em.
Qed.

(** A header is judged at the path it opens: when the condition only
    reads the tag of the current step, every header the step emits
    satisfies it. *)
Lemma tagFilter_step_headers (c : Tag -> bool) (part : Part) (s : FlowState) :
  (forall t, keepCondition t = c (pathTag t)) ->
  Forall (fun p => isHeaderPart p = true -> c (partTag p) = true) (fst (step part s)).
Proof.
  intros Hc. rewrite tagFilter_step_out.
  destruct (keeps part (tagFilter_layers part s)) eqn:Ek; [|constructor].
  apply Forall_app; split.
  - destruct (isDelimitationMarker part); repeat constructor. intros Hh.
    subst keeps; unfold tagFilter_keeps in Ek.
    rewrite tagFilter_layers_header_path, bool_decide_eq_false_2 in Ek
      by auto using thenElement_not_empty.
    rewrite Hc, thenElement_tag in Ek. exact Ek.
  - destruct (isHeaderPart part && (partLength part =? 0)); repeat constructor.
    discriminate.
Qed.

End Emission.

(** ** Properties of the stage *)

Section StageProperties.
Variables (keepCondition : TagPath -> bool) (defaultCondition : option (Part -> bool))
  (warnings : option bool).

Let st := tagFilter keepCondition defaultCondition warnings.
Let defCond := tagFilter_defCond defaultCondition.

(** Once the path is established it stays established, whatever
    follows. *)
Theorem tagFilter_path_established (ps : list Part) (s : FlowState) :
  tagPath s <> emptyTagPath -> tagPath (snd (runFrom st ps s)) <> emptyTagPath.
Proof.
  apply (runFrom_invariant st (fun s => tagPath s <> emptyTagPath)).
  intros p s' Hs'. subst st; rewrite tagFilter_accept. apply tagFilter_step_path, Hs'.
Qed.

(** after the first element the default condition plays no part: two
    filters that differ in it (and in the warning flag) emit the same
    parts from any state whose path is established. *)
Theorem tagFilter_default_irrelevant (d' : option (Part -> bool)) (w' : option bool)
    (ps : list Part) (s : FlowState) :
  tagPath s <> emptyTagPath ->
  fst (runFrom st ps s) = fst (runFrom (tagFilter keepCondition d' w') ps s).
Proof.
  intros Hne.
  apply (runFrom_simulation st (tagFilter keepCondition d' w')
           (fun x y => x = y /\ tagPath x <> emptyTagPath)); [|auto].
  intros p x y [<- Hx]. subst st; rewrite !tagFilter_accept.
  rewrite (tagFilter_step_default _ _ (tagFilter_defCond d')) by exact Hx.
  repeat split. apply tagFilter_step_path, Hx.
Qed.

(** A filter whose conditions keep nothing emits nothing. *)
Theorem tagFilter_emits_nothing (ps : list Part) (s : FlowState) :
  (forall t, keepCondition t = false) -> (forall p, defCond p = false) ->
  fst (runFrom st ps s) = [].
Proof.
  intros Hk Hd. apply runFrom_silent. intros p s'.
  subst st; rewrite tagFilter_accept. apply tagFilter_step_nothing; assumption.
Qed.

(** A filter whose conditions keep everything re-serialises to the bytes
    it was given. *)
Theorem tagFilter_keep_all_bytes (ps : list Part) (s : FlowState) :
  (forall t, keepCondition t = true) -> (forall p, defCond p = true) ->
  streamBytes (fst (runFrom st ps s)) = streamBytes ps.
Proof.
  intros Hk Hd. apply (runFrom_bytes st (fun _ => True)); [|exact I].
  intros p s' _; split; [exact I|].
  subst st; rewrite tagFilter_accept. apply tagFilter_step_all_bytes; assumption.
Qed.

(** The stream with the empty value chunk of every element of length
    zero: all a tag filter can emit. *)
Definition withValueEvents (ps : list Part) : list Part :=
  flat_map (fun p => if isHeaderPart p && (partLength p =? 0)
                     then [p; valueChunkMarker] else [p]) ps.

(** A tag filter only drops: what it emits is a subsequence of its input
    with the guaranteed value chunks. *)
Theorem tagFilter_sublist (ps : list Part) (s : FlowState) :
  fst (runFrom st ps s) `sublist_of` withValueEvents ps.
Proof.
  apply runFrom_sublist. intros p s'.
  subst st; rewrite tagFilter_accept, tagFilter_step_out.
  destruct (tagFilter_keeps _ _ p _); [|apply sublist_nil_l].
  destruct (isHeaderPart p && (partLength p =? 0)), (isDelimitationMarker p); cbn;
    repeat first [apply sublist_skip | apply sublist_cons | apply sublist_nil_l].
Qed.

(** No synthesized delimitation leaves the stage. *)
Theorem tagFilter_no_marker (ps : list Part) (s : FlowState) :
  Forall (fun q => isDelimitationMarker q = false) (fst (runFrom st ps s)).
Proof.
  apply (runFrom_Forall st (fun _ => True)); [|exact I].
  intros p s' _; split; [exact I|].
  subst st; rewrite tagFilter_accept, tagFilter_step_out.
  destruct (tagFilter_keeps _ _ p _); [|constructor].
  apply Forall_app; split.
  - destruct (isDelimitationMarker p) eqn:Em; repeat constructor; exact Em.
  - destruct (isHeaderPart p && (partLength p =? 0)); repeat constructor.
Qed.

(** When the condition on paths is a condition on the tag of the current
    step, every header the filter emits satisfies it. *)
Theorem tagFilter_headers_by_tag (c : Tag -> bool) (ps : list Part) (s : FlowState) :
  (forall t, keepCondition t = c (pathTag t)) ->
  Forall (fun p => isHeaderPart p = true -> c (partTag p) = true) (fst (runFrom st ps s)).
Proof.
  intros Hc. apply (runFrom_Forall st (fun _ => True)); [|exact I].
  intros p s' _; split; [exact I|].
  subst st; rewrite tagFilter_accept. apply tagFilter_step_headers, Hc.
Qed.

End StageProperties.

(** ** The four filters *)

(** [whitelistFilter([])] emits nothing. *)
Theorem whitelistFilter_nil (ps : list Part) (s : FlowState) :
  fst (runFrom (whitelistFilter []) ps s) = [].
Proof.
  apply runFrom_silent; intros p s'. unfold whitelistFilter.
  rewrite tagFilter_accept. apply tagFilter_step_nothing; reflexivity.
Qed.

(** [blacklistFilter([])] re-serialises to the bytes it was given. *)
Theorem blacklistFilter_nil_bytes (ps : list Part) (s : FlowState) :
  streamBytes (fst (runFrom (blacklistFilter []) ps s)) = streamBytes ps.
Proof.
  apply (runFrom_bytes _ (fun _ => True)); [|exact I].
  intros p s' _; split; [exact I|]. unfold blacklistFilter.
  rewrite tagFilter_accept. apply tagFilter_step_all_bytes; reflexivity.
Qed.

(** [fmiDiscardFilter] emits no header of the file meta information
    group. *)
Theorem fmiDiscardFilter_headers (ps : list Part) (s : FlowState) :
  Forall (fun p => isHeaderPart p = true -> isFileMetaInformation (partTag p) = false)
    (fst (runFrom fmiDiscardFilter ps s)).
Proof.
  apply (runFrom_Forall _ (fun _ => True)); [|exact I].
  intros p s' _; split; [exact I|]. unfold fmiDiscardFilter. rewrite tagFilter_accept.
  eapply Forall_impl;
    [apply (tagFilter_step_headers _ _ (fun t => negb (isFileMetaInformation t))); reflexivity|].
  intros q Hq Hh; apply negb_true_iff, Hq, Hh.
Qed.

(** [groupLengthDiscardFilter] emits no group-length header but those of
    the file meta information. *)
Theorem groupLengthDiscardFilter_headers (ps : list Part) (s : FlowState) :
  Forall (fun p => isHeaderPart p = true -> isGroupLength (partTag p) = true ->
                   isFileMetaInformation (partTag p) = true)
    (fst (runFrom groupLengthDiscardFilter ps s)).
Proof.
  apply (runFrom_Forall _ (fun _ => True)); [|exact I].
  intros p s' _; split; [exact I|]. unfold groupLengthDiscardFilter. rewrite tagFilter_accept.
  eapply Forall_impl;
    [apply (tagFilter_step_headers _ _
              (fun t => negb (isGroupLength t) || isFileMetaInformation t)); reflexivity|].
  intros q Hq Hh Hg. specialize (Hq Hh); cbv beta in Hq. rewrite Hg in Hq; exact Hq.
Qed.

End TagFilter.

(** ** The filters at the streams of the tests *)

(** An element of length zero gets its empty value chunk before the next
    header. *)
Example tagFilter_empty_value :
  run (tagFilter (fun _ => true) None None)
    [studyDateEmpty; patientNameHeader; patientNameValue] =
  [studyDateEmpty; valueChunkMarker; patientNameHeader; patientNameValue].
Proof. reflexivity. Qed.

(** Blacklisting an element inside an item removes the element and its
    value, and leaves the sequence and the item around it. *)
Example blacklistFilter_element_in_item :
  run (blacklistFilter [path_nameInItem1]) stream_indeterminate =
    [derivationSequence; item1; itemEnd1; sequenceEnd].
Proof. reflexivity. Qed.

(** Whitelisting the same element keeps the item around it, but neither
    the sequence header nor the sequence delimitation: with paths as step
    sequences, the path of a sequence element, whose last step is its
    bare tag, is no prefix of the path of its items, whose step is the
    pair of the tag and the index. *)
Example whitelistFilter_element_in_item :
  run (whitelistFilter [path_nameInItem1]) stream_indeterminate =
    [item1; patientNameHeader; patientNameValue; itemEnd1].
Proof. reflexivity. Qed.

(** Blacklisting an item of a determinate sequence leaves the sequence
    header as it was, with the length of what was removed. *)
Example blacklistFilter_determinate_sequence :
  run (blacklistFilter [path_item1]) stream_determinate = [derivationSequence24].
Proof. reflexivity. Qed.

(** ** The theorems at the paths and streams of the tests *)

Lemma blacklist_drops_descendants_witness :
  blacklist_keepCondition [path_item1] path_nameInItem1 = false.
Proof.
  apply (blacklist_drops_descendants [path_item1] path_item1 path_nameInItem1);
    vm_compute; reflexivity.
Defined.

Lemma whitelist_keeps_ancestors_witness :
  whitelist_keepCondition [path_nameInItem1] path_item1 = true.
Proof.
  apply (whitelist_keeps_ancestors [path_nameInItem1] path_item1 path_nameInItem1);
    vm_compute; reflexivity.
Defined.

Lemma whitelist_keeps_subtree_witness :
  whitelist_keepCondition [path_patientName; path_item1] path_nameInItem1 = true.
Proof.
  apply (whitelist_keeps_subtree _ path_item1); [right; left; reflexivity|].
  vm_compute; reflexivity.
Defined.

Lemma blacklist_dropped_whitelist_kept_witness :
  whitelist_keepCondition [path_item1] path_nameInItem1 = true.
Proof. apply blacklist_dropped_whitelist_kept; vm_compute; reflexivity. Defined.

Lemma whitelist_blacklist_overlap_witness :
  whitelist_keepCondition [path_nameInItem1] path_item1 = true /\
  blacklist_keepCondition [path_nameInItem1] path_item1 = true.
Proof. apply whitelist_blacklist_overlap; vm_compute; reflexivity. Defined.

Lemma tagFilter_onPart_default_witness :
  tagFilter_onPart (blacklist_keepCondition [path_item1]) (fun _ => true) patientNameValue
    (set_tagPath path_patientName rawObject) =
  tagFilter_onPart (blacklist_keepCondition [path_item1]) (fun _ => false) patientNameValue
    (set_tagPath path_patientName rawObject).
Proof. apply tagFilter_onPart_default; discriminate. Defined.

Lemma tagFilter_onPart_blacklist_drops_witness :
  fst (tagFilter_onPart (blacklist_keepCondition [path_item1]) (fun _ => true)
         patientNameValue (set_tagPath path_nameInItem1 rawObject)) = [].
Proof.
  apply (tagFilter_onPart_blacklist_drops _ path_item1);
    [left; reflexivity | vm_compute; reflexivity | discriminate].
Defined.

Lemma tagFilter_onPart_whitelist_keeps_witness :
  fst (tagFilter_onPart (whitelist_keepCondition [path_nameInItem1]) (fun _ => false)
         item1 (set_tagPath path_item1 rawObject)) = [item1].
Proof.
  apply (tagFilter_onPart_whitelist_keeps _ path_nameInItem1);
    [left; reflexivity | discriminate | right; vm_compute; reflexivity].
Defined.

Lemma tagFilter_path_established_witness :
  tagPath (snd (runFrom (blacklistFilter [path_patientName]) stream_indeterminate
                  (set_tagPath path_sequence rawObject))) <> emptyTagPath.
Proof. unfold blacklistFilter. apply tagFilter_path_established. discriminate. Defined.

Lemma tagFilter_default_irrelevant_witness :
  fst (runFrom (blacklistFilter [path_patientName]) stream_elements
         (set_tagPath path_sequence rawObject)) =
  fst (runFrom (tagFilter (blacklist_keepCondition [path_patientName])
                  (Some (fun _ => false)) (Some true)) stream_elements
         (set_tagPath path_sequence rawObject)).
Proof. unfold blacklistFilter. apply tagFilter_default_irrelevant. discriminate. Defined.

Lemma tagFilter_emits_nothing_witness :
  fst (runFrom (tagFilter (fun _ => false) (Some (fun _ => false)) None)
         stream_indeterminate rawObject) = [].
Proof. apply tagFilter_emits_nothing; reflexivity. Defined.

Lemma tagFilter_keep_all_bytes_witness :
  streamBytes (fst (runFrom (tagFilter (fun _ => true) None None)
                      stream_determinate rawObject)) =
    streamBytes stream_determinate.
Proof. apply tagFilter_keep_all_bytes; reflexivity. Defined.

Lemma tagFilter_headers_by_tag_witness :
  Forall (fun p => isHeaderPart p = true -> negb (isFileMetaInformation (partTag p)) = true)
    (fst (runFrom (tagFilter fmiDiscard_keepCondition None None)
            [fmiGroupLength; patientNameHeader; patientNameValue] rawObject)).
Proof.
  apply (tagFilter_headers_by_tag _ _ _ (fun t => negb (isFileMetaInformation t)));
    reflexivity.
Defined.
