(* ===== verification/IndeterminateLength.v ===== *)
(** * IndeterminateLength: [toIndeterminateLengthSequences] of [dicom-flows.js]

    The stage rewrites every sequence and every item (but the items of a
    fragment sequence) to indeterminate length and supplies the
    delimitations that such scopes need.  It is the class
    [GuaranteedDelimitationEvents(InFragments(IdentityFlow))] extended
    with a constructor and four handlers, each of which calls its [super]
    and then edits what came back.

    The handlers are defined, and first proved, over any [super] handler:
    those statements are about the code of the class alone.  The class and
    the stage come after, with [super] the layers of [DicomFlow]. *)

From S2P Require Import Prelude Base Parts TagPath DicomFlow Fixtures.

(** ** The handlers *)

(** [base.concat(part.bytes.slice(0, part.bytes.length - 4),
    this.indeterminateBytes)]: the header of [part] with its length field
    replaced. *)
Definition toIndeterminateBytes (part : Part) (this : FlowState) : Bytes :=
  slice (partBytes part) 0 (blen (partBytes part) - 4) ++ indeterminateBytes this.

(** The constructor: [super()], then the field. *)
Definition toIndeterminateLengthSequences_constructor (Super : FlowClass)
  : FlowState -> FlowState :=
  fun s => set_indeterminateBytes [xff; xff; xff; xff] (construct Super s).

(** The function [onSequence] maps over what [super] returned: a
    determinate sequence part is replaced by one built from the fields of
    [part], the argument of the handler. *)
Definition onSequence_rewrite (part : Part) (this : FlowState) (p : Part) : Part :=
  if isSequencePart p && negb (indeterminate p) then
    SequencePart (partTag part) indeterminateLength (partBigEndian part)
      (partExplicitVR part) (toIndeterminateBytes part this)
  else p.

Definition toIndeterminateLengthSequences_onSequence (super_onSequence : Handler)
  : Handler :=
  fun part =>
    let* out := super_onSequence part in
    let* this := sget in
    sret (map (onSequence_rewrite part this) out).

(** [onSequenceDelimitation]: a delimitation without bytes gets an encoded
    one pushed after what [super] returned. *)
Definition toIndeterminateLengthSequences_onSequenceDelimitation
    (super_onSequenceDelimitation : Handler) : Handler :=
  fun part =>
    let* out := super_onSequenceDelimitation part in
    sret (if blen (partBytes part) <=? 0
          then out ++ [SequenceDelimitationPart (partBigEndian part)
                         (sequenceDelimitation (partBigEndian part))]
          else out).

(** The function [onItem] maps over what [super] returned: as for
    sequences, unless the object is in fragments when the replacement is
    made. *)
Definition onItem_rewrite (part : Part) (this : FlowState) (p : Part) : Part :=
  if isItemPart p && negb (inFragments this) && negb (indeterminate p) then
    ItemPart (partIndex part) indeterminateLength (partBigEndian part)
      (toIndeterminateBytes part this)
  else p.

Definition toIndeterminateLengthSequences_onItem (super_onItem : Handler) : Handler :=
  fun part =>
    let* out := super_onItem part in
    let* this := sget in
    sret (map (onItem_rewrite part this) out).

(** [onItemDelimitation]: as [onSequenceDelimitation]. *)
Definition toIndeterminateLengthSequences_onItemDelimitation
    (super_onItemDelimitation : Handler) : Handler :=
  fun part =>
    let* out := super_onItemDelimitation part in
    sret (if blen (partBytes part) <=? 0
          then out ++ [ItemDelimitationPart (partIndex part) (partBigEndian part)
                         (itemDelimitation (partBigEndian part))]
          else out).

(** ** The class and the stage *)

Section Class.
Context `{Dictionary}.

Definition toIndeterminateLengthSequencesClass : FlowClass :=
  let Super := GuaranteedDelimitationEvents (InFragments IdentityFlow) in
  mkClass (toIndeterminateLengthSequences_constructor Super)
    (fun this =>
       let sup := methods Super this in
       with_onSequence
         (toIndeterminateLengthSequences_onSequence (onSequence sup))
         (with_onSequenceDelimitation
            (toIndeterminateLengthSequences_onSequenceDelimitation
               (onSequenceDelimitation sup))
            (with_onItem
               (toIndeterminateLengthSequences_onItem (onItem sup))
               (with_onItemDelimitation
                  (toIndeterminateLengthSequences_onItemDelimitation
                     (onItemDelimitation sup))
                  sup)))).

Definition toIndeterminateLengthSequences : Stage FlowState :=
  create toIndeterminateLengthSequencesClass.

End Class.

(** ** The rewritten header bytes *)

Section Bytes.
Variables (part : Part) (this : FlowState).
Hypothesis sentinel : indeterminateBytes this = [xff; xff; xff; xff].

(** C32: a header of at least four bytes keeps its length and all but its
    last four bytes, which become the sentinel. *)
Theorem toIndeterminateBytes_length :
  4 <= blen (partBytes part) ->
  toIndeterminateBytes part this =
    take (Z.to_nat (blen (partBytes part) - 4)) (partBytes part) ++ [xff; xff; xff; xff] /\
  blen (toIndeterminateBytes part this) = blen (partBytes part).
Proof.
  intros Hl. unfold toIndeterminateBytes.
  rewrite sentinel, slice_drop_last by (pose proof (blen_nonneg (partBytes part)); lia).
  split; [reflexivity|]. rewrite blen_app, blen_take.
  change (blen [xff; xff; xff; xff]) with 4. rewrite Z2Nat.id by lia. lia.
Qed.

(** C39: a header of fewer than four bytes does not: the end of the slice
    counts from the end of the buffer once more. *)
Theorem toIndeterminateBytes_short :
  blen (partBytes part) < 4 ->
  blen (toIndeterminateBytes part this) = Z.max (2 * blen (partBytes part) - 4) 0 + 4.
Proof.
  intros Hl. unfold toIndeterminateBytes.
  rewrite blen_app, blen_slice_short, sentinel by exact Hl. reflexivity.
Qed.

End Bytes.

(** ** The handlers, over any [super] *)

Section Handlers.
Variable sup : Handler.

Lemma onSequence_eq (part : Part) (s : FlowState) :
  toIndeterminateLengthSequences_onSequence sup part s =
    (map (onSequence_rewrite part (snd (sup part s))) (fst (sup part s)), snd (sup part s)).
Proof.
  unfold toIndeterminateLengthSequences_onSequence, sbind, sget, sret.
  destruct (sup part s); reflexivity.
Qed.

Lemma onItem_eq (part : Part) (s : FlowState) :
  toIndeterminateLengthSequences_onItem sup part s =
    (map (onItem_rewrite part (snd (sup part s))) (fst (sup part s)), snd (sup part s)).
Proof.
  unfold toIndeterminateLengthSequences_onItem, sbind, sget, sret.
  destruct (sup part s); reflexivity.
Qed.

Lemma onSequence_rewrite_indeterminate (part : Part) (this : FlowState) (p : Part) :
  isSequencePart (onSequence_rewrite part this p) = true ->
  indeterminate (onSequence_rewrite part this p) = true.
Proof.
  unfold onSequence_rewrite.
  destruct (isSequencePart p) eqn:Ep, (indeterminate p) eqn:Ei; cbn; congruence.
Qed.

Lemma onSequence_rewrite_id (part : Part) (this : FlowState) (p : Part) :
  (isSequencePart p = true -> indeterminate p = true) ->
  onSequence_rewrite part this p = p.
Proof.
  unfold onSequence_rewrite. intros Hp.
  destruct (isSequencePart p); [rewrite Hp by reflexivity|]; reflexivity.
Qed.

Lemma onItem_rewrite_id (part : Part) (this : FlowState) (p : Part) :
  inFragments this = true \/ (isItemPart p = true -> indeterminate p = true) ->
  onItem_rewrite part this p = p.
Proof.
  unfold onItem_rewrite. intros [->|Hp]; [rewrite andb_false_r; reflexivity|].
  destruct (isItemPart p); [rewrite Hp, andb_false_r by reflexivity|]; reflexivity.
Qed.

(** C25: no determinate sequence part leaves [onSequence], whatever [super]
    returned. *)
Theorem onSequence_indeterminate (part : Part) (s : FlowState) :
  Forall (fun p => isSequencePart p = true -> indeterminate p = true)
    (fst (toIndeterminateLengthSequences_onSequence sup part s)).
Proof.
  rewrite onSequence_eq; cbn [fst]. apply Forall_map, Forall_forall.
  intros p _; apply onSequence_rewrite_indeterminate.
Qed.

(** Outside fragments no determinate item part leaves [onItem]. *)
Theorem onItem_indeterminate (part : Part) (s : FlowState) :
  inFragments (snd (sup part s)) = false ->
  Forall (fun p => isItemPart p = true -> indeterminate p = true)
    (fst (toIndeterminateLengthSequences_onItem sup part s)).
Proof.
  intros Hf. rewrite onItem_eq; cbn [fst]. apply Forall_map, Forall_forall.
  intros p _. cbn. unfold onItem_rewrite. rewrite Hf.
  destruct (isItemPart p) eqn:Ep, (indeterminate p) eqn:Ei; cbn; congruence.
Qed.

(** C31: in fragments [onItem] is [super.onItem]: the items of a fragment
    sequence are not rewritten. *)
Theorem onItem_fragments (part : Part) (s : FlowState) :
  inFragments (snd (sup part s)) = true ->
  toIndeterminateLengthSequences_onItem sup part s = sup part s.
Proof.
  intros Hf. rewrite onItem_eq. apply injective_projections; [|reflexivity].
  apply map_fixed, Forall_forall. intros p _; apply onItem_rewrite_id; auto.
Qed.

(** When [super] returns no determinate sequence part, [onSequence]
    changes nothing: the rewriting is idempotent. *)
Theorem onSequence_idempotent (part : Part) (s : FlowState) :
  Forall (fun p => isSequencePart p = true -> indeterminate p = true) (fst (sup part s)) ->
  toIndeterminateLengthSequences_onSequence sup part s = sup part s.
Proof.
  intros Hi. rewrite onSequence_eq. apply injective_projections; [|reflexivity].
  apply map_fixed. eapply Forall_impl; [exact Hi|].
  intros p Hp; apply onSequence_rewrite_id, Hp.
Qed.

(** The same for [onItem]. *)
Theorem onItem_idempotent (part : Part) (s : FlowState) :
  Forall (fun p => isItemPart p = true -> indeterminate p = true) (fst (sup part s)) ->
  toIndeterminateLengthSequences_onItem sup part s = sup part s.
Proof.
  intros Hi. rewrite onItem_eq. apply injective_projections; [|reflexivity].
  apply map_fixed. eapply Forall_impl; [exact Hi|].
  intros p Hp; apply onItem_rewrite_id; auto.
Qed.

(** [onSequence] edits in place: the state is the one [super] left, and
    what [super] returned is changed only where it held a determinate
    sequence part. *)
Theorem onSequence_in_place (part : Part) (s : FlowState) :
  snd (toIndeterminateLengthSequences_onSequence sup part s) = snd (sup part s) /\
  Forall2 (fun p q => q = p \/ (isSequencePart p = true /\ indeterminate p = false))
    (fst (sup part s)) (fst (toIndeterminateLengthSequences_onSequence sup part s)).
Proof.
  rewrite onSequence_eq; split; [reflexivity|]; cbn [fst].
  apply Forall2_fmap_r, Forall_Forall2_diag, Forall_forall. intros p _.
  unfold onSequence_rewrite, compose.
  destruct (isSequencePart p), (indeterminate p); cbn; auto.
Qed.

(** C37: the replacement is built from the handler's argument, not from the
    part it replaces: whatever determinate sequence part [super] returned,
    the tag, byte order and header bytes emitted are those of [part]. *)
Theorem onSequence_rebuilds_from_part (part q : Part) (s s' : FlowState) :
  sup part s = ([q], s') -> isSequencePart q = true -> indeterminate q = false ->
  toIndeterminateLengthSequences_onSequence sup part s =
    ([SequencePart (partTag part) indeterminateLength (partBigEndian part)
        (partExplicitVR part) (toIndeterminateBytes part s')], s').
Proof.
  intros Hs Hq Hi. rewrite onSequence_eq, Hs; cbn.
  unfold onSequence_rewrite. rewrite Hq, Hi. reflexivity.
Qed.

(** A delimitation without bytes is followed by an encoded delimitation
    in its byte order; one with bytes is left as [super] returned it. *)
Lemma onSequenceDelimitation_out (part : Part) (s : FlowState) :
  toIndeterminateLengthSequences_onSequenceDelimitation sup part s =
    (fst (sup part s) ++
       (if bool_decide (partBytes part = [])
        then [SequenceDelimitationPart (partBigEndian part)
                (sequenceDelimitation (partBigEndian part))]
        else []),
     snd (sup part s)).
Proof.
  unfold toIndeterminateLengthSequences_onSequenceDelimitation, sbind, sret.
  destruct (sup part s) as [out s']; cbn [fst snd].
  destruct (partBytes part); cbn; rewrite ?app_nil_r; reflexivity.
Qed.

Lemma onItemDelimitation_out (part : Part) (s : FlowState) :
  toIndeterminateLengthSequences_onItemDelimitation sup part s =
    (fst (sup part s) ++
       (if bool_decide (partBytes part = [])
        then [ItemDelimitationPart (partIndex part) (partBigEndian part)
                (itemDelimitation (partBigEndian part))]
        else []),
     snd (sup part s)).
Proof.
  unfold toIndeterminateLengthSequences_onItemDelimitation, sbind, sret.
  destruct (sup part s) as [out s']; cbn [fst snd].
  destruct (partBytes part); cbn; rewrite ?app_nil_r; reflexivity.
Qed.

(** C38: what the two delimitation handlers add to the bytes of the stream:
    the eight bytes of the delimitation item, in the byte order of the
    part, after a delimitation that came without bytes, and nothing after
    one that came with its bytes. *)
Theorem onDelimitation_bytes (part : Part) (s : FlowState) :
  streamBytes (fst (toIndeterminateLengthSequences_onSequenceDelimitation sup part s)) =
    streamBytes (fst (sup part s)) ++
    (if bool_decide (partBytes part = [])
     then sequenceDelimitation (partBigEndian part) else []) /\
  streamBytes (fst (toIndeterminateLengthSequences_onItemDelimitation sup part s)) =
    streamBytes (fst (sup part s)) ++
    (if bool_decide (partBytes part = [])
     then itemDelimitation (partBigEndian part) else []).
Proof.
  rewrite onSequenceDelimitation_out, onItemDelimitation_out; cbn [fst].
  rewrite !streamBytes_app. destruct (partBytes part); cbn; rewrite ?app_nil_r; auto.
Qed.

End Handlers.

(** ** The stage, flat *)

Section Stage.
Context `{Dictionary}.

(** What the object answers a synthesized delimitation with, when no
    scope is expired: the encoded delimitation, little endian as the
    synthesized one is. *)
Definition toIndeterminate_itemEnd (index : Z) : State FlowState (list Part) :=
  fun s => ([ItemDelimitationPart index false (itemDelimitation false)], s).

Definition toIndeterminate_sequenceEnd : State FlowState (list Part) :=
  fun s => ([SequenceDelimitationPart false (sequenceDelimitation false)],
            set_inFragments false s).

Definition toIndeterminate_delimit : State FlowState (list Part) :=
  delimitWith toIndeterminate_itemEnd toIndeterminate_sequenceEnd.

(** What the layers do to the state before the expired scopes are
    closed. *)
Definition toIndeterminate_layers (part : Part) (s : FlowState) : FlowState :=
  match part with
  | HeaderPart _ _ _ _ _ _ _ => enterFragments part (consume part s)
  | SequencePart _ _ _ _ _ => pushScope part s
  | ItemPart _ _ _ _ => if inFragments s then consume part s else pushScope part s
  | SequenceDelimitationPart _ _ =>
      set_inFragments false
        (consume part (popScope (fun s => negb (inFragments s)) part s))
  | ItemDelimitationPart _ _ _ => consume part (popScope (fun _ => true) part s)
  | ValueChunk _ _ | DeflatedChunk _ _ => consume part s
  end.

(** The part as it leaves the stage, given the delimitations [ds] closing
    the scopes it exhausted and the state [this] they left. *)
Definition toIndeterminate_emit (part : Part) (this : FlowState) (ds : list Part)
  : list Part :=
  match part with
  | SequencePart _ _ _ _ _ => onSequence_rewrite part this part :: ds
  | ItemPart _ _ _ _ => onItem_rewrite part this part :: ds
  | SequenceDelimitationPart bigEndian bytes =>
      if bool_decide (bytes = [])
      then ds ++ [SequenceDelimitationPart bigEndian (sequenceDelimitation bigEndian)]
      else part :: ds
  | ItemDelimitationPart index bigEndian bytes =>
      if bool_decide (bytes = [])
      then ds ++ [ItemDelimitationPart index bigEndian (itemDelimitation bigEndian)]
      else part :: ds
  | _ => part :: ds
  end.

(** One step of the stage. *)
Definition toIndeterminate_step (part : Part) : State FlowState (list Part) :=
  fun s =>
    let r := toIndeterminate_delimit (toIndeterminate_layers part s) in
    (toIndeterminate_emit part (snd r) (fst r), snd r).

(** [this] answers synthesized delimitations as the class does. *)
Definition toIndeterminate_resolved (this : Flow) : Prop :=
  (forall i s, quiet s ->
     onItemDelimitation this (ItemDelimitationPart i false []) s =
       toIndeterminate_itemEnd i s) /\
  (forall s, quiet s ->
     onSequenceDelimitation this (SequenceDelimitationPart false []) s =
       toIndeterminate_sequenceEnd s).

Lemma toIndeterminate_methods_resolved (this : Flow) :
  toIndeterminate_resolved (methods toIndeterminateLengthSequencesClass this).
Proof.
  split.
  - intros i s Hq. cbn. rewrite onItemDelimitation_out.
    rewrite closeScope_marker by (reflexivity || exact Hq). reflexivity.
  - intros s Hq. cbn. rewrite onSequenceDelimitation_out.
    rewrite closeScope_marker by (reflexivity || exact Hq). reflexivity.
Qed.

Lemma toIndeterminate_delimit_quiet (s : FlowState) :
  quiet (snd (toIndeterminate_delimit s)).
Proof. apply delimitWith_quiet; intros; eapply quiet_stack; eauto; reflexivity. Qed.

Lemma maybeDelimit_toIndeterminate (this : Flow) (s : FlowState) :
  toIndeterminate_resolved this -> maybeDelimit this s = toIndeterminate_delimit s.
Proof.
  intros [HI HS]. apply maybeDelimit_resolved.
  - intros i s' Hq; split; [apply HI, Hq | exact Hq].
  - intros s' Hq; split; [apply HS, Hq | revert Hq; apply quiet_stack; reflexivity].
Qed.

(** The delimitations the stage makes are encoded ones. *)
Definition isEncodedDelimitation (d : Part) : bool :=
  match d with
  | SequenceDelimitationPart bigEndian bytes =>
      bool_decide (bytes = sequenceDelimitation bigEndian)
  | ItemDelimitationPart _ bigEndian bytes =>
      bool_decide (bytes = itemDelimitation bigEndian)
  | _ => false
  end.

Lemma isEncodedDelimitation_kind (d : Part) :
  isEncodedDelimitation d = true ->
  isSequencePart d = false /\ isItemPart d = false /\ isDelimitationMarker d = false /\
  blen (partBytes d) = 8.
Proof.
  destruct d as [| | |be b| |i be b|]; try discriminate; cbn;
    intros ->%bool_decide_eq_true; destruct be; repeat split.
Qed.

Lemma toIndeterminate_delimit_out (s : FlowState) :
  Forall (fun d => isEncodedDelimitation d = true) (fst (toIndeterminate_delimit s)).
Proof.
  unfold toIndeterminate_delimit, delimitWith.
  apply (flatMapM_Forall _ (fun _ => True)); [|exact I].
  intros e s' _; split; [exact I|]. unfold deliver.
  destruct (isItemPart (fst e)); repeat constructor.
Qed.

Lemma onSequence_rewrite_delimit (part : Part) (this s : FlowState) :
  map (onSequence_rewrite part this) (fst (toIndeterminate_delimit s)) =
    fst (toIndeterminate_delimit s).
Proof.
  apply map_fixed. eapply Forall_impl; [apply toIndeterminate_delimit_out|].
  intros d (Hs & _)%isEncodedDelimitation_kind. apply onSequence_rewrite_id. congruence.
Qed.

Lemma onItem_rewrite_delimit (part : Part) (this s : FlowState) :
  map (onItem_rewrite part this) (fst (toIndeterminate_delimit s)) =
    fst (toIndeterminate_delimit s).
Proof.
  apply map_fixed. eapply Forall_impl; [apply toIndeterminate_delimit_out|].
  intros d (_ & Hi & _)%isEncodedDelimitation_kind. apply onItem_rewrite_id.
  right; congruence.
Qed.

(** Over a resolved [this], every handler of the class is the step. *)
Lemma toIndeterminate_methods_step (this : Flow) (part : Part) (s : FlowState) :
  toIndeterminate_resolved this ->
  handlePart (methods toIndeterminateLengthSequencesClass this) part s =
    toIndeterminate_step part s.
Proof.
  intros Hr. unfold toIndeterminate_step.
  destruct part; cbn -[Z.leb];
    rewrite ?onSequence_eq, ?onItem_eq, ?onSequenceDelimitation_out, ?onItemDelimitation_out;
    try destruct (inFragments s) eqn:Ef;
    rewrite ?subtractAndEmit_eq, ?openScope_eq, ?closeScope_eq; cbv zeta;
    rewrite ?maybeDelimit_toIndeterminate by exact Hr;
    cbn [IdentityFlow methods onHeader onValueChunk onSequence onSequenceDelimitation
         onItem onItemDelimitation onDeflatedChunk with_onHeader
         with_onSequenceDelimitation InFragments fst snd sbind smodify sret app map
         partBytes partBigEndian partIndex];
    unfold sbind, smodify, sret; cbn [fst snd app map];
    rewrite ?onSequence_rewrite_delimit, ?onItem_rewrite_delimit;
    try reflexivity.
  all: destruct bytes; cbn; rewrite ?app_nil_r; reflexivity.
Qed.

Lemma toIndeterminate_bindThis_resolved (n : nat) :
  toIndeterminate_resolved (bindThis (1 + n) toIndeterminateLengthSequencesClass).
Proof. apply toIndeterminate_methods_resolved. Qed.

Lemma toIndeterminate_accept (part : Part) (s : FlowState) :
  accept toIndeterminateLengthSequences part s = toIndeterminate_step part s.
Proof.
  apply toIndeterminate_methods_step, (toIndeterminate_bindThis_resolved 2).
Qed.

(** The layered class, with [this] bound as [create] binds it, refines
    the flat step: on every stream and from every state the stage emits
    what the step emits and ends in the state the step ends in. *)
Theorem toIndeterminateLengthSequences_refines_step (ps : list Part) (s : FlowState) :
  runFrom toIndeterminateLengthSequences ps s = flatMapM toIndeterminate_step ps s.
Proof. apply flatMapM_ext. intros p s'. apply toIndeterminate_accept. Qed.

(** Binding [this] deeper than two levels changes no handler: the depth
    [create] uses is enough for every part and every state. *)
Theorem toIndeterminateLengthSequences_this_stable (n : nat) (part : Part)
    (s : FlowState) :
  handlePart (bindThis (2 + n) toIndeterminateLengthSequencesClass) part s =
    accept toIndeterminateLengthSequences part s.
Proof.
  rewrite toIndeterminate_accept.
  apply toIndeterminate_methods_step, toIndeterminate_bindThis_resolved.
Qed.

(** *** The fragment flag *)

Lemma toIndeterminate_layers_inFragments (part : Part) (s : FlowState) :
  inFragments (toIndeterminate_layers part s) =
    if isHeaderPart part then isFragments part || inFragments s
    else if isSequenceDelimitationPart part then false else inFragments s.
Proof.
  destruct part; cbn [toIndeterminate_layers isHeaderPart isSequenceDelimitationPart];
    try destruct (inFragments s) eqn:Ef; flow_frames; auto.
  all: unfold enterFragments; destruct (isFragments _); cbn; flow_frames; auto.
Qed.

Lemma toIndeterminate_delimit_inFragments (s : FlowState) :
  inFragments s = false -> inFragments (snd (toIndeterminate_delimit s)) = false.
Proof.
  intros Hf. unfold toIndeterminate_delimit, delimitWith.
  apply (flatMapM_invariant _ (fun s => inFragments s = false)); [|exact Hf].
  intros e s' Hs'. unfold deliver. destruct (isItemPart (fst e)); [exact Hs' | reflexivity].
Qed.

(** *** What the stage emits *)

(** A property of parts that holds of the encoded delimitations and of
    the part as rewritten holds of all the step emits. *)
Lemma toIndeterminate_step_Forall (P : Part -> Prop) (part : Part) (s : FlowState) :
  (forall d, isEncodedDelimitation d = true -> P d) ->
  (isSequencePart part = false -> isItemPart part = false ->
   isDelimitationMarker part = false -> P part) ->
  (isSequencePart part = true ->
   P (onSequence_rewrite part (snd (toIndeterminate_step part s)) part)) ->
  (isItemPart part = true ->
   P (onItem_rewrite part (snd (toIndeterminate_step part s)) part)) ->
  Forall P (fst (toIndeterminate_step part s)).
Proof.
  intros Hd Hp Hsr Hir. unfold toIndeterminate_step in *; cbn [fst snd] in *.
  pose proof (toIndeterminate_delimit_out (toIndeterminate_layers part s)) as Hds.
  eapply Forall_impl in Hds; [|exact Hd].
  destruct part; cbn [toIndeterminate_emit]; try (constructor; auto; fail);
    destruct bytes; cbn; try (constructor; auto; fail);
    apply Forall_app; split; auto; repeat constructor; apply Hd; cbn;
    apply bool_decide_eq_true; reflexivity.
Qed.

Lemma toIndeterminate_runFrom_Forall (P : Part -> Prop) (ps : list Part) (s : FlowState) :
  (forall d, isEncodedDelimitation d = true -> P d) ->
  (forall part, isSequencePart part = false -> isItemPart part = false ->
                isDelimitationMarker part = false -> P part) ->
  (forall part this, isSequencePart part = true -> P (onSequence_rewrite part this part)) ->
  (forall part this, isItemPart part = true -> P (onItem_rewrite part this part)) ->
  Forall P (fst (runFrom toIndeterminateLengthSequences ps s)).
Proof.
  intros Hd Hp Hsr Hir. apply (runFrom_Forall _ (fun _ => True)); [|exact I].
  intros p s' _; split; [exact I|]. rewrite toIndeterminate_accept.
  apply toIndeterminate_step_Forall; auto.
Qed.

Lemma toIndeterminate_step_inFragments (part : Part) (s : FlowState) :
  inFragments s = false -> isFragments part = false ->
  inFragments (snd (toIndeterminate_step part s)) = false.
Proof.
  intros Hs Hp. apply toIndeterminate_delimit_inFragments.
  rewrite toIndeterminate_layers_inFragments, Hs, Hp. repeat case_if; reflexivity.
Qed.

Lemma onItem_rewrite_kind (part : Part) (this : FlowState) :
  isItemPart part = true ->
  isItemPart (onItem_rewrite part this part) = true /\
  isSequencePart (onItem_rewrite part this part) = false /\
  isDelimitationMarker (onItem_rewrite part this part) = false.
Proof. destruct part; try discriminate; unfold onItem_rewrite; cbn; case_if; auto. Qed.

Lemma onSequence_rewrite_kind (part : Part) (this : FlowState) :
  isSequencePart part = true ->
  isSequencePart (onSequence_rewrite part this part) = true /\
  isItemPart (onSequence_rewrite part this part) = false /\
  isDelimitationMarker (onSequence_rewrite part this part) = false.
Proof. destruct part; try discriminate; unfold onSequence_rewrite; cbn; case_if; auto. Qed.

(** No determinate sequence leaves the stage. *)
Theorem toIndeterminateLengthSequences_sequences (ps : list Part) (s : FlowState) :
  Forall (fun p => isSequencePart p = true -> indeterminate p = true)
    (fst (runFrom toIndeterminateLengthSequences ps s)).
Proof.
  apply toIndeterminate_runFrom_Forall.
  - intros d (Hs & _)%isEncodedDelimitation_kind; congruence.
  - congruence.
  - intros part this _; apply onSequence_rewrite_indeterminate.
  - intros part this (_ & Hs & _)%(onItem_rewrite_kind _ this); congruence.
Qed.

(** No delimitation without bytes leaves the stage: one that comes in is
    replaced by an encoded one. *)
Theorem toIndeterminateLengthSequences_no_marker (ps : list Part) (s : FlowState) :
  Forall (fun p => isDelimitationMarker p = false)
    (fst (runFrom toIndeterminateLengthSequences ps s)).
Proof.
  apply toIndeterminate_runFrom_Forall; auto.
  - intros d Hd; apply isEncodedDelimitation_kind, Hd.
  - intros part this Hs; apply onSequence_rewrite_kind, Hs.
  - intros part this Hi; apply onItem_rewrite_kind, Hi.
Qed.

(** Outside fragments no determinate item leaves the stage: on a stream
    without a header that opens fragments, from a state that is not in
    fragments, every item emitted is indeterminate. *)
Theorem toIndeterminateLengthSequences_items (ps : list Part) (s : FlowState) :
  inFragments s = false -> Forall (fun p => isFragments p = false) ps ->
  Forall (fun p => isItemPart p = true -> indeterminate p = true)
    (fst (runFrom toIndeterminateLengthSequences ps s)).
Proof.
  intros Hs Hps. unfold runFrom.
  rewrite (flatMapM_ext _ toIndeterminate_step) by apply toIndeterminate_accept.
  apply (flatMapM_Forall_on _ (fun p => isFragments p = false)
           (fun s => inFragments s = false)); auto.
  intros p s' Hp Hs'. pose proof (toIndeterminate_step_inFragments p s' Hs' Hp) as Hf.
  split; [exact Hf|]. apply toIndeterminate_step_Forall.
  - intros d (_ & Hi & _)%isEncodedDelimitation_kind; congruence.
  - congruence.
  - intros (_ & Hi & _)%(onSequence_rewrite_kind _ (snd (toIndeterminate_step p s'))).
    congruence.
  - intros Hi _. destruct p; try discriminate. unfold onItem_rewrite; rewrite Hf; cbn.
    destruct (length =? indeterminateLength) eqn:E; cbn; auto.
Qed.

(** *** A second pass

    What the stage emits is a stream it leaves alone.  The second pass
    runs on [settled] states, whose open scopes are all indeterminate:
    nothing counts down there and nothing expires. *)

Definition settled (s : FlowState) : Prop :=
  Forall (fun e => indeterminate (fst e) = true) (partStack s).

(** The parts a settled stage passes unchanged, in or out of
    fragments. *)
Definition isStable (inFragments : bool) (p : Part) : bool :=
  match p with
  | SequencePart _ _ _ _ _ => indeterminate p
  | ItemPart _ _ _ _ => inFragments || indeterminate p
  | SequenceDelimitationPart _ _ | ItemDelimitationPart _ _ _ =>
      negb (isDelimitationMarker p)
  | _ => true
  end.

Lemma settled_stack (s s' : FlowState) :
  partStack s' = partStack s -> settled s -> settled s'.
Proof. unfold settled; intros ->; auto. Qed.

Lemma settled_quiet (s : FlowState) : settled s -> quiet s.
Proof.
  intros Hs; eapply Forall_impl; [exact Hs|].
  intros e He; unfold expired; rewrite He; reflexivity.
Qed.

Lemma settled_subtractLength (part : Part) (stack : list (Part * Z)) :
  Forall (fun e => indeterminate (fst e) = true) stack ->
  subtractLength part stack = stack.
Proof.
  intros Hs. unfold subtractLength. apply map_fixed.
  eapply Forall_impl; [exact Hs|]. intros e ->; reflexivity.
Qed.

Lemma settled_consume (part : Part) (s : FlowState) : settled s -> consume part s = s.
Proof.
  intros Hs. unfold consume. rewrite settled_subtractLength by exact Hs.
  apply set_partStack_same.
Qed.

Lemma settled_pushScope (part : Part) (s : FlowState) :
  indeterminate part = true -> settled s -> settled (pushScope part s).
Proof.
  intros Hi Hs. unfold settled, pushScope; cbn.
  rewrite settled_subtractLength by exact Hs. constructor; assumption.
Qed.

Lemma settled_popScope (guard : FlowState -> bool) (part : Part) (s : FlowState) :
  settled s -> settled (popScope guard part s).
Proof.
  intros Hs. unfold popScope; case_if; [|exact Hs].
  unfold settled in *; cbn. destruct (partStack s); [constructor|].
  eapply Forall_inv_tail, Hs.
Qed.

Lemma settled_layers (part : Part) (s : FlowState) :
  settled s -> isStable (inFragments s) part = true ->
  settled (toIndeterminate_layers part s).
Proof.
  intros Hs Hp. destruct part; cbn [toIndeterminate_layers isStable] in *;
    rewrite ?settled_consume by auto using settled_popScope;
    auto using settled_pushScope, settled_popScope.
  - eapply settled_stack; [apply enterFragments_partStack | exact Hs].
  - eapply settled_stack; [|apply settled_popScope, Hs]; reflexivity.
  - destruct (inFragments s); [exact Hs | apply settled_pushScope; assumption].
Qed.

(** On a settled state a stable part passes alone and unchanged. *)
Lemma toIndeterminate_step_settled (part : Part) (s : FlowState) :
  settled s -> isStable (inFragments s) part = true ->
  toIndeterminate_step part s = ([part], toIndeterminate_layers part s).
Proof.
  intros Hs Hp. pose proof (settled_layers part s Hs Hp) as Hl.
  unfold toIndeterminate_step, toIndeterminate_delimit.
  rewrite delimitWith_quiet_id by apply settled_quiet, Hl. cbn [fst snd].
  f_equal. destruct part; cbn [toIndeterminate_emit isStable] in *; try reflexivity.
  - rewrite onSequence_rewrite_id; auto.
  - rewrite bool_decide_eq_false_2; [reflexivity|].
    intros ->. discriminate.
  - rewrite onItem_rewrite_id; [reflexivity|].
    cbn [toIndeterminate_layers]. destruct (inFragments s) eqn:Ef; flow_frames; auto.
  - rewrite bool_decide_eq_false_2; [reflexivity|].
    intros ->. discriminate.
Qed.

(** The two passes side by side: the first is between two parts (no
    scope is expired), the second is settled, and they agree on being in
    fragments. *)
Definition inStep (s1 s2 : FlowState) : Prop :=
  quiet s1 /\ inFragments s2 = inFragments s1 /\ settled s2.

Lemma toIndeterminate_replay_one (p : Part) (s2 : FlowState) :
  settled s2 -> isStable (inFragments s2) p = true ->
  flatMapM toIndeterminate_step [p] s2 = ([p], toIndeterminate_layers p s2).
Proof.
  intros Hs Hp. rewrite flatMapM_cons, toIndeterminate_step_settled by assumption.
  reflexivity.
Qed.

(** The second pass leaves the delimitations of the first alone. *)
Lemma toIndeterminate_replay_delimit (s1 s2 : FlowState) :
  inFragments s2 = inFragments s1 -> settled s2 ->
  fst (flatMapM toIndeterminate_step (fst (toIndeterminate_delimit s1)) s2) =
    fst (toIndeterminate_delimit s1) /\
  inStep (snd (toIndeterminate_delimit s1))
    (snd (flatMapM toIndeterminate_step (fst (toIndeterminate_delimit s1)) s2)).
Proof.
  intros Hf Hs. unfold toIndeterminate_delimit, delimitWith.
  apply (flatMapM_replay _ _ inStep); [|split; [apply quiet_filter | auto]].
  intros e a b (Hq & Hfab & Hsb). unfold deliver.
  destruct (isItemPart (fst e));
    cbn [toIndeterminate_itemEnd toIndeterminate_sequenceEnd fst snd];
    rewrite toIndeterminate_replay_one by auto; cbn [fst snd];
    (split; [reflexivity|]); repeat split;
    try (apply settled_layers; [exact Hsb | reflexivity]);
    try (revert Hq; apply quiet_stack; reflexivity);
    rewrite toIndeterminate_layers_inFragments; cbn; auto.
Qed.

(** ... and a stable part followed by them. *)
Lemma toIndeterminate_replay_cons (p : Part) (s1 s2 : FlowState) :
  settled s2 -> isStable (inFragments s2) p = true ->
  inFragments (toIndeterminate_layers p s2) = inFragments s1 ->
  fst (flatMapM toIndeterminate_step (p :: fst (toIndeterminate_delimit s1)) s2) =
    p :: fst (toIndeterminate_delimit s1) /\
  inStep (snd (toIndeterminate_delimit s1))
    (snd (flatMapM toIndeterminate_step (p :: fst (toIndeterminate_delimit s1)) s2)).
Proof.
  intros Hs Hp Hf. rewrite flatMapM_cons, toIndeterminate_step_settled by assumption.
  cbn [fst snd].
  destruct (toIndeterminate_replay_delimit s1 (toIndeterminate_layers p s2)) as [-> HR];
    auto using settled_layers.
Qed.

Lemma onSequence_rewrite_stable (part : Part) (this : FlowState) (b : bool) :
  isSequencePart part = true -> isStable b (onSequence_rewrite part this part) = true.
Proof.
  destruct part; try discriminate; intros _. unfold onSequence_rewrite; cbn.
  destruct (length =? indeterminateLength) eqn:E; cbn; auto.
Qed.

Lemma onItem_rewrite_stable (part : Part) (this : FlowState) (b : bool) :
  isItemPart part = true -> b = true \/ inFragments this = false ->
  isStable b (onItem_rewrite part this part) = true.
Proof.
  destruct part; try discriminate; intros _ Hb. unfold onItem_rewrite; cbn.
  destruct (inFragments this) eqn:Ef, (length =? indeterminateLength) eqn:E; cbn;
    rewrite ?E; destruct Hb as [->|Hb]; try discriminate; auto using orb_true_r.
Qed.

(** A sequence or an item, rewritten or not, moves the fragment flag as
    little as the original. *)
Lemma toIndeterminate_layers_scope (p : Part) (s : FlowState) :
  isSequencePart p || isItemPart p = true ->
  inFragments (toIndeterminate_layers p s) = inFragments s.
Proof.
  intros Hp. rewrite toIndeterminate_layers_inFragments.
  destruct p; try discriminate; reflexivity.
Qed.

Lemma toIndeterminate_replay_sequence (p : Part) (s1 s2 : FlowState) :
  isSequencePart p = true -> inStep s1 s2 ->
  fst (flatMapM toIndeterminate_step (fst (toIndeterminate_step p s1)) s2) =
    fst (toIndeterminate_step p s1) /\
  inStep (snd (toIndeterminate_step p s1))
    (snd (flatMapM toIndeterminate_step (fst (toIndeterminate_step p s1)) s2)).
Proof.
  intros Hp (Hq & Hf & Hs). unfold toIndeterminate_step at 2 3 4; cbn [fst snd].
  destruct p; try discriminate; cbn [toIndeterminate_emit].
  apply toIndeterminate_replay_cons; auto using onSequence_rewrite_stable.
  rewrite !toIndeterminate_layers_scope; auto.
  apply orb_true_iff; left; apply onSequence_rewrite_kind; reflexivity.
Qed.

Lemma toIndeterminate_replay_item (p : Part) (s1 s2 : FlowState) :
  isItemPart p = true -> inStep s1 s2 ->
  fst (flatMapM toIndeterminate_step (fst (toIndeterminate_step p s1)) s2) =
    fst (toIndeterminate_step p s1) /\
  inStep (snd (toIndeterminate_step p s1))
    (snd (flatMapM toIndeterminate_step (fst (toIndeterminate_step p s1)) s2)).
Proof.
  intros Hp (Hq & Hf & Hs). unfold toIndeterminate_step at 2 3 4; cbn [fst snd].
  destruct p; try discriminate; cbn [toIndeterminate_emit].
  apply toIndeterminate_replay_cons; auto.
  - apply onItem_rewrite_stable; [reflexivity|].
    destruct (inFragments s2) eqn:E2; [left; reflexivity | right].
    apply toIndeterminate_delimit_inFragments.
    rewrite toIndeterminate_layers_scope by reflexivity. congruence.
  - rewrite !toIndeterminate_layers_scope; auto.
    apply orb_true_iff; right; apply onItem_rewrite_kind; reflexivity.
Qed.

Lemma toIndeterminate_replay_plain (p : Part) (s1 s2 : FlowState) :
  isSequencePart p = false -> isItemPart p = false -> isDelimitationMarker p = false ->
  inStep s1 s2 ->
  fst (flatMapM toIndeterminate_step (fst (toIndeterminate_step p s1)) s2) =
    fst (toIndeterminate_step p s1) /\
  inStep (snd (toIndeterminate_step p s1))
    (snd (flatMapM toIndeterminate_step (fst (toIndeterminate_step p s1)) s2)).
Proof.
  intros Hps Hpi Hpm (Hq & Hf & Hs).
  assert (Hemit : forall this ds, toIndeterminate_emit p this ds = p :: ds).
  { intros this ds. destruct p; try discriminate; try reflexivity;
      destruct bytes; try discriminate; reflexivity. }
  replace (toIndeterminate_step p s1)
    with (p :: fst (toIndeterminate_delimit (toIndeterminate_layers p s1)),
          snd (toIndeterminate_delimit (toIndeterminate_layers p s1)))
    by (unfold toIndeterminate_step; rewrite Hemit; reflexivity).
  cbn [fst snd]. apply toIndeterminate_replay_cons; auto.
  - destruct p; try discriminate; cbn [isStable]; rewrite ?Hpm; reflexivity.
  - rewrite !toIndeterminate_layers_inFragments, Hf. reflexivity.
Qed.

Lemma toIndeterminate_step_marker (p : Part) (s : FlowState) :
  isDelimitationMarker p = true -> quiet s ->
  exists d, isEncodedDelimitation d = true /\
    isSequenceDelimitationPart d = isSequenceDelimitationPart p /\
    toIndeterminate_step p s = ([d], toIndeterminate_layers p s) /\
    partStack (toIndeterminate_layers p s) = partStack s.
Proof.
  intros Hm Hq.
  assert (Hst : partStack (toIndeterminate_layers p s) = partStack s).
  { destruct p; try discriminate; cbn [toIndeterminate_layers];
      rewrite popScope_marker, consume_empty
        by auto using isDelimitationMarker_bytes; reflexivity. }
  unfold toIndeterminate_step, toIndeterminate_delimit.
  rewrite delimitWith_quiet_id by (revert Hq; apply quiet_stack, Hst).
  destruct p as [| | |be b| |i be b|]; try discriminate;
    apply isDelimitationMarker_bytes in Hm as Hb; cbn in Hb; subst b;
    eexists; cbn; (split; [|split; [|split; [reflexivity | exact Hst]]]);
    cbn; auto using bool_decide_eq_true_2.
Qed.

Lemma toIndeterminate_replay_marker (p : Part) (s1 s2 : FlowState) :
  isDelimitationMarker p = true -> inStep s1 s2 ->
  fst (flatMapM toIndeterminate_step (fst (toIndeterminate_step p s1)) s2) =
    fst (toIndeterminate_step p s1) /\
  inStep (snd (toIndeterminate_step p s1))
    (snd (flatMapM toIndeterminate_step (fst (toIndeterminate_step p s1)) s2)).
Proof.
  intros Hm (Hq & Hf & Hs).
  destruct (toIndeterminate_step_marker p s1 Hm Hq) as (d & Hd & Hk & -> & Hst).
  pose proof (isEncodedDelimitation_kind d Hd) as (Hds & Hdi & Hdm & _).
  cbn [fst snd]. rewrite toIndeterminate_replay_one; auto.
  - split; [reflexivity|]. split; [|split].
    + revert Hq; apply quiet_stack, Hst.
    + cbn [snd]. rewrite !toIndeterminate_layers_inFragments, Hf, Hk.
      destruct d, p; try discriminate; reflexivity.
    + apply settled_layers; [exact Hs|]. destruct d; try discriminate; cbn; rewrite Hdm; auto.
  - destruct d; try discriminate; cbn; rewrite Hdm; auto.
Qed.

(** One step of the first pass, replayed by the second. *)
Lemma toIndeterminate_replay_step (p : Part) (s1 s2 : FlowState) :
  inStep s1 s2 ->
  fst (flatMapM toIndeterminate_step (fst (toIndeterminate_step p s1)) s2) =
    fst (toIndeterminate_step p s1) /\
  inStep (snd (toIndeterminate_step p s1))
    (snd (flatMapM toIndeterminate_step (fst (toIndeterminate_step p s1)) s2)).
Proof.
  intros HR.
  destruct (isSequencePart p) eqn:Es; [apply toIndeterminate_replay_sequence; auto|].
  destruct (isItemPart p) eqn:Ei; [apply toIndeterminate_replay_item; auto|].
  destruct (isDelimitationMarker p) eqn:Em;
    [apply toIndeterminate_replay_marker | apply toIndeterminate_replay_plain]; auto.
Qed.

Lemma toIndeterminate_initial :
  inStep (initial toIndeterminateLengthSequences) (initial toIndeterminateLengthSequences).
Proof. repeat split; constructor. Qed.

(** C6: the stage is idempotent: run over its own output it changes nothing,
    rewrites no length and makes no delimitation. *)
Theorem toIndeterminateLengthSequences_idempotent (ps : list Part) :
  run toIndeterminateLengthSequences (run toIndeterminateLengthSequences ps) =
    run toIndeterminateLengthSequences ps.
Proof.
  unfold run, runFrom.
  repeat rewrite (flatMapM_ext (accept _) toIndeterminate_step)
    by apply toIndeterminate_accept.
  apply (flatMapM_replay _ _ inStep toIndeterminate_replay_step ps _ _
           toIndeterminate_initial).
Qed.

End Stage.

(** ** The theorems at the streams of the tests *)

(** A [super] that passes its part, as [IdentityFlow] does. *)
Definition passThrough : Handler := fun p => sret [p].

(** The object as the constructor leaves it, out of and in fragments. *)
Definition ready : FlowState :=
  toIndeterminateLengthSequences_constructor IdentityFlow rawObject.

Definition readyInFragments : FlowState := set_inFragments true ready.

(** A sequence header cut to three bytes. *)
Definition shortSequence : Part :=
  SequencePart Tag_DerivationCodeSequence 24 false true [x08; x00; x15].

(** The determinate sequence with its item and element: both scopes come
    out indeterminate, the bytes of the element unchanged, and each scope
    is closed by an encoded delimitation where its length ran out. *)
Example toIndeterminateLengthSequences_determinate :
  run toIndeterminateLengthSequences stream_determinate =
    [SequencePart Tag_DerivationCodeSequence indeterminateLength false true
       [x08; x00; x15; x92; x53; x51; x00; x00; xff; xff; xff; xff];
     ItemPart 1 indeterminateLength false [xfe; xff; x00; xe0; xff; xff; xff; xff];
     patientNameHeader; patientNameValue;
     ItemDelimitationPart 1 false (itemDelimitation false);
     SequenceDelimitationPart false (sequenceDelimitation false)].
Proof. reflexivity. Qed.

(** The items of a fragment sequence are left as they are. *)
Example toIndeterminateLengthSequences_fragments :
  run toIndeterminateLengthSequences stream_fragments = stream_fragments.
Proof. reflexivity. Qed.

Lemma toIndeterminateBytes_length_witness :
  toIndeterminateBytes derivationSequence24 ready =
    take (Z.to_nat (blen (partBytes derivationSequence24) - 4))
      (partBytes derivationSequence24) ++ [xff; xff; xff; xff] /\
  blen (toIndeterminateBytes derivationSequence24 ready) =
    blen (partBytes derivationSequence24).
Proof. apply toIndeterminateBytes_length; [reflexivity | vm_compute; discriminate]. Defined.

Lemma toIndeterminateBytes_short_witness :
  blen (toIndeterminateBytes shortSequence ready) =
    Z.max (2 * blen (partBytes shortSequence) - 4) 0 + 4.
Proof. apply toIndeterminateBytes_short; reflexivity. Defined.

Lemma onItem_indeterminate_witness :
  Forall (fun p => isItemPart p = true -> indeterminate p = true)
    (fst (toIndeterminateLengthSequences_onItem passThrough item16 ready)).
Proof. apply onItem_indeterminate; reflexivity. Defined.

Lemma onItem_fragments_witness :
  toIndeterminateLengthSequences_onItem passThrough (item4 1) readyInFragments =
    passThrough (item4 1) readyInFragments.
Proof. apply onItem_fragments; reflexivity. Defined.

Lemma onSequence_idempotent_witness :
  toIndeterminateLengthSequences_onSequence passThrough derivationSequence ready =
    passThrough derivationSequence ready.
Proof. apply onSequence_idempotent. repeat constructor. Defined.

Lemma onItem_idempotent_witness :
  toIndeterminateLengthSequences_onItem passThrough item1 ready = passThrough item1 ready.
Proof. apply onItem_idempotent. repeat constructor. Defined.

Lemma onSequence_rebuilds_from_part_witness :
  toIndeterminateLengthSequences_onSequence (fun _ => sret [derivationSequence24])
    shortSequence ready =
    ([SequencePart (partTag shortSequence) indeterminateLength (partBigEndian shortSequence)
        (partExplicitVR shortSequence) (toIndeterminateBytes shortSequence ready)], ready).
Proof. apply (onSequence_rebuilds_from_part _ _ derivationSequence24); reflexivity. Defined.

Lemma toIndeterminateLengthSequences_items_witness :
  Forall (fun p => isItemPart p = true -> indeterminate p = true)
    (fst (runFrom toIndeterminateLengthSequences stream_determinate ready)).
Proof. apply toIndeterminateLengthSequences_items; [reflexivity | repeat constructor]. Defined.
