(* ===== verification/Framing.v ===== *)
(** * Framing: lengths that agree with bytes, and scopes that get closed

    Two promises of [toIndeterminateLengthSequences] that are about the
    framing of the stream it emits rather than about single handlers.

    - The tokenizer hands over parts whose declared length is consistent
      with their raw bytes.  [lengthConsistent] says so for sequences and
      items, whose length is the last four bytes of their header in the
      byte order of the part.  The stage keeps the promise: what it
      rewrites is consistent whatever it was before, what it passes is as
      consistent as it came.
    - A scope of determinate length has no delimitation in the stream.
      The stage rewrites its header to indeterminate length, so it owes
      the delimitation: once the declared length is consumed, the encoded
      delimitation of the scope has been emitted
      ([toIndeterminateLengthSequences_closes]), and in every reachable
      state the scopes emitted and not yet closed are the scopes on the
      stack ([toIndeterminateLengthSequences_balanced]).
    - The stage has nothing to do on a stream that is framed already:
      its fixed points are the stable streams, those with indeterminate
      sequences and items and with the bytes of every delimitation
      ([toIndeterminateLengthSequences_fixpoints]). *)

From S2P Require Import Prelude Base Parts TagPath DicomFlow Fixtures IndeterminateLength.

(** ** The length field of a header *)

(** An unsigned integer from its bytes, in either byte order. *)
Definition bytesToUInt (bigEndian : bool) (b : Bytes) : Z :=
  fold_right (fun x acc => Z.of_N (Byte.to_N x) + 256 * acc) 0
    (if bigEndian then rev b else b).

(** The last four bytes of the header of a sequence or an item. *)
Definition lengthField (p : Part) : Bytes :=
  drop (length (partBytes p) - 4) (partBytes p).

(** The declared length of a sequence or an item is the one its bytes
    encode. *)
Definition lengthConsistent (p : Part) : bool :=
  if isSequencePart p || isItemPart p
  then (4 <=? blen (partBytes p))
       && (bytesToUInt (partBigEndian p) (lengthField p) =? partLength p)
  else true.

(** The delimitation that closes a scope when the stage has to make it:
    the answer of the object to the synthesized delimitation event. *)
Definition closing (scope : Part) : Part :=
  if isItemPart scope
  then ItemDelimitationPart (partIndex scope) false (itemDelimitation false)
  else SequenceDelimitationPart false (sequenceDelimitation false).

(** Scopes opened and delimitations made, counted in a stream. *)
Definition opens (ps : list Part) : Z :=
  Z.of_nat (length (List.filter (fun p => isSequencePart p || isItemPart p) ps)).

Definition closes (ps : list Part) : Z :=
  Z.of_nat (length (List.filter
    (fun p => isSequenceDelimitationPart p || isItemDelimitationPart p) ps)).

(** ** Consistency of the rewritten headers *)

Section Consistency.
Variable this : FlowState.
Hypothesis sentinel : indeterminateBytes this = [xff; xff; xff; xff].

Lemma bytesToUInt_sentinel (bigEndian : bool) :
  bytesToUInt bigEndian [xff; xff; xff; xff] = indeterminateLength.
Proof. destruct bigEndian; reflexivity. Qed.

Lemma lengthField_toIndeterminateBytes (part : Part) :
  drop (length (toIndeterminateBytes part this) - 4) (toIndeterminateBytes part this) =
    [xff; xff; xff; xff] /\
  4 <= blen (toIndeterminateBytes part this).
Proof.
  unfold toIndeterminateBytes. rewrite sentinel. split.
  - rewrite length_app; cbn [length].
    replace (_ + 4 - 4)%nat with (length (slice (partBytes part) 0 (blen (partBytes part) - 4)))
      by lia.
    apply drop_app_length.
  - rewrite blen_app. change (blen [xff; xff; xff; xff]) with 4.
    pose proof (blen_nonneg (slice (partBytes part) 0 (blen (partBytes part) - 4))). lia.
Qed.

(** What [onSequence] puts in the place of a determinate sequence is
    consistent, whatever the part it was built from. *)
Lemma onSequence_rewrite_consistent (part p : Part) :
  lengthConsistent p = true ->
  lengthConsistent (onSequence_rewrite part this p) = true.
Proof.
  intros Hp. unfold onSequence_rewrite. case_if; [|exact Hp].
  destruct (lengthField_toIndeterminateBytes part) as [Hf Hl].
  unfold lengthConsistent, lengthField.
  cbn [isSequencePart isItemPart orb partBytes partBigEndian partLength].
  rewrite Hf, bytesToUInt_sentinel, Z.eqb_refl, andb_true_r. apply Z.leb_le, Hl.
Qed.

Lemma onItem_rewrite_consistent (part p : Part) :
  lengthConsistent p = true ->
  lengthConsistent (onItem_rewrite part this p) = true.
Proof.
  intros Hp. unfold onItem_rewrite. case_if; [|exact Hp].
  destruct (lengthField_toIndeterminateBytes part) as [Hf Hl].
  unfold lengthConsistent, lengthField.
  cbn [isSequencePart isItemPart orb partBytes partBigEndian partLength].
  rewrite Hf, bytesToUInt_sentinel, Z.eqb_refl, andb_true_r. apply Z.leb_le, Hl.
Qed.

End Consistency.

(** ** The handlers, over any [super] *)

Section Handlers.
Variable sup : Handler.

(** C17: the four handlers keep declared lengths consistent with bytes:
    when what [super] returns is consistent, so is what the handler
    returns; the headers [onSequence] and [onItem] put in place of
    determinate ones declare the indeterminate length that their last
    four bytes encode, in either byte order, and the delimitations pushed
    open no scope. *)
Theorem handlers_keep_lengths_consistent (part : Part) (s : FlowState) :
  indeterminateBytes (snd (sup part s)) = [xff; xff; xff; xff] ->
  Forall (fun p => lengthConsistent p = true) (fst (sup part s)) ->
  Forall (fun p => lengthConsistent p = true)
    (fst (toIndeterminateLengthSequences_onSequence sup part s)) /\
  Forall (fun p => lengthConsistent p = true)
    (fst (toIndeterminateLengthSequences_onItem sup part s)) /\
  Forall (fun p => lengthConsistent p = true)
    (fst (toIndeterminateLengthSequences_onSequenceDelimitation sup part s)) /\
  Forall (fun p => lengthConsistent p = true)
    (fst (toIndeterminateLengthSequences_onItemDelimitation sup part s)).
Proof.
  intros Hs Hout.
  rewrite onSequence_eq, onItem_eq, onSequenceDelimitation_out, onItemDelimitation_out.
  cbn [fst]. rewrite !Forall_map. repeat split.
  - eapply Forall_impl; [exact Hout|]. intros p; apply onSequence_rewrite_consistent, Hs.
  - eapply Forall_impl; [exact Hout|]. intros p; apply onItem_rewrite_consistent, Hs.
  - apply Forall_app; split; [exact Hout|]. case_if; repeat constructor.
  - apply Forall_app; split; [exact Hout|]. case_if; repeat constructor.
Qed.

End Handlers.

(** ** What closing the expired scopes emits and leaves *)

Section Closing.
Context `{Dictionary}.

Lemma deliver_closing (l : list (Part * Z)) (s : FlowState) :
  fst (flatMapM (deliver toIndeterminate_itemEnd toIndeterminate_sequenceEnd) l s) =
    map (fun e => closing (fst e)) l /\
  partStack (snd (flatMapM (deliver toIndeterminate_itemEnd toIndeterminate_sequenceEnd) l s)) =
    partStack s /\
  indeterminateBytes
    (snd (flatMapM (deliver toIndeterminate_itemEnd toIndeterminate_sequenceEnd) l s)) =
    indeterminateBytes s.
Proof.
  revert s; induction l as [|e l IH]; intros s; [auto|].
  rewrite flatMapM_cons; cbn [fst snd map].
  destruct (IH (snd (deliver toIndeterminate_itemEnd toIndeterminate_sequenceEnd e s)))
    as (-> & -> & ->).
  unfold deliver, closing; destruct (isItemPart (fst e)); auto.
Qed.

(** The stage closes exactly the expired scopes, each with the encoded
    delimitation of its kind, innermost first, and keeps the others. *)
Lemma toIndeterminate_delimit_eq (s : FlowState) :
  fst (toIndeterminate_delimit s) =
    map (fun e => closing (fst e)) (List.filter expired (partStack s)) /\
  partStack (snd (toIndeterminate_delimit s)) =
    List.filter (fun e => negb (expired e)) (partStack s) /\
  indeterminateBytes (snd (toIndeterminate_delimit s)) = indeterminateBytes s.
Proof.
  unfold toIndeterminate_delimit, delimitWith.
  destruct (deliver_closing (List.filter expired (partStack s))
              (set_partStack (List.filter (fun e => negb (expired e)) (partStack s)) s))
    as (-> & -> & ->); auto.
Qed.

Lemma toIndeterminate_layers_indeterminateBytes (part : Part) (s : FlowState) :
  indeterminateBytes (toIndeterminate_layers part s) = indeterminateBytes s.
Proof.
  destruct part; cbn [toIndeterminate_layers]; try destruct (inFragments s);
    flow_frames; reflexivity.
Qed.

Lemma toIndeterminate_step_indeterminateBytes (part : Part) (s : FlowState) :
  indeterminateBytes (snd (toIndeterminate_step part s)) = indeterminateBytes s.
Proof.
  unfold toIndeterminate_step; cbn [snd].
  destruct (toIndeterminate_delimit_eq (toIndeterminate_layers part s)) as (_ & _ & ->).
  apply toIndeterminate_layers_indeterminateBytes.
Qed.

(** ** The stage keeps lengths consistent *)

Lemma lengthConsistent_encoded (d : Part) :
  isEncodedDelimitation d = true -> lengthConsistent d = true.
Proof.
  intros (Hs & Hi & _)%isEncodedDelimitation_kind.
  unfold lengthConsistent; rewrite Hs, Hi; reflexivity.
Qed.

Lemma toIndeterminate_step_consistent (part : Part) (s : FlowState) :
  indeterminateBytes s = [xff; xff; xff; xff] -> lengthConsistent part = true ->
  Forall (fun p => lengthConsistent p = true) (fst (toIndeterminate_step part s)).
Proof.
  intros Hs Hp.
  pose proof (toIndeterminate_step_indeterminateBytes part s) as Hs'. rewrite Hs in Hs'.
  apply toIndeterminate_step_Forall;
    auto using lengthConsistent_encoded, onSequence_rewrite_consistent,
               onItem_rewrite_consistent.
Qed.

(** The stage keeps the promise of the tokenizer: on a stream of parts
    whose declared length is the one their bytes encode, every part it
    emits is such a part; the headers it rewrote declare the
    indeterminate length their last four bytes now encode. *)
Theorem toIndeterminateLengthSequences_consistent (ps : list Part) (s : FlowState) :
  indeterminateBytes s = [xff; xff; xff; xff] ->
  Forall (fun p => lengthConsistent p = true) ps ->
  Forall (fun p => lengthConsistent p = true)
    (fst (runFrom toIndeterminateLengthSequences ps s)).
Proof.
  intros Hs Hps. unfold runFrom.
  rewrite (flatMapM_ext _ toIndeterminate_step) by apply toIndeterminate_accept.
  apply (flatMapM_Forall_on _ (fun p => lengthConsistent p = true)
           (fun s => indeterminateBytes s = [xff; xff; xff; xff])); auto.
  intros p s' Hp Hs'. split; [|apply toIndeterminate_step_consistent; assumption].
  rewrite toIndeterminate_step_indeterminateBytes. exact Hs'.
Qed.

End Closing.

(** ** Every determinate scope is closed *)

Section Liveness.
Context `{Dictionary}.

(** The entry a part that opens a scope puts on the stack. *)
Definition pushed (p : Part) (s : FlowState) : list (Part * Z) :=
  if isSequencePart p || (isItemPart p && negb (inFragments s))
  then [(p, partLength p)] else [].

(** A part that is no delimitation consumes its bytes from every open
    scope and pops none. *)
Lemma toIndeterminate_layers_stack (p : Part) (s : FlowState) :
  isSequenceDelimitationPart p || isItemDelimitationPart p = false ->
  partStack (toIndeterminate_layers p s) = pushed p s ++ subtractLength p (partStack s).
Proof.
  unfold pushed. destruct p; try discriminate; intros _;
    cbn [toIndeterminate_layers isSequencePart isItemPart orb andb];
    try destruct (inFragments s); flow_frames; reflexivity.
Qed.

Lemma subtractLength_length (p : Part) (stack : list (Part * Z)) :
  length (subtractLength p stack) = length stack.
Proof. apply length_map. Qed.

Lemma subtractLength_In (p : Part) (stack : list (Part * Z)) (e : Part * Z) :
  In e stack -> indeterminate (fst e) = false ->
  In (fst e, snd e - blen (partBytes p)) (subtractLength p stack).
Proof.
  intros He Hd. unfold subtractLength.
  apply in_map_iff. exists e. rewrite Hd. auto.
Qed.

(** One step: the scope is closed now, or it stays open with the bytes
    of the part taken off what it is owed. *)
Lemma toIndeterminate_step_closes (p : Part) (s : FlowState) (e : Part * Z) :
  isSequenceDelimitationPart p || isItemDelimitationPart p = false ->
  In e (partStack s) -> indeterminate (fst e) = false ->
  (snd e <= blen (partBytes p) /\
   In (closing (fst e)) (fst (toIndeterminate_step p s))) \/
  (blen (partBytes p) < snd e /\
   In (fst e, snd e - blen (partBytes p)) (partStack (snd (toIndeterminate_step p s)))).
Proof.
  intros Hp He Hd.
  assert (In (fst e, snd e - blen (partBytes p))
            (partStack (toIndeterminate_layers p s))) as He'.
  { rewrite toIndeterminate_layers_stack by exact Hp.
    apply in_or_app; right. apply subtractLength_In; assumption. }
  unfold toIndeterminate_step; cbn [fst snd].
  destruct (toIndeterminate_delimit_eq (toIndeterminate_layers p s)) as (Hout & Hst & _).
  rewrite Hout, Hst.
  destruct (Z_le_gt_dec (snd e) (blen (partBytes p))) as [Hle | Hgt]; [left | right].
  - split; [exact Hle|].
    assert (In (closing (fst e))
              (map (fun e0 => closing (fst e0))
                 (List.filter expired (partStack (toIndeterminate_layers p s))))) as Hc.
    { apply in_map_iff. exists (fst e, snd e - blen (partBytes p)).
      split; [reflexivity|]. apply filter_In; split; [exact He'|].
      unfold expired; cbn [fst snd]. rewrite Hd. apply Z.leb_le. lia. }
    destruct p; try discriminate; cbn [toIndeterminate_emit]; right; exact Hc.
  - split; [lia|]. apply filter_In; split; [exact He'|].
    unfold expired; cbn [fst snd]. rewrite Hd; cbn. apply negb_true_iff, Z.leb_gt. lia.
Qed.

(** C9: a scope of determinate length is closed once its length is
    consumed: if the scope is open with bytes still owed, then after any
    stream without delimitations whose bytes make up what is owed, the
    stage has emitted the encoded delimitation of the scope. *)
Theorem toIndeterminateLengthSequences_closes (ps : list Part) (s : FlowState)
    (e : Part * Z) :
  In e (partStack s) -> indeterminate (fst e) = false -> 0 < snd e ->
  Forall (fun p => isSequenceDelimitationPart p || isItemDelimitationPart p = false) ps ->
  snd e <= blen (streamBytes ps) ->
  In (closing (fst e)) (fst (runFrom toIndeterminateLengthSequences ps s)).
Proof.
  intros He Hd H0 Hps. unfold runFrom.
  rewrite (flatMapM_ext _ toIndeterminate_step) by apply toIndeterminate_accept.
  revert s e He Hd H0; induction Hps as [|p ps Hp _ IH]; intros s e He Hd H0 Hle.
  - change (blen (streamBytes [])) with 0 in Hle. lia.
  - rewrite flatMapM_cons; cbn [fst]. apply in_or_app.
    destruct (toIndeterminate_step_closes p s e Hp He Hd) as [[_ Hc] | [Hgt He']];
      [left; exact Hc | right].
    rewrite streamBytes_cons, blen_app in Hle.
    apply (IH _ (fst e, snd e - blen (partBytes p))); cbn [fst snd];
      [exact He' | exact Hd | lia | lia].
Qed.

End Liveness.

(** ** The stack mirrors the output *)

Section Balance.
Context `{Dictionary}.

Lemma opens_app (ps qs : list Part) : opens (ps ++ qs) = opens ps + opens qs.
Proof. unfold opens. rewrite List.filter_app, length_app. lia. Qed.

Lemma closes_app (ps qs : list Part) : closes (ps ++ qs) = closes ps + closes qs.
Proof. unfold closes. rewrite List.filter_app, length_app. lia. Qed.

Lemma closing_counts (l : list (Part * Z)) :
  opens (map (fun e => closing (fst e)) l) = 0 /\
  closes (map (fun e => closing (fst e)) l) = Z.of_nat (length l).
Proof.
  induction l as [|e l [IHo IHc]]; [split; reflexivity|].
  change (map (fun e0 => closing (fst e0)) (e :: l))
    with ([closing (fst e)] ++ map (fun e0 => closing (fst e0)) l).
  rewrite opens_app, closes_app, IHo, IHc. cbn [length].
  unfold closing; destruct (isItemPart (fst e)); split; unfold opens, closes; cbn; lia.
Qed.

(** The part as it leaves the stage opens a scope iff it opened one as
    it came, and closes none. *)
Lemma toIndeterminate_emit_counts (p : Part) (this : FlowState) (ds : list Part) :
  isSequenceDelimitationPart p || isItemDelimitationPart p = false ->
  opens (toIndeterminate_emit p this ds) =
    (if isSequencePart p || isItemPart p then 1 else 0) + opens ds /\
  closes (toIndeterminate_emit p this ds) = closes ds.
Proof.
  destruct p; try discriminate; intros _; cbn [toIndeterminate_emit];
    match goal with |- context [?q :: ds] => change (q :: ds) with ([q] ++ ds) end;
    rewrite opens_app, closes_app; split; try reflexivity.
  - destruct (onSequence_rewrite_kind (SequencePart tag length bigEndian explicitVR bytes)
                this eq_refl) as (Hs & Hi & _).
    unfold opens, closes; cbn. rewrite Hs; reflexivity.
  - destruct (onSequence_rewrite_kind (SequencePart tag length bigEndian explicitVR bytes)
                this eq_refl) as (Hs & Hi & _).
    unfold onSequence_rewrite; case_if; reflexivity.
  - destruct (onItem_rewrite_kind (ItemPart index length bigEndian bytes) this eq_refl)
      as (Hi & Hs & _).
    unfold opens; cbn. rewrite Hi, orb_true_r; reflexivity.
  - unfold onItem_rewrite; case_if; reflexivity.
Qed.

Lemma toIndeterminate_step_balanced (p : Part) (s : FlowState) :
  isSequenceDelimitationPart p || isItemDelimitationPart p = false ->
  inFragments s = false ->
  opens (fst (toIndeterminate_step p s)) + Z.of_nat (length (partStack s)) =
    closes (fst (toIndeterminate_step p s)) +
    Z.of_nat (length (partStack (snd (toIndeterminate_step p s)))).
Proof.
  intros Hp Hf. unfold toIndeterminate_step; cbn [fst snd].
  destruct (toIndeterminate_delimit_eq (toIndeterminate_layers p s)) as (-> & -> & _).
  destruct (toIndeterminate_emit_counts p
              (snd (toIndeterminate_delimit (toIndeterminate_layers p s)))
              (map (fun e => closing (fst e))
                 (List.filter expired (partStack (toIndeterminate_layers p s)))) Hp)
    as [-> ->].
  destruct (closing_counts (List.filter expired (partStack (toIndeterminate_layers p s))))
    as [-> ->].
  pose proof (List.filter_length expired (partStack (toIndeterminate_layers p s))) as Hl.
  rewrite toIndeterminate_layers_stack in * by exact Hp.
  rewrite length_app, subtractLength_length in Hl.
  unfold pushed in *. rewrite Hf, andb_true_r in *.
  destruct (isSequencePart p || isItemPart p); cbn [length] in Hl; lia.
Qed.

(** C27: the stack of open scopes mirrors the output: on a stream without
    delimitations and outside fragments, the scopes the stage has
    emitted and not yet closed are as many as the scopes it has put on
    its stack. *)
Theorem toIndeterminateLengthSequences_balanced (ps : list Part) (s : FlowState) :
  inFragments s = false ->
  Forall (fun p => isFragments p = false) ps ->
  Forall (fun p => isSequenceDelimitationPart p || isItemDelimitationPart p = false) ps ->
  opens (fst (runFrom toIndeterminateLengthSequences ps s)) +
    Z.of_nat (length (partStack s)) =
  closes (fst (runFrom toIndeterminateLengthSequences ps s)) +
    Z.of_nat (length (partStack (snd (runFrom toIndeterminateLengthSequences ps s)))).
Proof.
  intros Hs Hfr Hps. unfold runFrom.
  rewrite (flatMapM_ext _ toIndeterminate_step) by apply toIndeterminate_accept.
  revert s Hs Hfr; induction Hps as [|p ps Hp _ IH]; intros s Hs Hfr; [reflexivity|].
  apply Forall_cons in Hfr as [Hfp Hfr].
  rewrite flatMapM_cons; cbn [fst snd]. rewrite opens_app, closes_app.
  pose proof (toIndeterminate_step_balanced p s Hp Hs) as H1.
  pose proof (IH _ (toIndeterminate_step_inFragments p s Hs Hfp) Hfr) as H2.
  lia.
Qed.

End Balance.

(** ** The streams the stage leaves alone

    The fixed points of the stage are the streams in which every
    sequence is indeterminate, every item is indeterminate or a fragment,
    and every delimitation has its bytes. *)

Section Fixpoints.
Context `{Dictionary}.

(** The fragment flag after a part. *)
Definition flagAfter (inFragments : bool) (p : Part) : bool :=
  if isHeaderPart p then isFragments p || inFragments
  else if isSequenceDelimitationPart p then false else inFragments.

(** Every part is stable where it stands. *)
Fixpoint stableStream (inFragments : bool) (ps : list Part) : bool :=
  match ps with
  | [] => true
  | p :: rest => isStable inFragments p && stableStream (flagAfter inFragments p) rest
  end.

Lemma stableStream_app (b : bool) (ps qs : list Part) :
  stableStream b (ps ++ qs) =
    stableStream b ps && stableStream (fold_left flagAfter ps b) qs.
Proof.
  revert b; induction ps as [|p ps IH]; intros b; [reflexivity|].
  cbn [app stableStream fold_left]. rewrite IH, andb_assoc. reflexivity.
Qed.

Lemma toIndeterminate_stable_run (ps : list Part) (s : FlowState) :
  settled s -> stableStream (inFragments s) ps = true ->
  fst (flatMapM toIndeterminate_step ps s) = ps.
Proof.
  revert s; induction ps as [|p ps IH]; intros s Hs Hst; [reflexivity|].
  cbn [stableStream] in Hst. apply andb_true_iff in Hst as [Hp Hst].
  rewrite flatMapM_cons, toIndeterminate_step_settled by assumption. cbn [fst snd].
  rewrite IH; [reflexivity | apply settled_layers; assumption|].
  rewrite toIndeterminate_layers_inFragments. exact Hst.
Qed.

(** A part that is not stable leaves the stage changed: what is emitted
    for it starts with another part. *)
Lemma toIndeterminate_step_unstable (p : Part) (s : FlowState) :
  settled s -> isStable (inFragments s) p = false ->
  exists q out, fst (toIndeterminate_step p s) = q :: out /\ q <> p.
Proof.
  intros Hs Hp. destruct p; try discriminate; cbn [isStable] in Hp.
  - eexists _, _. split; [reflexivity|].
    unfold onSequence_rewrite. cbn [isSequencePart andb]. rewrite Hp. cbn [negb].
    intros Heq. apply (f_equal indeterminate) in Heq. rewrite Hp in Heq. discriminate.
  - apply negb_false_iff in Hp.
    destruct (toIndeterminate_step_marker (SequenceDelimitationPart bigEndian bytes) s Hp)
      as (d & Hd & _ & -> & _); [apply settled_quiet, Hs|].
    exists d, []. split; [reflexivity|]. intros ->.
    apply isEncodedDelimitation_kind in Hd as (_ & _ & Hd & _). congruence.
  - apply orb_false_iff in Hp as [Hf Hi].
    eexists _, _. split; [reflexivity|].
    unfold onItem_rewrite. cbn [isItemPart andb]. rewrite Hi.
    rewrite toIndeterminate_delimit_inFragments by (cbn [toIndeterminate_layers]; rewrite Hf; exact Hf).
    cbn [negb andb]. intros Heq. apply (f_equal indeterminate) in Heq.
    rewrite Hi in Heq. discriminate.
  - apply negb_false_iff in Hp.
    destruct (toIndeterminate_step_marker (ItemDelimitationPart index bigEndian bytes) s Hp)
      as (d & Hd & _ & -> & _); [apply settled_quiet, Hs|].
    exists d, []. split; [reflexivity|]. intros ->.
    apply isEncodedDelimitation_kind in Hd as (_ & _ & Hd & _). congruence.
Qed.

Lemma toIndeterminate_unstable_run (ps : list Part) (s : FlowState) :
  settled s -> stableStream (inFragments s) ps = false ->
  fst (flatMapM toIndeterminate_step ps s) <> ps.
Proof.
  revert s; induction ps as [|p ps IH]; intros s Hs Hst; [discriminate|].
  cbn [stableStream] in Hst. rewrite flatMapM_cons. cbn [fst].
  destruct (isStable (inFragments s) p) eqn:Hp.
  - rewrite toIndeterminate_step_settled by assumption. cbn [fst snd app].
    intros [= Heq]. revert Heq. apply IH; [apply settled_layers; assumption|].
    rewrite toIndeterminate_layers_inFragments. exact Hst.
  - destruct (toIndeterminate_step_unstable p s Hs Hp) as (q & out & -> & Hq).
    cbn [app]. intros [= Heq _]. contradiction.
Qed.

Lemma toIndeterminate_run_stable (ps : list Part) :
  stableStream false ps = true -> run toIndeterminateLengthSequences ps = ps.
Proof.
  intros Hst. unfold run, runFrom.
  rewrite (flatMapM_ext (accept _) toIndeterminate_step) by apply toIndeterminate_accept.
  apply toIndeterminate_stable_run; [constructor | exact Hst].
Qed.

(** C7: the fixed points of the stage are the stable streams: it emits a
    stream as it is exactly when every sequence of the stream is
    indeterminate, every item is indeterminate or the item of a fragment,
    and every delimitation has its bytes. *)
Theorem toIndeterminateLengthSequences_fixpoints (ps : list Part) :
  run toIndeterminateLengthSequences ps = ps <-> stableStream false ps = true.
Proof.
  unfold run, runFrom.
  rewrite (flatMapM_ext (accept _) toIndeterminate_step) by apply toIndeterminate_accept.
  split.
  - intros Heq. destruct (stableStream false ps) eqn:Hst; [reflexivity|].
    exfalso. revert Heq. apply toIndeterminate_unstable_run; [constructor | exact Hst].
  - intros Hst. apply toIndeterminate_stable_run; [constructor | exact Hst].
Qed.

End Fixpoints.

(** ** At the streams of the tests *)

(** The stage inside the item of the determinate sequence: both scopes
    are open, each owed sixteen bytes. *)
Definition insideItem : FlowState :=
  snd (runFrom toIndeterminateLengthSequences [derivationSequence24; item16]
         (initial toIndeterminateLengthSequences)).

Lemma toIndeterminateLengthSequences_consistent_witness :
  Forall (fun p => lengthConsistent p = true)
    (fst (runFrom toIndeterminateLengthSequences stream_determinate ready)).
Proof.
  apply toIndeterminateLengthSequences_consistent; [reflexivity | repeat constructor].
Defined.

Lemma toIndeterminateLengthSequences_closes_witness :
  In (closing item16)
    (fst (runFrom toIndeterminateLengthSequences [patientNameHeader; patientNameValue]
            insideItem)).
Proof.
  apply (toIndeterminateLengthSequences_closes _ _ (item16, 16));
    [left; reflexivity | reflexivity | reflexivity | repeat constructor
    | vm_compute; discriminate].
Defined.

Lemma toIndeterminateLengthSequences_balanced_witness :
  opens (fst (runFrom toIndeterminateLengthSequences stream_determinate ready)) +
    Z.of_nat (length (partStack ready)) =
  closes (fst (runFrom toIndeterminateLengthSequences stream_determinate ready)) +
    Z.of_nat (length (partStack
      (snd (runFrom toIndeterminateLengthSequences stream_determinate ready)))).
Proof.
  apply toIndeterminateLengthSequences_balanced;
    [reflexivity | repeat constructor | repeat constructor].
Defined.

Lemma handlers_keep_lengths_consistent_witness :
  Forall (fun p => lengthConsistent p = true)
    (fst (toIndeterminateLengthSequences_onSequence passThrough derivationSequence24 ready)) /\
  Forall (fun p => lengthConsistent p = true)
    (fst (toIndeterminateLengthSequences_onItem passThrough derivationSequence24 ready)) /\
  Forall (fun p => lengthConsistent p = true)
    (fst (toIndeterminateLengthSequences_onSequenceDelimitation passThrough
            derivationSequence24 ready)) /\
  Forall (fun p => lengthConsistent p = true)
    (fst (toIndeterminateLengthSequences_onItemDelimitation passThrough
            derivationSequence24 ready)).
Proof. apply handlers_keep_lengths_consistent; [reflexivity | repeat constructor]. Defined.
