(* ===== verification/Observation.v ===== *)
(** * Observation: what a stage reads of its state

    The state of a stage is the record of all the fields the layers and
    the three classes keep.  A stage reads few of them: a tag filter the
    fragment flag, the open scopes and the tag path; the rewriter the
    fragment flag, the open scopes and its sentinel; a header filter its
    verdict.  Each of these is an equivalence on states, coarser than
    equality, and the steps are morphisms: from equivalent states a
    stage emits the same stream and ends in equivalent states.  So the
    warnings flag and the warn log never influence what is emitted, and a
    tag filter never acts on the verdict it took on the part before. *)

From S2P Require Import Prelude Base Parts TagPath DicomFlow Fixtures.
From S2P Require Import HeaderFilter TagFilter IndeterminateLength.

(** ** The equivalences *)

(** The fragment flag and the open scopes: what the delimitation layer
    keeps. *)
Definition sameScopes : relation FlowState :=
  fun s1 s2 => inFragments s1 = inFragments s2 /\ partStack s1 = partStack s2.

(** What a tag filter reads. *)
Definition samePath : relation FlowState :=
  fun s1 s2 => sameScopes s1 s2 /\ tagPath s1 = tagPath s2.

(** What the rewriter reads. *)
Definition sameSentinel : relation FlowState :=
  fun s1 s2 => sameScopes s1 s2 /\ indeterminateBytes s1 = indeterminateBytes s2.

(** What a header filter reads. *)
Definition sameKeeping : relation FlowState :=
  fun s1 s2 => keeping s1 = keeping s2.

#[export] Instance sameScopes_equivalence : Equivalence sameScopes.
Proof. unfold sameScopes. split; repeat intro; intuition congruence. Qed.

#[export] Instance samePath_equivalence : Equivalence samePath.
Proof.
  unfold samePath. split; repeat intro; (split; [|intuition congruence]).
  - reflexivity.
  - symmetry; tauto.
  - etransitivity; [apply H | apply H0].
Qed.

#[export] Instance sameSentinel_equivalence : Equivalence sameSentinel.
Proof.
  unfold sameSentinel. split; repeat intro; (split; [|intuition congruence]).
  - reflexivity.
  - symmetry; tauto.
  - etransitivity; [apply H | apply H0].
Qed.

#[export] Instance sameKeeping_equivalence : Equivalence sameKeeping.
Proof. unfold sameKeeping. split; repeat intro; congruence. Qed.

(** The fields are morphisms. *)
#[export] Instance tagPath_proper : Proper (samePath ==> eq) tagPath.
Proof. intros s1 s2 (_ & Hp). exact Hp. Qed.

(** The verdict is not read. *)
Lemma samePath_keeping (b1 b2 : bool) (s1 s2 : FlowState) :
  samePath s1 s2 -> samePath (set_keeping b1 s1) (set_keeping b2 s2).
Proof. intros Hs. exact Hs. Qed.

(** [observe pat] breaks two equivalent states into their fields, the
    ones they share identified. *)
Tactic Notation "observe" simple_intropattern(pat) :=
  intros [?f ?si ?w ?st ?tp ?k ?ib] [?f ?si ?w ?st ?tp ?k ?ib] pat;
  cbn [inFragments partStack tagPath keeping indeterminateBytes] in *; subst.

Ltac related := repeat split; cbn; repeat case_match; reflexivity.

(** ** A tag filter *)

Section TagFilter.
Context `{Dictionary}.
Variables (keepCondition : TagPath -> bool) (defCond : Part -> bool).

#[export] Instance tagFilter_layers_proper (p : Part) :
  Proper (samePath ==> samePath) (tagFilter_layers p).
Proof.
  observe [[? ?] ?]. destruct p; cbn [tagFilter_layers]; unfold enterFragments, noteGroupLength,
    popScope, consume, pushScope; related.
Qed.

#[export] Instance tagFilter_keeps_proper (p : Part) :
  Proper (samePath ==> eq) (tagFilter_keeps keepCondition defCond p).
Proof. intros s1 s2 (_ & Hp). unfold tagFilter_keeps. rewrite Hp. reflexivity. Qed.

Lemma tagFilter_deliver_proper (e : Part * Z) :
  Proper (samePath ==> prod_relation eq samePath)
    (deliver (tagFilter_itemEnd keepCondition defCond)
       (tagFilter_sequenceEnd keepCondition defCond) e).
Proof.
  intros s1 s2 Hs. unfold deliver, tagFilter_itemEnd, tagFilter_sequenceEnd, tagFilter_onPart.
  destruct (isItemPart (fst e)); (split; [reflexivity|]); cbn [snd];
    apply samePath_keeping, tagFilter_layers_proper, Hs.
Qed.

#[export] Instance tagFilter_delimit_proper :
  Proper (samePath ==> prod_relation eq samePath) (tagFilter_delimit keepCondition defCond).
Proof.
  intros s1 s2 Hs. unfold tagFilter_delimit, delimitWith.
  replace (partStack s2) with (partStack s1) by apply Hs.
  apply flatMapM_proper; [apply tagFilter_deliver_proper|].
  split; [split; [apply Hs | reflexivity] | apply Hs].
Qed.

(** The step of a tag filter is a morphism. *)
#[export] Instance tagFilter_step_proper (p : Part) :
  Proper (samePath ==> prod_relation eq samePath) (tagFilter_step keepCondition defCond p).
Proof.
  intros s1 s2 Hs. split.
  - rewrite !tagFilter_step_out, Hs. reflexivity.
  - rewrite !tagFilter_step_state.
    apply tagFilter_delimit_proper, samePath_keeping, tagFilter_layers_proper, Hs.
Qed.

End TagFilter.

(** ** The rewriter *)

Section Rewriter.
Context `{Dictionary}.

#[export] Instance toIndeterminate_layers_proper (p : Part) :
  Proper (sameSentinel ==> sameSentinel) (toIndeterminate_layers p).
Proof.
  observe [[? ?] ?]. destruct p; cbn [toIndeterminate_layers]; unfold enterFragments,
    popScope, consume, pushScope; related.
Qed.

Lemma toIndeterminate_deliver_proper (e : Part * Z) :
  Proper (sameSentinel ==> prod_relation eq sameSentinel)
    (deliver toIndeterminate_itemEnd toIndeterminate_sequenceEnd e).
Proof.
  intros s1 s2 Hs. unfold deliver, toIndeterminate_itemEnd, toIndeterminate_sequenceEnd.
  destruct (isItemPart (fst e)); (split; [reflexivity|]); cbn [snd]; [exact Hs|].
  split; [split; [reflexivity | apply Hs] | apply Hs].
Qed.

#[export] Instance toIndeterminate_delimit_proper :
  Proper (sameSentinel ==> prod_relation eq sameSentinel) toIndeterminate_delimit.
Proof.
  intros s1 s2 Hs. unfold toIndeterminate_delimit, delimitWith.
  replace (partStack s2) with (partStack s1) by apply Hs.
  apply flatMapM_proper; [apply toIndeterminate_deliver_proper|].
  split; [split; [apply Hs | reflexivity] | apply Hs].
Qed.

(** What is emitted for a part reads the flag and the sentinel. *)
Lemma toIndeterminate_emit_proper (p : Part) (ds : list Part) :
  Proper (sameSentinel ==> eq) (fun this => toIndeterminate_emit p this ds).
Proof.
  intros s1 s2 ((Hf & _) & Hb). destruct p; cbn [toIndeterminate_emit]; try reflexivity;
    unfold onSequence_rewrite, onItem_rewrite, toIndeterminateBytes; rewrite ?Hf, ?Hb;
    reflexivity.
Qed.

(** The step of the rewriter is a morphism. *)
#[export] Instance toIndeterminate_step_proper (p : Part) :
  Proper (sameSentinel ==> prod_relation eq sameSentinel) (toIndeterminate_step p).
Proof.
  intros s1 s2 Hs. unfold toIndeterminate_step.
  destruct (toIndeterminate_delimit_proper _ _ (toIndeterminate_layers_proper p _ _ Hs))
    as [Hout Hst].
  split; cbn [fst snd]; [|exact Hst]. rewrite Hout.
  apply toIndeterminate_emit_proper, Hst.
Qed.

End Rewriter.

(** ** The stages *)

Section Stages.
Context `{Dictionary}.

#[export] Instance tagFilter_runFrom_proper (keepCondition : TagPath -> bool)
    (defaultCondition : option (Part -> bool)) (warnings : option bool) (ps : list Part) :
  Proper (samePath ==> prod_relation eq samePath)
    (runFrom (tagFilter keepCondition defaultCondition warnings) ps).
Proof.
  intros s1 s2 Hs. unfold runFrom.
  rewrite !(flatMapM_ext (accept _) (tagFilter_step keepCondition
              (tagFilter_defCond defaultCondition))) by apply tagFilter_accept.
  apply flatMapM_proper; [intros p; apply tagFilter_step_proper | exact Hs].
Qed.

#[export] Instance toIndeterminate_runFrom_proper (ps : list Part) :
  Proper (sameSentinel ==> prod_relation eq sameSentinel)
    (runFrom toIndeterminateLengthSequences ps).
Proof.
  intros s1 s2 Hs. unfold runFrom.
  rewrite !(flatMapM_ext (accept _) toIndeterminate_step) by apply toIndeterminate_accept.
  apply flatMapM_proper; [intros p; apply toIndeterminate_step_proper | exact Hs].
Qed.

#[export] Instance headerFilter_runFrom_proper (keepCondition : Part -> bool)
    (warnings : option bool) (ps : list Part) :
  Proper (sameKeeping ==> eq)
    (fun s => fst (runFrom (headerFilter keepCondition warnings) ps s)).
Proof. intros s1 s2 Hs. rewrite !headerFilter_runFrom, Hs. reflexivity. Qed.

(** C24: a tag filter reads of its state the fragment flag, the open scopes
    and the tag path, and nothing else: from two states that agree on
    them it emits the same stream and ends in states that agree on them.
    The verdict on the part before, the warnings flag and the warn log
    have no influence. *)
Theorem tagFilter_observes (keepCondition : TagPath -> bool)
    (defaultCondition : option (Part -> bool)) (warnings : option bool)
    (ps : list Part) (s1 s2 : FlowState) :
  samePath s1 s2 ->
  fst (runFrom (tagFilter keepCondition defaultCondition warnings) ps s1) =
    fst (runFrom (tagFilter keepCondition defaultCondition warnings) ps s2) /\
  samePath (snd (runFrom (tagFilter keepCondition defaultCondition warnings) ps s1))
    (snd (runFrom (tagFilter keepCondition defaultCondition warnings) ps s2)).
Proof. intros Hs. rewrite Hs. split; reflexivity. Qed.

(** The rewriter reads the fragment flag, the open scopes and its
    sentinel, and nothing else. *)
Theorem toIndeterminateLengthSequences_observes (ps : list Part) (s1 s2 : FlowState) :
  sameSentinel s1 s2 ->
  fst (runFrom toIndeterminateLengthSequences ps s1) =
    fst (runFrom toIndeterminateLengthSequences ps s2) /\
  sameSentinel (snd (runFrom toIndeterminateLengthSequences ps s1))
    (snd (runFrom toIndeterminateLengthSequences ps s2)).
Proof. intros Hs. rewrite Hs. split; reflexivity. Qed.

(** A header filter reads its verdict and nothing else: not the
    fragment flag, not the warnings. *)
Theorem headerFilter_observes (keepCondition : Part -> bool) (warnings : option bool)
    (ps : list Part) (s1 s2 : FlowState) :
  sameKeeping s1 s2 ->
  fst (runFrom (headerFilter keepCondition warnings) ps s1) =
    fst (runFrom (headerFilter keepCondition warnings) ps s2).
Proof. intros Hs. apply headerFilter_runFrom_proper, Hs. Qed.

(** What is emitted does not depend on the warnings flag the filter is
    created with. *)
Corollary tagFilter_warnings_irrelevant (keepCondition : TagPath -> bool)
    (defaultCondition : option (Part -> bool)) (w w' : option bool) (ps : list Part) :
  run (tagFilter keepCondition defaultCondition w) ps =
    run (tagFilter keepCondition defaultCondition w') ps.
Proof.
  unfold run, runFrom.
  rewrite !(flatMapM_ext (accept _) (tagFilter_step keepCondition
              (tagFilter_defCond defaultCondition))) by apply tagFilter_accept.
  assert (Hs : samePath (initial (tagFilter keepCondition defaultCondition w))
                       (initial (tagFilter keepCondition defaultCondition w')))
    by (vm_compute; repeat split).
  revert Hs. generalize (initial (tagFilter keepCondition defaultCondition w)),
    (initial (tagFilter keepCondition defaultCondition w')). intros s1 s2 Hs.
  apply (flatMapM_proper _ samePath ps), Hs. intros p; apply tagFilter_step_proper.
Qed.

End Stages.

(** ** At the streams of the tests *)

(** A state of a tag filter in the item of the tests, and the same with
    another verdict, silenced, with a warning logged. *)
Definition inItem1 : FlowState :=
  mkFlowState false false [] [(item1, indeterminateLength)] path_item1 true [].

Definition inItem1_otherwise : FlowState :=
  mkFlowState false true [Tag_StudyDate] [(item1, indeterminateLength)] path_item1 false
    [xff; xff; xff; xff].

Lemma tagFilter_observes_witness :
  fst (runFrom (tagFilter (blacklist_keepCondition [path_nameInItem1]) None None)
         [patientNameHeader; patientNameValue; itemEnd1] inItem1) =
    fst (runFrom (tagFilter (blacklist_keepCondition [path_nameInItem1]) None None)
           [patientNameHeader; patientNameValue; itemEnd1] inItem1_otherwise) /\
  samePath
    (snd (runFrom (tagFilter (blacklist_keepCondition [path_nameInItem1]) None None)
            [patientNameHeader; patientNameValue; itemEnd1] inItem1))
    (snd (runFrom (tagFilter (blacklist_keepCondition [path_nameInItem1]) None None)
            [patientNameHeader; patientNameValue; itemEnd1] inItem1_otherwise)).
Proof. apply tagFilter_observes. repeat split. Defined.

Lemma toIndeterminateLengthSequences_observes_witness :
  fst (runFrom toIndeterminateLengthSequences stream_determinate
         (set_keeping false (initial toIndeterminateLengthSequences))) =
    fst (runFrom toIndeterminateLengthSequences stream_determinate
           (initial toIndeterminateLengthSequences)) /\
  sameSentinel
    (snd (runFrom toIndeterminateLengthSequences stream_determinate
            (set_keeping false (initial toIndeterminateLengthSequences))))
    (snd (runFrom toIndeterminateLengthSequences stream_determinate
            (initial toIndeterminateLengthSequences))).
Proof. apply toIndeterminateLengthSequences_observes. repeat split. Defined.

Lemma headerFilter_observes_witness :
  fst (runFrom (headerFilter onlyPatientName None) stream_elements inItem1) =
    fst (runFrom (headerFilter onlyPatientName None) stream_elements
           (set_inFragments true inItem1)).
Proof. apply headerFilter_observes. reflexivity. Defined.
