(* ===== verification/Warnings.v ===== *)
(** * Warnings: the log of the group-length warnings

    [tagFilter] and [headerFilter] are built on [GroupLengthWarnings] and
    set its flag from their last argument ([this.silent = !warnings]).
    The warning is the one effect of a stage beside what it emits; the
    model keeps it as the list of the tags warned about.  This file says
    what is in the list after a stream: with warnings on, the tag of
    every header and sequence that is a group length outside the file
    meta information, in the order of the stream, whether the filter
    keeps the element or not; with warnings off or left out, nothing.
    The rewriter is not built on the layer and never warns. *)

From S2P Require Import Prelude Base Parts TagPath DicomFlow Fixtures.
From S2P Require Import HeaderFilter TagFilter IndeterminateLength.

(** ** What is warned about *)

(** A group length element outside the file meta information. *)
Definition isDiscouraged (p : Part) : bool :=
  (isHeaderPart p || isSequencePart p) && isGroupLength (partTag p)
  && negb (isFileMetaInformation (partTag p)).

(** The tags a stage that is not silent warns about. *)
Definition warned (silent : bool) (ps : list Part) : list Tag :=
  if silent then [] else map partTag (List.filter isDiscouraged ps).

Lemma warned_cons (silent : bool) (p : Part) (ps : list Part) :
  warned silent (p :: ps) = warned silent [p] ++ warned silent ps.
Proof. unfold warned. destruct silent; cbn; [|destruct (isDiscouraged p)]; reflexivity. Qed.

Lemma warned_other (silent : bool) (p : Part) :
  isHeaderPart p || isSequencePart p = false -> warned silent [p] = [].
Proof. intros Hp. unfold warned, isDiscouraged. cbn. rewrite Hp. destruct silent; reflexivity. Qed.

(** The log and the flag, as one invariant of a loop: the flag is kept,
    the log grows by what [logs] says. *)
Section Logs.
Context {A : Type} (f : A -> State FlowState (list Part)) (logs : A -> bool -> list Tag).

Hypothesis step_logs : forall x s,
  silent (snd (f x s)) = silent s /\
  warnLog (snd (f x s)) = warnLog s ++ logs x (silent s).

Lemma flatMapM_logs (l : list A) (s : FlowState) :
  silent (snd (flatMapM f l s)) = silent s /\
  warnLog (snd (flatMapM f l s)) = warnLog s ++ flat_map (fun x => logs x (silent s)) l.
Proof.
  revert s; induction l as [|x l IH]; intros s; [cbn; rewrite app_nil_r; auto|].
  rewrite flatMapM_cons; cbn [snd flat_map].
  destruct (step_logs x s) as (Hs & Hw), (IH (snd (f x s))) as (Hs' & Hw').
  rewrite Hs', Hw', Hw, Hs, app_assoc. auto.
Qed.

End Logs.

Lemma warned_flat_map (silent : bool) (ps : list Part) :
  flat_map (fun p => warned silent [p]) ps = warned silent ps.
Proof.
  induction ps as [|p ps IH]; [destruct silent; reflexivity|].
  cbn [flat_map]. rewrite IH, <- warned_cons. reflexivity.
Qed.

Section Stages.
Context `{Dictionary}.

(** ** A tag filter *)

Section TagFilter.
Variables (keepCondition : TagPath -> bool) (defCond : Part -> bool).

Lemma tagFilter_layers_logs (p : Part) (s : FlowState) :
  silent (tagFilter_layers p s) = silent s /\
  warnLog (tagFilter_layers p s) = warnLog s ++ warned (silent s) [p].
Proof.
  destruct s as [f si w st tp k ib]. unfold warned, isDiscouraged.
  destruct p; cbn [tagFilter_layers]; unfold enterFragments, noteGroupLength,
    warnsGroupLength, popScope, consume, pushScope; cbn;
    repeat case_match; cbn in *; rewrite ?app_nil_r; auto; try discriminate; congruence.
Qed.

Lemma tagFilter_delimit_logs (s : FlowState) :
  silent (snd (tagFilter_delimit keepCondition defCond s)) = silent s /\
  warnLog (snd (tagFilter_delimit keepCondition defCond s)) = warnLog s.
Proof.
  unfold tagFilter_delimit, delimitWith.
  apply (flatMapM_invariant _ (fun s' => silent s' = silent s /\ warnLog s' = warnLog s));
    [|auto].
  intros e s' (Hs & Hw).
  unfold deliver, tagFilter_itemEnd, tagFilter_sequenceEnd, tagFilter_onPart.
  destruct (isItemPart (fst e)); cbn [snd]; flow_frames;
    match goal with
    | |- context [tagFilter_layers ?p s'] =>
        destruct (tagFilter_layers_logs p s') as (Hs1 & Hw1)
    end;
    rewrite warned_other, app_nil_r in Hw1 by reflexivity; split; congruence.
Qed.

Lemma tagFilter_step_logs (p : Part) (s : FlowState) :
  silent (snd (tagFilter_step keepCondition defCond p s)) = silent s /\
  warnLog (snd (tagFilter_step keepCondition defCond p s)) =
    warnLog s ++ warned (silent s) [p].
Proof.
  rewrite tagFilter_step_state.
  destruct (tagFilter_delimit_logs
              (set_keeping (tagFilter_keeps keepCondition defCond p (tagFilter_layers p s))
                 (tagFilter_layers p s))) as (-> & ->).
  apply tagFilter_layers_logs.
Qed.

End TagFilter.

(** A tag filter created with warnings on logs the tag of every group
    length element of the stream outside the file meta information, kept
    or not, in the order of the stream; created with warnings off, or
    with the argument left out, it logs nothing. *)
Theorem tagFilter_warns (keepCondition : TagPath -> bool)
    (defaultCondition : option (Part -> bool)) (warnings : option bool) (ps : list Part) :
  warnLog (snd (runFrom (tagFilter keepCondition defaultCondition warnings) ps
                  (initial (tagFilter keepCondition defaultCondition warnings)))) =
    warned (negb (default false warnings)) ps.
Proof.
  unfold runFrom.
  rewrite (flatMapM_ext (accept _) (tagFilter_step keepCondition
             (tagFilter_defCond defaultCondition))) by apply tagFilter_accept.
  destruct (flatMapM_logs _ (fun p b => warned b [p])
              (tagFilter_step_logs keepCondition (tagFilter_defCond defaultCondition)) ps
              (initial (tagFilter keepCondition defaultCondition warnings))) as (_ & ->).
  rewrite warned_flat_map. destruct warnings as [[]|]; reflexivity.
Qed.

(** ** A header filter *)

Lemma headerFilter_accept_logs (keepCondition : Part -> bool) (warnings : option bool)
    (p : Part) (s : FlowState) :
  silent (snd (accept (headerFilter keepCondition warnings) p s)) = silent s /\
  warnLog (snd (accept (headerFilter keepCondition warnings) p s)) =
    warnLog s ++ warned (silent s) [p].
Proof.
  rewrite headerFilter_accept, headerFilter_onPart_state.
  destruct s as [f si w st tp k ib]. unfold warned, isDiscouraged.
  destruct p; cbn [headerFilter_layers]; unfold enterFragments, noteGroupLength,
    warnsGroupLength; cbn;
    repeat case_match; cbn in *; rewrite ?app_nil_r; auto; try discriminate; congruence.
Qed.

(** A header filter logs the same: the tag of every group length element
    outside the file meta information when created with warnings on,
    nothing otherwise. *)
Theorem headerFilter_warns (keepCondition : Part -> bool) (warnings : option bool)
    (ps : list Part) :
  warnLog (snd (runFrom (headerFilter keepCondition warnings) ps
                  (initial (headerFilter keepCondition warnings)))) =
    warned (negb (default false warnings)) ps.
Proof.
  unfold runFrom.
  destruct (flatMapM_logs _ (fun p b => warned b [p])
              (headerFilter_accept_logs keepCondition warnings) ps
              (initial (headerFilter keepCondition warnings))) as (_ & ->).
  rewrite warned_flat_map. destruct warnings as [[]|]; reflexivity.
Qed.

(** ** The rewriter *)

Lemma toIndeterminate_step_logs (p : Part) (s : FlowState) :
  silent (snd (toIndeterminate_step p s)) = silent s /\
  warnLog (snd (toIndeterminate_step p s)) = warnLog s ++ [].
Proof.
  rewrite app_nil_r. unfold toIndeterminate_step, toIndeterminate_delimit, delimitWith.
  cbn [snd].
  apply (flatMapM_invariant _ (fun s' => silent s' = silent s /\ warnLog s' = warnLog s)).
  - intros e s' Hs'. unfold deliver. destruct (isItemPart (fst e)); exact Hs'.
  - destruct s as [f si w st tp k ib].
    destruct p; cbn [toIndeterminate_layers]; unfold enterFragments, popScope, consume,
      pushScope; cbn; repeat case_match; auto.
Qed.

(** The rewriter is not built on the warnings layer: it logs nothing. *)
Theorem toIndeterminateLengthSequences_silent (ps : list Part) (s : FlowState) :
  warnLog (snd (runFrom toIndeterminateLengthSequences ps s)) = warnLog s.
Proof.
  unfold runFrom.
  rewrite (flatMapM_ext (accept _) toIndeterminate_step) by apply toIndeterminate_accept.
  destruct (flatMapM_logs _ (fun _ _ => []) toIndeterminate_step_logs ps s) as (_ & ->).
  induction ps; cbn; auto using app_nil_r.
Qed.

End Stages.

(** ** At the streams of the tests *)

(** A group length element of the dataset, and one of the file meta
    information. *)
Definition groupLength0008 : Part :=
  HeaderPart 0x00080000 VR_UL 4 false false true
    [x08; x00; x00; x00; x55; x4c; x04; x00].

Example groupLengthDiscardFilter_warns :
  warnLog (snd (runFrom (tagFilter groupLengthDiscard_keepCondition None (Some true))
                  [fmiGroupLength; fmiGroupLengthValue; groupLength0008; patientNameHeader]
                  (initial (tagFilter groupLengthDiscard_keepCondition None (Some true))))) =
    [0x00080000].
Proof. reflexivity. Qed.

Example groupLengthDiscardFilter_silent :
  warnLog (snd (runFrom groupLengthDiscardFilter
                  [fmiGroupLength; fmiGroupLengthValue; groupLength0008; patientNameHeader]
                  (initial groupLengthDiscardFilter))) = [].
Proof. reflexivity. Qed.
