(* ===== verification/RewriteDataset.v ===== *)
(** * RewriteDataset: [toIndeterminateLengthSequences] rewrites the tree

    The functional correctness of the rewriter, against the tree of
    [Dataset]: on the traversal of a well-formed dataset, with scopes of
    determinate and of indeterminate length in any mix, the stage emits
    the traversal of the same dataset with every scope made
    indeterminate: each header rewritten, each scope that had no
    delimitation closed by the encoded one, exactly where its content
    ends.

    The proof is by segments.  [Rewrites seg out] says what the stage
    does with a segment of the stream from any state in which the open
    scopes are owed at least the bytes of the segment: it emits [out],
    then closes the scopes the segment used up, and leaves the others
    with the bytes of the segment taken off.  Segments compose
    ([Rewrites_app]) and scopes wrap them ([Rewrites_determinate],
    [Rewrites_indeterminate]); the tree is an induction over those. *)

From S2P Require Import Prelude Base Parts TagPath DicomFlow Fixtures Dataset.
From S2P Require Import IndeterminateLength Framing.

(** ** The rewritten tree *)

(** The header of a scope with the sentinel in its length field. *)
Definition toIndeterminate (p : Part) : Part :=
  match p with
  | SequencePart tag _ bigEndian explicitVR bytes =>
      if indeterminate p then p
      else SequencePart tag indeterminateLength bigEndian explicitVR
             (slice bytes 0 (blen bytes - 4) ++ [xff; xff; xff; xff])
  | ItemPart index _ bigEndian bytes =>
      if indeterminate p then p
      else ItemPart index indeterminateLength bigEndian
             (slice bytes 0 (blen bytes - 4) ++ [xff; xff; xff; xff])
  | _ => p
  end.

Lemma toIndeterminate_indeterminate (p : Part) :
  indeterminate p = true -> toIndeterminate p = p.
Proof. intros Hi. destruct p; try reflexivity; unfold toIndeterminate; rewrite Hi; reflexivity. Qed.

(** The delimitation of a scope: its own, or the encoded one. *)
Definition delimited (scope : Part) (delimitation : option Part) : option Part :=
  match delimitation with
  | Some d => Some d
  | None => Some (closing scope)
  end.

Fixpoint rewriteNode (n : Node) : Node :=
  match n with
  | ElementNode header chunks => ElementNode header chunks
  | FragmentsNode header fragments delimitation =>
      FragmentsNode header fragments delimitation
  | SequenceNode sequence items delimitation =>
      SequenceNode (toIndeterminate sequence) (rewriteItems items)
        (delimited sequence delimitation)
  end
with rewriteItems (l : Items) : Items :=
  match l with
  | NoItems => NoItems
  | ConsItem item body delimitation rest =>
      ConsItem (toIndeterminate item) (rewriteNodes body) (delimited item delimitation)
        (rewriteItems rest)
  end
with rewriteNodes (l : Nodes) : Nodes :=
  match l with
  | NoNodes => NoNodes
  | ConsNode node rest => ConsNode (rewriteNode node) (rewriteNodes rest)
  end.

(** ** One step, from a state between two parts *)

Section Steps.
Context `{Dictionary}.

(** The stage outside fragments, constructed, with no scope used up. *)
Definition between (s : FlowState) : Prop :=
  inFragments s = false /\ indeterminateBytes s = [xff; xff; xff; xff] /\ quiet s.

(** The delimitations for the scopes of [stack] that are used up. *)
Definition closings (stack : list (Part * Z)) : list Part :=
  map (fun e => closing (fst e)) (List.filter expired stack).

(** What a run answers: its output followed by the delimitations of the
    scopes of [stack'] that are used up, and a state between two parts
    with the other scopes of [stack']. *)
Definition answers (r : list Part * FlowState) (out : list Part)
    (stack' : list (Part * Z)) : Prop :=
  fst r = out ++ closings stack' /\ partStack (snd r) = live stack' /\ between (snd r).

Lemma closings_quiet (stack : list (Part * Z)) :
  Forall (fun e => expired e = false) stack -> closings stack = [].
Proof. intros Hq. unfold closings. rewrite filter_none by exact Hq. reflexivity. Qed.

Lemma closings_cons (e : Part * Z) (stack : list (Part * Z)) :
  closings (e :: stack) = (if expired e then [closing (fst e)] else []) ++ closings stack.
Proof. unfold closings; cbn. destruct (expired e); reflexivity. Qed.

Lemma live_cons (e : Part * Z) (stack : list (Part * Z)) :
  live (e :: stack) = (if expired e then [] else [e]) ++ live stack.
Proof. unfold live; cbn. destruct (expired e); reflexivity. Qed.

(** The part as the stage emits it, with the object constructed and
    outside fragments. *)
Lemma toIndeterminate_emit_eq (p : Part) (this : FlowState) (ds : list Part) :
  inFragments this = false -> indeterminateBytes this = [xff; xff; xff; xff] ->
  isDelimitationMarker p = false ->
  toIndeterminate_emit p this ds = toIndeterminate p :: ds.
Proof.
  intros Hf Hs Hm. destruct p; cbn [toIndeterminate_emit toIndeterminate]; try reflexivity.
  - unfold onSequence_rewrite, toIndeterminateBytes. rewrite Hs. cbn.
    destruct (length =? indeterminateLength); reflexivity.
  - rewrite bool_decide_eq_false_2; [reflexivity|]. intros ->. discriminate.
  - unfold onItem_rewrite, toIndeterminateBytes. rewrite Hs, Hf. cbn.
    destruct (length =? indeterminateLength); reflexivity.
  - rewrite bool_decide_eq_false_2; [reflexivity|]. intros ->. discriminate.
Qed.

(** One step: the part, as rewritten, then the delimitations of the
    scopes it used up. *)
Lemma toIndeterminate_step_leaves (p : Part) (s : FlowState) :
  indeterminateBytes s = [xff; xff; xff; xff] ->
  inFragments (toIndeterminate_layers p s) = false -> isDelimitationMarker p = false ->
  answers (toIndeterminate_step p s) [toIndeterminate p]
    (partStack (toIndeterminate_layers p s)).
Proof.
  intros Hs Hf Hm.
  pose proof (toIndeterminate_delimit_inFragments _ Hf) as Hf'.
  pose proof (toIndeterminate_step_indeterminateBytes p s) as Hs'. rewrite Hs in Hs'.
  unfold answers, between. unfold toIndeterminate_step in *; cbn [fst snd] in *.
  destruct (toIndeterminate_delimit_eq (toIndeterminate_layers p s)) as (Hout & Hst & _).
  rewrite toIndeterminate_emit_eq, Hout, Hst by assumption.
  repeat split; auto. unfold quiet. rewrite Hst. apply live_is_quiet.
Qed.

Lemma toIndeterminate_step_answers (p : Part) (s : FlowState) :
  between s -> isFragments p = false -> isDelimitationMarker p = false ->
  answers (toIndeterminate_step p s) [toIndeterminate p]
    (partStack (toIndeterminate_layers p s)).
Proof.
  intros (Hf & Hs & Hq) Hp Hm. apply toIndeterminate_step_leaves; auto.
  rewrite toIndeterminate_layers_inFragments, Hf, Hp. repeat case_if; reflexivity.
Qed.

(** *** Inside a fragment sequence *)

(** The stage inside a fragment sequence, with no scope used up. *)
Definition inside (s : FlowState) : Prop :=
  inFragments s = true /\ indeterminateBytes s = [xff; xff; xff; xff] /\ quiet s.

(** A step that uses up no scope makes no delimitation. *)
Lemma toIndeterminate_step_quiet (p : Part) (s : FlowState) :
  quiet (toIndeterminate_layers p s) ->
  toIndeterminate_step p s =
    (toIndeterminate_emit p (toIndeterminate_layers p s) [], toIndeterminate_layers p s).
Proof.
  intros Hq. unfold toIndeterminate_step, toIndeterminate_delimit.
  rewrite delimitWith_quiet_id by exact Hq. reflexivity.
Qed.

(** The header of a fragment sequence, an item or a chunk of it: the
    part passes and its bytes are counted. *)
Lemma toIndeterminate_step_fragment (p : Part) (s : FlowState) (n : Z) :
  (isFragments p = true /\ between s) \/
  (isItemPart p || isValueChunk p = true /\ inside s) ->
  owed n (partStack s) -> blen (partBytes p) < n ->
  fst (toIndeterminate_step p s) = [p] /\
  partStack (snd (toIndeterminate_step p s)) =
    subtractBytes (blen (partBytes p)) (partStack s) /\
  inside (snd (toIndeterminate_step p s)).
Proof.
  intros Hp Ho Hlt.
  assert (partStack (toIndeterminate_layers p s) =
            subtractBytes (blen (partBytes p)) (partStack s) /\
          inFragments (toIndeterminate_layers p s) = true /\
          indeterminateBytes s = [xff; xff; xff; xff] /\
          toIndeterminate_emit p (toIndeterminate_layers p s) [] = [p])
    as (Hst & Hf & Hs & Hout).
  { destruct Hp as [(Hp & Hf & Hs & _) | (Hp & Hf & Hs & _)].
    - destruct p; try discriminate. cbn [toIndeterminate_layers toIndeterminate_emit].
      unfold enterFragments. rewrite Hp. auto.
    - destruct p; try discriminate; cbn [toIndeterminate_layers toIndeterminate_emit];
        rewrite ?Hf; repeat split; auto.
      rewrite onItem_rewrite_id; auto. }
  rewrite toIndeterminate_step_quiet; cbn [fst snd].
  - repeat split; auto.
    + rewrite toIndeterminate_layers_indeterminateBytes. exact Hs.
    + unfold quiet. rewrite Hst. eapply subtractBytes_quiet; eauto.
  - unfold quiet. rewrite Hst. eapply subtractBytes_quiet; eauto.
Qed.

(** The delimitation of a fragment sequence: it passes, and closes no
    scope of its own. *)
Lemma toIndeterminate_step_fragmentsEnd (d : Part) (s : FlowState) :
  inside s -> isSequenceDelimitationPart d = true -> partBytes d <> [] ->
  answers (toIndeterminate_step d s) [d] (subtractBytes (blen (partBytes d)) (partStack s)).
Proof.
  intros (Hf & Hs & Hq) Hd Hb.
  pose proof (isDelimitationMarker_not d Hb) as Hm.
  replace d with (toIndeterminate d) at 2 by (destruct d; try discriminate; reflexivity).
  replace (subtractBytes _ _) with (partStack (toIndeterminate_layers d s)).
  - apply toIndeterminate_step_leaves; auto. destruct d; try discriminate; reflexivity.
  - destruct d; try discriminate. cbn [toIndeterminate_layers]. unfold popScope.
    rewrite Hf, andb_false_r. reflexivity.
Qed.

(** The stack after the layers, by the kind of part. *)
Lemma layers_stack_leaf (p : Part) (s : FlowState) :
  isHeaderPart p || isValueChunk p = true ->
  partStack (toIndeterminate_layers p s) = subtractBytes (blen (partBytes p)) (partStack s).
Proof.
  intros Hp. rewrite toIndeterminate_layers_stack by (destruct p; auto; discriminate).
  unfold pushed. destruct p; try discriminate; reflexivity.
Qed.

Lemma layers_stack_open (p : Part) (s : FlowState) :
  isSequencePart p || isItemPart p = true -> inFragments s = false ->
  partStack (toIndeterminate_layers p s) =
    (p, partLength p) :: subtractBytes (blen (partBytes p)) (partStack s).
Proof.
  intros Hp Hf. rewrite toIndeterminate_layers_stack by (destruct p; auto; discriminate).
  unfold pushed. rewrite Hf. destruct p; try discriminate; reflexivity.
Qed.

Lemma layers_stack_close (p : Part) (s : FlowState) :
  isSequenceDelimitationPart p || isItemDelimitationPart p = true ->
  inFragments s = false -> isDelimitationMarker p = false ->
  partStack (toIndeterminate_layers p s) =
    subtractBytes (blen (partBytes p)) (tail (partStack s)).
Proof.
  intros Hp Hf Hm. destruct p; try discriminate; cbn [toIndeterminate_layers];
    unfold consume, popScope; rewrite Hm; cbn; rewrite ?Hf; reflexivity.
Qed.

End Steps.

(** ** Segments *)

Section Segments.
Context `{Dictionary}.
Implicit Types (seg out A B C EA EB EC : list Part) (p d : Part) (s : FlowState).

(** What the stage does with a segment, from any state between two parts
    whose open scopes are owed the bytes of the segment. *)
Definition Rewrites seg out : Prop :=
  forall s, between s -> owed (size seg) (partStack s) ->
    answers (flatMapM toIndeterminate_step seg s) out
      (subtractBytes (size seg) (partStack s)).

Lemma answers_quiet (r : list Part * FlowState) out (stack' : list (Part * Z)) :
  answers r out stack' -> Forall (fun e => expired e = false) stack' ->
  fst r = out /\ partStack (snd r) = stack' /\ between (snd r).
Proof.
  intros (Ho & Hst & Hb) Hq. rewrite closings_quiet, app_nil_r in Ho by exact Hq.
  rewrite live_quiet in Hst by exact Hq. auto.
Qed.

Lemma answers_closed (r : list Part * FlowState) out (e : Part * Z)
    (stack' : list (Part * Z)) :
  answers r out (e :: stack') -> expired e = true ->
  answers r (out ++ [closing (fst e)]) stack'.
Proof.
  intros (Ho & Hst & Hb) He. rewrite closings_cons, He in Ho. rewrite live_cons, He in Hst.
  unfold answers. rewrite <- app_assoc. auto.
Qed.

Lemma answers_app A B s outA outB (stack' : list (Part * Z)) :
  fst (flatMapM toIndeterminate_step A s) = outA ->
  answers (flatMapM toIndeterminate_step B (snd (flatMapM toIndeterminate_step A s)))
    outB stack' ->
  answers (flatMapM toIndeterminate_step (A ++ B) s) (outA ++ outB) stack'.
Proof.
  intros <- (Ho & Hst & Hb). rewrite flatMapM_app. unfold answers; cbn [fst snd].
  rewrite Ho, app_assoc. auto.
Qed.

Lemma Rewrites_nil : Rewrites [] [].
Proof.
  intros s (Hf & Hs & Hq) _. rewrite size_nil, subtractBytes_0. unfold answers; cbn.
  rewrite closings_quiet, live_quiet by exact Hq. repeat split; auto.
Qed.

(** Segments compose: while the second has bytes to come, the first
    closes nothing that is owed them. *)
Lemma Rewrites_app A B EA EB :
  Rewrites A EA -> Rewrites B EB -> 0 < size B -> Rewrites (A ++ B) (EA ++ EB).
Proof.
  intros HA HB Hpos s Hs Ho. rewrite size_app in *.
  pose proof (size_nonneg A) as HposA.
  assert (owed (size A) (partStack s)) as HoA by (eapply owed_le; [exact Ho | lia]).
  destruct (answers_quiet _ _ _ (HA s Hs HoA)) as (Hout & Hst & Hb).
  { eapply subtractBytes_quiet; [exact Ho | lia]. }
  apply answers_app; [exact Hout|]. rewrite <- subtractBytes_add, <- Hst.
  apply HB; [exact Hb|]. rewrite Hst. apply subtractBytes_owed, Ho.
Qed.

(** A header or a chunk of a value passes as it is. *)
Lemma Rewrites_leaf p :
  isHeaderPart p || isValueChunk p = true -> isFragments p = false -> Rewrites [p] [p].
Proof.
  intros Hk Hfr s Hs Ho. rewrite flatMapM_single, size_cons, size_nil, Z.add_0_r.
  rewrite <- layers_stack_leaf by exact Hk.
  replace p with (toIndeterminate p) at 2 by (destruct p; try discriminate; reflexivity).
  apply toIndeterminate_step_answers; auto. destruct p; try discriminate; reflexivity.
Qed.

Lemma Rewrites_leaves (ps : list Part) :
  Forall (fun p => (isHeaderPart p || isValueChunk p = true) /\ isFragments p = false /\
                   partBytes p <> []) ps ->
  Rewrites ps ps.
Proof.
  induction 1 as [|p ps (Hk & Hfr & Hb) Hps IH]; [apply Rewrites_nil|].
  destruct ps as [|q ps]; [apply Rewrites_leaf; auto|].
  apply (Rewrites_app [p] (q :: ps) [p]); [apply Rewrites_leaf; auto | exact IH|].
  apply size_cons_pos. inversion Hps as [|? ? (_ & _ & Hq)]; exact Hq.
Qed.

(** The fragments of a fragment sequence pass, their bytes counted. *)
Lemma fragments_run (fragments : list Part) s (n : Z) :
  inside s -> Forall wfFragment fragments -> owed n (partStack s) ->
  size fragments < n ->
  fst (flatMapM toIndeterminate_step fragments s) = fragments /\
  partStack (snd (flatMapM toIndeterminate_step fragments s)) =
    subtractBytes (size fragments) (partStack s) /\
  inside (snd (flatMapM toIndeterminate_step fragments s)).
Proof.
  intros Hs Hfr. revert s n Hs.
  induction Hfr as [|p fragments (Hk & Hb) _ IH]; intros s n Hs Ho Hlt.
  - rewrite size_nil, subtractBytes_0. auto.
  - rewrite size_cons in *. pose proof (blen_pos _ Hb). pose proof (size_nonneg fragments).
    destruct (toIndeterminate_step_fragment p s n) as (Hout & Hst & Hin);
      [right; auto | exact Ho | lia |].
    rewrite flatMapM_cons. cbn [fst snd].
    destruct (IH (snd (toIndeterminate_step p s)) (n - blen (partBytes p)) Hin)
      as (Hout' & Hst' & Hin').
    { rewrite Hst. apply subtractBytes_owed.
      replace (blen (partBytes p) + (n - blen (partBytes p))) with n by lia. exact Ho. }
    { lia. }
    rewrite Hout, Hout', Hst', Hst, subtractBytes_add. auto.
Qed.

(** A fragment sequence passes as it is. *)
Lemma Rewrites_fragments (header : Part) (fragments : list Part) d :
  isFragments header = true -> Forall wfFragment fragments ->
  isSequenceDelimitationPart d = true -> partBytes d <> [] ->
  Rewrites (header :: fragments ++ [d]) (header :: fragments ++ [d]).
Proof.
  intros Hh Hfr Hd Hb s Hs Ho. pose proof (blen_pos _ Hb). pose proof (size_nonneg fragments).
  change (header :: fragments ++ [d]) with ([header] ++ (fragments ++ [d])) in *.
  rewrite !size_app, !size_cons, !size_nil, !Z.add_0_r in *.
  destruct (toIndeterminate_step_fragment header s _ (or_introl (conj Hh Hs)) Ho)
    as (Hout & Hst & Hin); [lia|].
  rewrite <- flatMapM_single in Hout, Hst, Hin.
  apply answers_app; [exact Hout|].
  set (s1 := snd (flatMapM toIndeterminate_step [header] s)) in *.
  destruct (fragments_run fragments s1 (size fragments + blen (partBytes d)) Hin Hfr)
    as (Hout2 & Hst2 & Hin2).
  { rewrite Hst. apply subtractBytes_owed, Ho. }
  { lia. }
  apply answers_app; [exact Hout2|]. rewrite flatMapM_single.
  set (s2 := snd (flatMapM toIndeterminate_step fragments s1)) in *.
  replace (subtractBytes _ (partStack s))
    with (subtractBytes (blen (partBytes d)) (partStack s2)).
  2: { rewrite Hst2, Hst, !subtractBytes_add. f_equal; lia. }
  apply toIndeterminate_step_fragmentsEnd; auto.
Qed.

Section Scope.
Variables (p : Part) (C EC : list Part).
Hypothesis Hkind : isSequencePart p || isItemPart p = true.

Lemma scope_not_fragments : isFragments p = false.
Proof. destruct p; try discriminate; reflexivity. Qed.

Lemma scope_not_marker : isDelimitationMarker p = false.
Proof. destruct p; try discriminate; reflexivity. Qed.

(** The header of a scope: rewritten, and the scope on the stack. *)
Lemma toIndeterminate_scope_opened s :
  between s ->
  answers (toIndeterminate_step p s) [toIndeterminate p]
    ((p, partLength p) :: subtractBytes (blen (partBytes p)) (partStack s)).
Proof.
  intros Hs. rewrite <- layers_stack_open by (auto; apply Hs).
  apply toIndeterminate_step_answers; auto using scope_not_fragments, scope_not_marker.
Qed.

(** A scope of determinate length without content is closed at once. *)
Lemma Rewrites_determinate_empty :
  indeterminate p = false -> partLength p = 0 ->
  Rewrites [p] [toIndeterminate p; closing p].
Proof.
  intros Hd HL s Hs Ho. rewrite flatMapM_single, size_cons, size_nil, Z.add_0_r.
  apply (answers_closed _ [toIndeterminate p] (p, partLength p)); [apply toIndeterminate_scope_opened, Hs|].
  unfold expired; cbn. rewrite Hd, HL. reflexivity.
Qed.

(** A scope of determinate length: its header rewritten, its content,
    and the delimitation where the content ends. *)
Lemma Rewrites_determinate :
  indeterminate p = false -> partLength p = size C -> 0 < size C ->
  Rewrites C EC -> Rewrites (p :: C) (toIndeterminate p :: EC ++ [closing p]).
Proof.
  intros Hd HL Hpos HC s Hs Ho. change (p :: C) with ([p] ++ C) in *.
  rewrite size_app, size_cons, size_nil, Z.add_0_r in *.
  destruct (answers_quiet _ _ _ (toIndeterminate_scope_opened s Hs)) as (Hout & Hst & Hb).
  { constructor; [unfold expired; cbn; rewrite Hd; cbn; apply Z.leb_gt; lia|].
    eapply subtractBytes_quiet; [exact Ho | lia]. }
  rewrite <- flatMapM_single in Hout, Hst, Hb.
  change (toIndeterminate p :: EC ++ [closing p])
    with ([toIndeterminate p] ++ (EC ++ [closing p])).
  apply answers_app; [exact Hout|].
  apply (answers_closed _ EC (p, 0)); [|unfold expired; cbn; rewrite Hd; reflexivity].
  rewrite <- subtractBytes_add.
  replace ((p, 0) :: subtractBytes (size C) (subtractBytes (blen (partBytes p)) (partStack s)))
    with (subtractBytes (size C)
            (partStack (snd (flatMapM toIndeterminate_step [p] s)))).
  2: { rewrite Hst, subtractBytes_cons; cbn [fst snd]. rewrite Hd, HL, Z.sub_diag.
       reflexivity. }
  apply HC; [exact Hb|]. rewrite Hst. constructor; [cbn; lia|].
  apply subtractBytes_owed, Ho.
Qed.

(** A scope of indeterminate length passes with its delimitation. *)
Lemma Rewrites_indeterminate d :
  indeterminate p = true ->
  isSequenceDelimitationPart d || isItemDelimitationPart d = true -> partBytes d <> [] ->
  Rewrites C EC -> Rewrites (p :: C ++ [d]) (p :: EC ++ [d]).
Proof.
  intros Hi Hkd Hbd HC s Hs Ho. pose proof (blen_pos _ Hbd) as Hpos.
  pose proof (size_nonneg C) as HposC.
  change (p :: C ++ [d]) with ([p] ++ (C ++ [d])) in *.
  rewrite !size_app, !size_cons, !size_nil, !Z.add_0_r in *.
  destruct (answers_quiet _ _ _ (toIndeterminate_scope_opened s Hs)) as (Hout & Hst & Hb).
  { constructor; [unfold expired; cbn; rewrite Hi; reflexivity|].
    eapply subtractBytes_quiet; [exact Ho | lia]. }
  rewrite <- flatMapM_single in Hout, Hst, Hb.
  rewrite toIndeterminate_indeterminate in Hout by exact Hi.
  change (p :: EC ++ [d]) with ([p] ++ (EC ++ [d])).
  apply answers_app; [exact Hout|].
  set (s1 := snd (flatMapM toIndeterminate_step [p] s)) in *.
  assert (owed (size C) (partStack s1)) as Ho1.
  { rewrite Hst. constructor; [cbn; congruence|].
    eapply owed_le; [apply subtractBytes_owed, Ho | lia]. }
  destruct (answers_quiet _ _ _ (HC s1 Hb Ho1)) as (Hout2 & Hst2 & Hb2).
  { rewrite Hst, subtractBytes_cons; cbn [fst]. rewrite Hi, subtractBytes_add.
    constructor; [unfold expired; cbn; rewrite Hi; reflexivity|].
    eapply subtractBytes_quiet; [exact Ho | lia]. }
  apply answers_app; [exact Hout2|]. rewrite flatMapM_single.
  set (s2 := snd (flatMapM toIndeterminate_step C s1)) in *.
  replace (subtractBytes _ (partStack s))
    with (partStack (toIndeterminate_layers d s2)).
  2: { rewrite layers_stack_close by (auto using isDelimitationMarker_not; apply Hb2).
       rewrite Hst2, Hst, subtractBytes_cons; cbn [fst tail]. rewrite ?Hi; cbn [tail].
       rewrite !subtractBytes_add. f_equal; lia. }
  replace d with (toIndeterminate d) at 2 by (destruct d; try discriminate; reflexivity).
  apply toIndeterminate_step_answers; auto using isDelimitationMarker_not.
  destruct d; try discriminate; reflexivity.
Qed.

End Scope.
End Segments.

(** ** The tree *)

Section Tree.
Context `{Dictionary}.

Lemma itemsParts_rewritten_nil (l : Items) :
  itemsParts l = [] -> itemsParts (rewriteItems l) = [].
Proof. destruct l; [reflexivity | discriminate]. Qed.

Lemma nodesParts_rewritten_nil (l : Nodes) :
  nodesParts l = [] -> nodesParts (rewriteNodes l) = [].
Proof. destruct l as [|[] ?]; [reflexivity | discriminate..]. Qed.

(** A scope of either encoding, around a content that is rewritten. *)
Lemma Rewrites_scope (isDelimitation : Part -> bool) (p : Part) (C EC : list Part)
    (delimitation : option Part) :
  isSequencePart p || isItemPart p = true ->
  (forall d, isDelimitation d = true ->
     isSequenceDelimitationPart d || isItemDelimitationPart d = true) ->
  scopeClosed isDelimitation p C delimitation ->
  (C = [] -> EC = []) -> (C <> [] -> 0 < size C) -> Rewrites C EC ->
  Rewrites (p :: C ++ option_list delimitation)
    (toIndeterminate p :: EC ++ option_list (delimited p delimitation)).
Proof.
  intros Hk Hkd Hcl Hnil Hpos HC. destruct delimitation as [d|]; cbn in Hcl |- *.
  - destruct Hcl as (Hi & Hd & Hb). rewrite toIndeterminate_indeterminate by exact Hi.
    apply Rewrites_indeterminate; auto.
  - destruct Hcl as (Hd & HL). rewrite app_nil_r. destruct C as [|c C].
    + rewrite (Hnil eq_refl). apply Rewrites_determinate_empty; auto.
    + apply Rewrites_determinate; auto.
Qed.

Lemma wfChunk_leaf (c : Part) :
  wfChunk c ->
  (isHeaderPart c || isValueChunk c = true) /\ isFragments c = false /\ partBytes c <> [].
Proof. intros (Hc & Hb). destruct c; try discriminate. auto. Qed.

(** The stage on the traversal of a node, of the items of a sequence,
    of the content of an item. *)
Lemma rewrite_Rewrites :
  (forall n, wfNode n -> Rewrites (nodeParts n) (nodeParts (rewriteNode n))) /\
  (forall l, wfItems l -> Rewrites (itemsParts l) (itemsParts (rewriteItems l))) /\
  (forall l, wfNodes l -> Rewrites (nodesParts l) (nodesParts (rewriteNodes l))).
Proof.
  apply Dataset_mutind; cbn [wfNode wfItems wfNodes nodeParts itemsParts nodesParts
    rewriteNode rewriteItems rewriteNodes].
  - intros header chunks (Hh & Hfr & Hb & Hcs). apply Rewrites_leaves. constructor.
    + rewrite Hh; auto.
    + eapply Forall_impl; [exact Hcs | apply wfChunk_leaf].
  - intros header fragments delimitation (Hh & _ & Hfr & Hd & Hb).
    apply Rewrites_fragments; auto.
  - intros sequence items IH delimitation (Hk & _ & Hwf & Hcl).
    apply (Rewrites_scope isSequenceDelimitationPart);
      auto using itemsParts_rewritten_nil; try (apply itemsParts_pos; assumption).
    + rewrite Hk; reflexivity.
    + intros d ->; reflexivity.
  - intros _. apply Rewrites_nil.
  - intros item body IHbody delimitation rest IHrest (Hk & _ & Hwf & Hcl & Hrest).
    assert (Rewrites (item :: nodesParts body ++ option_list delimitation)
              (toIndeterminate item :: nodesParts (rewriteNodes body) ++
               option_list (delimited item delimitation))) as Hitem.
    { apply (Rewrites_scope isItemDelimitationPart);
        auto using nodesParts_rewritten_nil; try (apply nodesParts_pos; assumption).
      - rewrite Hk; apply orb_true_r.
      - intros d ->; apply orb_true_r. }
    destruct (list_eq_nil_dec (itemsParts rest)) as [Hnil | Hne].
    + rewrite Hnil, (itemsParts_rewritten_nil _ Hnil), !app_nil_r. exact Hitem.
    + apply Rewrites_app; auto. apply itemsParts_pos; assumption.
  - intros _. apply Rewrites_nil.
  - intros node IHnode rest IHrest (Hn & Hrest).
    destruct (list_eq_nil_dec (nodesParts rest)) as [Hnil | Hne].
    + rewrite Hnil, (nodesParts_rewritten_nil _ Hnil), !app_nil_r. auto.
    + apply Rewrites_app; auto. apply nodesParts_pos; assumption.
Qed.

Lemma between_initial : between (initial toIndeterminateLengthSequences).
Proof. repeat split; constructor. Qed.

(** The stage run over a dataset from its initial state: the rewritten
    dataset, and no scope left open. *)
Lemma toIndeterminate_dataset (ns : Nodes) :
  wfNodes ns ->
  answers (runFrom toIndeterminateLengthSequences (nodesParts ns)
             (initial toIndeterminateLengthSequences))
    (nodesParts (rewriteNodes ns)) [].
Proof.
  intros Hwf. unfold runFrom.
  rewrite (flatMapM_ext (accept _) toIndeterminate_step) by apply toIndeterminate_accept.
  destruct rewrite_Rewrites as (_ & _ & HR).
  apply (HR ns Hwf _ between_initial). constructor.
Qed.

(** C1: the rewriter is correct on datasets: on the traversal of a
    well-formed dataset it emits the traversal of the dataset with every
    scope made indeterminate, each header with the sentinel in its length
    field and each scope that had no delimitation closed by the encoded
    one where its content ends. *)
Theorem toIndeterminateLengthSequences_rewrites (ns : Nodes) :
  wfNodes ns ->
  run toIndeterminateLengthSequences (nodesParts ns) = nodesParts (rewriteNodes ns).
Proof.
  intros Hwf. destruct (toIndeterminate_dataset ns Hwf) as (Hout & _).
  unfold run. rewrite Hout. apply app_nil_r.
Qed.

End Tree.

(** ** The rewritten tree is a dataset of delimited scopes *)

Definition hasDelimitation (delimitation : option Part) : bool :=
  match delimitation with Some _ => true | None => false end.

(** A scope with its delimitation is closed whatever it holds. *)
Lemma scopeClosed_delimited (isDelimitation : Part -> bool) (scope : Part)
    (content content' : list Part) (delimitation : option Part) :
  hasDelimitation delimitation = true ->
  scopeClosed isDelimitation scope content delimitation ->
  scopeClosed isDelimitation scope content' delimitation.
Proof. destruct delimitation; [auto | discriminate]. Qed.

(** Every scope of the tree has its delimitation. *)
Fixpoint delimitedNode (n : Node) : bool :=
  match n with
  | ElementNode _ _ | FragmentsNode _ _ _ => true
  | SequenceNode _ items delimitation => hasDelimitation delimitation && delimitedItems items
  end
with delimitedItems (l : Items) : bool :=
  match l with
  | NoItems => true
  | ConsItem _ body delimitation rest =>
      hasDelimitation delimitation && delimitedNodes body && delimitedItems rest
  end
with delimitedNodes (l : Nodes) : bool :=
  match l with
  | NoNodes => true
  | ConsNode node rest => delimitedNode node && delimitedNodes rest
  end.

Section Rewritten.
Context `{Dictionary}.

Lemma toIndeterminate_scope (p : Part) :
  isSequencePart p || isItemPart p = true -> partBytes p <> [] ->
  indeterminate (toIndeterminate p) = true /\ partBytes (toIndeterminate p) <> [] /\
  isSequencePart (toIndeterminate p) = isSequencePart p /\
  isItemPart (toIndeterminate p) = isItemPart p.
Proof.
  intros Hk Hb. destruct (indeterminate p) eqn:Hi.
  - rewrite toIndeterminate_indeterminate by exact Hi. auto.
  - destruct p; try discriminate; unfold toIndeterminate; rewrite Hi; repeat split; auto;
      cbn [partBytes]; intros [_ ?]%app_eq_nil; discriminate.
Qed.

Lemma rewritten_scopeClosed (isDelimitation : Part -> bool) (p : Part) (C EC : list Part)
    (delimitation : option Part) :
  isSequencePart p || isItemPart p = true -> partBytes p <> [] ->
  isDelimitation (closing p) = true ->
  scopeClosed isDelimitation p C delimitation ->
  scopeClosed isDelimitation (toIndeterminate p) EC (delimited p delimitation).
Proof.
  intros Hk Hb Hc Hcl. destruct (toIndeterminate_scope p Hk Hb) as (Hi & _).
  destruct delimitation as [d|]; cbn in *; [tauto|].
  repeat split; auto. unfold closing. destruct (isItemPart p); discriminate.
Qed.

(** The rewritten tree is well formed, and every scope of it has its
    delimitation. *)
Lemma rewrite_wf :
  (forall n, wfNode n -> wfNode (rewriteNode n) /\ delimitedNode (rewriteNode n) = true) /\
  (forall l, wfItems l -> wfItems (rewriteItems l) /\ delimitedItems (rewriteItems l) = true) /\
  (forall l, wfNodes l -> wfNodes (rewriteNodes l) /\ delimitedNodes (rewriteNodes l) = true).
Proof.
  apply Dataset_mutind; cbn [wfNode wfItems wfNodes rewriteNode rewriteItems rewriteNodes
    delimitedNode delimitedItems delimitedNodes]; auto.
  - intros sequence items IH delimitation (Hk & Hb & Hwf & Hcl).
    destruct (IH Hwf) as (Hwf' & ->).
    destruct (toIndeterminate_scope sequence) as (_ & Hb' & Hk' & _);
      [rewrite Hk; auto | exact Hb|].
    rewrite Hk'. repeat split; auto.
    + apply (rewritten_scopeClosed _ _ (itemsParts items)); auto; [rewrite Hk; auto|].
      destruct sequence; try discriminate; reflexivity.
    + destruct delimitation; reflexivity.
  - intros item body IHbody delimitation rest IHrest (Hk & Hb & Hwf & Hcl & Hrest).
    destruct (IHbody Hwf) as (Hwf' & ->), (IHrest Hrest) as (Hrest' & ->).
    destruct (toIndeterminate_scope item) as (_ & Hb' & _ & Hk');
      [rewrite Hk; apply orb_true_r | exact Hb|].
    rewrite Hk'. repeat split; auto.
    + apply (rewritten_scopeClosed _ _ (nodesParts body)); auto;
        [rewrite Hk; apply orb_true_r|].
      destruct item; try discriminate; reflexivity.
    + destruct delimitation; reflexivity.
  - intros node IHnode rest IHrest (Hn & Hrest).
    destruct (IHnode Hn) as (? & ->), (IHrest Hrest) as (? & ->). auto.
Qed.

(** A dataset whose scopes all have their delimitation is left as it
    is. *)
Lemma rewrite_delimited :
  (forall n, wfNode n -> delimitedNode n = true -> rewriteNode n = n) /\
  (forall l, wfItems l -> delimitedItems l = true -> rewriteItems l = l) /\
  (forall l, wfNodes l -> delimitedNodes l = true -> rewriteNodes l = l).
Proof.
  apply Dataset_mutind; cbn [wfNode wfItems wfNodes rewriteNode rewriteItems rewriteNodes
    delimitedNode delimitedItems delimitedNodes]; auto.
  - intros sequence items IH [d|] (_ & _ & Hwf & Hi & _); [|discriminate].
    intros Hd. rewrite toIndeterminate_indeterminate, IH; auto.
  - intros item body IHbody [d|] rest IHrest (_ & _ & Hwf & (Hi & _) & Hrest);
      [|discriminate].
    intros (Hb & Hr)%andb_true_iff. rewrite toIndeterminate_indeterminate, IHbody, IHrest; auto.
  - intros node IHnode rest IHrest (Hn & Hrest) (Hdn & Hdr)%andb_true_iff.
    rewrite IHnode, IHrest; auto.
Qed.

(** The stage maps datasets to datasets: what a chain needs of it. *)
#[export] Instance toIndeterminate_DatasetMap :
  DatasetMap toIndeterminateLengthSequences rewriteNodes.
Proof.
  split; intros ns Hwf.
  - destruct (toIndeterminate_dataset ns Hwf) as (Hout & _).
    unfold run. rewrite Hout. apply app_nil_r.
  - destruct rewrite_wf as (_ & _ & Hrw). apply Hrw, Hwf.
Qed.

End Rewritten.

(** ** The datasets of the tests *)

Example dataset_determinate_rewritten :
  rewriteNodes dataset_determinate = dataset_indeterminate.
Proof. reflexivity. Qed.

(** Encapsulated pixel data in a determinate item: the item is rewritten
    and closed behind the delimitation of the fragment sequence, whose
    items are left as they are. *)
Example dataset_fragments_rewritten :
  run toIndeterminateLengthSequences (nodesParts dataset_fragments) =
    [derivationSequence; item1; patientNameHeader; patientNameValue;
     pixelDataFragments; item4 1; ValueChunk fragment1 true;
     item4 2; ValueChunk fragment2 true; sequenceEnd; itemEnd1; sequenceEnd].
Proof. reflexivity. Qed.

Lemma toIndeterminateLengthSequences_rewrites_witness :
  run toIndeterminateLengthSequences (nodesParts dataset_fragments) =
    nodesParts (rewriteNodes dataset_fragments).
Proof. apply toIndeterminateLengthSequences_rewrites, dataset_fragments_wf. Defined.
