(* ===== verification/FilterDataset.v ===== *)
(** * FilterDataset: [tagFilter] filters the tree

    The functional correctness of the tag filters, against the tree of
    [Dataset]: on the traversal of a well-formed dataset a tag filter
    emits, in order, the parts whose tag path the keep condition accepts,
    where the tag path of a part is read off the tree: an element or a
    sequence has the step of its tag under the path of the item it is
    in, an item the step of its sequence and its index, a value chunk
    the path of its header and a delimitation the path of what it
    closes.  A kept header of length zero is followed by the empty value
    chunk.  The default condition is never consulted: it decides only
    before the first element.

    The proof follows [RewriteDataset]: [Filters seg out Pre Post] says
    what the stage does with a segment from a state whose path satisfies
    [Pre]; the scopes of determinate length the segment uses up are
    closed behind it, and closing them moves the path. *)

From S2P Require Import Prelude Base Parts TagPath DicomFlow Fixtures Dataset TagFilter.

(** ** The filtered tree *)

Section Filtered.
Variable keepCondition : TagPath -> bool.

(** The parts judged at [path]. *)
Definition kept (path : TagPath) (ps : list Part) : list Part :=
  if keepCondition path then ps else [].

(** The value event guaranteed for a header of length zero. *)
Definition valueEvent (header : Part) : list Part :=
  if isHeaderPart header && (partLength header =? 0) then [valueChunkMarker] else [].

Fixpoint filterNode (context : TagPath) (n : Node) : list Part :=
  match n with
  | ElementNode header chunks =>
      kept (TagStep (partTag header) :: context) (header :: valueEvent header ++ chunks)
  | FragmentsNode header fragments delimitation =>
      kept (TagStep (partTag header) :: context) (header :: fragments ++ [delimitation])
  | SequenceNode sequence items delimitation =>
      let path := TagStep (partTag sequence) :: context in
      kept path [sequence] ++ filterItems (partTag sequence) context items ++
      kept path (option_list delimitation)
  end
with filterItems (tag : Tag) (context : TagPath) (l : Items) : list Part :=
  match l with
  | NoItems => []
  | ConsItem item body delimitation rest =>
      let path := ItemStep tag (partIndex item) :: context in
      (kept path [item] ++ filterNodes path body ++ kept path (option_list delimitation)) ++
      filterItems tag context rest
  end
with filterNodes (context : TagPath) (l : Nodes) : list Part :=
  match l with
  | NoNodes => []
  | ConsNode node rest => filterNode context node ++ filterNodes context rest
  end.

Lemma kept_app (path : TagPath) (ps qs : list Part) :
  kept path (ps ++ qs) = kept path ps ++ kept path qs.
Proof. unfold kept. destruct (keepCondition path); reflexivity. Qed.

Lemma kept_nil (path : TagPath) : kept path [] = [].
Proof. unfold kept. destruct (keepCondition path); reflexivity. Qed.

End Filtered.

(** ** Paths over a traversal *)

(** The path of the dataset being read: the root, or an item. *)
Definition isLevel (context : TagPath) : Prop :=
  match context with
  | [] | ItemStep _ _ :: _ => True
  | TagStep _ :: _ => False
  end.

(** The path between two nodes of the dataset at [context]: the context
    itself before the first, the step of the last node after it. *)
Definition level (context : TagPath) (path : TagPath) : Prop :=
  isLevel context /\ (path = context \/ exists tag, path = TagStep tag :: context).

(** The path between two items of the sequence [tag] at [context]. *)
Definition itemLevel (tag : Tag) (context : TagPath) (path : TagPath) : Prop :=
  path = TagStep tag :: context \/ exists index, path = ItemStep tag index :: context.

(** The move of the path where a scope ends. *)
Definition endPath (scope : Part) (path : TagPath) : TagPath :=
  if isItemPart scope then thenItemEnd path else thenSequenceEnd path.

(** The moves for the scopes that are used up, innermost first. *)
Definition closePath (stack : list (Part * Z)) (path : TagPath) : TagPath :=
  fold_left (fun t e => endPath (fst e) t) (List.filter expired stack) path.

Lemma thenElement_level (tag : Tag) (context path : TagPath) :
  level context path -> thenElement tag path = TagStep tag :: context.
Proof.
  intros (Hl & [-> | (t & ->)]); [|reflexivity].
  destruct context as [|[] ?]; cbn in *; tauto.
Qed.

Lemma thenItem_itemLevel (tag : Tag) (index : Z) (context path : TagPath) :
  itemLevel tag context path -> thenItem index path = ItemStep tag index :: context.
Proof. intros [-> | (i & ->)]; reflexivity. Qed.

Lemma thenSequenceEnd_itemLevel (tag : Tag) (context path : TagPath) :
  itemLevel tag context path -> thenSequenceEnd path = TagStep tag :: context.
Proof. intros [-> | (i & ->)]; reflexivity. Qed.

Lemma thenItemEnd_level (tag : Tag) (index : Z) (context path : TagPath) :
  level (ItemStep tag index :: context) path ->
  thenItemEnd path = ItemStep tag index :: context.
Proof. intros (_ & [-> | (t & ->)]); reflexivity. Qed.

Lemma closePath_quiet (stack : list (Part * Z)) (path : TagPath) :
  Forall (fun e => expired e = false) stack -> closePath stack path = path.
Proof. intros Hq. unfold closePath. rewrite filter_none by exact Hq. reflexivity. Qed.

Lemma closePath_cons (e : Part * Z) (stack : list (Part * Z)) (path : TagPath) :
  closePath (e :: stack) path =
    closePath stack (if expired e then endPath (fst e) path else path).
Proof. unfold closePath; cbn. destruct (expired e); reflexivity. Qed.

(** ** One step, from a state between two parts *)

Section Steps.
Context `{Dictionary}.
Variables (keepCondition : TagPath -> bool) (defCond : Part -> bool).

Local Abbreviation step := (tagFilter_step keepCondition defCond).
Local Abbreviation delimit := (tagFilter_delimit keepCondition defCond).

(** The stage outside fragments with no scope used up. *)
Definition steady (s : FlowState) : Prop := inFragments s = false /\ quiet s.

(** What a run answers: its output, and a steady state with the scopes
    of [stack'] that are not used up, at the path the others leave when
    they are closed at [path]. *)
Definition filtered (r : list Part * FlowState) (out : list Part) (path : TagPath)
    (stack' : list (Part * Z)) : Prop :=
  fst r = out /\ partStack (snd r) = live stack' /\
  tagPath (snd r) = closePath stack' path /\ steady (snd r).

(** The delimitation event of a scope that is used up moves the path
    and nothing else that counts. *)
Lemma tagFilter_deliver_state (e : Part * Z) (s : FlowState) :
  inFragments s = false ->
  partStack (snd (deliver (tagFilter_itemEnd keepCondition defCond)
                    (tagFilter_sequenceEnd keepCondition defCond) e s)) = partStack s /\
  inFragments (snd (deliver (tagFilter_itemEnd keepCondition defCond)
                      (tagFilter_sequenceEnd keepCondition defCond) e s)) = false /\
  tagPath (snd (deliver (tagFilter_itemEnd keepCondition defCond)
                  (tagFilter_sequenceEnd keepCondition defCond) e s)) =
    endPath (fst e) (tagPath s).
Proof.
  intros Hf. unfold deliver, endPath.
  destruct (isItemPart (fst e)); cbn; rewrite ?Hf; flow_frames; auto.
Qed.

Lemma tagFilter_delimit_state (s : FlowState) :
  inFragments s = false ->
  partStack (snd (delimit s)) = live (partStack s) /\
  inFragments (snd (delimit s)) = false /\
  tagPath (snd (delimit s)) = closePath (partStack s) (tagPath s).
Proof.
  intros Hf. unfold tagFilter_delimit, delimitWith, closePath, live.
  set (s0 := set_partStack _ s).
  assert (inFragments s0 = false) as Hf0 by exact Hf.
  change (tagPath s) with (tagPath s0).
  change (List.filter (fun e => negb (expired e)) (partStack s)) with (partStack s0).
  clearbody s0. revert s0 Hf0.
  induction (List.filter expired (partStack s)) as [|e l IH]; intros s0 Hf0; [auto|].
  rewrite flatMapM_cons; cbn [snd fold_left].
  destruct (tagFilter_deliver_state e s0 Hf0) as (Hst & Hf1 & Hp).
  rewrite <- Hst, <- Hp. apply IH, Hf1.
Qed.

(** The layers, by the kind of part. *)
Lemma tagFilter_layers_inFragments (p : Part) (s : FlowState) :
  inFragments s = false -> isFragments p = false ->
  inFragments (tagFilter_layers p s) = false.
Proof.
  intros Hf Hp. destruct p; cbn [tagFilter_layers]; rewrite ?Hf; try reflexivity.
  all: try (unfold enterFragments; rewrite Hp); flow_frames; assumption.
Qed.

Lemma tagFilter_layers_leaf (p : Part) (s : FlowState) :
  isHeaderPart p || isValueChunk p = true ->
  partStack (tagFilter_layers p s) = subtractBytes (blen (partBytes p)) (partStack s).
Proof.
  intros Hp. destruct p; try discriminate; cbn [tagFilter_layers]; flow_frames; reflexivity.
Qed.

Lemma tagFilter_layers_open (p : Part) (s : FlowState) :
  isSequencePart p || isItemPart p = true -> inFragments s = false ->
  partStack (tagFilter_layers p s) =
    (p, partLength p) :: subtractBytes (blen (partBytes p)) (partStack s).
Proof.
  intros Hp Hf. destruct p; try discriminate; cbn [tagFilter_layers]; rewrite ?Hf;
    flow_frames; reflexivity.
Qed.

Lemma tagFilter_layers_close (p : Part) (s : FlowState) :
  isSequenceDelimitationPart p || isItemDelimitationPart p = true ->
  inFragments s = false -> isDelimitationMarker p = false ->
  partStack (tagFilter_layers p s) =
    subtractBytes (blen (partBytes p)) (tail (partStack s)).
Proof.
  intros Hp Hf Hm. destruct p; try discriminate; cbn [tagFilter_layers];
    unfold consume, popScope; rewrite Hm; cbn; rewrite ?Hf; reflexivity.
Qed.

(** One step: the part and its value event if the path is kept, then
    the scopes it used up are closed. *)
Lemma tagFilter_step_leaves (p : Part) (s : FlowState) :
  inFragments (tagFilter_layers p s) = false -> isDelimitationMarker p = false ->
  tagFilter_path p s <> emptyTagPath ->
  filtered (step p s) (kept keepCondition (tagFilter_path p s) (p :: valueEvent p))
    (tagFilter_path p s) (partStack (tagFilter_layers p s)).
Proof.
  intros Hf Hm Hne. unfold filtered, steady.
  rewrite tagFilter_step_state, tagFilter_step_out, Hm.
  unfold tagFilter_keeps, kept, valueEvent. fold (tagFilter_path p s).
  rewrite bool_decide_eq_false_2 by exact Hne.
  set (s1 := set_keeping _ _).
  destruct (tagFilter_delimit_state s1) as (Hst & Hf' & Hpath); [exact Hf|].
  repeat split; auto. apply tagFilter_delimit_quiet.
Qed.

Lemma tagFilter_step_filtered (p : Part) (s : FlowState) :
  steady s -> isFragments p = false -> isDelimitationMarker p = false ->
  tagFilter_path p s <> emptyTagPath ->
  filtered (step p s) (kept keepCondition (tagFilter_path p s) (p :: valueEvent p))
    (tagFilter_path p s) (partStack (tagFilter_layers p s)).
Proof.
  intros (Hf & Hq) Hp Hm Hne. apply tagFilter_step_leaves; auto.
  apply tagFilter_layers_inFragments; assumption.
Qed.

(** *** Inside a fragment sequence *)

(** The stage inside the fragment sequence at [path], with no scope
    used up. *)
Definition insideAt (path : TagPath) (s : FlowState) : Prop :=
  inFragments s = true /\ quiet s /\ tagPath s = path.

Lemma isFragments_valueEvent (p : Part) : isFragments p = true -> valueEvent p = [].
Proof.
  intros Hp. unfold valueEvent. rewrite (isFragments_length p Hp), andb_false_r. reflexivity.
Qed.

(** The header of a fragment sequence, an item or a chunk of it: judged
    at the path of the header, its bytes counted. *)
Lemma tagFilter_step_fragment (p : Part) (s : FlowState) (n : Z) (path : TagPath) :
  path <> emptyTagPath ->
  (isFragments p = true /\ steady s /\ tagFilter_path p s = path) \/
  (isItemPart p || isValueChunk p = true /\ insideAt path s) ->
  owed n (partStack s) -> blen (partBytes p) < n ->
  fst (step p s) = kept keepCondition path [p] /\
  partStack (snd (step p s)) = subtractBytes (blen (partBytes p)) (partStack s) /\
  insideAt path (snd (step p s)).
Proof.
  intros Hne Hp Ho Hlt.
  assert (partStack (tagFilter_layers p s) =
            subtractBytes (blen (partBytes p)) (partStack s) /\
          inFragments (tagFilter_layers p s) = true /\
          tagFilter_path p s = path /\ isDelimitationMarker p = false /\
          valueEvent p = []) as (Hst & Hf & Hpath & Hm & Hv).
  { destruct Hp as [(Hp & (Hf & _) & Hpath) | (Hp & Hf & _ & Hpath)].
    - repeat split; auto using isFragments_valueEvent;
        destruct p; try discriminate; cbn [tagFilter_layers]; try reflexivity.
      + flow_frames. reflexivity.
      + unfold enterFragments. rewrite Hp. reflexivity.
    - rewrite tagFilter_path_eq.
      destruct p; try discriminate; cbn [tagFilter_layers]; rewrite ?Hf; auto. }
  assert (quiet (tagFilter_layers p s)) as Hq.
  { unfold quiet. rewrite Hst. eapply subtractBytes_quiet; eauto. }
  rewrite tagFilter_step_state, tagFilter_step_out, Hm.
  unfold tagFilter_keeps. fold (tagFilter_path p s). rewrite Hpath.
  rewrite bool_decide_eq_false_2 by exact Hne.
  unfold tagFilter_delimit. rewrite delimitWith_quiet_id by exact Hq.
  fold (valueEvent p). rewrite Hv. unfold kept, insideAt. cbn [snd app].
  destruct (keepCondition path); repeat split; auto.
Qed.

(** The delimitation of a fragment sequence: judged at the path of the
    header; it closes no scope of its own. *)
Lemma tagFilter_step_fragmentsEnd (d : Part) (s : FlowState) (path : TagPath) :
  insideAt path s -> path <> emptyTagPath ->
  isSequenceDelimitationPart d = true -> partBytes d <> [] ->
  filtered (step d s) (kept keepCondition path [d]) path
    (subtractBytes (blen (partBytes d)) (partStack s)).
Proof.
  intros (Hf & Hq & Hpath) Hne Hd Hb.
  pose proof (isDelimitationMarker_not d Hb) as Hm.
  assert (tagFilter_path d s = path) as Hp.
  { rewrite tagFilter_path_eq. destruct d; try discriminate. rewrite Hf. exact Hpath. }
  replace (kept keepCondition path [d]) with (kept keepCondition path (d :: valueEvent d))
    by (destruct d; try discriminate; reflexivity).
  replace (subtractBytes _ _) with (partStack (tagFilter_layers d s)).
  - rewrite <- Hp. apply tagFilter_step_leaves; auto; [|rewrite Hp; exact Hne].
    destruct d; try discriminate; reflexivity.
  - destruct d; try discriminate. cbn [tagFilter_layers]. unfold popScope.
    flow_frames. rewrite Hf, andb_false_r. reflexivity.
Qed.

End Steps.

(** ** Segments *)

Section Segments.
Context `{Dictionary}.
Variables (keepCondition : TagPath -> bool) (defCond : Part -> bool).

Local Abbreviation step := (tagFilter_step keepCondition defCond).
Local Abbreviation kept := (kept keepCondition).

Implicit Types (seg out A B C EA EB EC : list Part) (p d : Part) (s : FlowState).
Implicit Types (path : TagPath) (Pre Mid Post : TagPath -> Prop).

(** What the stage does with a segment, from any steady state whose path
    satisfies [Pre] and whose open scopes are owed the bytes of the
    segment. *)
Definition Filters seg out Pre Post : Prop :=
  forall s, steady s -> Pre (tagPath s) -> owed (size seg) (partStack s) ->
    exists path, Post path /\
      filtered (flatMapM step seg s) out path (subtractBytes (size seg) (partStack s)).

Lemma filtered_quiet (r : list Part * FlowState) out path (stack' : list (Part * Z)) :
  filtered r out path stack' -> Forall (fun e => expired e = false) stack' ->
  fst r = out /\ partStack (snd r) = stack' /\ tagPath (snd r) = path /\ steady (snd r).
Proof.
  intros (Ho & Hst & Hp & Hs) Hq. rewrite live_quiet in Hst by exact Hq.
  rewrite closePath_quiet in Hp by exact Hq. auto.
Qed.

Lemma filtered_closed (r : list Part * FlowState) out path (e : Part * Z)
    (stack' : list (Part * Z)) :
  filtered r out path (e :: stack') -> expired e = true ->
  filtered r out (endPath (fst e) path) stack'.
Proof.
  intros (Ho & Hst & Hp & Hs) He. rewrite closePath_cons, He in Hp.
  unfold live in Hst; cbn in Hst; rewrite He in Hst. unfold filtered; auto.
Qed.

Lemma filtered_app A B s outA outB path (stack' : list (Part * Z)) :
  fst (flatMapM step A s) = outA ->
  filtered (flatMapM step B (snd (flatMapM step A s))) outB path stack' ->
  filtered (flatMapM step (A ++ B) s) (outA ++ outB) path stack'.
Proof.
  intros <- (Ho & Hst & Hp & Hs). rewrite flatMapM_app. unfold filtered; cbn [fst snd].
  rewrite Ho. auto.
Qed.

Lemma Filters_nil Pre : Filters [] [] Pre Pre.
Proof.
  intros s (Hf & Hq) Hpre _. exists (tagPath s). split; [exact Hpre|].
  rewrite size_nil, subtractBytes_0. unfold filtered, steady; cbn.
  rewrite closePath_quiet, live_quiet by exact Hq. auto.
Qed.

Lemma Filters_weaken seg out Pre Post (Pre' Post' : TagPath -> Prop) :
  (forall path, Pre' path -> Pre path) -> (forall path, Post path -> Post' path) ->
  Filters seg out Pre Post -> Filters seg out Pre' Post'.
Proof.
  intros Hpre Hpost HF s Hs Hp Ho. destruct (HF s Hs (Hpre _ Hp) Ho) as (path & Hpath & Hr).
  exists path; auto.
Qed.

(** Segments compose: while the second has bytes to come, the first
    closes nothing that is owed them, and the path is where the first
    left it. *)
Lemma Filters_app A B EA EB Pre Mid Post :
  Filters A EA Pre Mid -> Filters B EB Mid Post -> 0 < size B ->
  Filters (A ++ B) (EA ++ EB) Pre Post.
Proof.
  intros HA HB Hpos s Hs Hpre Ho. rewrite size_app in *.
  pose proof (size_nonneg A) as HposA.
  assert (owed (size A) (partStack s)) as HoA by (eapply owed_le; [exact Ho | lia]).
  destruct (HA s Hs Hpre HoA) as (mid & Hmid & HrA).
  destruct (filtered_quiet _ _ _ _ HrA) as (Hout & Hst & Hp & Hs1).
  { eapply subtractBytes_quiet; [exact Ho | lia]. }
  destruct (HB _ Hs1) as (path & Hpath & HrB).
  { rewrite Hp; exact Hmid. }
  { rewrite Hst. apply subtractBytes_owed, Ho. }
  exists path. split; [exact Hpath|]. apply filtered_app; [exact Hout|].
  rewrite Hst, subtractBytes_add in HrB. exact HrB.
Qed.

(** Either a segment is the last of its level, or the next one has
    bytes. *)
Lemma Filters_then A B EA EB Pre Post :
  Filters A EA Pre Post -> Filters B EB Post Post ->
  (B = [] -> EB = []) -> (B <> [] -> 0 < size B) ->
  Filters (A ++ B) (EA ++ EB) Pre Post.
Proof.
  intros HA HB Hnil Hpos. destruct (list_eq_nil_dec B) as [-> | Hne].
  - rewrite (Hnil eq_refl), !app_nil_r. exact HA.
  - eapply Filters_app; eauto.
Qed.

(** One part, judged at the path the layers move to. *)
Lemma Filters_part p Pre path :
  isFragments p = false -> partBytes p <> [] -> path <> emptyTagPath ->
  (forall s, inFragments s = false -> Pre (tagPath s) -> tagFilter_path p s = path) ->
  forall s, steady s -> Pre (tagPath s) ->
    filtered (step p s) (kept path (p :: valueEvent p)) path
      (partStack (tagFilter_layers p s)).
Proof.
  intros Hfr Hb Hne Hpath s Hs Hpre. rewrite <- (Hpath s) by (auto; apply Hs).
  apply tagFilter_step_filtered; auto.
  - apply isDelimitationMarker_not, Hb.
  - rewrite Hpath by (auto; apply Hs). exact Hne.
Qed.

(** A header at the level of [context]: the path moves to its tag. *)
Lemma Filters_header p (context : TagPath) :
  isHeaderPart p = true -> isFragments p = false -> partBytes p <> [] ->
  Filters [p] (kept (TagStep (partTag p) :: context) (p :: valueEvent p))
    (level context) (eq (TagStep (partTag p) :: context)).
Proof.
  intros Hk Hfr Hb s Hs Hpre Ho. eexists; split; [reflexivity|].
  rewrite flatMapM_single, size_cons, size_nil, Z.add_0_r.
  rewrite <- (tagFilter_layers_leaf p s) by (rewrite Hk; reflexivity).
  apply (Filters_part p (level context)); auto.
  intros s' _ Hl. rewrite tagFilter_path_eq. destruct p; try discriminate.
  apply thenElement_level, Hl.
Qed.

(** A chunk of the value: judged where its header was. *)
Lemma Filters_chunk p path :
  wfChunk p -> path <> emptyTagPath -> Filters [p] (kept path [p]) (eq path) (eq path).
Proof.
  intros (Hk & Hb) Hne s Hs Hpre Ho. eexists; split; [reflexivity|].
  rewrite flatMapM_single, size_cons, size_nil, Z.add_0_r.
  rewrite <- (tagFilter_layers_leaf p s) by (rewrite Hk; apply orb_true_r).
  replace (kept path [p]) with (kept path (p :: valueEvent p))
    by (destruct p; try discriminate; reflexivity).
  apply (Filters_part p (eq path)); auto; [destruct p; try discriminate; reflexivity|].
  intros s' _ Hp. rewrite tagFilter_path_eq. destruct p; try discriminate. auto.
Qed.

Lemma Filters_chunks (chunks : list Part) path :
  Forall wfChunk chunks -> path <> emptyTagPath ->
  Filters chunks (kept path chunks) (eq path) (eq path).
Proof.
  intros Hcs Hne. induction Hcs as [|c cs Hc Hcs IH].
  - rewrite kept_nil. apply Filters_nil.
  - change (c :: cs) with ([c] ++ cs). rewrite kept_app.
    apply Filters_then; auto using Filters_chunk.
    + intros ->. apply kept_nil.
    + destruct Hcs as [|c' cs' (_ & Hb) _]; [congruence|]. intros _. apply size_cons_pos, Hb.
Qed.

(** An element: its header, the value event, its chunks, all at the path
    of the header. *)
Lemma Filters_element p (chunks : list Part) (context : TagPath) :
  isHeaderPart p = true -> isFragments p = false -> partBytes p <> [] ->
  Forall wfChunk chunks ->
  Filters (p :: chunks)
    (kept (TagStep (partTag p) :: context) (p :: valueEvent p ++ chunks))
    (level context) (eq (TagStep (partTag p) :: context)).
Proof.
  intros Hk Hfr Hb Hcs. change (p :: chunks) with ([p] ++ chunks).
  change (p :: valueEvent p ++ chunks) with ((p :: valueEvent p) ++ chunks).
  rewrite kept_app. apply Filters_then; auto using Filters_header.
  - apply Filters_chunks; [exact Hcs | discriminate].
  - intros ->. apply kept_nil.
  - destruct Hcs as [|c' cs' (_ & Hb') _]; [congruence|]. intros _. apply size_cons_pos, Hb'.
Qed.

(** The fragments of a fragment sequence: judged at the path of its
    header, their bytes counted. *)
Lemma fragments_filtered (fragments : list Part) s (n : Z) path :
  path <> emptyTagPath -> insideAt path s -> Forall wfFragment fragments ->
  owed n (partStack s) -> size fragments < n ->
  fst (flatMapM step fragments s) = kept path fragments /\
  partStack (snd (flatMapM step fragments s)) =
    subtractBytes (size fragments) (partStack s) /\
  insideAt path (snd (flatMapM step fragments s)).
Proof.
  intros Hne Hs Hfr. revert s n Hs.
  induction Hfr as [|p fragments (Hk & Hb) _ IH]; intros s n Hs Ho Hlt.
  - rewrite size_nil, subtractBytes_0, kept_nil. auto.
  - rewrite size_cons in *. pose proof (blen_pos _ Hb). pose proof (size_nonneg fragments).
    destruct (tagFilter_step_fragment keepCondition defCond p s n path Hne)
      as (Hout & Hst & Hin); [right; auto | exact Ho | lia |].
    rewrite flatMapM_cons. cbn [fst snd].
    destruct (IH (snd (step p s)) (n - blen (partBytes p)) Hin) as (Hout' & Hst' & Hin').
    { rewrite Hst. apply subtractBytes_owed.
      replace (blen (partBytes p) + (n - blen (partBytes p))) with n by lia. exact Ho. }
    { lia. }
    rewrite Hout, Hout', Hst', Hst, subtractBytes_add.
    change (p :: fragments) with ([p] ++ fragments). rewrite kept_app. auto.
Qed.

(** A fragment sequence: all of it judged at the path of its header. *)
Lemma Filters_fragments (header : Part) (fragments : list Part) d (context : TagPath) :
  isFragments header = true -> Forall wfFragment fragments ->
  isSequenceDelimitationPart d = true -> partBytes d <> [] ->
  Filters (header :: fragments ++ [d])
    (kept (TagStep (partTag header) :: context) (header :: fragments ++ [d]))
    (level context) (eq (TagStep (partTag header) :: context)).
Proof.
  intros Hh Hfr Hd Hb s Hs Hpre Ho. eexists; split; [reflexivity|].
  pose proof (blen_pos _ Hb). pose proof (size_nonneg fragments).
  change (header :: fragments ++ [d]) with ([header] ++ (fragments ++ [d])) in *.
  rewrite !kept_app. rewrite !size_app, !size_cons, !size_nil, !Z.add_0_r in *.
  set (path := TagStep (partTag header) :: context).
  assert (path <> emptyTagPath) as Hne by discriminate.
  destruct (tagFilter_step_fragment keepCondition defCond header s
              (blen (partBytes header) + (size fragments + blen (partBytes d))) path Hne)
    as (Hout & Hst & Hin); [left; repeat split; auto; try apply Hs | exact Ho | lia |].
  { rewrite tagFilter_path_eq. destruct header; try discriminate.
    apply thenElement_level, Hpre. }
  rewrite <- flatMapM_single in Hout, Hst, Hin.
  apply filtered_app; [exact Hout|].
  set (s1 := snd (flatMapM step [header] s)) in *.
  destruct (fragments_filtered fragments s1 (size fragments + blen (partBytes d)) path
              Hne Hin Hfr) as (Hout2 & Hst2 & Hin2).
  { rewrite Hst. apply subtractBytes_owed, Ho. }
  { lia. }
  apply filtered_app; [exact Hout2|]. rewrite flatMapM_single.
  set (s2 := snd (flatMapM step fragments s1)) in *.
  replace (subtractBytes _ (partStack s))
    with (subtractBytes (blen (partBytes d)) (partStack s2)).
  2: { rewrite Hst2, Hst, !subtractBytes_add. f_equal; lia. }
  apply tagFilter_step_fragmentsEnd; auto.
Qed.

(** *** Scopes

    [p] opens a scope: from a path of [Pre] the layers move to [scope],
    the path of the sequence or of the item; the content starts there
    and, wherever it leaves the path, the end of the scope moves it back
    to [scope]. *)
Section Scope.
Variables (p : Part) (scope : TagPath) (Pre PreC PostC : TagPath -> Prop)
  (C EC : list Part).
Hypothesis Hkind : isSequencePart p || isItemPart p = true.
Hypothesis Hbytes : partBytes p <> [].
Hypothesis Hscope : scope <> emptyTagPath.
Hypothesis Hopen :
  forall s, inFragments s = false -> Pre (tagPath s) -> tagFilter_path p s = scope.
Hypothesis Hcontent : PreC scope.
Hypothesis Hend : forall path, PostC path -> endPath p path = scope.

Lemma tagFilter_scope_opened s :
  steady s -> Pre (tagPath s) ->
  filtered (step p s) (kept scope [p]) scope
    ((p, partLength p) :: subtractBytes (blen (partBytes p)) (partStack s)).
Proof.
  intros Hs Hpre. rewrite <- tagFilter_layers_open by (auto; apply Hs).
  replace (kept scope [p]) with (kept scope (p :: valueEvent p))
    by (destruct p; try discriminate; reflexivity).
  apply (Filters_part p Pre); auto. destruct p; try discriminate; reflexivity.
Qed.

(** A scope of determinate length without content is closed at once. *)
Lemma Filters_determinate_empty :
  indeterminate p = false -> partLength p = 0 -> endPath p scope = scope ->
  Filters [p] (kept scope [p]) Pre (eq scope).
Proof.
  intros Hd HL He s Hs Hpre Ho. exists scope; split; [reflexivity|].
  rewrite flatMapM_single, size_cons, size_nil, Z.add_0_r. rewrite <- He at 2.
  apply (filtered_closed _ _ _ (p, partLength p)); [apply tagFilter_scope_opened; auto|].
  unfold expired; cbn. rewrite Hd, HL. reflexivity.
Qed.

(** A scope of determinate length: closed where its content ends,
    without a part. *)
Lemma Filters_determinate :
  indeterminate p = false -> partLength p = size C -> 0 < size C ->
  Filters C EC PreC PostC -> Filters (p :: C) (kept scope [p] ++ EC) Pre (eq scope).
Proof.
  intros Hd HL Hpos HC s Hs Hpre Ho. exists scope; split; [reflexivity|].
  change (p :: C) with ([p] ++ C) in *.
  rewrite size_app, size_cons, size_nil, Z.add_0_r in *.
  destruct (filtered_quiet _ _ _ _ (tagFilter_scope_opened s Hs Hpre)) as (Hout & Hst & Hp & Hs1).
  { constructor; [unfold expired; cbn; rewrite Hd; cbn; apply Z.leb_gt; lia|].
    eapply subtractBytes_quiet; [exact Ho | lia]. }
  rewrite <- flatMapM_single in Hout, Hst, Hp, Hs1.
  apply filtered_app; [exact Hout|].
  destruct (HC _ Hs1) as (path & Hpath & Hr).
  { rewrite Hp; exact Hcontent. }
  { rewrite Hst. constructor; [cbn; lia|]. apply subtractBytes_owed, Ho. }
  rewrite Hst, subtractBytes_cons in Hr; cbn [fst snd] in Hr.
  rewrite Hd, HL, Z.sub_diag, subtractBytes_add in Hr.
  rewrite <- (Hend path Hpath).
  apply (filtered_closed _ _ _ (p, 0)); [exact Hr|].
  unfold expired; cbn. rewrite Hd. reflexivity.
Qed.

(** A scope of indeterminate length: its delimitation is judged at the
    path of the scope. *)
Lemma Filters_indeterminate d :
  indeterminate p = true ->
  isSequenceDelimitationPart d || isItemDelimitationPart d = true -> partBytes d <> [] ->
  (forall s, inFragments s = false -> PostC (tagPath s) -> tagFilter_path d s = scope) ->
  Filters C EC PreC PostC ->
  Filters (p :: C ++ [d]) (kept scope [p] ++ EC ++ kept scope [d]) Pre (eq scope).
Proof.
  intros Hi Hkd Hbd Hclose HC s Hs Hpre Ho. exists scope; split; [reflexivity|].
  pose proof (blen_pos _ Hbd) as Hpos. pose proof (size_nonneg C) as HposC.
  change (p :: C ++ [d]) with ([p] ++ (C ++ [d])) in *.
  rewrite !size_app, !size_cons, !size_nil, !Z.add_0_r in *.
  destruct (filtered_quiet _ _ _ _ (tagFilter_scope_opened s Hs Hpre)) as (Hout & Hst & Hp & Hs1).
  { constructor; [unfold expired; cbn; rewrite Hi; reflexivity|].
    eapply subtractBytes_quiet; [exact Ho | lia]. }
  rewrite <- flatMapM_single in Hout, Hst, Hp, Hs1.
  apply filtered_app; [exact Hout|].
  set (s1 := snd (flatMapM step [p] s)) in *.
  destruct (HC s1 Hs1) as (path & Hpath & Hr).
  { rewrite Hp; exact Hcontent. }
  { rewrite Hst. constructor; [cbn; congruence|].
    eapply owed_le; [apply subtractBytes_owed, Ho | lia]. }
  destruct (filtered_quiet _ _ _ _ Hr) as (Hout2 & Hst2 & Hp2 & Hs2).
  { rewrite Hst, subtractBytes_cons; cbn [fst]. rewrite Hi, subtractBytes_add.
    constructor; [unfold expired; cbn; rewrite Hi; reflexivity|].
    eapply subtractBytes_quiet; [exact Ho | lia]. }
  apply filtered_app; [exact Hout2|]. rewrite flatMapM_single.
  set (s2 := snd (flatMapM step C s1)) in *.
  replace (subtractBytes _ (partStack s))
    with (partStack (tagFilter_layers d s2)).
  2: { rewrite tagFilter_layers_close; auto; try apply Hs2.
       - rewrite Hst2, Hst, subtractBytes_cons; cbn [fst tail]. rewrite ?Hi; cbn [tail].
         rewrite !subtractBytes_add. f_equal; lia.
       - apply isDelimitationMarker_not, Hbd. }
  replace (kept scope [d]) with (kept scope (d :: valueEvent d))
    by (destruct d; try discriminate; reflexivity).
  apply (Filters_part d PostC); auto; [destruct d; try discriminate; reflexivity|].
  rewrite Hp2; exact Hpath.
Qed.

End Scope.
End Segments.

(** ** The tree *)

Section Tree.
Context `{Dictionary}.
Variables (keepCondition : TagPath -> bool) (defCond : Part -> bool).

Local Abbreviation Filters := (Filters keepCondition defCond).
Local Abbreviation kept := (kept keepCondition).
Local Abbreviation filterNode := (filterNode keepCondition).
Local Abbreviation filterItems := (filterItems keepCondition).
Local Abbreviation filterNodes := (filterNodes keepCondition).

Lemma filterItems_nil (tag : Tag) (context : TagPath) (l : Items) :
  itemsParts l = [] -> filterItems tag context l = [].
Proof. destruct l; [reflexivity | discriminate]. Qed.

Lemma filterNodes_nil (context : TagPath) (l : Nodes) :
  nodesParts l = [] -> filterNodes context l = [].
Proof. destruct l as [|[] ?]; [reflexivity | discriminate..]. Qed.

(** A scope of either encoding, around a content that is filtered. *)
Lemma Filters_scope (isDelimitation : Part -> bool) (p : Part) (scope : TagPath)
    (Pre PreC PostC : TagPath -> Prop) (C EC : list Part) (delimitation : option Part) :
  isSequencePart p || isItemPart p = true -> partBytes p <> [] ->
  scope <> emptyTagPath ->
  (forall s, inFragments s = false -> Pre (tagPath s) -> tagFilter_path p s = scope) ->
  PreC scope -> endPath p scope = scope ->
  (forall path, PostC path -> endPath p path = scope) ->
  (forall d, isDelimitation d = true ->
     isSequenceDelimitationPart d || isItemDelimitationPart d = true /\
     forall s, inFragments s = false -> PostC (tagPath s) -> tagFilter_path d s = scope) ->
  scopeClosed isDelimitation p C delimitation ->
  (C = [] -> EC = []) -> (C <> [] -> 0 < size C) -> Filters C EC PreC PostC ->
  Filters (p :: C ++ option_list delimitation)
    (kept scope [p] ++ EC ++ kept scope (option_list delimitation)) Pre (eq scope).
Proof.
  intros Hk Hb Hne Hopen Hcontent Hself Hend Hdel Hcl Hnil Hpos HC.
  destruct delimitation as [d|]; cbn in Hcl |- *.
  - destruct Hcl as (Hi & Hd & Hbd). destruct (Hdel d Hd) as (Hkd & Hclose).
    apply (Filters_indeterminate _ _ p scope Pre PreC PostC); auto.
  - destruct Hcl as (Hd & HL). rewrite kept_nil, !app_nil_r. destruct C as [|c C].
    + rewrite (Hnil eq_refl), app_nil_r. eapply Filters_determinate_empty; eauto.
    + apply (Filters_determinate _ _ p scope Pre PreC PostC); auto.
Qed.

Lemma level_step (tag : Tag) (context : TagPath) :
  isLevel context -> level context (TagStep tag :: context).
Proof. intros Hl. split; [exact Hl | right; eexists; reflexivity]. Qed.

(** A sequence at the level of [context]. *)
Lemma Filters_sequence (sequence : Part) (context : TagPath) (C EC : list Part)
    (delimitation : option Part) :
  isLevel context -> isSequencePart sequence = true -> partBytes sequence <> [] ->
  scopeClosed isSequenceDelimitationPart sequence C delimitation ->
  (C = [] -> EC = []) -> (C <> [] -> 0 < size C) ->
  Filters C EC (itemLevel (partTag sequence) context) (itemLevel (partTag sequence) context) ->
  Filters (sequence :: C ++ option_list delimitation)
    (kept (TagStep (partTag sequence) :: context) [sequence] ++ EC ++
     kept (TagStep (partTag sequence) :: context) (option_list delimitation))
    (level context) (level context).
Proof.
  intros Hl Hk Hb Hcl Hnil Hpos HC.
  apply (Filters_weaken _ _ _ _ (level context) (eq (TagStep (partTag sequence) :: context)));
    [auto | intros path <-; apply level_step, Hl|].
  apply (Filters_scope isSequenceDelimitationPart sequence _ _
           (itemLevel (partTag sequence) context) (itemLevel (partTag sequence) context));
    auto.
  - rewrite Hk; reflexivity.
  - intros s _ Hp. rewrite tagFilter_path_eq. destruct sequence; try discriminate.
    apply thenElement_level, Hp.
  - left; reflexivity.
  - destruct sequence; try discriminate; reflexivity.
  - intros path Hp. unfold endPath. destruct sequence; try discriminate.
    apply thenSequenceEnd_itemLevel, Hp.
  - intros d Hd. split; [rewrite Hd; reflexivity|]. intros s Hf Hp.
    rewrite tagFilter_path_eq. destruct d; try discriminate. rewrite Hf.
    apply thenSequenceEnd_itemLevel, Hp.
Qed.

(** An item of the sequence [tag] at the level of [context]. *)
Lemma Filters_item (item : Part) (tag : Tag) (context : TagPath) (C EC : list Part)
    (delimitation : option Part) :
  isItemPart item = true -> partBytes item <> [] ->
  scopeClosed isItemDelimitationPart item C delimitation ->
  (C = [] -> EC = []) -> (C <> [] -> 0 < size C) ->
  Filters C EC (level (ItemStep tag (partIndex item) :: context))
    (level (ItemStep tag (partIndex item) :: context)) ->
  Filters (item :: C ++ option_list delimitation)
    (kept (ItemStep tag (partIndex item) :: context) [item] ++ EC ++
     kept (ItemStep tag (partIndex item) :: context) (option_list delimitation))
    (itemLevel tag context) (itemLevel tag context).
Proof.
  intros Hk Hb Hcl Hnil Hpos HC.
  apply (Filters_weaken _ _ _ _ (itemLevel tag context)
           (eq (ItemStep tag (partIndex item) :: context)));
    [auto | intros path <-; right; eexists; reflexivity|].
  apply (Filters_scope isItemDelimitationPart item _ _
           (level (ItemStep tag (partIndex item) :: context))
           (level (ItemStep tag (partIndex item) :: context)));
    auto.
  - rewrite Hk; apply orb_true_r.
  - intros s Hf Hp. rewrite tagFilter_path_eq. destruct item; try discriminate.
    rewrite Hf. apply thenItem_itemLevel, Hp.
  - split; [exact I | left; reflexivity].
  - destruct item; try discriminate; reflexivity.
  - intros path Hp. unfold endPath. rewrite Hk. apply thenItemEnd_level, Hp.
  - intros d Hd. split; [rewrite Hd; apply orb_true_r|]. intros s Hf Hp.
    rewrite tagFilter_path_eq. destruct d; try discriminate.
    apply thenItemEnd_level, Hp.
Qed.

(** The stage on the traversal of a node, of the items of a sequence,
    of the content of an item. *)
Lemma filter_Filters :
  (forall n context, isLevel context -> wfNode n ->
     Filters (nodeParts n) (filterNode context n) (level context) (level context)) /\
  (forall l tag context, isLevel context -> wfItems l ->
     Filters (itemsParts l) (filterItems tag context l)
       (itemLevel tag context) (itemLevel tag context)) /\
  (forall l context, isLevel context -> wfNodes l ->
     Filters (nodesParts l) (filterNodes context l) (level context) (level context)).
Proof.
  apply Dataset_mutind; cbn [wfNode wfItems wfNodes nodeParts itemsParts nodesParts
    FilterDataset.filterNode FilterDataset.filterItems FilterDataset.filterNodes].
  - intros header chunks context Hl (Hh & Hfr & Hb & Hcs).
    apply (Filters_weaken _ _ _ _ (level context)
             (eq (TagStep (partTag header) :: context)));
      [auto | intros path <-; apply level_step, Hl|].
    apply Filters_element; auto.
  - intros header fragments delimitation context Hl (Hh & _ & Hfr & Hd & Hb).
    apply (Filters_weaken _ _ _ _ (level context)
             (eq (TagStep (partTag header) :: context)));
      [auto | intros path <-; apply level_step, Hl|].
    apply Filters_fragments; auto.
  - intros sequence items IH delimitation context Hl (Hk & Hb & Hwf & Hcl).
    apply Filters_sequence; auto using filterItems_nil.
    apply itemsParts_pos, Hwf.
  - intros tag context _ _. apply Filters_nil.
  - intros item body IHbody delimitation rest IHrest tag context Hl
      (Hk & Hb & Hwf & Hcl & Hrest).
    apply Filters_then; auto using filterItems_nil; [|apply itemsParts_pos, Hrest].
    apply Filters_item; auto using filterNodes_nil; [apply nodesParts_pos, Hwf|].
    apply IHbody; [exact I | exact Hwf].
  - intros context _ _. apply Filters_nil.
  - intros node IHnode rest IHrest context Hl (Hn & Hrest).
    apply Filters_then; auto using filterNodes_nil. apply nodesParts_pos, Hrest.
Qed.

End Tree.

Section Stage.
Context `{Dictionary}.
Variables (keepCondition : TagPath -> bool) (defaultCondition : option (Part -> bool))
  (warnings : option bool).

Lemma steady_initial :
  steady (initial (tagFilter keepCondition defaultCondition warnings)).
Proof. split; [reflexivity | constructor]. Qed.

(** The stage run over a dataset from its initial state: the filtered
    dataset, and no scope left open. *)
Lemma tagFilter_dataset (ns : Nodes) :
  wfNodes ns ->
  exists path,
    filtered (runFrom (tagFilter keepCondition defaultCondition warnings) (nodesParts ns)
                (initial (tagFilter keepCondition defaultCondition warnings)))
      (filterNodes keepCondition emptyTagPath ns) path [].
Proof.
  intros Hwf. unfold runFrom.
  rewrite (flatMapM_ext (accept _) (tagFilter_step keepCondition
             (tagFilter_defCond defaultCondition))) by apply tagFilter_accept.
  destruct (filter_Filters keepCondition (tagFilter_defCond defaultCondition))
    as (_ & _ & HF).
  destruct (HF ns emptyTagPath I Hwf _ steady_initial) as (path & _ & Hr).
  - split; [exact I | left; reflexivity].
  - constructor.
  - exists path. exact Hr.
Qed.

(** C2: a tag filter is correct on datasets: on the traversal of a
    well-formed dataset it emits, in order, the parts of the dataset
    whose tag path the keep condition accepts, a value event after each
    kept header of length zero, and nothing else; the default condition
    has no say. *)
Theorem tagFilter_filters (ns : Nodes) :
  wfNodes ns ->
  run (tagFilter keepCondition defaultCondition warnings) (nodesParts ns) =
    filterNodes keepCondition emptyTagPath ns.
Proof. intros Hwf. destruct (tagFilter_dataset ns Hwf) as (path & Hout & _). exact Hout. Qed.

#[export] Instance tagFilter_OnDatasets :
  OnDatasets (tagFilter keepCondition defaultCondition warnings)
    (filterNodes keepCondition emptyTagPath).
Proof. intros ns Hwf. destruct (tagFilter_dataset ns Hwf) as (path & Hout & _). exact Hout. Qed.

End Stage.

(** ** What the tree says of the filters *)

Section Verdicts.
Context `{Dictionary}.
Variable keepCondition : TagPath -> bool.

Local Abbreviation kept := (kept keepCondition).
Local Abbreviation filterNode := (filterNode keepCondition).
Local Abbreviation filterItems := (filterItems keepCondition).
Local Abbreviation filterNodes := (filterNodes keepCondition).

(** The condition takes one verdict on everything at or below
    [context]. *)
Definition verdictBelow (verdict : bool) (context : TagPath) : Prop :=
  forall q, isTrunkOf context q = true -> keepCondition q = verdict.

Lemma verdictBelow_step (verdict : bool) (context : TagPath) (st : Step) :
  verdictBelow verdict context -> verdictBelow verdict (st :: context).
Proof.
  intros Hv q Hq. apply Hv. eapply isTrunkOf_trans; [|exact Hq].
  apply isTrunkOf_step, isTrunkOf_refl.
Qed.

Lemma kept_below (verdict : bool) (context : TagPath) (st : Step) (ps : list Part) :
  verdictBelow verdict context -> kept (st :: context) ps = if verdict then ps else [].
Proof.
  intros Hv. unfold FilterDataset.kept.
  rewrite (Hv (st :: context)) by apply isTrunkOf_step, isTrunkOf_refl. reflexivity.
Qed.

(** Where the condition drops everything below a path, nothing of the
    datasets under it is emitted. *)
Lemma filter_dropped :
  (forall n context, verdictBelow false context -> filterNode context n = []) /\
  (forall l tag context, verdictBelow false context -> filterItems tag context l = []) /\
  (forall l context, verdictBelow false context -> filterNodes context l = []).
Proof.
  apply Dataset_mutind;
    cbn [FilterDataset.filterNode FilterDataset.filterItems FilterDataset.filterNodes]; auto.
  - intros header chunks context Hv. apply (kept_below false), Hv.
  - intros header fragments delimitation context Hv. apply (kept_below false), Hv.
  - intros sequence items IH delimitation context Hv.
    rewrite !(kept_below false), IH by exact Hv. reflexivity.
  - intros item body IHbody delimitation rest IHrest tag context Hv.
    rewrite !(kept_below false), IHbody, IHrest by auto using verdictBelow_step.
    reflexivity.
  - intros node IHnode rest IHrest context Hv. rewrite IHnode, IHrest by exact Hv.
    reflexivity.
Qed.

Lemma withValueEvents_app (ps qs : list Part) :
  withValueEvents (ps ++ qs) = withValueEvents ps ++ withValueEvents qs.
Proof. apply flat_map_app. Qed.

Lemma withValueEvents_plain (ps : list Part) :
  Forall (fun p => isHeaderPart p = false) ps -> withValueEvents ps = ps.
Proof.
  induction 1 as [|p ps Hp _ IH]; [reflexivity|].
  change (withValueEvents (p :: ps))
    with ((if isHeaderPart p && (partLength p =? 0) then [p; valueChunkMarker] else [p]) ++
          withValueEvents ps).
  rewrite Hp, IH. reflexivity.
Qed.

Lemma withValueEvents_option (isDelimitation : Part -> bool) (scope : Part)
    (content : list Part) (delimitation : option Part) :
  scopeClosed isDelimitation scope content delimitation ->
  (forall d, isDelimitation d = true -> isHeaderPart d = false) ->
  withValueEvents (option_list delimitation) = option_list delimitation.
Proof.
  intros Hcl Hk. apply withValueEvents_plain. destruct delimitation as [d|]; constructor.
  - apply Hk, Hcl.
  - constructor.
Qed.

(** The value events of the parts of a node: an element has its own,
    no other part has one. *)
Lemma withValueEvents_element (header : Part) (chunks : list Part) :
  wfNode (ElementNode header chunks) ->
  withValueEvents (header :: chunks) = header :: valueEvent header ++ chunks.
Proof.
  intros (Hh & _ & _ & Hcs). change (header :: chunks) with ([header] ++ chunks).
  rewrite withValueEvents_app, (withValueEvents_plain chunks).
  - unfold valueEvent. cbn. rewrite Hh. cbn. destruct (partLength header =? 0); reflexivity.
  - eapply Forall_impl; [exact Hcs|]. intros c (Hc & _). destruct c; try discriminate.
    reflexivity.
Qed.

Lemma withValueEvents_fragments (header : Part) (fragments : list Part)
    (delimitation : Part) :
  wfNode (FragmentsNode header fragments delimitation) ->
  withValueEvents (header :: fragments ++ [delimitation]) =
    header :: fragments ++ [delimitation].
Proof.
  intros (Hh & _ & Hfr & Hd & _). change (header :: ?l) with ([header] ++ l).
  rewrite withValueEvents_app, (withValueEvents_plain (fragments ++ [delimitation])).
  - unfold withValueEvents; cbn [flat_map].
    rewrite (isFragments_length header Hh), andb_false_r. reflexivity.
  - apply Forall_app; split; [|repeat constructor].
    + eapply Forall_impl; [exact Hfr|]. intros p (Hp & _).
      destruct p; try discriminate; reflexivity.
    + destruct delimitation; try discriminate; reflexivity.
Qed.

Lemma withValueEvents_scope (isDelimitation : Part -> bool) (scope : Part)
    (inner content : list Part) (delimitation : option Part) :
  isSequencePart scope || isItemPart scope = true ->
  scopeClosed isDelimitation scope content delimitation ->
  (forall d, isDelimitation d = true -> isHeaderPart d = false) ->
  withValueEvents (scope :: inner ++ option_list delimitation) =
    scope :: withValueEvents inner ++ option_list delimitation.
Proof.
  intros Hk Hcl Hd. change (scope :: ?l) with ([scope] ++ l).
  rewrite !withValueEvents_app, (withValueEvents_option _ _ _ _ Hcl Hd).
  rewrite (withValueEvents_plain [scope]); [reflexivity|].
  repeat constructor. destruct scope; try discriminate; reflexivity.
Qed.

Lemma isSequenceDelimitationPart_not_header (d : Part) :
  isSequenceDelimitationPart d = true -> isHeaderPart d = false.
Proof. destruct d; try discriminate; reflexivity. Qed.

Lemma isItemDelimitationPart_not_header (d : Part) :
  isItemDelimitationPart d = true -> isHeaderPart d = false.
Proof. destruct d; try discriminate; reflexivity. Qed.

(** Where the condition keeps everything below a path, the datasets
    under it are emitted whole, with the value events. *)
Lemma filter_whole :
  (forall n context, verdictBelow true context -> wfNode n ->
     filterNode context n = withValueEvents (nodeParts n)) /\
  (forall l tag context, verdictBelow true context -> wfItems l ->
     filterItems tag context l = withValueEvents (itemsParts l)) /\
  (forall l context, verdictBelow true context -> wfNodes l ->
     filterNodes context l = withValueEvents (nodesParts l)).
Proof.
  apply Dataset_mutind;
    cbn [FilterDataset.filterNode FilterDataset.filterItems FilterDataset.filterNodes
         nodeParts itemsParts nodesParts]; auto.
  - intros header chunks context Hv Hwf.
    rewrite (kept_below true), withValueEvents_element by assumption. reflexivity.
  - intros header fragments delimitation context Hv Hwf.
    rewrite (kept_below true), withValueEvents_fragments by assumption. reflexivity.
  - intros sequence items IH delimitation context Hv (Hk & _ & Hwf & Hcl).
    rewrite !(kept_below true), IH by auto.
    rewrite (withValueEvents_scope _ _ _ _ _ ltac:(rewrite Hk; reflexivity) Hcl
               isSequenceDelimitationPart_not_header). reflexivity.
  - intros item body IHbody delimitation rest IHrest tag context Hv
      (Hk & _ & Hwf & Hcl & Hrest).
    rewrite !(kept_below true), IHbody, IHrest by auto using verdictBelow_step.
    rewrite withValueEvents_app,
      (withValueEvents_scope _ _ _ _ _ ltac:(rewrite Hk; apply orb_true_r) Hcl
         isItemDelimitationPart_not_header). reflexivity.
  - intros node IHnode rest IHrest context Hv (Hn & Hrest).
    rewrite IHnode, IHrest, withValueEvents_app by auto. reflexivity.
Qed.

End Verdicts.

(** The black list drops a listed item with all that is in it: the
    stream is that of the sequence without the item. *)
Theorem blacklist_drops_item (blacklist : list TagPath) (tag : Tag) (context : TagPath)
    (item : Part) (body : Nodes) (delimitation : option Part) (rest : Items) :
  In (ItemStep tag (partIndex item) :: context) blacklist ->
  filterItems (blacklist_keepCondition blacklist) tag context
    (ConsItem item body delimitation rest) =
  filterItems (blacklist_keepCondition blacklist) tag context rest.
Proof.
  intros Hin.
  assert (verdictBelow (blacklist_keepCondition blacklist) false
            (ItemStep tag (partIndex item) :: context)) as Hv.
  { intros q Hq. apply blacklist_keepCondition_false. eauto. }
  cbn [filterItems]. unfold kept. rewrite (Hv _ (isTrunkOf_refl _)).
  destruct (filter_dropped (blacklist_keepCondition blacklist)) as (_ & _ & ->); auto.
Qed.

(** The white list keeps a listed item whole: its header, all that is in
    it with the value events, and its delimitation. *)
Theorem whitelist_keeps_item `{Dictionary} (whitelist : list TagPath) (tag : Tag)
    (context : TagPath) (item : Part) (body : Nodes) (delimitation : option Part)
    (rest : Items) :
  In (ItemStep tag (partIndex item) :: context) whitelist ->
  wfItems (ConsItem item body delimitation rest) ->
  filterItems (whitelist_keepCondition whitelist) tag context
    (ConsItem item body delimitation rest) =
  (item :: withValueEvents (nodesParts body) ++ option_list delimitation) ++
  filterItems (whitelist_keepCondition whitelist) tag context rest.
Proof.
  intros Hin (_ & _ & Hwf & _).
  assert (verdictBelow (whitelist_keepCondition whitelist) true
            (ItemStep tag (partIndex item) :: context)) as Hv.
  { intros q Hq. apply whitelist_keepCondition_true. eauto. }
  cbn [filterItems]. unfold kept. rewrite (Hv _ (isTrunkOf_refl _)).
  destruct (filter_whole (whitelist_keepCondition whitelist)) as (_ & _ & ->); auto.
Qed.

(** ** The datasets of the tests *)

Example blacklistFilter_dataset :
  filterNodes (blacklist_keepCondition [path_nameInItem1]) emptyTagPath dataset_mixed =
    [derivationSequence; item16; sequenceEnd; patientNameHeader; patientNameValue].
Proof. reflexivity. Qed.

Example whitelistFilter_dataset :
  filterNodes (whitelist_keepCondition [path_nameInItem1]) emptyTagPath dataset_mixed =
    [item16; patientNameHeader; patientNameValue].
Proof. reflexivity. Qed.

(** The pixel data black-listed inside the item: the fragment sequence
    goes with its items, its chunks and its delimitation. *)
Example blacklistFilter_fragments :
  run (blacklistFilter [TagStep Tag_PixelData :: path_item1]) (nodesParts dataset_fragments) =
    [derivationSequence; ItemPart 1 60 false [xfe; xff; x00; xe0; x3c; x00; x00; x00];
     patientNameHeader; patientNameValue; sequenceEnd].
Proof. reflexivity. Qed.

Lemma tagFilter_filters_witness :
  run (blacklistFilter [path_nameInItem1]) (nodesParts dataset_fragments) =
    filterNodes (blacklist_keepCondition [path_nameInItem1]) emptyTagPath dataset_fragments.
Proof. apply (tagFilter_filters _ None None), dataset_fragments_wf. Defined.

Lemma blacklist_drops_item_witness :
  filterItems (blacklist_keepCondition [path_item1]) Tag_DerivationCodeSequence emptyTagPath
    (ConsItem item16 (ConsNode (ElementNode patientNameHeader [patientNameValue]) NoNodes)
       None NoItems) =
  filterItems (blacklist_keepCondition [path_item1]) Tag_DerivationCodeSequence emptyTagPath
    NoItems.
Proof. apply blacklist_drops_item. left; reflexivity. Defined.

Lemma whitelist_keeps_item_witness :
  filterItems (whitelist_keepCondition [path_item1]) Tag_DerivationCodeSequence emptyTagPath
    (ConsItem item16 (ConsNode (ElementNode patientNameHeader [patientNameValue]) NoNodes)
       None NoItems) =
  (item16 :: withValueEvents [patientNameHeader; patientNameValue] ++ []) ++ [].
Proof.
  apply (whitelist_keeps_item [path_item1]); [left; reflexivity|].
  cbn. repeat split; try discriminate; repeat constructor; discriminate.
Defined.
