(* ===== verification/DiscardDataset.v ===== *)
(** * DiscardDataset: the filters that discard by tag

    [groupLengthDiscardFilter] and [fmiDiscardFilter] are tag filters
    whose keep condition reads one thing of the tag path, [tagPath.tag()],
    the tag of its last step.  For an element that is its own tag; for an
    item, and so for the delimitation of the item, it is the tag of the
    sequence.  On a tree the filter therefore discards the elements whose
    tag the condition rejects, at every depth, and, were the tag of a
    sequence rejected, the sequence with its items and delimitations but
    not what the items hold.

    - [discardNodes drop] is the dataset without the elements (fragment
      sequences included) whose tag [drop] marks.
    - [sequencesKept drop] says that no sequence of the dataset has a
      marked tag.  Group length elements and the elements of the file meta
      information are never sequences, so the datasets of the standard
      satisfy it for both filters.
    - A tag filter whose keep condition is [not (drop (tagPath.tag()))]
      emits the traversal of [discardNodes drop] of the dataset, with the
      value events; the two exported filters are instances.
    - Discarding is a filter on trees: it composes by disjunction, so it
      is idempotent and discards commute; it commutes with the rewriting of
      [RewriteDataset]; it keeps a dataset whose scopes have their
      delimitations well formed. *)

From S2P Require Import Prelude Base Parts TagPath DicomFlow Fixtures Dataset TagFilter.
From S2P Require Import IndeterminateLength RewriteDataset FilterDataset.

(** ** Discarding on trees *)

Section Discard.
Variable drop : Tag -> bool.

(** The node is an element, or a fragment sequence, with a marked tag. *)
Definition discarded (n : Node) : bool :=
  match n with
  | ElementNode header _ | FragmentsNode header _ _ => drop (partTag header)
  | SequenceNode _ _ _ => false
  end.

Fixpoint discardNode (n : Node) : Node :=
  match n with
  | SequenceNode sequence items delimitation =>
      SequenceNode sequence (discardItems items) delimitation
  | _ => n
  end
with discardItems (l : Items) : Items :=
  match l with
  | NoItems => NoItems
  | ConsItem item body delimitation rest =>
      ConsItem item (discardNodes body) delimitation (discardItems rest)
  end
with discardNodes (l : Nodes) : Nodes :=
  match l with
  | NoNodes => NoNodes
  | ConsNode node rest =>
      if discarded node then discardNodes rest
      else ConsNode (discardNode node) (discardNodes rest)
  end.

(** No sequence of the tree has a marked tag. *)
Fixpoint sequencesKeptNode (n : Node) : bool :=
  match n with
  | SequenceNode sequence items _ => negb (drop (partTag sequence)) && sequencesKeptItems items
  | _ => true
  end
with sequencesKeptItems (l : Items) : bool :=
  match l with
  | NoItems => true
  | ConsItem _ body _ rest => sequencesKept body && sequencesKeptItems rest
  end
with sequencesKept (l : Nodes) : bool :=
  match l with
  | NoNodes => true
  | ConsNode node rest => sequencesKeptNode node && sequencesKept rest
  end.

End Discard.

(** ** Discarding is a filter *)

Lemma discarded_none (n : Node) : discarded (fun _ => false) n = false.
Proof. destruct n; reflexivity. Qed.

Lemma discarded_discardNode (d1 d2 : Tag -> bool) (n : Node) :
  discarded d1 (discardNode d2 n) = discarded d1 n.
Proof. destruct n; reflexivity. Qed.

Lemma discarded_or (d1 d2 : Tag -> bool) (n : Node) :
  discarded (fun t => d1 t || d2 t) n = discarded d1 n || discarded d2 n.
Proof. destruct n; reflexivity. Qed.

Lemma discarded_ext (d1 d2 : Tag -> bool) (n : Node) :
  (forall t, d1 t = d2 t) -> discarded d1 n = discarded d2 n.
Proof. intros Hd. destruct n; cbn; auto. Qed.

(** Discarding reads the marking and nothing else of its argument. *)
Lemma discard_ext (d1 d2 : Tag -> bool) :
  (forall t, d1 t = d2 t) ->
  (forall n, discardNode d1 n = discardNode d2 n) /\
  (forall l, discardItems d1 l = discardItems d2 l) /\
  (forall l, discardNodes d1 l = discardNodes d2 l).
Proof.
  intros Hd. apply Dataset_mutind; cbn [discardNode discardItems discardNodes];
    try congruence.
  intros node IHnode rest IHrest.
  rewrite (discarded_ext d1 d2 node Hd), IHnode, IHrest. reflexivity.
Qed.

#[export] Instance discardNodes_proper :
  Proper (pointwise_relation Tag eq ==> eq ==> eq) discardNodes.
Proof. intros d1 d2 Hd l ? <-. apply discard_ext, Hd. Qed.

#[export] Instance sequencesKept_proper :
  Proper (pointwise_relation Tag eq ==> eq ==> eq) sequencesKept.
Proof.
  intros d1 d2 Hd l ? <-. revert l.
  apply (Nodes_mut
           (fun n => sequencesKeptNode d1 n = sequencesKeptNode d2 n)
           (fun l => sequencesKeptItems d1 l = sequencesKeptItems d2 l));
    cbn [sequencesKeptNode sequencesKeptItems sequencesKept]; congruence.
Qed.

(** Where nothing is marked nothing is discarded. *)
Lemma discard_none :
  (forall n, discardNode (fun _ => false) n = n) /\
  (forall l, discardItems (fun _ => false) l = l) /\
  (forall l, discardNodes (fun _ => false) l = l).
Proof.
  apply Dataset_mutind; cbn [discardNode discardItems discardNodes]; try congruence.
  intros node IHnode rest IHrest. rewrite discarded_none, IHnode, IHrest. reflexivity.
Qed.

(** Two discards are the discard of what either marks. *)
Lemma discard_discard (d1 d2 : Tag -> bool) :
  (forall n, discardNode d1 (discardNode d2 n) = discardNode (fun t => d2 t || d1 t) n) /\
  (forall l, discardItems d1 (discardItems d2 l) = discardItems (fun t => d2 t || d1 t) l) /\
  (forall l, discardNodes d1 (discardNodes d2 l) = discardNodes (fun t => d2 t || d1 t) l).
Proof.
  apply Dataset_mutind; cbn [discardNode discardItems discardNodes]; try congruence.
  intros node IHnode rest IHrest. rewrite discarded_or.
  destruct (discarded d2 node) eqn:E2; cbn [orb discardNodes]; [exact IHrest|].
  rewrite discarded_discardNode, IHnode, IHrest. reflexivity.
Qed.

Theorem discardNodes_idemp (drop : Tag -> bool) (l : Nodes) :
  discardNodes drop (discardNodes drop l) = discardNodes drop l.
Proof.
  destruct (discard_discard drop drop) as (_ & _ & ->).
  apply discardNodes_proper; [intros t; apply orb_diag | reflexivity].
Qed.

Theorem discardNodes_comm (d1 d2 : Tag -> bool) (l : Nodes) :
  discardNodes d1 (discardNodes d2 l) = discardNodes d2 (discardNodes d1 l).
Proof.
  destruct (discard_discard d1 d2) as (_ & _ & ->).
  destruct (discard_discard d2 d1) as (_ & _ & ->).
  apply discardNodes_proper; [intros t; apply orb_comm | reflexivity].
Qed.

(** ** Discarding and rewriting *)

Lemma partTag_toIndeterminate (p : Part) : partTag (toIndeterminate p) = partTag p.
Proof. destruct p; try reflexivity; unfold toIndeterminate; case_match; reflexivity. Qed.

Lemma discarded_rewriteNode (drop : Tag -> bool) (n : Node) :
  discarded drop (rewriteNode n) = discarded drop n.
Proof. destruct n; reflexivity. Qed.

(** The two commute: discarding touches elements, rewriting scopes. *)
Lemma discard_rewrite (drop : Tag -> bool) :
  (forall n, discardNode drop (rewriteNode n) = rewriteNode (discardNode drop n)) /\
  (forall l, discardItems drop (rewriteItems l) = rewriteItems (discardItems drop l)) /\
  (forall l, discardNodes drop (rewriteNodes l) = rewriteNodes (discardNodes drop l)).
Proof.
  apply Dataset_mutind;
    cbn [discardNode discardItems discardNodes rewriteNode rewriteItems rewriteNodes];
    try congruence.
  intros node IHnode rest IHrest. rewrite discarded_rewriteNode.
  destruct (discarded drop node); cbn [rewriteNodes]; rewrite ?IHnode, IHrest; reflexivity.
Qed.

Lemma sequencesKept_rewrite (drop : Tag -> bool) :
  (forall n, sequencesKeptNode drop (rewriteNode n) = sequencesKeptNode drop n) /\
  (forall l, sequencesKeptItems drop (rewriteItems l) = sequencesKeptItems drop l) /\
  (forall l, sequencesKept drop (rewriteNodes l) = sequencesKept drop l).
Proof.
  apply Dataset_mutind;
    cbn [sequencesKeptNode sequencesKeptItems sequencesKept rewriteNode rewriteItems
         rewriteNodes]; try congruence.
  intros sequence items IH _. rewrite partTag_toIndeterminate, IH. reflexivity.
Qed.

(** ** Discarding and well-formedness

    A scope of determinate length declares the bytes of its content, and
    is no longer well formed when some of it is discarded; a scope with
    its delimitation is. *)

Section WellFormed.
Context `{Dictionary}.
Variable drop : Tag -> bool.

Lemma discard_wf :
  (forall n, wfNode n -> delimitedNode n = true ->
     wfNode (discardNode drop n) /\ delimitedNode (discardNode drop n) = true) /\
  (forall l, wfItems l -> delimitedItems l = true ->
     wfItems (discardItems drop l) /\ delimitedItems (discardItems drop l) = true) /\
  (forall l, wfNodes l -> delimitedNodes l = true ->
     wfNodes (discardNodes drop l) /\ delimitedNodes (discardNodes drop l) = true).
Proof.
  apply Dataset_mutind;
    cbn [wfNode wfItems wfNodes discardNode discardItems discardNodes
         delimitedNode delimitedItems delimitedNodes]; auto.
  - intros sequence items IH delimitation (Hk & Hb & Hwf & Hcl) (Hd & Hi)%andb_true_iff.
    destruct (IH Hwf Hi) as (Hwf' & ->). rewrite Hd.
    eauto 7 using scopeClosed_delimited.
  - intros item body IHbody delimitation rest IHrest (Hk & Hb & Hwf & Hcl & Hrest)
      ((Hd & Hbd)%andb_true_iff & Hr)%andb_true_iff.
    destruct (IHbody Hwf Hbd) as (? & ->), (IHrest Hrest Hr) as (? & ->). rewrite Hd.
    eauto 8 using scopeClosed_delimited.
  - intros node IHnode rest IHrest (Hn & Hrest) (Hdn & Hdr)%andb_true_iff.
    destruct (IHnode Hn Hdn) as (? & Hdn'), (IHrest Hrest Hdr) as (? & Hdr').
    destruct (discarded drop node); cbn [wfNodes delimitedNodes]; [auto|].
    rewrite Hdn', Hdr'. auto.
Qed.

End WellFormed.

(** ** The filter on the tree *)

Section Filter.
Context `{Dictionary}.
Variables (keepCondition : TagPath -> bool) (drop : Tag -> bool).
Hypothesis keep_by_tag : forall p, keepCondition p = negb (drop (pathTag p)).

Lemma kept_by_tag (st : Step) (context : TagPath) (ps : list Part) :
  kept keepCondition (st :: context) ps =
    if drop (pathTag (st :: context)) then [] else ps.
Proof. unfold kept. rewrite keep_by_tag. destruct (drop _); reflexivity. Qed.

(** What the tree of [FilterDataset] emits under such a condition is the
    traversal of the tree without the marked elements. *)
Lemma filter_discards :
  (forall n context, wfNode n -> sequencesKeptNode drop n = true ->
     filterNode keepCondition context n =
       if discarded drop n then [] else withValueEvents (nodeParts (discardNode drop n))) /\
  (forall l tag context, drop tag = false -> wfItems l -> sequencesKeptItems drop l = true ->
     filterItems keepCondition tag context l =
       withValueEvents (itemsParts (discardItems drop l))) /\
  (forall l context, wfNodes l -> sequencesKept drop l = true ->
     filterNodes keepCondition context l =
       withValueEvents (nodesParts (discardNodes drop l))).
Proof.
  apply Dataset_mutind;
    cbn [filterNode filterItems filterNodes discarded discardNode discardItems discardNodes
         sequencesKeptNode sequencesKeptItems sequencesKept nodeParts itemsParts nodesParts];
    auto.
  - intros header chunks context Hwf _. rewrite kept_by_tag; cbn [pathTag].
    rewrite withValueEvents_element by exact Hwf. reflexivity.
  - intros header fragments delimitation context Hwf _. rewrite kept_by_tag; cbn [pathTag].
    rewrite withValueEvents_fragments by exact Hwf. reflexivity.
  - intros sequence items IH delimitation context (Hk & _ & Hwf & Hcl)
      (Hs%negb_true_iff & Hi)%andb_true_iff.
    rewrite !kept_by_tag, IH by assumption. cbn [pathTag]. rewrite Hs.
    rewrite (withValueEvents_scope _ _ _ _ _ ltac:(rewrite Hk; reflexivity) Hcl
               isSequenceDelimitationPart_not_header). reflexivity.
  - intros item body IHbody delimitation rest IHrest tag context Htag
      (Hk & _ & Hwf & Hcl & Hrest) (Hb & Hr)%andb_true_iff.
    rewrite !kept_by_tag, IHbody, IHrest by assumption. cbn [pathTag]. rewrite Htag.
    rewrite withValueEvents_app,
      (withValueEvents_scope _ _ _ _ _ ltac:(rewrite Hk; apply orb_true_r) Hcl
         isItemDelimitationPart_not_header). reflexivity.
  - intros node IHnode rest IHrest context (Hn & Hrest) (Hkn & Hkr)%andb_true_iff.
    rewrite IHnode, IHrest by assumption.
    destruct (discarded drop node); cbn [nodesParts]; rewrite ?withValueEvents_app;
      reflexivity.
Qed.

(** The stage: on the traversal of a well-formed dataset none of whose
    sequences is marked, a tag filter that keeps by the tag of the path
    emits the traversal of the dataset without the marked elements. *)
Lemma tagFilter_discards (defaultCondition : option (Part -> bool))
    (warnings : option bool) (ns : Nodes) :
  wfNodes ns -> sequencesKept drop ns = true ->
  run (tagFilter keepCondition defaultCondition warnings) (nodesParts ns) =
    withValueEvents (nodesParts (discardNodes drop ns)).
Proof.
  intros Hwf Hk. rewrite (on_datasets (st := tagFilter _ _ _)) by exact Hwf.
  apply filter_discards; assumption.
Qed.

End Filter.

(** ** The two exported filters *)

(** A group length element outside the file meta information. *)
Definition isDiscardedGroupLength (tag : Tag) : bool :=
  isGroupLength tag && negb (isFileMetaInformation tag).

Lemma groupLengthDiscard_by_tag (p : TagPath) :
  groupLengthDiscard_keepCondition p = negb (isDiscardedGroupLength (pathTag p)).
Proof.
  unfold groupLengthDiscard_keepCondition, isDiscardedGroupLength.
  rewrite negb_andb, negb_involutive. reflexivity.
Qed.

Section Exported.
Context `{Dictionary}.

(** C12: [groupLengthDiscardFilter] is correct on datasets: it emits the
    dataset without its group length elements, at every depth, those of
    the file meta information excepted, and nothing else is touched. *)
Theorem groupLengthDiscardFilter_discards (ns : Nodes) :
  wfNodes ns -> sequencesKept isDiscardedGroupLength ns = true ->
  run groupLengthDiscardFilter (nodesParts ns) =
    withValueEvents (nodesParts (discardNodes isDiscardedGroupLength ns)).
Proof.
  unfold groupLengthDiscardFilter.
  apply (tagFilter_discards _ _ groupLengthDiscard_by_tag).
Qed.

(** C13: [fmiDiscardFilter] is correct on datasets: it emits the dataset
    without the elements of the file meta information. *)
Theorem fmiDiscardFilter_discards (ns : Nodes) :
  wfNodes ns -> sequencesKept isFileMetaInformation ns = true ->
  run fmiDiscardFilter (nodesParts ns) =
    withValueEvents (nodesParts (discardNodes isFileMetaInformation ns)).
Proof.
  unfold fmiDiscardFilter.
  apply (tagFilter_discards fmiDiscard_keepCondition isFileMetaInformation).
  reflexivity.
Qed.

(** Discarding the group lengths and the file meta information, in
    either order, leaves the same dataset. *)
Theorem discards_commute (ns : Nodes) :
  discardNodes isFileMetaInformation (discardNodes isDiscardedGroupLength ns) =
  discardNodes isDiscardedGroupLength (discardNodes isFileMetaInformation ns).
Proof. apply discardNodes_comm. Qed.

End Exported.

(** ** At a file

    The file meta information, a group length, a sequence with a group
    length in its item, and an element of length zero. *)

Definition groupLength0010 : Part :=
  HeaderPart 0x00100000 VR_UL 4 false false true
    [x10; x00; x00; x00; x55; x4c; x04; x00].

Definition groupLength0010Value : Part := ValueChunk [x10; x00; x00; x00] true.

Definition dataset_file : Nodes :=
  ConsNode (ElementNode fmiGroupLength [fmiGroupLengthValue])
    (ConsNode (ElementNode transferSyntaxHeader [transferSyntaxValue])
       (ConsNode (ElementNode groupLength0010 [groupLength0010Value])
          (ConsNode
             (SequenceNode derivationSequence
                (ConsItem item1
                   (ConsNode (ElementNode groupLength0010 [groupLength0010Value])
                      (ConsNode (ElementNode patientNameHeader [patientNameValue]) NoNodes))
                   (Some itemEnd1) NoItems)
                (Some sequenceEnd))
             (ConsNode (ElementNode studyDateEmpty []) NoNodes)))).

Lemma dataset_file_wf : wfNodes dataset_file.
Proof. cbn. repeat split; try discriminate; repeat constructor; discriminate. Qed.

Example groupLengthDiscardFilter_file :
  run groupLengthDiscardFilter (nodesParts dataset_file) =
    [fmiGroupLength; fmiGroupLengthValue; transferSyntaxHeader; transferSyntaxValue;
     derivationSequence; item1; patientNameHeader; patientNameValue; itemEnd1; sequenceEnd;
     studyDateEmpty; valueChunkMarker].
Proof. reflexivity. Qed.

Example fmiDiscardFilter_file :
  run fmiDiscardFilter (nodesParts dataset_file) =
    [groupLength0010; groupLength0010Value;
     derivationSequence; item1; groupLength0010; groupLength0010Value;
     patientNameHeader; patientNameValue; itemEnd1; sequenceEnd;
     studyDateEmpty; valueChunkMarker].
Proof. reflexivity. Qed.

(** Were a sequence in the group of the file meta information,
    [fmiDiscardFilter] would discard the sequence, its items and their
    delimitations, and forward what the items hold. *)
Example fmiDiscardFilter_sequence :
  run fmiDiscardFilter
    [SequencePart 0x00020099 indeterminateLength false true
       [x02; x00; x99; x00; x53; x51; x00; x00; xff; xff; xff; xff];
     item1; patientNameHeader; patientNameValue; itemEnd1; sequenceEnd] =
    [patientNameHeader; patientNameValue].
Proof. reflexivity. Qed.

Lemma groupLengthDiscardFilter_discards_witness :
  run groupLengthDiscardFilter (nodesParts dataset_file) =
    withValueEvents (nodesParts (discardNodes isDiscardedGroupLength dataset_file)).
Proof. apply groupLengthDiscardFilter_discards; [apply dataset_file_wf | reflexivity]. Defined.

Lemma fmiDiscardFilter_discards_witness :
  run fmiDiscardFilter (nodesParts dataset_file) =
    withValueEvents (nodesParts (discardNodes isFileMetaInformation dataset_file)).
Proof. apply fmiDiscardFilter_discards; [apply dataset_file_wf | reflexivity]. Defined.
