(* ===== verification/PruneDataset.v ===== *)
(** * PruneDataset: the list filters prune the tree

    [blacklistFilter] and [whitelistFilter] keep by the place of a path
    among the listed ones.  Their keep conditions are closed under
    ancestors: a path that is kept is kept with every trunk of it, so
    what is dropped is dropped with all that is below it.  A tag filter
    with such a condition takes subtrees out of the dataset:

    - [pruneNodes keepCondition context] is the dataset without the
      elements, the items and the sequences whose path the condition
      rejects, an item going with all it holds.
    - The path of a sequence header is not a trunk of the paths of its
      items: a condition can reject the header and keep an item, and what
      the filter then emits is no dataset.  [agrees] rules that out: a
      sequence whose header is rejected has no item that is kept.  A black
      list of elements and items agrees with every dataset; a white list
      agrees when it lists the sequences on the way to what it lists.
    - On the traversal of a well-formed dataset the condition agrees
      with, the filter emits the traversal of the pruned dataset, with the
      value events.

    Pruning composes by conjunction of the conditions, so two black
    lists prune as their concatenation does. *)

From S2P Require Import Prelude Base Parts TagPath DicomFlow Fixtures Dataset TagFilter.
From S2P Require Import IndeterminateLength RewriteDataset FilterDataset.

(** ** Pruning *)

Section Prune.
Variable keepCondition : TagPath -> bool.

(** The tag a node is addressed by. *)
Definition nodeTag (n : Node) : Tag :=
  match n with
  | ElementNode header _ | FragmentsNode header _ _ => partTag header
  | SequenceNode sequence _ _ => partTag sequence
  end.

Fixpoint pruneNode (context : TagPath) (n : Node) : Node :=
  match n with
  | SequenceNode sequence items delimitation =>
      SequenceNode sequence (pruneItems (partTag sequence) context items) delimitation
  | _ => n
  end
with pruneItems (tag : Tag) (context : TagPath) (l : Items) : Items :=
  match l with
  | NoItems => NoItems
  | ConsItem item body delimitation rest =>
      let path := ItemStep tag (partIndex item) :: context in
      if keepCondition path
      then ConsItem item (pruneNodes path body) delimitation (pruneItems tag context rest)
      else pruneItems tag context rest
  end
with pruneNodes (context : TagPath) (l : Nodes) : Nodes :=
  match l with
  | NoNodes => NoNodes
  | ConsNode node rest =>
      if keepCondition (TagStep (nodeTag node) :: context)
      then ConsNode (pruneNode context node) (pruneNodes context rest)
      else pruneNodes context rest
  end.

(** No item of the list is kept. *)
Fixpoint itemsDropped (tag : Tag) (context : TagPath) (l : Items) : bool :=
  match l with
  | NoItems => true
  | ConsItem item _ _ rest =>
      negb (keepCondition (ItemStep tag (partIndex item) :: context)) &&
      itemsDropped tag context rest
  end.

(** In what is kept of the tree, a sequence whose header is rejected has
    no item that is kept. *)
Fixpoint agreesNode (context : TagPath) (n : Node) : bool :=
  match n with
  | SequenceNode sequence items _ =>
      (keepCondition (TagStep (partTag sequence) :: context) ||
       itemsDropped (partTag sequence) context items) &&
      agreesItems (partTag sequence) context items
  | _ => true
  end
with agreesItems (tag : Tag) (context : TagPath) (l : Items) : bool :=
  match l with
  | NoItems => true
  | ConsItem item body _ rest =>
      let path := ItemStep tag (partIndex item) :: context in
      (if keepCondition path then agrees path body else true) &&
      agreesItems tag context rest
  end
with agrees (context : TagPath) (l : Nodes) : bool :=
  match l with
  | NoNodes => true
  | ConsNode node rest => agreesNode context node && agrees context rest
  end.

(** A kept path is kept with its trunks. *)
Definition ancestorClosed : Prop :=
  forall p q, isTrunkOf p q = true -> keepCondition q = true -> keepCondition p = true.

End Prune.

(** ** The list filters are closed *)

Section Closed.
Context {P : Type} `{TrunkOrder P}.

Lemma blacklist_kept_above (l : list P) (p q : P) :
  isTrunkOf p q = true -> blacklist_keepCondition l q = true ->
  blacklist_keepCondition l p = true.
Proof.
  intros Hpq Hq. destruct (blacklist_keepCondition l p) eqn:Hp; [reflexivity|].
  apply blacklist_keepCondition_false in Hp as (b & Hb & Hbp).
  assert (blacklist_keepCondition l q = false) as Hq'
    by (apply blacklist_keepCondition_false; eauto using isTrunkOf_trans).
  congruence.
Qed.

End Closed.

Lemma blacklist_ancestorClosed (l : list TagPath) :
  ancestorClosed (blacklist_keepCondition l).
Proof. intros p q. apply blacklist_kept_above. Qed.

Lemma whitelist_ancestorClosed (l : list TagPath) :
  ancestorClosed (whitelist_keepCondition l).
Proof. intros p q. apply whitelist_kept_above. Qed.

(** ** The filter on the tree *)

Section Filter.
Context `{Dictionary}.
Variable keepCondition : TagPath -> bool.
Hypothesis closed : ancestorClosed keepCondition.

Lemma dropped_below (path : TagPath) :
  keepCondition path = false -> verdictBelow keepCondition false path.
Proof.
  intros Hp q Hq. destruct (keepCondition q) eqn:Hk; [|reflexivity].
  rewrite (closed path q Hq Hk) in Hp. discriminate.
Qed.

(** The items of a sequence none of which is kept emit nothing. *)
Lemma filterItems_dropped (tag : Tag) (context : TagPath) (l : Items) :
  itemsDropped keepCondition tag context l = true ->
  filterItems keepCondition tag context l = [].
Proof.
  induction l as [|item body delimitation rest IH]; [reflexivity|].
  cbn [itemsDropped filterItems]. intros (Hi%negb_true_iff & Hr)%andb_true_iff.
  destruct (filter_dropped keepCondition) as (_ & _ & Hnodes).
  unfold kept. rewrite Hi, Hnodes, IH by auto using dropped_below. reflexivity.
Qed.

Lemma pruneItems_dropped (tag : Tag) (context : TagPath) (l : Items) :
  itemsDropped keepCondition tag context l = true ->
  pruneItems keepCondition tag context l = NoItems.
Proof.
  induction l as [|item body delimitation rest IH]; [reflexivity|].
  cbn [itemsDropped pruneItems]. intros (Hi%negb_true_iff & Hr)%andb_true_iff.
  rewrite Hi. auto.
Qed.

(** What the tree of [FilterDataset] emits under a closed condition that
    agrees with the dataset is the traversal of the pruned dataset. *)
Lemma filter_prunes :
  (forall n context, wfNode n -> agreesNode keepCondition context n = true ->
     filterNode keepCondition context n =
       if keepCondition (TagStep (nodeTag n) :: context)
       then withValueEvents (nodeParts (pruneNode keepCondition context n)) else []) /\
  (forall l tag context, wfItems l -> agreesItems keepCondition tag context l = true ->
     filterItems keepCondition tag context l =
       withValueEvents (itemsParts (pruneItems keepCondition tag context l))) /\
  (forall l context, wfNodes l -> agrees keepCondition context l = true ->
     filterNodes keepCondition context l =
       withValueEvents (nodesParts (pruneNodes keepCondition context l))).
Proof.
  apply Dataset_mutind;
    cbn [filterNode filterItems filterNodes nodeTag pruneNode pruneItems pruneNodes
         agreesNode agreesItems agrees nodeParts itemsParts nodesParts]; auto.
  - intros header chunks context Hwf _. unfold kept.
    rewrite withValueEvents_element by exact Hwf. reflexivity.
  - intros header fragments delimitation context Hwf _. unfold kept.
    rewrite withValueEvents_fragments by exact Hwf. reflexivity.
  - intros sequence items IH delimitation context (Hk & _ & Hwf & Hcl)
      (Hs & Hi)%andb_true_iff.
    unfold kept. destruct (keepCondition (TagStep (partTag sequence) :: context)).
    + rewrite IH by assumption.
      rewrite (withValueEvents_scope _ _ _ _ _ ltac:(rewrite Hk; reflexivity) Hcl
                 isSequenceDelimitationPart_not_header). reflexivity.
    + rewrite filterItems_dropped by exact Hs. reflexivity.
  - intros item body IHbody delimitation rest IHrest tag context
      (Hk & _ & Hwf & Hcl & Hrest) (Hb & Hr)%andb_true_iff.
    unfold kept. rewrite IHrest by assumption.
    destruct (keepCondition (ItemStep tag (partIndex item) :: context)) eqn:Hp.
    + rewrite IHbody by assumption. cbn [itemsParts].
      rewrite withValueEvents_app,
        (withValueEvents_scope _ _ _ _ _ ltac:(rewrite Hk; apply orb_true_r) Hcl
           isItemDelimitationPart_not_header). reflexivity.
    + destruct (filter_dropped keepCondition) as (_ & _ & ->);
        [reflexivity | apply dropped_below, Hp].
  - intros node IHnode rest IHrest context (Hn & Hrest) (Han & Har)%andb_true_iff.
    rewrite IHnode, IHrest by assumption.
    destruct (keepCondition (TagStep (nodeTag node) :: context)); cbn [nodesParts];
      rewrite ?withValueEvents_app; reflexivity.
Qed.

(** The stage. *)
Lemma tagFilter_prunes (defaultCondition : option (Part -> bool))
    (warnings : option bool) (ns : Nodes) :
  wfNodes ns -> agrees keepCondition emptyTagPath ns = true ->
  run (tagFilter keepCondition defaultCondition warnings) (nodesParts ns) =
    withValueEvents (nodesParts (pruneNodes keepCondition emptyTagPath ns)).
Proof.
  intros Hwf Ha. rewrite (on_datasets (st := tagFilter _ _ _)) by exact Hwf.
  apply filter_prunes; assumption.
Qed.

End Filter.

(** ** Pruning composes *)

Lemma nodeTag_pruneNode (k : TagPath -> bool) (context : TagPath) (n : Node) :
  nodeTag (pruneNode k context n) = nodeTag n.
Proof. destruct n; reflexivity. Qed.

(** Pruning reads the condition and nothing else of its argument. *)
Lemma prune_ext (k1 k2 : TagPath -> bool) :
  (forall p, k1 p = k2 p) ->
  (forall n context, pruneNode k1 context n = pruneNode k2 context n) /\
  (forall l tag context, pruneItems k1 tag context l = pruneItems k2 tag context l) /\
  (forall l context, pruneNodes k1 context l = pruneNodes k2 context l).
Proof.
  intros Hk. apply Dataset_mutind; cbn [pruneNode pruneItems pruneNodes]; auto.
  - intros sequence items IH delimitation context. rewrite IH. reflexivity.
  - intros item body IHbody delimitation rest IHrest tag context.
    rewrite Hk, IHbody, IHrest. reflexivity.
  - intros node IHnode rest IHrest context. rewrite Hk, IHnode, IHrest. reflexivity.
Qed.

#[export] Instance pruneNodes_proper :
  Proper (pointwise_relation TagPath eq ==> eq ==> eq ==> eq) pruneNodes.
Proof. intros k1 k2 Hk c ? <- l ? <-. apply prune_ext, Hk. Qed.

(** Two prunings are the pruning by both conditions. *)
Lemma prune_prune (k1 k2 : TagPath -> bool) :
  (forall n context,
     pruneNode k2 context (pruneNode k1 context n) =
       pruneNode (fun p => k1 p && k2 p) context n) /\
  (forall l tag context,
     pruneItems k2 tag context (pruneItems k1 tag context l) =
       pruneItems (fun p => k1 p && k2 p) tag context l) /\
  (forall l context,
     pruneNodes k2 context (pruneNodes k1 context l) =
       pruneNodes (fun p => k1 p && k2 p) context l).
Proof.
  apply Dataset_mutind; cbn [pruneNode pruneItems pruneNodes]; auto.
  - intros sequence items IH delimitation context. rewrite IH. reflexivity.
  - intros item body IHbody delimitation rest IHrest tag context.
    destruct (k1 (ItemStep tag (partIndex item) :: context)); cbn [andb pruneItems];
      [|apply IHrest].
    destruct (k2 (ItemStep tag (partIndex item) :: context)); rewrite ?IHbody, IHrest;
      reflexivity.
  - intros node IHnode rest IHrest context.
    destruct (k1 (TagStep (nodeTag node) :: context)); cbn [andb pruneNodes];
      [|apply IHrest].
    rewrite nodeTag_pruneNode.
    destruct (k2 (TagStep (nodeTag node) :: context)); rewrite ?IHnode, IHrest;
      reflexivity.
Qed.

(** Pruning by two black lists, one after the other, is pruning by the
    two together. *)
Theorem prune_blacklists (l1 l2 : list TagPath) (context : TagPath) (ns : Nodes) :
  pruneNodes (blacklist_keepCondition l2) context
    (pruneNodes (blacklist_keepCondition l1) context ns) =
  pruneNodes (blacklist_keepCondition (l1 ++ l2)) context ns.
Proof.
  destruct (prune_prune (blacklist_keepCondition l1) (blacklist_keepCondition l2))
    as (_ & _ & ->).
  apply pruneNodes_proper; [|reflexivity..].
  intros p. symmetry. apply blacklist_keepCondition_app.
Qed.

(** ** Pruning and well-formedness

    As for discarding: what is left of a scope of determinate length no
    longer has the bytes the scope declares; a dataset whose scopes have
    their delimitations stays well formed. *)

Section WellFormed.
Context `{Dictionary}.
Variable keepCondition : TagPath -> bool.

Lemma prune_wf :
  (forall n context, wfNode n -> delimitedNode n = true ->
     wfNode (pruneNode keepCondition context n) /\
     delimitedNode (pruneNode keepCondition context n) = true) /\
  (forall l tag context, wfItems l -> delimitedItems l = true ->
     wfItems (pruneItems keepCondition tag context l) /\
     delimitedItems (pruneItems keepCondition tag context l) = true) /\
  (forall l context, wfNodes l -> delimitedNodes l = true ->
     wfNodes (pruneNodes keepCondition context l) /\
     delimitedNodes (pruneNodes keepCondition context l) = true).
Proof.
  apply Dataset_mutind;
    cbn [wfNode wfItems wfNodes pruneNode pruneItems pruneNodes
         delimitedNode delimitedItems delimitedNodes]; auto.
  - intros sequence items IH delimitation context (Hk & Hb & Hwf & Hcl)
      (Hd & Hi)%andb_true_iff.
    destruct (IH (partTag sequence) context Hwf Hi) as (Hwf' & ->). rewrite Hd.
    eauto 7 using scopeClosed_delimited.
  - intros item body IHbody delimitation rest IHrest tag context
      (Hk & Hb & Hwf & Hcl & Hrest) ((Hd & Hbd)%andb_true_iff & Hr)%andb_true_iff.
    destruct (IHrest tag context Hrest Hr) as (? & Hr').
    destruct (keepCondition (ItemStep tag (partIndex item) :: context));
      cbn [wfItems delimitedItems]; [|auto].
    destruct (IHbody (ItemStep tag (partIndex item) :: context) Hwf Hbd) as (? & ->).
    rewrite Hd, Hr'. eauto 8 using scopeClosed_delimited.
  - intros node IHnode rest IHrest context (Hn & Hrest) (Hdn & Hdr)%andb_true_iff.
    destruct (IHnode context Hn Hdn) as (? & Hdn'), (IHrest context Hrest Hdr) as (? & Hdr').
    destruct (keepCondition (TagStep (nodeTag node) :: context));
      cbn [wfNodes delimitedNodes]; [|auto].
    rewrite Hdn', Hdr'. auto.
Qed.

End WellFormed.

(** ** The two list filters *)

Section Lists.
Context `{Dictionary}.

(** C11: [blacklistFilter] prunes: on the traversal of a well-formed dataset
    it emits the traversal of the dataset without the elements and the
    items at or below a listed path, provided no listed path takes a
    sequence header from above items that stay. *)
Theorem blacklistFilter_prunes (blacklist : list TagPath) (ns : Nodes) :
  wfNodes ns -> agrees (blacklist_keepCondition blacklist) emptyTagPath ns = true ->
  run (blacklistFilter blacklist) (nodesParts ns) =
    withValueEvents
      (nodesParts (pruneNodes (blacklist_keepCondition blacklist) emptyTagPath ns)).
Proof.
  unfold blacklistFilter.
  apply (tagFilter_prunes _ (blacklist_ancestorClosed blacklist)).
Qed.

(** C30: [whitelistFilter] prunes: on the traversal of a well-formed dataset
    it emits the traversal of the dataset with the listed subtrees and
    what is on the way to them, provided the list does not reject the
    header of a sequence over items it keeps (the sequences on the way
    are on the list); a kept header of length zero is followed by the
    empty value chunk. *)
Theorem whitelistFilter_prunes (whitelist : list TagPath) (ns : Nodes) :
  wfNodes ns -> agrees (whitelist_keepCondition whitelist) emptyTagPath ns = true ->
  run (whitelistFilter whitelist) (nodesParts ns) =
    withValueEvents
      (nodesParts (pruneNodes (whitelist_keepCondition whitelist) emptyTagPath ns)).
Proof.
  unfold whitelistFilter.
  apply (tagFilter_prunes _ (whitelist_ancestorClosed whitelist)).
Qed.

End Lists.

(** ** At the datasets of the tests *)

Example blacklistFilter_prunes_item :
  pruneNodes (blacklist_keepCondition [path_item1]) emptyTagPath dataset_indeterminate =
    ConsNode (SequenceNode derivationSequence NoItems (Some sequenceEnd)) NoNodes.
Proof. reflexivity. Qed.

(** A white list of an element in an item does not agree with the
    dataset: it rejects the header of the sequence the item is in. *)
Example whitelist_disagrees :
  agrees (whitelist_keepCondition [path_nameInItem1]) emptyTagPath dataset_indeterminate =
    false /\
  agrees (whitelist_keepCondition [path_sequence; path_nameInItem1]) emptyTagPath
    dataset_indeterminate = true.
Proof. split; reflexivity. Qed.

Lemma blacklistFilter_prunes_witness :
  run (blacklistFilter [path_nameInItem1]) (nodesParts dataset_fragments) =
    withValueEvents
      (nodesParts
         (pruneNodes (blacklist_keepCondition [path_nameInItem1]) emptyTagPath
            dataset_fragments)).
Proof. apply blacklistFilter_prunes; [apply dataset_fragments_wf | reflexivity]. Defined.

Lemma whitelistFilter_prunes_witness :
  run (whitelistFilter [path_sequence; path_nameInItem1]) (nodesParts dataset_mixed) =
    withValueEvents
      (nodesParts
         (pruneNodes (whitelist_keepCondition [path_sequence; path_nameInItem1])
            emptyTagPath dataset_mixed)).
Proof. apply whitelistFilter_prunes; [apply dataset_mixed_wf | reflexivity]. Defined.
