(* ===== verification/ElementFlow.v ===== *)
(** * ElementFlow: the element assembler

    [element-flows.js] is not among the sources; its tests
    ([test/element-flows-test.ts]) are.  The assembler is modelled from
    the specification's section on it and from what the tests expect.

    - [Assembled] is what the assembler emits: an [Element], a
      [FragmentElement], a [StructuralMarker], and the marker that
      announces fragments, which the tests expect
      ([expectFragments]) where the fragment-bearing header arrives.
    - [elementFlow_onPart] is the algorithm: a header opens a pending
      element, value chunks are appended, the chunk marked last emits the
      element; in fragments an item opens a pending fragment, and an item
      of length zero, which no payload follows, is emitted at once; every
      other part is forwarded as a structural marker.
    - A value chunk with nothing pending cannot be accounted for: the
      specification makes that a fatal error, so the algorithm returns a
      [Result].
    - The assembler is layered on fragment tracking and on the guaranteed
      value event.  The two layers are inlined in [elementFlow_accept]
      with the effects [DicomFlow] defines for the mixins
      ([enterFragments], [valueChunkMarker]), because the assembler emits
      elements, not parts; [elementFlow_tracks_fragments] proves that the
      flag it keeps is the one the mixins keep.
    - The payload of a fragment item reaches the assembler the way every
      payload does, as value chunks.

    [Expectation] and [elementProbe] model the probe of the tests
    ([test-util.js], not among the sources) by the names of its calls;
    the four lists of expectations are those of the four tests. *)

From S2P Require Import Prelude Base Parts TagPath DicomFlow Fixtures.

(** ** What the assembler emits *)

Inductive Assembled : Type :=
| Element (tag : Tag) (vr : Z) (bigEndian : bool) (valueBytes : Bytes)
| FragmentElement (index : Z) (valueBytes : Bytes)
| FragmentsMarker (tag : Tag) (vr : Z)
| StructuralMarker (part : Part).

#[export] Instance Assembled_eq_decision : EqDecision Assembled.
Proof. solve_decision. Defined.

(** ** State *)

Record AssemblerState : Type := mkAssembler {
  layers : FlowState;                          (* the fields of the layers below *)
  pendingElement : option (Tag * Z * bool);    (* tag, VR, endianness *)
  pendingFragment : option (Z * Z);            (* index, declared length *)
  accumulated : Bytes                          (* value bytes so far *)
}.

Definition set_layers (l : FlowState) (s : AssemblerState) : AssemblerState :=
  mkAssembler l (pendingElement s) (pendingFragment s) (accumulated s).

Definition set_accumulated (b : Bytes) (s : AssemblerState) : AssemblerState :=
  mkAssembler (layers s) (pendingElement s) (pendingFragment s) b.

(** A header opens a pending element and an empty buffer. *)
Definition openElement (tag : Tag) (vr : Z) (bigEndian : bool) (s : AssemblerState)
  : AssemblerState :=
  mkAssembler (layers s) (Some (tag, vr, bigEndian)) (pendingFragment s) [].

(** An item in fragments opens a pending fragment. *)
Definition openFragment (index length : Z) (s : AssemblerState) : AssemblerState :=
  mkAssembler (layers s) (pendingElement s) (Some (index, length)) [].

(** Emitting clears the pending state. *)
Definition clearPending (s : AssemblerState) : AssemblerState :=
  mkAssembler (layers s) None None [].

Definition assemblerInitial `{Dictionary} : AssemblerState :=
  mkAssembler (construct (GuaranteedValueEvent (InFragments DeferToPartFlow)) rawObject)
    None None [].

(** ** The algorithm *)

(** A part the assembler cannot account for in its state. *)
Inductive AssemblerError : Type :=
| Unaccounted (part : Part).

Definition elementFlow_onPart `{Dictionary} (part : Part) (s : AssemblerState)
  : Result AssemblerError (list Assembled * AssemblerState) :=
  match part with
  | HeaderPart tag vr _ _ bigEndian _ _ =>
      if isFragments part
      then Ok ([FragmentsMarker tag vr], clearPending s)
      else Ok ([], openElement tag vr bigEndian s)
  | ValueChunk bytes last =>
      let value := accumulated s ++ bytes in
      if inFragments (layers s) then
        match pendingFragment s with
        | Some (index, _) =>
            if last then Ok ([FragmentElement index value], clearPending s)
            else Ok ([], set_accumulated value s)
        | None => Throw (Unaccounted part)
        end
      else
        match pendingElement s with
        | Some (tag, vr, bigEndian) =>
            if last then Ok ([Element tag vr bigEndian value], clearPending s)
            else Ok ([], set_accumulated value s)
        | None => Throw (Unaccounted part)
        end
  | ItemPart index length _ _ =>
      if inFragments (layers s) then
        if length =? 0 then Ok ([FragmentElement index []], clearPending s)
        else Ok ([], openFragment index length s)
      else Ok ([StructuralMarker part], s)
  | _ => Ok ([StructuralMarker part], s)
  end.

(** The assembler over its two layers: fragment tracking sets the flag
    at the header that opens fragments and resets it at the sequence
    delimitation, before the algorithm sees the part; the guaranteed
    value event follows a header of length zero with an empty last
    chunk. *)
Definition elementFlow_accept `{Dictionary} (part : Part) (s : AssemblerState)
  : Result AssemblerError (list Assembled * AssemblerState) :=
  match part with
  | HeaderPart _ _ length _ _ _ _ =>
      rbind (elementFlow_onPart part (set_layers (enterFragments part (layers s)) s))
        (fun r =>
           if length =? 0 then
             rbind (elementFlow_onPart valueChunkMarker (snd r))
               (fun v => Ok (fst r ++ fst v, snd v))
           else Ok r)
  | SequenceDelimitationPart _ _ =>
      elementFlow_onPart part (set_layers (set_inFragments false (layers s)) s)
  | _ => elementFlow_onPart part s
  end.

(** The assembler over a finite stream: what it emitted, and the state
    it ended in or the error that stopped it. *)
Definition elementFlow `{Dictionary} (ps : list Part)
  : list Assembled * Result AssemblerError AssemblerState :=
  flatMapR elementFlow_accept ps assemblerInitial.

(** ** The probe of the tests *)

Inductive Expectation : Type :=
| expectElement (tag : Tag) (value : option Bytes)
| expectFragments (tag : Tag)
| expectFragment (length : Z)
| expectSequence (tag : Tag) (length : Z)
| expectItem (index length : Z)
| expectSequenceDelimitation.

Definition meets (e : Expectation) (a : Assembled) : bool :=
  match e, a with
  | expectElement tag None, Element t _ _ _ => t =? tag
  | expectElement tag (Some value), Element t _ _ v =>
      (t =? tag) && bool_decide (v = value)
  | expectFragments tag, FragmentsMarker t _ => t =? tag
  | expectFragment length, FragmentElement _ v => blen v =? length
  | expectSequence tag length, StructuralMarker (SequencePart t l _ _ _) =>
      (t =? tag) && (l =? length)
  | expectItem index length, StructuralMarker (ItemPart i l _ _) =>
      (i =? index) && (l =? length)
  | expectSequenceDelimitation, StructuralMarker (SequenceDelimitationPart _ _) => true
  | _, _ => false
  end.

(** Every expectation is met in order and nothing is left over
    ([expectDicomComplete]). *)
Fixpoint elementProbe (elements : list Assembled) (es : list Expectation) : bool :=
  match es, elements with
  | [], [] => true
  | e :: es', a :: elements' => meets e a && elementProbe elements' es'
  | _, _ => false
  end.

(** "should combine headers and value chunks into elements" *)
Definition expect_elements : list Expectation :=
  [expectElement Tag_PatientName None; expectElement Tag_StudyDate None].

(** "should combine items in fragments into fragment elements" *)
Definition expect_fragments : list Expectation :=
  [expectFragments Tag_PixelData; expectFragment 4; expectFragment 4;
   expectSequenceDelimitation].

(** "should handle elements and fragments of zero length" *)
Definition expect_zero_length : list Expectation :=
  [expectElement Tag_StudyDate (Some []); expectElement Tag_PatientName (Some johnDoe);
   expectFragments Tag_PixelData; expectFragment 0; expectFragment 4;
   expectSequenceDelimitation].

(** "should handle determinate length sequences and items" *)
Definition expect_determinate : list Expectation :=
  [expectSequence Tag_DerivationCodeSequence 24; expectItem 1 16;
   expectElement Tag_PatientName None].

(** ** The streams of the tests, as the tokenizer hands them over *)

(** [item(0)]: a fragment item without payload. *)
Definition item0 (index : Z) : Part :=
  ItemPart index 0 false [xfe; xff; x00; xe0; x00; x00; x00; x00].

(** [data.studyDate()] is not among the sources: a Study Date with some
    header bytes and some value [date], in one chunk. *)
Definition studyDate (header date : Bytes) : list Part :=
  [HeaderPart Tag_StudyDate VR_DA (blen date) false false true header;
   ValueChunk date true].

Definition stream_zero_length : list Part :=
  [studyDateEmpty; patientNameHeader; patientNameValue; pixelDataFragments;
   item0 1; item4 2; ValueChunk fragment2 true; sequenceEnd].

(** ** Streams by their logical units

    A well-framed stream outside the assembler's control is a sequence of
    units: an element (its header and the chunks of its value), a
    fragment sequence (its header, its items with the chunks of their
    payload, its delimitation), or a part that stands for itself. *)

Definition partVR (p : Part) : Z :=
  match p with
  | HeaderPart _ vr _ _ _ _ _ => vr
  | _ => 0
  end.

Inductive Token : Type :=
| ElementToken (header : Part) (chunks : list Bytes)
| FragmentsToken (header : Part) (fragments : list (Part * list Bytes)) (delimitation : Part)
| MarkerToken (part : Part).

(** The chunks of one value: the last one is marked. *)
Fixpoint valueChunks (chunks : list Bytes) : list Part :=
  match chunks with
  | [] => []
  | [b] => [ValueChunk b true]
  | b :: rest => ValueChunk b false :: valueChunks rest
  end.

Definition fragmentParts (f : Part * list Bytes) : list Part :=
  fst f :: valueChunks (snd f).

Definition tokenParts (t : Token) : list Part :=
  match t with
  | ElementToken header chunks => header :: valueChunks chunks
  | FragmentsToken header fragments delimitation =>
      header :: flat_map fragmentParts fragments ++ [delimitation]
  | MarkerToken part => [part]
  end.

Definition fragmentAssembled (f : Part * list Bytes) : Assembled :=
  FragmentElement (partIndex (fst f)) (concat (snd f)).

Definition tokenAssembled (t : Token) : list Assembled :=
  match t with
  | ElementToken header chunks =>
      [Element (partTag header) (partVR header) (partBigEndian header) (concat chunks)]
  | FragmentsToken header fragments delimitation =>
      FragmentsMarker (partTag header) (partVR header)
        :: map fragmentAssembled fragments ++ [StructuralMarker delimitation]
  | MarkerToken part => [StructuralMarker part]
  end.

(** A value comes in at least one chunk, unless its declared length is
    zero: then no chunk comes. *)
Definition chunksFramed (length : Z) (chunks : list Bytes) : Prop :=
  if length =? 0 then chunks = [] else chunks <> [].

Definition fragmentFramed (f : Part * list Bytes) : Prop :=
  isItemPart (fst f) = true /\ chunksFramed (partLength (fst f)) (snd f).

Definition wellFramed `{Dictionary} (t : Token) : Prop :=
  match t with
  | ElementToken header chunks =>
      isHeaderPart header = true /\ isFragments header = false /\
      chunksFramed (partLength header) chunks
  | FragmentsToken header fragments delimitation =>
      isFragments header = true /\ Forall fragmentFramed fragments /\
      isSequenceDelimitationPart delimitation = true
  | MarkerToken part => isHeaderPart part = false /\ isValueChunk part = false
  end.

(** ** The layers below *)

(** The class the assembler extends, created as a stage of its own: it
    tracks fragments and passes every part. *)
Definition fragmentTracking `{Dictionary} : Stage FlowState :=
  create (GuaranteedValueEvent (InFragments DeferToPartFlow)).

Section Assembler.
Context `{Dictionary}.

Lemma fragmentTracking_state (part : Part) (l : FlowState) :
  snd (accept fragmentTracking part l) =
    match part with
    | HeaderPart _ _ _ _ _ _ _ => enterFragments part l
    | SequenceDelimitationPart _ _ => set_inFragments false l
    | _ => l
    end.
Proof. destruct part; try reflexivity. cbn. destruct (length =? 0); reflexivity. Qed.

Lemma elementFlow_onPart_layers (part : Part) (s s' : AssemblerState)
    (out : list Assembled) :
  elementFlow_onPart part s = Ok (out, s') -> layers s' = layers s.
Proof.
  unfold elementFlow_onPart; intros Hp.
  repeat case_match; simplify_eq; reflexivity.
Qed.

Lemma elementFlow_accept_layers (part : Part) (s s' : AssemblerState)
    (out : list Assembled) :
  elementFlow_accept part s = Ok (out, s') ->
  layers s' = snd (accept fragmentTracking part (layers s)).
Proof.
  rewrite fragmentTracking_state. unfold elementFlow_accept, rbind.
  destruct part; try apply elementFlow_onPart_layers.
  destruct (elementFlow_onPart _ _) as [[o1 s1]|] eqn:E1; [|discriminate].
  apply elementFlow_onPart_layers in E1. cbn [snd fst layers set_layers] in *.
  destruct (length =? 0); [|intros [= <- <-]; exact E1].
  destruct (elementFlow_onPart valueChunkMarker s1) as [[o2 s2]|] eqn:E2; [|discriminate].
  apply elementFlow_onPart_layers in E2. intros [= <- <-]. congruence.
Qed.

(** The flag the assembler keeps is the flag of the layers it is built
    on: whenever it returns, its layer fields are those the class below,
    run as a stage over the same stream, ends with. *)
Theorem elementFlow_tracks_fragments (ps : list Part) (s s' : AssemblerState)
    (out : list Assembled) :
  flatMapR elementFlow_accept ps s = (out, Ok s') ->
  layers s' = snd (runFrom fragmentTracking ps (layers s)).
Proof.
  revert s out; induction ps as [|p ps IH]; intros s out; cbn [flatMapR].
  - intros [= <- <-]. reflexivity.
  - destruct (elementFlow_accept p s) as [[o1 s1]|] eqn:E1; [|discriminate].
    destruct (flatMapR elementFlow_accept ps s1) as [o2 r] eqn:E2. intros [= <- ->].
    rewrite runFrom_cons; cbn [snd].
    rewrite <- (elementFlow_accept_layers _ _ _ _ E1). eapply IH, E2.
Qed.

(** ** Errors *)

(** A value chunk with nothing pending stops the assembler: it is the
    part the state cannot account for. *)
Theorem elementFlow_unaccounted_chunk (part : Part) (s : AssemblerState) :
  isValueChunk part = true -> pendingElement s = None -> pendingFragment s = None ->
  elementFlow_accept part s = Throw (Unaccounted part).
Proof.
  destruct part; try discriminate. intros _ He Hf.
  unfold elementFlow_accept, elementFlow_onPart. rewrite He, Hf.
  destruct (inFragments (layers s)); reflexivity.
Qed.

(** Only a value chunk can: every other part is accepted in every
    state. *)
Theorem elementFlow_accepts_structure (part : Part) (s : AssemblerState) :
  isValueChunk part = false -> partLength part <> 0 \/ isHeaderPart part = false ->
  isOk (elementFlow_accept part s) = true.
Proof.
  destruct part; try discriminate; intros _ Hl;
    unfold elementFlow_accept, elementFlow_onPart, rbind.
  2-6: repeat case_match; reflexivity.
  destruct Hl as [Hl | [=]]. cbn in Hl. apply Z.eqb_neq in Hl. rewrite Hl.
  destruct (isFragments _); reflexivity.
Qed.

End Assembler.

(** ** Assembling what was taken apart *)

Section RoundTrip.
Context `{Dictionary}.

(** The chunks of one value, with an element pending: nothing is emitted
    before the last chunk, which emits the element with all the bytes in
    arrival order. *)
Lemma valueChunks_element (chunks : list Bytes) (s : AssemblerState)
    (tag : Tag) (vr : Z) (bigEndian : bool) :
  chunks <> [] -> inFragments (layers s) = false ->
  pendingElement s = Some (tag, vr, bigEndian) ->
  flatMapR elementFlow_accept (valueChunks chunks) s =
    ([Element tag vr bigEndian (accumulated s ++ concat chunks)], Ok (clearPending s)).
Proof.
  intros Hc; revert s; induction chunks as [|b [|b' rest] IH]; intros s Hf Hp;
    [contradiction | |].
  - cbn [concat]. rewrite (app_nil_r b). cbn. rewrite Hf, Hp. reflexivity.
  - change (valueChunks (b :: b' :: rest))
      with (ValueChunk b false :: valueChunks (b' :: rest)).
    erewrite flatMapR_cons_ok by (cbn; rewrite Hf, Hp; reflexivity).
    rewrite IH by (discriminate || assumption). cbn [fst snd accumulated set_accumulated app].
    rewrite <- app_assoc. reflexivity.
Qed.

(** The same in fragments, with a fragment pending. *)
Lemma valueChunks_fragment (chunks : list Bytes) (s : AssemblerState) (index length : Z) :
  chunks <> [] -> inFragments (layers s) = true ->
  pendingFragment s = Some (index, length) ->
  flatMapR elementFlow_accept (valueChunks chunks) s =
    ([FragmentElement index (accumulated s ++ concat chunks)], Ok (clearPending s)).
Proof.
  intros Hc; revert s; induction chunks as [|b [|b' rest] IH]; intros s Hf Hp;
    [contradiction | |].
  - cbn [concat]. rewrite (app_nil_r b). cbn. rewrite Hf, Hp. reflexivity.
  - change (valueChunks (b :: b' :: rest))
      with (ValueChunk b false :: valueChunks (b' :: rest)).
    erewrite flatMapR_cons_ok by (cbn; rewrite Hf, Hp; reflexivity).
    rewrite IH by (discriminate || assumption). cbn [fst snd accumulated set_accumulated app].
    rewrite <- app_assoc. reflexivity.
Qed.

Lemma enterFragments_not (part : Part) (l : FlowState) :
  isFragments part = false -> enterFragments part l = l.
Proof. unfold enterFragments; intros ->; reflexivity. Qed.

Lemma enterFragments_inFragments (part : Part) (l : FlowState) :
  isFragments part = true -> inFragments (enterFragments part l) = true.
Proof. unfold enterFragments; intros ->; reflexivity. Qed.

(** An element outside fragments. *)
Lemma elementToken_assembled (header : Part) (chunks : list Bytes) (s : AssemblerState) :
  wellFramed (ElementToken header chunks) -> inFragments (layers s) = false ->
  flatMapR elementFlow_accept (tokenParts (ElementToken header chunks)) s =
    (tokenAssembled (ElementToken header chunks), Ok (clearPending s)).
Proof.
  intros (Hh & Hfr & Hc) Hs. destruct header; try discriminate.
  unfold chunksFramed in Hc. cbn [tokenParts tokenAssembled partLength partTag partVR
    partBigEndian] in *.
  destruct (length =? 0) eqn:El.
  - subst chunks. cbn [valueChunks concat flatMapR elementFlow_accept].
    rewrite El, enterFragments_not by exact Hfr.
    unfold elementFlow_onPart at 1. rewrite Hfr. cbn. rewrite Hs. reflexivity.
  - erewrite flatMapR_cons_ok
      by (cbn [elementFlow_accept]; rewrite El, enterFragments_not by exact Hfr;
          unfold elementFlow_onPart; rewrite Hfr; reflexivity).
    rewrite valueChunks_element with (tag := tag) (vr := vr) (bigEndian := bigEndian);
      auto.
Qed.

(** One fragment: an item and the chunks of its payload. *)
Lemma fragment_assembled (f : Part * list Bytes) (s : AssemblerState) :
  fragmentFramed f -> inFragments (layers s) = true ->
  flatMapR elementFlow_accept (fragmentParts f) s =
    ([fragmentAssembled f], Ok (clearPending s)).
Proof.
  destruct f as [item chunks]. intros [Hi Hc] Hs. destruct item; try discriminate.
  unfold chunksFramed, fragmentParts, fragmentAssembled in *.
  cbn [fst snd partLength partIndex] in *. destruct (length =? 0) eqn:El.
  - subst chunks. cbn. rewrite Hs, El. reflexivity.
  - erewrite flatMapR_cons_ok by (cbn; rewrite Hs, El; reflexivity).
    rewrite valueChunks_fragment with (index := index) (length := length); auto.
Qed.

Lemma fragments_assembled (fragments : list (Part * list Bytes)) (s : AssemblerState) :
  Forall fragmentFramed fragments -> inFragments (layers s) = true ->
  exists s', flatMapR elementFlow_accept (flat_map fragmentParts fragments) s =
               (map fragmentAssembled fragments, Ok s') /\
             inFragments (layers s') = true.
Proof.
  intros Hfs Hs.
  assert (forall f s0, fragmentFramed f -> inFragments (layers s0) = true ->
            exists s1, flatMapR elementFlow_accept (fragmentParts f) s0 =
                         ([fragmentAssembled f], Ok s1) /\
                       inFragments (layers s1) = true) as Hunit.
  { intros f s0 Hf Hs0. exists (clearPending s0). split; [|exact Hs0].
    apply fragment_assembled; assumption. }
  destruct (flatMapR_units _ _ _ _ _ fragments s Hunit Hfs Hs) as (s' & E & Hs').
  exists s'. split; [|exact Hs']. rewrite E. f_equal.
Qed.

(** Any unit, outside fragments. *)
Lemma token_assembled (t : Token) (s : AssemblerState) :
  wellFramed t -> inFragments (layers s) = false ->
  exists s', flatMapR elementFlow_accept (tokenParts t) s = (tokenAssembled t, Ok s') /\
             inFragments (layers s') = false.
Proof.
  intros Ht Hs. destruct t as [header chunks | header fragments delimitation | part].
  - exists (clearPending s). split; [|exact Hs]. apply elementToken_assembled; assumption.
  - destruct Ht as (Hfr & Hfs & Hd).
    pose proof (isFragments_header _ Hfr) as Hh. pose proof (isFragments_length _ Hfr) as Hl.
    destruct header; try discriminate. destruct delimitation; try discriminate.
    cbn [partLength] in Hl.
    set (s1 := clearPending (set_layers (enterFragments
                 (HeaderPart tag vr length isFmi bigEndian explicitVR bytes) (layers s)) s)).
    destruct (fragments_assembled fragments s1 Hfs) as (s2 & E2 & Hs2);
      [apply enterFragments_inFragments, Hfr|].
    eexists. split.
    + cbn [tokenParts tokenAssembled partTag partVR].
      erewrite flatMapR_cons_ok
        by (cbn [elementFlow_accept]; rewrite Hl; unfold elementFlow_onPart, rbind;
            rewrite Hfr; reflexivity).
      fold s1. erewrite (flatMapR_then _ _ _ _ _ _ _ _ E2) by reflexivity. reflexivity.
    + reflexivity.
  - destruct Ht as [Hh Hv]. destruct part; try discriminate; cbn; rewrite ?Hs; eauto.
Qed.

Lemma tokens_assembled (ts : list Token) (s : AssemblerState) :
  Forall wellFramed ts -> inFragments (layers s) = false ->
  exists s', flatMapR elementFlow_accept (flat_map tokenParts ts) s =
               (flat_map tokenAssembled ts, Ok s') /\
             inFragments (layers s') = false.
Proof.
  apply (flatMapR_units elementFlow_accept tokenParts tokenAssembled wellFramed
           (fun s => inFragments (layers s) = false)).
  intros t s'; apply token_assembled.
Qed.

(** C20: the assembler puts together what was taken apart: a stream made
    of well-framed units (elements in any chunking, fragment sequences,
    structural parts) is assembled into the units it was made of, in
    order, with every value the concatenation of its chunks, and the
    assembler does not stop. *)
Theorem elementFlow_roundtrip (ts : list Token) :
  Forall wellFramed ts ->
  fst (elementFlow (flat_map tokenParts ts)) = flat_map tokenAssembled ts /\
  isOk (snd (elementFlow (flat_map tokenParts ts))) = true.
Proof.
  intros Hts. unfold elementFlow.
  destruct (tokens_assembled ts assemblerInitial Hts eq_refl) as (s' & -> & _). auto.
Qed.

End RoundTrip.

(** ** The four tests *)

(** What the assembler makes of the stream with elements and fragments
    of zero length. *)
Example elementFlow_zero_length :
  fst (elementFlow stream_zero_length) =
    [Element Tag_StudyDate VR_DA false []; Element Tag_PatientName VR_PN false johnDoe;
     FragmentsMarker Tag_PixelData VR_OB; FragmentElement 1 []; FragmentElement 2 fragment2;
     StructuralMarker sequenceEnd].
Proof. reflexivity. Qed.

(** A determinate sequence and its item are structural markers that
    carry their lengths; no delimitation is made for them. *)
Example elementFlow_determinate :
  fst (elementFlow stream_determinate) =
    [StructuralMarker derivationSequence24; StructuralMarker item16;
     Element Tag_PatientName VR_PN false johnDoe].
Proof. reflexivity. Qed.

(** A check of the model against the tests, not a theorem about
    [element-flows.js]: what the model makes of each test's stream meets
    the expectations the test lists, in order and with nothing left
    over, whatever the Study Date of the test data is.  The streams are
    the parts a tokenizer makes of the bytes the tests write out, and
    the probe is read off the names of its calls. *)
Example elementFlow_tests (header date : Bytes) :
  date <> [] ->
  elementProbe
    (fst (elementFlow ([patientNameHeader; patientNameValue] ++ studyDate header date)))
    expect_elements = true /\
  elementProbe (fst (elementFlow stream_fragments)) expect_fragments = true /\
  elementProbe (fst (elementFlow stream_zero_length)) expect_zero_length = true /\
  elementProbe (fst (elementFlow stream_determinate)) expect_determinate = true.
Proof.
  intros Hd. split; [|repeat split; reflexivity].
  assert ((blen date =? 0) = false) as El.
  { apply Z.eqb_neq. intros Hl. apply Hd, blen_nil_iff. lia. }
  unfold elementFlow.
  destruct (tokens_assembled
              [ElementToken patientNameHeader [johnDoe];
               ElementToken (HeaderPart Tag_StudyDate VR_DA (blen date) false false true header)
                 [date]] assemblerInitial) as (s' & E & _); [|reflexivity|].
  - repeat constructor; try discriminate.
    + unfold isFragments; cbn. apply andb_false_r.
    + unfold chunksFramed; cbn [partLength]. rewrite El. discriminate.
  - cbn [flat_map tokenParts valueChunks app] in E. unfold patientNameValue, studyDate. cbn [app]. rewrite E.
    reflexivity.
Qed.

(** ** Witnesses *)

Definition date19700101 : Bytes := [x31; x39; x37; x30; x30; x31; x30; x31].

Definition studyDateHeader8 : Bytes := [x08; x00; x20; x00; x44; x41; x08; x00].

(** The Patient Name in two chunks, between a sequence and its
    delimitation, and the fragments of the tests. *)
Definition tokens_example : list Token :=
  [MarkerToken derivationSequence; MarkerToken item1;
   ElementToken patientNameHeader [take 4 johnDoe; drop 4 johnDoe];
   ElementToken studyDateEmpty [];
   MarkerToken itemEnd1; MarkerToken sequenceEnd;
   FragmentsToken pixelDataFragments [(item0 1, []); (item4 2, [fragment2])] sequenceEnd].

Lemma elementFlow_tracks_fragments_witness :
  layers assemblerInitial = snd (runFrom fragmentTracking stream_fragments (layers assemblerInitial)).
Proof.
  apply (elementFlow_tracks_fragments stream_fragments assemblerInitial assemblerInitial
           (fst (elementFlow stream_fragments))).
  reflexivity.
Defined.

Lemma elementFlow_unaccounted_chunk_witness :
  elementFlow_accept patientNameValue assemblerInitial = Throw (Unaccounted patientNameValue).
Proof. apply elementFlow_unaccounted_chunk; reflexivity. Defined.

Lemma elementFlow_roundtrip_witness :
  fst (elementFlow (flat_map tokenParts tokens_example)) =
    flat_map tokenAssembled tokens_example /\
  isOk (snd (elementFlow (flat_map tokenParts tokens_example))) = true.
Proof.
  apply elementFlow_roundtrip. unfold tokens_example.
  repeat first [apply Forall_cons; split | apply Forall_nil];
    cbn; repeat split; try discriminate; repeat constructor; discriminate.
Defined.

Lemma elementFlow_tests_witness :
  elementProbe
    (fst (elementFlow ([patientNameHeader; patientNameValue] ++
                       studyDate studyDateHeader8 date19700101)))
    expect_elements = true /\
  elementProbe (fst (elementFlow stream_fragments)) expect_fragments = true /\
  elementProbe (fst (elementFlow stream_zero_length)) expect_zero_length = true /\
  elementProbe (fst (elementFlow stream_determinate)) expect_determinate = true.
Proof. apply elementFlow_tests. discriminate. Defined.
