(* ===== verification/Deflate.v ===== *)
(** * Deflate: [DeflateDatasetFlow], [deflateDatasetFlow] and [toBytesFlow]

    [DeflateDatasetFlow] extends [Detour]: a transform with two modes.
    In the first every part goes to [process]; [process] watches the file
    meta information for the transfer syntax and, at a header of the
    dataset, may switch the detour on.  From then on every part goes to
    the detour flow instead: [toBytesFlow], the raw deflater and
    [toDeflatedChunk], piped.

    - [process], the constructor, [toBytesFlow], [toDeflatedChunk] and the
      detour flow are the code of [dicom-flows.js].
    - [Detour] ([detour.js]), the deflater ([zlib]) and the conversion of
      a buffer to trimmed text are not among the sources: [setDetourFlow],
      [setDetour], [transform] and [flush] follow the specification, the
      deflater is the interface [RawDeflate], and [toStringTrimEquals]
      decides [buffer.toString().trim() === uid] on the bytes.
    - [process] evaluates the identifier [Tag], which no line of
      [dicom-flows.js] binds.  The bindings of the module are a parameter,
      [ModuleScope]; [dicomFlowsScope] is the one the file has.

    The theorems follow the stage through a file: what [process] does at
    each kind of part, the detour once it is on, the stage over a whole
    stream (ended by the exception as the file stands; unchanged for
    another transfer syntax; deflated chunks that inflate to the dataset
    for the deflated one), and what [trim] lets pass as the deflated
    transfer syntax. *)

From S2P Require Import Prelude Base Parts TagPath DicomFlow Fixtures.

(** ** Text

    [String.prototype.trim] strips the white space and line terminator
    code points; [isWhiteSpace1], [2] and [3] recognise their UTF-8
    encodings of one, two and three bytes.  A buffer decodes to a given
    ASCII text between white space exactly when its bytes are that text
    between such encodings. *)

Definition isWhiteSpace1 (a : byte) : bool :=
  bool_decide (a ∈ [x09; x0a; x0b; x0c; x0d; x20]).

Definition isWhiteSpace2 (a b : byte) : bool :=
  bool_decide ((a, b) = (xc2, xa0)).

Definition isWhiteSpace3 (a b c : byte) : bool :=
  bool_decide ((a, b, c) ∈
    [(xe1, x9a, x80); (xe2, x80, x80); (xe2, x80, x81); (xe2, x80, x82);
     (xe2, x80, x83); (xe2, x80, x84); (xe2, x80, x85); (xe2, x80, x86);
     (xe2, x80, x87); (xe2, x80, x88); (xe2, x80, x89); (xe2, x80, x8a);
     (xe2, x80, xa8); (xe2, x80, xa9); (xe2, x80, xaf); (xe2, x81, x9f);
     (xe3, x80, x80); (xef, xbb, xbf)]).

(** Strip the encodings of white space from the front; with [backwards]
    the bytes are read last to first. *)
Fixpoint stripWhiteSpace (backwards : bool) (b : Bytes) : Bytes :=
  match b with
  | [] => []
  | x :: r1 =>
      if isWhiteSpace1 x then stripWhiteSpace backwards r1 else
      match r1 with
      | [] => b
      | y :: r2 =>
          if (if backwards then isWhiteSpace2 y x else isWhiteSpace2 x y)
          then stripWhiteSpace backwards r2 else
          match r2 with
          | [] => b
          | z :: r3 =>
              if (if backwards then isWhiteSpace3 z y x else isWhiteSpace3 x y z)
              then stripWhiteSpace backwards r3 else b
          end
      end
  end.

Definition trim (b : Bytes) : Bytes :=
  rev (stripWhiteSpace true (rev (stripWhiteSpace false b))).

(** [buffer.toString().trim() === uid], for an ASCII [uid]. *)
Definition toStringTrimEquals (buffer uid : Bytes) : bool :=
  bool_decide (trim buffer = uid).

(** [UID.DeflatedExplicitVRLittleEndian]: "1.2.840.10008.1.2.1.99". *)
Definition DeflatedExplicitVRLittleEndian : Bytes :=
  [x31; x2e; x32; x2e; x38; x34; x30; x2e; x31; x30; x30; x30; x38; x2e;
   x31; x2e; x32; x2e; x31; x2e; x39; x39].

(** ** The bindings of the module *)

(** The tag table, as far as [process] reads it. *)
Record TagTable : Type := { TransferSyntaxUID : Tag }.

(** What the identifier [Tag] is bound to where [process] runs, if to
    anything. *)
Record ModuleScope : Type := { scope_Tag : option TagTable }.

(** [dicom-flows.js] requires [Transform], [zlib], [pipe], [base], [UID],
    [Detour], the parts, [emptyTagPath] and the flow classes: not
    [Tag]. *)
Definition dicomFlowsScope : ModuleScope := {| scope_Tag := None |}.

(** The module with [const {Tag} = require("./tag")] added. *)
Definition intendedScope : ModuleScope :=
  {| scope_Tag := Some {| TransferSyntaxUID := Tag_TransferSyntaxUID |} |}.

Inductive JsError : Type :=
| ReferenceError (identifier : Bytes).

(** ** The deflater *)

(** [zlib.createDeflateRaw()]: a transform from buffers to buffers with a
    state of its own, and the promise that the buffers it emitted, once
    ended, inflate to the buffers it was written. *)
Class RawDeflate : Type := {
  Deflater : Type;
  createDeflateRaw : Deflater;
  deflateWrite : Bytes -> Deflater -> list Bytes * Deflater;
  deflateEnd : Deflater -> list Bytes;
  inflateRaw : Bytes -> option Bytes;
  (** The bytes a deflater emitted for [chunks], ended. *)
  deflated (chunks : list Bytes) : Bytes :=
    let r := flatMapM deflateWrite chunks createDeflateRaw in
    concat (fst r ++ deflateEnd (snd r));
  inflate_deflated : forall chunks, inflateRaw (deflated chunks) = Some (concat chunks)
}.

Section Deflate.
Context `{RawDeflate}.

(** ** State *)

Record DeflateState : Type := mkDeflateState {
  collectingTs : bool;
  tsBytes : Bytes;
  detour : bool;                   (* Detour *)
  detourFlow : option Deflater     (* Detour: the flow set, by its one stateful stage *)
}.

Definition set_collectingTs (b : bool) (s : DeflateState) : DeflateState :=
  mkDeflateState b (tsBytes s) (detour s) (detourFlow s).
Definition set_tsBytes (b : Bytes) (s : DeflateState) : DeflateState :=
  mkDeflateState (collectingTs s) b (detour s) (detourFlow s).
Definition set_detour (b : bool) (s : DeflateState) : DeflateState :=
  mkDeflateState (collectingTs s) (tsBytes s) b (detourFlow s).
Definition set_detourFlow (f : option Deflater) (s : DeflateState) : DeflateState :=
  mkDeflateState (collectingTs s) (tsBytes s) (detour s) f.

(** ** The stages of the detour flow *)

(** [toBytesFlow]: each chunk is replaced by its bytes. *)
Definition toBytesFlow (chunk : Part) : list Bytes := [partBytes chunk].

(** [toDeflatedChunk]: each buffer becomes a deflated chunk, little
    endian. *)
Definition toDeflatedChunk (chunk : Bytes) : list Part := [DeflatedChunk false chunk].

(** [pipe(toBytesFlow(), zlib.createDeflateRaw(), toDeflatedChunk)]: what
    the flow emits for a part written to it, from the state of its
    deflater. *)
Definition detourFlow_write (part : Part) : State Deflater (list Part) :=
  let* buffers := flatMapM deflateWrite (toBytesFlow part) in
  sret (flat_map toDeflatedChunk buffers).

(** The end of the flow: what the deflater still holds. *)
Definition detourFlow_end (d : Deflater) : list Part :=
  flat_map toDeflatedChunk (deflateEnd d).

(** ** Detour *)

(** [setDetourFlow(flow)]. *)
Definition setDetourFlow (flow : Deflater) (s : DeflateState) : DeflateState :=
  set_detourFlow (Some flow) s.

(** Writing a part to the detour flow; nothing comes out of a flow that
    was never set. *)
Definition writeDetour (part : Part) (s : DeflateState) : list Part * DeflateState :=
  match detourFlow s with
  | Some d =>
      let (out, d') := detourFlow_write part d in (out, set_detourFlow (Some d') s)
  | None => ([], s)
  end.

(** [setDetour(detour, initialChunk)]: the mode is set and the initial
    chunk is the first the detour flow gets. *)
Definition setDetour (b : bool) (initialChunk : Part) (s : DeflateState)
  : list Part * DeflateState :=
  if b then writeDetour initialChunk (set_detour true s)
  else ([initialChunk], set_detour false s).

(** ** DeflateDatasetFlow *)

(** The constructor: [super({objectMode: true})], then the two fields. *)
Definition DeflateDatasetFlow_constructor : DeflateState :=
  set_tsBytes [] (set_collectingTs false (mkDeflateState false [] false None)).

(** [process(part)]. *)
Definition process (scope : ModuleScope) (part : Part) (s : DeflateState)
  : Result JsError (list Part * DeflateState) :=
  if isHeaderPart part then
    if partIsFmi part then
      match scope_Tag scope with
      | None => Throw (ReferenceError [x54; x61; x67])
      | Some T =>
          Ok ([part], set_collectingTs (partTag part =? TransferSyntaxUID T) s)
      end
    else
      if toStringTrimEquals (tsBytes s) DeflatedExplicitVRLittleEndian then
        Ok (setDetour true part (setDetourFlow createDeflateRaw s))
      else Ok ([part], s)
  else if isValueChunk part && collectingTs s then
    Ok ([part], set_tsBytes (tsBytes s ++ partBytes part) s)
  else Ok ([part], s).

(** The transform of [Detour]: a part goes to the detour flow when the
    detour is on, to [process] otherwise. *)
Definition transform (scope : ModuleScope) (part : Part) (s : DeflateState)
  : Result JsError (list Part * DeflateState) :=
  if detour s then Ok (writeDetour part s) else process scope part s.

(** The end of the stream: the detour flow, if on, is ended. *)
Definition flush (s : DeflateState) : list Part :=
  if detour s then
    match detourFlow s with Some d => detourFlow_end d | None => [] end
  else [].

(** [deflateDatasetFlow()]: a new object. *)
Definition deflateDatasetFlow : DeflateState := DeflateDatasetFlow_constructor.

(** The stage over a finite stream, end included: the parts emitted and
    the exception that ended the stream, if one did. *)
Definition runDeflateDatasetFlow (scope : ModuleScope) (ps : list Part)
  : list Part * option JsError :=
  let (out, r) := flatMapR (transform scope) ps deflateDatasetFlow in
  match r with
  | Ok s => (out ++ flush s, None)
  | Throw e => (out, Some e)
  end.

(** ** [process] *)

Section Process.
Variable scope : ModuleScope.

(** C4: [Tag] is not bound in [dicom-flows.js]: [process] throws at every
    header of the file meta information, before it assigns or pushes
    anything. *)
Theorem process_unbound_Tag (part : Part) (s : DeflateState) :
  isHeaderPart part = true -> partIsFmi part = true ->
  process dicomFlowsScope part s = Throw (ReferenceError [x54; x61; x67]).
Proof. unfold process; intros -> ->; reflexivity. Qed.

(** With [Tag] bound [process] never throws. *)
Theorem process_returns (T : TagTable) (part : Part) (s : DeflateState) :
  isOk (process {| scope_Tag := Some T |} part s) = true.
Proof. unfold process; repeat case_if; reflexivity. Qed.

(** C22: not collecting, with collected bytes that are not the deflated
    transfer syntax, [process] is the identity on every stream without a
    header of the file meta information, in any module scope: the state
    does not move and nothing is diverted. *)
Theorem process_passthrough (ps : list Part) (s : DeflateState) :
  collectingTs s = false ->
  toStringTrimEquals (tsBytes s) DeflatedExplicitVRLittleEndian = false ->
  Forall (fun p => partIsFmi p = false) ps ->
  flatMapR (process scope) ps s = (ps, Ok s).
Proof.
  intros Hc Ht Hps.
  destruct (flatMapR_identity (process scope) (fun p => partIsFmi p = false)
              (fun s' => s' = s) ps s) as (s' & -> & ->); auto.
  intros p ? Hp ->. exists s; split; [|reflexivity].
  unfold process. rewrite Hp, Ht, Hc, andb_false_r. destruct (isHeaderPart p); reflexivity.
Qed.

(** C36: [process] forwards its part, alone and unchanged, unless it switches
    the detour on, which it does at a header of the dataset and only when
    the collected bytes are the deflated transfer syntax. *)
Theorem process_forwards (part : Part) (s s' : DeflateState) (out : list Part) :
  process scope part s = Ok (out, s') ->
  (out = [part] /\ detour s' = detour s /\ detourFlow s' = detourFlow s) \/
  (isHeaderPart part = true /\ partIsFmi part = false /\
   toStringTrimEquals (tsBytes s) DeflatedExplicitVRLittleEndian = true /\
   (out, s') = setDetour true part (setDetourFlow createDeflateRaw s)).
Proof.
  unfold process. destruct (isHeaderPart part), (partIsFmi part);
    repeat case_match; intros Hp; simplify_eq;
    first [left; repeat split; reflexivity
          | right; repeat split; symmetry; exact Hp].
Qed.

(** The fields [process] writes: at a header of the file meta
    information [collectingTs], at a value chunk while collecting
    [tsBytes]; at any other part that does not switch the detour,
    nothing. *)
Theorem process_fields (part : Part) (s s' : DeflateState) (out : list Part) :
  process scope part s = Ok (out, s') ->
  toStringTrimEquals (tsBytes s) DeflatedExplicitVRLittleEndian = false ->
  tsBytes s' = (if isValueChunk part && collectingTs s
                then tsBytes s ++ partBytes part else tsBytes s) /\
  (isHeaderPart part && partIsFmi part = false -> collectingTs s' = collectingTs s).
Proof.
  unfold process. intros Hp Ht. rewrite Ht in Hp.
  destruct part; cbn in *; repeat case_match; simplify_eq; cbn; auto;
    split; auto; discriminate.
Qed.

(** Between the headers of the file meta information, [process] keeps
    collecting or keeps not collecting. *)
Lemma process_chunk (part : Part) (s : DeflateState) :
  isValueChunk part = true ->
  process scope part s =
    Ok ([part], if collectingTs s then set_tsBytes (tsBytes s ++ partBytes part) s else s).
Proof.
  destruct part; try discriminate; intros _. unfold process; cbn.
  destruct (collectingTs s); reflexivity.
Qed.

(** C35: while collecting, a run of value chunks is forwarded and its bytes
    are appended to [tsBytes], in order. *)
Theorem process_collects (chunks : list Part) (s : DeflateState) :
  collectingTs s = true -> Forall (fun c => isValueChunk c = true) chunks ->
  flatMapR (process scope) chunks s =
    (chunks, Ok (set_tsBytes (tsBytes s ++ streamBytes chunks) s)).
Proof.
  intros Hc Hv; revert s Hc; induction Hv as [|c chunks Hcv _ IH]; intros s Hc.
  - cbn. rewrite app_nil_r. destruct s; reflexivity.
  - erewrite flatMapR_cons_ok by (rewrite process_chunk, Hc by exact Hcv; reflexivity).
    rewrite IH by exact Hc. cbn [fst snd tsBytes set_tsBytes].
    rewrite streamBytes_cons, app_assoc. reflexivity.
Qed.

(** A header of the dataset does not end the collecting: while the
    collected bytes are not the deflated transfer syntax it is forwarded
    and the state stays as it is, [collectingTs] included. *)
Lemma process_dataset_header (part : Part) (s : DeflateState) :
  isHeaderPart part = true -> partIsFmi part = false ->
  toStringTrimEquals (tsBytes s) DeflatedExplicitVRLittleEndian = false ->
  process scope part s = Ok ([part], s).
Proof. unfold process; intros -> -> ->; reflexivity. Qed.

(** C28: so the decision can be taken late, on bytes of the dataset: with the
    transfer syntax the last element of the file meta information and
    empty, a value of the dataset that spells the deflated transfer
    syntax switches the detour on at the header after it. *)
Theorem process_late_switch (h1 v h2 : Part) (s : DeflateState) :
  collectingTs s = true -> tsBytes s = [] ->
  isHeaderPart h1 = true -> partIsFmi h1 = false ->
  isHeaderPart h2 = true -> partIsFmi h2 = false ->
  isValueChunk v = true -> partBytes v = DeflatedExplicitVRLittleEndian ->
  exists out s',
    flatMapR (process scope) [h1; v; h2] s = (h1 :: v :: out, Ok s') /\
    detour s' = true /\ tsBytes s' = partBytes v.
Proof.
  intros Hc Ht Hh1 Hf1 Hh2 Hf2 Hv Hb.
  erewrite flatMapR_cons_ok by (apply process_dataset_header; auto; rewrite Ht; reflexivity).
  erewrite flatMapR_cons_ok by (rewrite process_chunk, Hc by exact Hv; reflexivity).
  unfold flatMapR, process. rewrite Hh2, Hf2. cbn [tsBytes set_tsBytes].
  rewrite Ht, Hb. cbn [app]. unfold toStringTrimEquals at 1.
  rewrite bool_decide_eq_true_2 by reflexivity.
  destruct (setDetour true h2 _) as [out s'] eqn:E. exists out, s'.
  cbn [fst snd]. rewrite app_nil_r. split; [reflexivity|].
  unfold setDetour, writeDetour, setDetourFlow in E; cbn in E.
  destruct (detourFlow_write h2 createDeflateRaw); injection E as <- <-; auto.
Qed.

End Process.

(** ** The detour flow *)

(** [toBytesFlow] over a stream is its re-serialisation. *)
Lemma toBytesFlow_concat (ps : list Part) :
  concat (flat_map toBytesFlow ps) = streamBytes ps.
Proof.
  induction ps as [|p ps IH]; [reflexivity|]. cbn. rewrite IH. reflexivity.
Qed.

Lemma toDeflatedChunk_bytes (buffers : list Bytes) :
  streamBytes (flat_map toDeflatedChunk buffers) = concat buffers.
Proof.
  induction buffers as [|b bs IH]; [reflexivity|]. cbn. rewrite <- IH. reflexivity.
Qed.

Lemma toDeflatedChunk_kind (buffers : list Bytes) :
  Forall (fun p => isDeflatedChunk p = true) (flat_map toDeflatedChunk buffers).
Proof. induction buffers; cbn; constructor; auto. Qed.

Lemma detourFlow_write_eq (part : Part) (d : Deflater) :
  detourFlow_write part d =
    (flat_map toDeflatedChunk (fst (deflateWrite (partBytes part) d)),
     snd (deflateWrite (partBytes part) d)).
Proof.
  unfold detourFlow_write, toBytesFlow, sbind, sret; cbn.
  unfold sbind, sret. destruct (deflateWrite (partBytes part) d); cbn.
  rewrite app_nil_r. reflexivity.
Qed.

(** The detour flow over a stream: the deflater is written the bytes of
    each part in turn, and what it emits leaves as deflated chunks. *)
Lemma detourFlow_write_stream (ps : list Part) (d : Deflater) :
  streamBytes (fst (flatMapM detourFlow_write ps d)) =
    concat (fst (flatMapM deflateWrite (flat_map toBytesFlow ps) d)) /\
  snd (flatMapM detourFlow_write ps d) =
    snd (flatMapM deflateWrite (flat_map toBytesFlow ps) d).
Proof.
  revert d; induction ps as [|p ps IH]; intros d; [split; reflexivity|].
  cbn [flat_map toBytesFlow app]. rewrite !flatMapM_cons, detourFlow_write_eq.
  cbn [fst snd]. destruct (deflateWrite (partBytes p) d) as [bs d1]; cbn [fst snd].
  destruct (IH d1) as [IH1 IH2].
  rewrite streamBytes_app, toDeflatedChunk_bytes, IH1, IH2, concat_app.
  split; reflexivity.
Qed.

(** ** Detour *)

Lemma writeDetour_eq (part : Part) (s : DeflateState) (d : Deflater) :
  detourFlow s = Some d ->
  writeDetour part s =
    (fst (detourFlow_write part d), set_detourFlow (Some (snd (detourFlow_write part d))) s).
Proof. unfold writeDetour; intros ->. destruct (detourFlow_write part d); reflexivity. Qed.

(** The detour is one way: once on, [transform] leaves it on, never
    throws, and emits deflated chunks only. *)
Theorem transform_one_way (scope : ModuleScope) (part : Part) (s : DeflateState) :
  detour s = true ->
  exists out s', transform scope part s = Ok (out, s') /\
    detour s' = true /\ Forall (fun p => isDeflatedChunk p = true) out.
Proof.
  intros Hd. unfold transform, writeDetour. rewrite Hd.
  destruct (detourFlow s) as [d|]; [|eauto 6].
  unfold detourFlow_write, sbind, sret.
  destruct (flatMapM deflateWrite (toBytesFlow part) d) as [bs d'].
  do 2 eexists; split; [reflexivity|]. split; [exact Hd | apply toDeflatedChunk_kind].
Qed.

(** With the detour on, a stream is the detour flow's. *)
Lemma transform_detoured (scope : ModuleScope) (ps : list Part) (s : DeflateState)
    (d : Deflater) :
  detour s = true -> detourFlow s = Some d ->
  flatMapR (transform scope) ps s =
    (fst (flatMapM detourFlow_write ps d),
     Ok (set_detourFlow (Some (snd (flatMapM detourFlow_write ps d))) s)).
Proof.
  revert s d; induction ps as [|p ps IH]; intros s d Hd Hf.
  - cbn. rewrite <- Hf. destruct s; reflexivity.
  - erewrite flatMapR_cons_ok
      by (unfold transform; rewrite Hd, (writeDetour_eq _ _ _ Hf); reflexivity).
    rewrite (IH _ (snd (detourFlow_write p d))) by (cbn; auto).
    rewrite flatMapM_cons; cbn [fst snd]. destruct s; reflexivity.
Qed.

Lemma detourFlow_stream_kind (ps : list Part) (d : Deflater) :
  Forall (fun p => isDeflatedChunk p = true)
    (fst (flatMapM detourFlow_write ps d) ++
     detourFlow_end (snd (flatMapM detourFlow_write ps d))).
Proof.
  apply Forall_app; split; [|apply toDeflatedChunk_kind].
  apply (flatMapM_Forall _ (fun _ => True)); [|exact I].
  intros p d' _; split; [exact I|]. rewrite detourFlow_write_eq. apply toDeflatedChunk_kind.
Qed.

(** What the detour flow emits for a stream, once ended, inflates to the
    bytes of the stream. *)
Lemma detourFlow_stream_inflates (ps : list Part) :
  inflateRaw
    (streamBytes (fst (flatMapM detourFlow_write ps createDeflateRaw) ++
                  detourFlow_end (snd (flatMapM detourFlow_write ps createDeflateRaw)))) =
    Some (streamBytes ps).
Proof.
  destruct (detourFlow_write_stream ps createDeflateRaw) as [Hb Hs].
  rewrite streamBytes_app, Hb, Hs. unfold detourFlow_end.
  rewrite toDeflatedChunk_bytes, <- concat_app, <- toBytesFlow_concat.
  apply inflate_deflated.
Qed.

(** The header that switches the detour on is the first part the detour
    flow gets; the rest of the stream follows it there. *)
Lemma transform_switch (scope : ModuleScope) (h : Part) (ps : list Part)
    (s : DeflateState) :
  detour s = false -> isHeaderPart h = true -> partIsFmi h = false ->
  toStringTrimEquals (tsBytes s) DeflatedExplicitVRLittleEndian = true ->
  flatMapR (transform scope) (h :: ps) s =
    (fst (flatMapM detourFlow_write (h :: ps) createDeflateRaw),
     Ok (set_detourFlow (Some (snd (flatMapM detourFlow_write (h :: ps) createDeflateRaw)))
           (set_detour true s))).
Proof.
  intros Hd Hh Hf Ht.
  erewrite flatMapR_cons_ok
    by (unfold transform, process, setDetour; rewrite Hd, Hh, Hf, Ht;
        rewrite (writeDetour_eq _ _ createDeflateRaw) by reflexivity; reflexivity).
  erewrite transform_detoured by reflexivity.
  rewrite flatMapM_cons; cbn [fst snd]. destruct s; reflexivity.
Qed.

(** C15: from the header that switches the detour on, what the stage emits,
    the end of the stream included, is deflated chunks that inflate to the
    bytes of the stream: nothing is lost, added or reordered by the
    detour. *)
Theorem detour_inflates (scope : ModuleScope) (h : Part) (ps : list Part)
    (s : DeflateState) :
  detour s = false -> isHeaderPart h = true -> partIsFmi h = false ->
  toStringTrimEquals (tsBytes s) DeflatedExplicitVRLittleEndian = true ->
  exists out s',
    flatMapR (transform scope) (h :: ps) s = (out, Ok s') /\
    Forall (fun p => isDeflatedChunk p = true) (out ++ flush s') /\
    inflateRaw (streamBytes (out ++ flush s')) = Some (streamBytes (h :: ps)).
Proof.
  intros Hd Hh Hf Ht. do 2 eexists; split; [apply transform_switch; assumption|].
  cbn [flush detour detourFlow set_detourFlow set_detour].
  split; [apply detourFlow_stream_kind | apply detourFlow_stream_inflates].
Qed.

(** ** The stage *)

Lemma transform_passthrough (scope : ModuleScope) (ps : list Part) (s : DeflateState) :
  detour s = false -> collectingTs s = false ->
  toStringTrimEquals (tsBytes s) DeflatedExplicitVRLittleEndian = false ->
  Forall (fun p => partIsFmi p = false) ps ->
  flatMapR (transform scope) ps s = (ps, Ok s).
Proof.
  intros Hd Hc Ht Hps.
  destruct (flatMapR_identity (transform scope) (fun p => partIsFmi p = false)
              (fun s' => s' = s) ps s) as (s' & -> & ->); auto.
  intros p ? Hp ->. exists s; split; [|reflexivity].
  unfold transform, process. rewrite Hd, Hp, Ht, Hc, andb_false_r.
  destruct (isHeaderPart p); reflexivity.
Qed.

(** In [dicom-flows.js] as it is, the stage passes the parts before the
    first header of the file meta information and ends there with a
    [ReferenceError]: of a DICOM file, which begins with that header,
    nothing is emitted. *)
Theorem runDeflateDatasetFlow_unbound_Tag (ps1 ps2 : list Part) (part : Part) :
  Forall (fun p => partIsFmi p = false) ps1 ->
  isHeaderPart part = true -> partIsFmi part = true ->
  runDeflateDatasetFlow dicomFlowsScope (ps1 ++ part :: ps2) =
    (ps1, Some (ReferenceError [x54; x61; x67])).
Proof.
  intros H1 Hh Hf. unfold runDeflateDatasetFlow, deflateDatasetFlow.
  rewrite (flatMapR_app_ok _ _ _ _ _ _
             (transform_passthrough _ ps1 DeflateDatasetFlow_constructor
                eq_refl eq_refl eq_refl H1)).
  rewrite (flatMapR_cons_throw _ _ _ _ (ReferenceError [x54; x61; x67]))
    by (unfold transform, process; cbn; rewrite Hh, Hf; reflexivity).
  cbn. rewrite app_nil_r. reflexivity.
Qed.

(** Once the file meta information has left the stage not collecting,
    with collected bytes that are not the deflated transfer syntax, the
    dataset passes unchanged, whatever it holds: no part is diverted, no
    deflated chunk is made and nothing is emitted at the end. *)
Theorem runDeflateDatasetFlow_passthrough (scope : ModuleScope) (fmi dataset out : list Part)
    (s : DeflateState) :
  flatMapR (transform scope) fmi deflateDatasetFlow = (out, Ok s) ->
  detour s = false -> collectingTs s = false ->
  toStringTrimEquals (tsBytes s) DeflatedExplicitVRLittleEndian = false ->
  Forall (fun p => partIsFmi p = false) dataset ->
  runDeflateDatasetFlow scope (fmi ++ dataset) = (out ++ dataset, None).
Proof.
  intros Hfmi Hd Hc Ht Hds. unfold runDeflateDatasetFlow, deflateDatasetFlow.
  rewrite (flatMapR_app_ok _ _ _ _ _ _ Hfmi), transform_passthrough by assumption.
  cbn [fst snd]. unfold flush. rewrite Hd, app_nil_r. reflexivity.
Qed.

(** A file whose transfer syntax is the deflated one leaves the stage
    as its file meta information followed by deflated chunks that,
    together, inflate to the bytes of the dataset. *)
Theorem runDeflateDatasetFlow_deflates (scope : ModuleScope) (fmi ps out : list Part)
    (h : Part) (s : DeflateState) :
  flatMapR (transform scope) fmi deflateDatasetFlow = (out, Ok s) ->
  detour s = false -> isHeaderPart h = true -> partIsFmi h = false ->
  toStringTrimEquals (tsBytes s) DeflatedExplicitVRLittleEndian = true ->
  exists chunks,
    runDeflateDatasetFlow scope (fmi ++ h :: ps) = (out ++ chunks, None) /\
    Forall (fun p => isDeflatedChunk p = true) chunks /\
    inflateRaw (streamBytes chunks) = Some (streamBytes (h :: ps)).
Proof.
  intros Hfmi Hd Hh Hf Ht. unfold runDeflateDatasetFlow.
  rewrite (flatMapR_app_ok _ _ _ _ _ _ Hfmi), transform_switch by assumption.
  cbn [fst snd flush detour detourFlow set_detourFlow set_detour].
  eexists; split; [rewrite <- app_assoc; reflexivity|].
  split; [apply detourFlow_stream_kind | apply detourFlow_stream_inflates].
Qed.

End Deflate.

(** ** What [trim] strips

    The collected bytes are compared after [trim]: white space before and
    after the identifier is tolerated, the zero byte DICOM pads an
    identifier of odd length with is not. *)

Lemma stripWhiteSpace_three (backwards : bool) (x y z : byte) (r : Bytes) :
  stripWhiteSpace backwards (x :: y :: z :: r) =
    if isWhiteSpace1 x then stripWhiteSpace backwards (y :: z :: r)
    else if (if backwards then isWhiteSpace2 y x else isWhiteSpace2 x y)
    then stripWhiteSpace backwards (z :: r)
    else if (if backwards then isWhiteSpace3 z y x else isWhiteSpace3 x y z)
    then stripWhiteSpace backwards r
    else x :: y :: z :: r.
Proof. reflexivity. Qed.

Lemma stripWhiteSpace_length (backwards : bool) (b : Bytes) :
  (length (stripWhiteSpace backwards b) <= length b)%nat.
Proof.
  induction b as [b IH] using (induction_ltof1 _ (@length byte)). unfold ltof in IH.
  assert (forall l, (length l < length b)%nat ->
            (length (stripWhiteSpace backwards l) <= length b)%nat) as Hs
    by (intros l Hl; specialize (IH l Hl); lia).
  destruct b as [|x [|y [|z r]]]; [cbn; lia | | |].
  - cbn. destruct (isWhiteSpace1 x); cbn; lia.
  - cbn. destruct (isWhiteSpace1 x), (isWhiteSpace1 y),
      (if backwards then isWhiteSpace2 y x else isWhiteSpace2 x y); cbn; lia.
  - rewrite stripWhiteSpace_three.
    repeat match goal with
           | |- context [if ?c then _ else _] => destruct c
           end;
      first [apply Hs; cbn [length]; lia | cbn [length]; lia].
Qed.

Lemma stripWhiteSpace_ascii (backwards : bool) (ws b : Bytes) :
  Forall (fun x => isWhiteSpace1 x = true) ws ->
  stripWhiteSpace backwards (ws ++ b) = stripWhiteSpace backwards b.
Proof. induction 1 as [|x ws Hx _ IH]; [reflexivity|]. simpl. rewrite Hx. exact IH. Qed.

(** Where stripping stops is decided by the first three bytes. *)
Lemma stripWhiteSpace_stops (backwards : bool) (b r : Bytes) :
  (3 <= length b)%nat -> stripWhiteSpace backwards b = b ->
  stripWhiteSpace backwards (b ++ r) = b ++ r.
Proof.
  destruct b as [|x [|y [|z b]]]; cbn [length]; try lia. intros _.
  change ((x :: y :: z :: b) ++ r) with (x :: y :: z :: b ++ r).
  rewrite !stripWhiteSpace_three.
  repeat match goal with
         | |- context [if ?c then _ else _] => destruct c
         end;
    try reflexivity; intros Hs;
    match type of Hs with
    | stripWhiteSpace _ ?l = _ =>
        pose proof (stripWhiteSpace_length backwards l) as Hl;
        rewrite Hs in Hl; cbn [length] in Hl; lia
    end.
Qed.

(** Text between ASCII white space trims to the text. *)
Theorem trim_padded (l b r : Bytes) :
  Forall (fun x => isWhiteSpace1 x = true) l ->
  Forall (fun x => isWhiteSpace1 x = true) r ->
  (3 <= length b)%nat ->
  stripWhiteSpace false b = b -> stripWhiteSpace true (rev b) = rev b ->
  trim (l ++ b ++ r) = b.
Proof.
  intros Hl Hr Hb Hf Hback. unfold trim.
  rewrite (stripWhiteSpace_ascii _ _ _ Hl), (stripWhiteSpace_stops _ _ _ Hb Hf).
  rewrite rev_app_distr, stripWhiteSpace_ascii, Hback by (apply Forall_rev, Hr).
  apply rev_involutive.
Qed.

(** The deflated transfer syntax is recognised between any ASCII white
    space. *)
Theorem toStringTrimEquals_padded (l r : Bytes) :
  Forall (fun x => isWhiteSpace1 x = true) l ->
  Forall (fun x => isWhiteSpace1 x = true) r ->
  toStringTrimEquals (l ++ DeflatedExplicitVRLittleEndian ++ r)
    DeflatedExplicitVRLittleEndian = true.
Proof.
  intros Hl Hr. apply bool_decide_eq_true, trim_padded; auto; [cbn; lia | reflexivity..].
Qed.

(** It is not recognised before the zero byte that pads an identifier. *)
Example toStringTrimEquals_zero_padded :
  toStringTrimEquals (DeflatedExplicitVRLittleEndian ++ [x00])
    DeflatedExplicitVRLittleEndian = false.
Proof. reflexivity. Qed.

(** ** A deflater that stores

    The simplest implementation of the interface: every buffer written is
    emitted as it is.  The witnesses run on it. *)

Lemma stored_inflates (chunks : list Bytes) :
  Some (concat (fst (flatMapM (fun (b : Bytes) (d : unit) => ([b], d)) chunks tt) ++ [])) =
    Some (concat chunks).
Proof.
  rewrite app_nil_r. do 2 f_equal.
  induction chunks as [|b chunks IH]; [reflexivity|].
  rewrite flatMapM_cons; cbn [fst snd app]. rewrite IH. reflexivity.
Qed.

#[export] Instance storedDeflate : RawDeflate := {
  Deflater := unit;
  createDeflateRaw := tt;
  deflateWrite b d := ([b], d);
  deflateEnd _ := [];
  inflateRaw b := Some b;
  inflate_deflated := stored_inflates
}.

(** ** The theorems at concrete streams *)

(** The object with [collectingTs] set, as the transfer syntax header
    leaves it. *)
Definition collecting : DeflateState :=
  set_collectingTs true DeflateDatasetFlow_constructor.

(** A value chunk that spells the deflated transfer syntax. *)
Definition deflatedValue : Part := ValueChunk DeflatedExplicitVRLittleEndian true.

Lemma process_unbound_Tag_witness :
  process dicomFlowsScope fmiGroupLength DeflateDatasetFlow_constructor =
    Throw (ReferenceError [x54; x61; x67]).
Proof. apply process_unbound_Tag; reflexivity. Defined.

Lemma process_forwards_witness :
  ([transferSyntaxHeader] = [transferSyntaxHeader] /\
   detour collecting = detour DeflateDatasetFlow_constructor /\
   detourFlow collecting = detourFlow DeflateDatasetFlow_constructor) \/
  (isHeaderPart transferSyntaxHeader = true /\ partIsFmi transferSyntaxHeader = false /\
   toStringTrimEquals (tsBytes DeflateDatasetFlow_constructor)
     DeflatedExplicitVRLittleEndian = true /\
   ([transferSyntaxHeader], collecting) =
     setDetour true transferSyntaxHeader
       (setDetourFlow createDeflateRaw DeflateDatasetFlow_constructor)).
Proof.
  apply (process_forwards intendedScope transferSyntaxHeader
           DeflateDatasetFlow_constructor collecting [transferSyntaxHeader]).
  reflexivity.
Defined.

Lemma process_fields_witness :
  tsBytes (set_tsBytes explicitVRLittleEndian collecting) =
    (if isValueChunk transferSyntaxValue && collectingTs collecting
     then tsBytes collecting ++ partBytes transferSyntaxValue else tsBytes collecting) /\
  (isHeaderPart transferSyntaxValue && partIsFmi transferSyntaxValue = false ->
   collectingTs (set_tsBytes explicitVRLittleEndian collecting) = collectingTs collecting).
Proof.
  apply (process_fields dicomFlowsScope transferSyntaxValue collecting _
           [transferSyntaxValue]); reflexivity.
Defined.

Lemma process_collects_witness :
  flatMapR (process dicomFlowsScope) [transferSyntaxValue] collecting =
    ([transferSyntaxValue],
     Ok (set_tsBytes (tsBytes collecting ++ streamBytes [transferSyntaxValue]) collecting)).
Proof. apply process_collects; [reflexivity | repeat constructor]. Defined.

Lemma process_passthrough_witness :
  flatMapR (process dicomFlowsScope) stream_indeterminate DeflateDatasetFlow_constructor =
    (stream_indeterminate, Ok DeflateDatasetFlow_constructor).
Proof. apply process_passthrough; [reflexivity | reflexivity | repeat constructor]. Defined.

Lemma process_late_switch_witness :
  exists out s',
    flatMapR (process dicomFlowsScope) [patientNameHeader; deflatedValue; studyDateEmpty]
      collecting = (patientNameHeader :: deflatedValue :: out, Ok s') /\
    detour s' = true /\ tsBytes s' = partBytes deflatedValue.
Proof. apply process_late_switch; reflexivity. Defined.

Lemma transform_one_way_witness :
  exists out s',
    transform dicomFlowsScope fmiGroupLength
      (set_detour true (setDetourFlow createDeflateRaw DeflateDatasetFlow_constructor)) =
      Ok (out, s') /\
    detour s' = true /\ Forall (fun p => isDeflatedChunk p = true) out.
Proof. apply transform_one_way; reflexivity. Defined.

Lemma detour_inflates_witness :
  exists out s',
    flatMapR (transform dicomFlowsScope) (patientNameHeader :: [patientNameValue])
      (set_tsBytes DeflatedExplicitVRLittleEndian DeflateDatasetFlow_constructor) =
      (out, Ok s') /\
    Forall (fun p => isDeflatedChunk p = true) (out ++ flush s') /\
    inflateRaw (streamBytes (out ++ flush s')) =
      Some (streamBytes (patientNameHeader :: [patientNameValue])).
Proof. apply detour_inflates; reflexivity. Defined.

Lemma runDeflateDatasetFlow_unbound_Tag_witness :
  runDeflateDatasetFlow dicomFlowsScope ([] ++ fmiGroupLength :: stream_elements) =
    ([], Some (ReferenceError [x54; x61; x67])).
Proof. apply runDeflateDatasetFlow_unbound_Tag; [constructor | reflexivity | reflexivity]. Defined.

Lemma runDeflateDatasetFlow_passthrough_witness :
  runDeflateDatasetFlow intendedScope (stream_fmi ++ stream_determinate) =
    (stream_fmi ++ stream_determinate, None).
Proof.
  apply (runDeflateDatasetFlow_passthrough intendedScope stream_fmi stream_determinate
           stream_fmi (set_tsBytes explicitVRLittleEndian DeflateDatasetFlow_constructor));
    try reflexivity. repeat constructor.
Defined.

Lemma runDeflateDatasetFlow_deflates_witness :
  exists chunks,
    runDeflateDatasetFlow intendedScope
      ([transferSyntaxHeader; deflatedValue] ++ patientNameHeader :: [patientNameValue]) =
      ([transferSyntaxHeader; deflatedValue] ++ chunks, None) /\
    Forall (fun p => isDeflatedChunk p = true) chunks /\
    inflateRaw (streamBytes chunks) =
      Some (streamBytes (patientNameHeader :: [patientNameValue])).
Proof.
  apply (runDeflateDatasetFlow_deflates intendedScope _ _ _ _
           (set_tsBytes DeflatedExplicitVRLittleEndian collecting)); reflexivity.
Defined.

Lemma toStringTrimEquals_padded_witness :
  toStringTrimEquals ([x20; x0a] ++ DeflatedExplicitVRLittleEndian ++ [x20])
    DeflatedExplicitVRLittleEndian = true.
Proof. apply toStringTrimEquals_padded; repeat constructor. Defined.
