(* ===== verification/DeflateMachine.v ===== *)
(** * DeflateMachine: the deflate stage as a two-mode machine

    The specification describes [deflateDatasetFlow] as a machine of two
    modes with a one-way transition, and asks for it to be read as the
    type [{Passthrough, Detoured(compressor)}].  [DeflateDatasetFlow] has
    no such type: its mode is the flag [detour] of [Detour] together with
    the flow [setDetourFlow] stored.

    - [Mode] and [modeStep] are that machine, a step relation with one
      rule per case of the specification; [modeRun] is its runs.  The
      machine is read in a module: the rule for a header of the file meta
      information has the binding of [Tag] as its premise, so in a module
      that binds no [Tag], as [dicom-flows.js] is, the machine has no step
      at such a header.
    - [mode] reads the mode off the fields of the object.  A state with
      the flag set and no flow, or a flow and no flag, has none.
    - [reaches] is the set of states the object is in after a stream, by
      the steps of [transform] from [deflateDatasetFlow()].

    Proved, in every module scope: what [process] and [transform] return
    is the step of the machine, and they throw exactly where the machine
    is stuck; every step of the machine is one [transform] takes; the
    machine is deterministic and one way, total where [Tag] is bound and
    stuck at the headers of the file meta information only where it is
    not; every reachable state has a mode, and in the detoured mode the
    bytes collected are the deflated transfer syntax; with [Tag] unbound,
    as [dicom-flows.js] leaves it, the object never leaves its first
    state. *)

From S2P Require Import Prelude Base Parts TagPath DicomFlow Fixtures Deflate.

Section Machine.
Context `{RawDeflate}.

(** ** The machine of the specification *)

Inductive Mode : Type :=
| Passthrough (collecting : bool) (ts : Bytes)
| Detoured (compressor : Deflater).

Definition isDetoured (m : Mode) : bool :=
  match m with Detoured _ => true | Passthrough _ _ => false end.

(** The mode an object is in, by its fields. *)
Definition mode (s : DeflateState) : option Mode :=
  match detour s, detourFlow s with
  | false, None => Some (Passthrough (collectingTs s) (tsBytes s))
  | true, Some d => Some (Detoured d)
  | _, _ => None
  end.

Section Steps.
(** What [Tag] names in the module the machine runs in. *)
Variable tags : option TagTable.

(** One part through the machine: the parts it emits and the mode it is
    in afterwards. *)
Inductive modeStep : Mode -> Part -> list Part -> Mode -> Prop :=
| step_fmi T c ts part :
    tags = Some T ->
    isHeaderPart part = true -> partIsFmi part = true ->
    modeStep (Passthrough c ts) part [part]
             (Passthrough (partTag part =? TransferSyntaxUID T) ts)
| step_switch c ts part out d :
    isHeaderPart part = true -> partIsFmi part = false ->
    trim ts = DeflatedExplicitVRLittleEndian ->
    detourFlow_write part createDeflateRaw = (out, d) ->
    modeStep (Passthrough c ts) part out (Detoured d)
| step_dataset c ts part :
    isHeaderPart part = true -> partIsFmi part = false ->
    trim ts <> DeflatedExplicitVRLittleEndian ->
    modeStep (Passthrough c ts) part [part] (Passthrough c ts)
| step_collect ts part :
    isValueChunk part = true ->
    modeStep (Passthrough true ts) part [part] (Passthrough true (ts ++ partBytes part))
| step_forward c ts part :
    isHeaderPart part = false -> isValueChunk part && c = false ->
    modeStep (Passthrough c ts) part [part] (Passthrough c ts)
| step_detoured d part out d' :
    detourFlow_write part d = (out, d') ->
    modeStep (Detoured d) part out (Detoured d').

(** A stream through the machine. *)
Inductive modeRun : Mode -> list Part -> list Part -> Mode -> Prop :=
| run_nil m : modeRun m [] [] m
| run_cons m part out m1 ps out' m2 :
    modeStep m part out m1 -> modeRun m1 ps out' m2 ->
    modeRun m (part :: ps) (out ++ out') m2.

End Steps.

(** ** The states of the object *)

(** The object after a stream: the parts it was written, the parts it
    pushed, its fields. *)
Inductive reaches (scope : ModuleScope) : list Part -> list Part -> DeflateState -> Prop :=
| reaches_new : reaches scope [] [] deflateDatasetFlow
| reaches_step ps out s part out' s' :
    reaches scope ps out s -> transform scope part s = Ok (out', s') ->
    reaches scope (ps ++ [part]) (out ++ out') s'.

(** What holds of every state the object is in: the flag and the flow
    agree, and the detour is on only over the deflated transfer
    syntax. *)
Definition consistent (s : DeflateState) : Prop :=
  match mode s with
  | Some (Detoured _) => trim (tsBytes s) = DeflatedExplicitVRLittleEndian
  | Some (Passthrough _ _) => True
  | None => False
  end.

(** ** The machine *)

Section MachineLaws.
Variable tags : option TagTable.

Lemma isValueChunk_not_header (part : Part) :
  isValueChunk part = true -> isHeaderPart part = false.
Proof. destruct part; cbn; congruence. Qed.

(** Where the machine has no step: in passthrough, at a header of the
    file meta information, when [Tag] names nothing. *)
Definition stuck (m : Mode) (part : Part) : Prop :=
  forall out m', ~ modeStep tags m part out m'.

Lemma modeStep_fmi_bound (c : bool) (ts : Bytes) (part : Part) (out : list Part) (m' : Mode) :
  modeStep tags (Passthrough c ts) part out m' ->
  isHeaderPart part = true -> partIsFmi part = true -> is_Some tags.
Proof.
  inversion 1; subst; intros Hh Hf; eauto; try congruence.
  rewrite isValueChunk_not_header in Hh by assumption; discriminate.
Qed.

(** The machine has a step for every part in every mode, except at a
    header of the file meta information in a module without [Tag]. *)
Theorem modeStep_total (m : Mode) (part : Part) :
  is_Some tags \/ isDetoured m = true \/ isHeaderPart part && partIsFmi part = false ->
  exists out m', modeStep tags m part out m'.
Proof.
  intros Hb. destruct m as [c ts|d].
  - destruct (isHeaderPart part) eqn:Hh.
    + destruct (partIsFmi part) eqn:Hf.
      { destruct Hb as [[T HT]|[[=]|[=]]]. eauto using modeStep. }
      destruct (decide (trim ts = DeflatedExplicitVRLittleEndian));
        [|eauto using modeStep].
      destruct (detourFlow_write part createDeflateRaw) eqn:Hw; eauto using modeStep.
    + destruct (isValueChunk part && c) eqn:Hv; [|eauto using modeStep].
      apply andb_true_iff in Hv as [Hv ->]. eauto using modeStep.
  - destruct (detourFlow_write part d) eqn:Hw; eauto using modeStep.
Qed.

(** The machine is stuck exactly there. *)
Theorem stuck_iff (m : Mode) (part : Part) :
  stuck m part <->
  tags = None /\ isDetoured m = false /\ isHeaderPart part = true /\ partIsFmi part = true.
Proof.
  split.
  - intros Hs. destruct tags as [T|] eqn:HT, (isDetoured m) eqn:Hd,
      (isHeaderPart part) eqn:Hh, (partIsFmi part) eqn:Hf; auto;
      destruct (modeStep_total m part) as (out & m' & Hstep);
      rewrite ?Hd, ?Hh, ?Hf; cbn; eauto; destruct (Hs _ _ Hstep).
  - intros (HT & Hd & Hh & Hf) out m' Hstep. destruct m as [c ts|]; [|discriminate].
    destruct (modeStep_fmi_bound _ _ _ _ _ Hstep Hh Hf) as [T HT']. congruence.
Qed.

(** The machine is deterministic. *)
Theorem modeStep_deterministic (m m1 m2 : Mode) (part : Part) (out1 out2 : list Part) :
  modeStep tags m part out1 m1 -> modeStep tags m part out2 m2 -> out1 = out2 /\ m1 = m2.
Proof.
  intros H1 H2; destruct H1; inversion H2; subst; auto;
    first [split; congruence | destruct part; cbn in *; discriminate].
Qed.

(** The transition is one way: no step leaves the detoured mode, and in
    it only deflated chunks are emitted. *)
Theorem modeStep_one_way (m m' : Mode) (part : Part) (out : list Part) :
  modeStep tags m part out m' -> isDetoured m = true ->
  isDetoured m' = true /\ Forall (fun p => isDeflatedChunk p = true) out.
Proof.
  destruct 1; try discriminate. intros _. split; [reflexivity|].
  replace out with (fst (detourFlow_write part d)) by (rewrite H0; reflexivity).
  unfold detourFlow_write, sbind, sret.
  destruct (flatMapM deflateWrite (toBytesFlow part) d). apply toDeflatedChunk_kind.
Qed.

Lemma modeRun_snoc (m m1 m2 : Mode) (ps : list Part) (part : Part) (out out' : list Part) :
  modeRun tags m ps out m1 -> modeStep tags m1 part out' m2 ->
  modeRun tags m (ps ++ [part]) (out ++ out') m2.
Proof.
  intros Hr Hs; induction Hr; cbn.
  - rewrite <- (app_nil_r out'). econstructor; [eassumption | constructor].
  - rewrite <- app_assoc. econstructor; eauto.
Qed.

End MachineLaws.

(** ** The object against the machine *)

Section Refinement.
Variable scope : ModuleScope.

(** What a call of the object is to the machine in mode [m]: a return
    is the step of the machine on that part, a throw is a part the
    machine has no step for. *)
Definition simulates (m : Mode) (part : Part)
    (r : Result JsError (list Part * DeflateState)) : Prop :=
  match r with
  | Ok (out, s') => exists m', mode s' = Some m' /\ modeStep (scope_Tag scope) m part out m'
  | Throw _ => stuck (scope_Tag scope) m part
  end.

Lemma mode_passthrough (s : DeflateState) :
  detour s = false -> detourFlow s = None ->
  mode s = Some (Passthrough (collectingTs s) (tsBytes s)).
Proof. unfold mode; intros -> ->; reflexivity. Qed.

Lemma process_simulates (s : DeflateState) (part : Part) :
  detour s = false -> detourFlow s = None ->
  simulates (Passthrough (collectingTs s) (tsBytes s)) part (process scope part s).
Proof.
  intros Hd Hf. unfold process, toStringTrimEquals.
  destruct (isHeaderPart part) eqn:Hh; [destruct (partIsFmi part) eqn:Hi|].
  - destruct (scope_Tag scope) as [T|] eqn:HT; cbn; rewrite ?HT.
    + eexists; split; [apply mode_passthrough; assumption|].
      cbn. econstructor; eauto.
    + apply stuck_iff; auto.
  - case_bool_decide as Ht.
    + unfold setDetour, writeDetour, setDetourFlow; cbn.
      destruct (detourFlow_write part createDeflateRaw) as [o d] eqn:Hw.
      eexists; split; [reflexivity|]. apply step_switch; assumption.
    + eexists; split; [apply mode_passthrough; assumption|].
      apply step_dataset; assumption.
  - destruct (isValueChunk part && collectingTs s) eqn:Hv;
      (eexists; split; [apply mode_passthrough; assumption|]); cbn.
    + apply andb_true_iff in Hv as [Hv ->]. apply step_collect, Hv.
    + apply step_forward; assumption.
Qed.

Lemma transform_simulates (s : DeflateState) (m : Mode) (part : Part) :
  mode s = Some m -> simulates m part (transform scope part s).
Proof.
  unfold mode, transform.
  destruct (detour s) eqn:Hd, (detourFlow s) as [d|] eqn:Hf; intros [= <-].
  - rewrite (writeDetour_eq _ _ _ Hf).
    eexists; split; [unfold mode; cbn; rewrite Hd; reflexivity|].
    apply step_detoured, surjective_pairing.
  - apply process_simulates; assumption.
Qed.

(** C16: in every module, the one of [dicom-flows.js] where [Tag] names
    nothing included, [process] on an object in the passthrough mode does
    what the machine does: when it returns, the parts it pushed and the
    fields it assigned are the step of the machine on that part, the
    switch to the detoured mode included; when it throws, the machine has
    no step on that part. *)
Theorem process_refines_modeStep (s : DeflateState) (m : Mode) (part : Part) :
  mode s = Some m -> isDetoured m = false ->
  match process scope part s with
  | Ok (out, s') => exists m', mode s' = Some m' /\ modeStep (scope_Tag scope) m part out m'
  | Throw _ => forall out m', ~ modeStep (scope_Tag scope) m part out m'
  end.
Proof.
  unfold mode. destruct (detour s) eqn:Hd, (detourFlow s) eqn:Hf; intros [= <-];
    [discriminate|]. intros _. apply process_simulates; assumption.
Qed.

(** [transform] refines the machine: from a state with a mode, what it
    emits and the mode it leaves are a step of the machine. *)
Theorem transform_refines_modeStep (s s' : DeflateState) (m : Mode) (part : Part)
    (out : list Part) :
  mode s = Some m -> transform scope part s = Ok (out, s') ->
  exists m', mode s' = Some m' /\ modeStep (scope_Tag scope) m part out m'.
Proof. intros Hm Ht. generalize (transform_simulates s m part Hm). rewrite Ht. auto. Qed.

(** [transform] throws where the machine is stuck, and nowhere else. *)
Theorem transform_throws_stuck (s : DeflateState) (m : Mode) (part : Part) :
  mode s = Some m ->
  (exists e, transform scope part s = Throw e) <-> stuck (scope_Tag scope) m part.
Proof.
  intros Hm. generalize (transform_simulates s m part Hm).
  destruct (transform scope part s) as [[out s']|e]; cbn.
  - intros (m' & _ & Hs). split; [intros [e [=]] | intros Hn; destruct (Hn _ _ Hs)].
  - intros Hn; split; eauto.
Qed.

(** Every step of the machine is the one [transform] takes. *)
Theorem modeStep_transform (s : DeflateState) (m m' : Mode) (part : Part) (out : list Part) :
  mode s = Some m -> modeStep (scope_Tag scope) m part out m' ->
  exists s', transform scope part s = Ok (out, s') /\ mode s' = Some m'.
Proof.
  intros Hm Hs. generalize (transform_simulates s m part Hm).
  destruct (transform scope part s) as [[o s']|e]; cbn.
  - intros (m1 & Hm1 & Hs1).
    destruct (modeStep_deterministic _ _ _ _ _ _ _ Hs1 Hs) as [-> ->]. eauto.
  - intros Hn; destruct (Hn _ _ Hs).
Qed.

End Refinement.

(** ** Reachable states *)

Section Reachable.
Variable scope : ModuleScope.

(** The states reached are the states the loop of the stage ends in. *)
Theorem reaches_run (ps out : list Part) (s : DeflateState) :
  reaches scope ps out s <->
  flatMapR (transform scope) ps deflateDatasetFlow = (out, Ok s).
Proof.
  split.
  - induction 1; [reflexivity | eapply flatMapR_snoc; eassumption].
  - revert out s; induction ps as [|part ps IH] using rev_ind; intros out s.
    + intros [= <- <-]. constructor.
    + intros (out1 & s1 & o & E1 & E2 & ->)%flatMapR_snoc_inv.
      econstructor; eauto.
Qed.

Lemma transform_consistent (part : Part) (s s' : DeflateState) (out : list Part) :
  consistent s -> transform scope part s = Ok (out, s') -> consistent s'.
Proof.
  unfold consistent, mode, transform.
  destruct s as [c ts [|] [d|]]; cbn [detour detourFlow]; try contradiction.
  - unfold writeDetour; cbn. destruct (detourFlow_write part d).
    intros Ht [= <- <-]. exact Ht.
  - intros _. unfold process, toStringTrimEquals, setDetour, writeDetour, setDetourFlow.
    cbn. destruct (isHeaderPart part);
      [destruct (partIsFmi part);
       [destruct (scope_Tag scope); [|discriminate]
       |case_bool_decide as Ht; [destruct (detourFlow_write part createDeflateRaw)|]]
      |destruct (isValueChunk part && c)];
      intros [= <- <-]; cbn; auto.
Qed.

(** C21: every state the object is in has a mode, and the detoured mode is
    entered over the deflated transfer syntax only. *)
Theorem reaches_consistent (ps out : list Part) (s : DeflateState) :
  reaches scope ps out s -> consistent s.
Proof. induction 1; [exact I | eapply transform_consistent; eassumption]. Qed.

End Reachable.

(** A stream through the object is a run of the machine from
    [Passthrough false []]. *)
Theorem reaches_modeRun (scope : ModuleScope) (ps out : list Part) (s : DeflateState) :
  reaches scope ps out s ->
  exists m, mode s = Some m /\ modeRun (scope_Tag scope) (Passthrough false []) ps out m.
Proof.
  induction 1 as [|ps out s part out' s' _ (m & Hm & Hr) Ht].
  - eexists; split; [reflexivity | constructor].
  - destruct (transform_refines_modeStep _ _ _ _ _ _ Hm Ht) as (m' & Hm' & Hs).
    eauto using modeRun_snoc.
Qed.

(** With [Tag] unbound the object never leaves the state it was made
    in: it forwards every part up to the first header of the file meta
    information, at which no step exists, and never deflates. *)
Theorem reaches_unbound (ps out : list Part) (s : DeflateState) :
  reaches dicomFlowsScope ps out s ->
  s = deflateDatasetFlow /\ out = ps /\
  Forall (fun p => isHeaderPart p && partIsFmi p = false) ps.
Proof.
  induction 1 as [|ps out s part out' s' _ (-> & -> & Hps) Ht]; [auto|].
  revert Ht. unfold transform, process; cbn.
  destruct (isHeaderPart part) eqn:Hh, (partIsFmi part) eqn:Hf; try discriminate;
    rewrite ?andb_false_r; intros [= <- <-];
    (split; [reflexivity | split; [reflexivity|]]);
    apply Forall_app; (split; [exact Hps|]); repeat constructor; rewrite Hh, ?Hf; reflexivity.
Qed.

End Machine.

(** ** At concrete streams

    On the deflater that stores: a file whose transfer syntax is the
    deflated one, and the indeterminate stream of the tests. *)

Definition deflatedFile : list Part :=
  [transferSyntaxHeader; deflatedValue; patientNameHeader; patientNameValue].

Definition deflatedFile_out : list Part :=
  [transferSyntaxHeader; deflatedValue;
   DeflatedChunk false (partBytes patientNameHeader);
   DeflatedChunk false (partBytes patientNameValue)].

Definition deflatedFile_end : DeflateState :=
  mkDeflateState true DeflatedExplicitVRLittleEndian true (Some tt).

Example deflatedFile_reaches :
  reaches intendedScope deflatedFile deflatedFile_out deflatedFile_end.
Proof. apply reaches_run. reflexivity. Qed.

Lemma reaches_modeRun_witness :
  exists m, mode deflatedFile_end = Some m /\
    modeRun (scope_Tag intendedScope) (Passthrough false []) deflatedFile deflatedFile_out m.
Proof. apply (reaches_modeRun intendedScope), deflatedFile_reaches. Defined.

Lemma reaches_consistent_witness : consistent deflatedFile_end.
Proof.
  apply (reaches_consistent intendedScope deflatedFile deflatedFile_out).
  apply deflatedFile_reaches.
Defined.

Lemma reaches_unbound_witness :
  deflateDatasetFlow = deflateDatasetFlow /\ stream_indeterminate = stream_indeterminate /\
  Forall (fun p => isHeaderPart p && partIsFmi p = false) stream_indeterminate.
Proof.
  apply (reaches_unbound stream_indeterminate stream_indeterminate).
  apply reaches_run. reflexivity.
Defined.

Lemma modeStep_total_witness :
  exists out m', modeStep (scope_Tag dicomFlowsScope) (Passthrough false []) patientNameHeader out m'.
Proof. apply modeStep_total. right; right; reflexivity. Defined.

Lemma transform_throws_stuck_witness :
  (exists e, transform dicomFlowsScope transferSyntaxHeader deflateDatasetFlow = Throw e) <->
  stuck (scope_Tag dicomFlowsScope) (Passthrough false []) transferSyntaxHeader.
Proof. apply transform_throws_stuck. reflexivity. Defined.

Lemma modeStep_transform_witness :
  exists s',
    transform dicomFlowsScope deflatedValue collecting = Ok ([deflatedValue], s') /\
    mode s' = Some (Passthrough true ([] ++ partBytes deflatedValue)).
Proof.
  apply (modeStep_transform dicomFlowsScope collecting (Passthrough true [])); [reflexivity|].
  apply step_collect. reflexivity.
Defined.

(** In the module as it stands: the first header of the dataset after the
    deflated transfer syntax was collected is the switch of the machine,
    and a header of the file meta information is a throw where the
    machine has no step. *)
Lemma process_refines_modeStep_witness :
  (exists m', mode deflatedFile_end = Some m' /\
     modeStep (scope_Tag dicomFlowsScope)
       (Passthrough true DeflatedExplicitVRLittleEndian) patientNameHeader
       [DeflatedChunk false (partBytes patientNameHeader)] m') /\
  (forall out m',
     ~ modeStep (scope_Tag dicomFlowsScope) (Passthrough false []) transferSyntaxHeader out m').
Proof.
  split.
  - exact (process_refines_modeStep dicomFlowsScope
             (set_tsBytes DeflatedExplicitVRLittleEndian collecting) _ patientNameHeader
             eq_refl eq_refl).
  - exact (process_refines_modeStep dicomFlowsScope deflateDatasetFlow _ transferSyntaxHeader
             eq_refl eq_refl).
Defined.
