(* ===== verification/DicomFlows.v ===== *)
(** * DicomFlows: the module as a whole

    What [dicom-flows.js] exports, and what holds of its stages when they
    are chained: the stage contract lets a caller chain them in any
    order, and the order matters.

    - [module_exports] is the object the file assigns to
      [module.exports]: the nine functions under their names.
    - A tag filter guarantees the value event: every header of length
      zero that leaves it is followed by an empty last chunk.
    - Rewriting to indeterminate length and then filtering by tag path
      gives a stream whose sequences are all indeterminate and whose
      lengths agree with their bytes.  Filtering first starves the
      rewriter of the bytes it counts: scopes are left open.
    - On datasets the chains are read off the tree: rewriting and then
      filtering is the composition of the two, by the instances of
      [Dataset]; where every scope has its delimitation in the stream
      the filtered stream is stable and the two orders agree
      ([rewrite_filter_commute]).
    - Rewriting and then discarding the group lengths gives the dataset
      rewritten and without its group lengths, well formed
      ([rewrite_then_discard_dataset]); discarding first leaves the
      scopes open.
    - The white list and the black list of the same paths are not
      complementary on a stream: the second filter sees the paths of the
      stream the first one left. *)

From S2P Require Import Prelude Base Parts TagPath DicomFlow Fixtures.
From S2P Require Import Dataset HeaderFilter TagFilter IndeterminateLength Framing.
From S2P Require Import RewriteDataset FilterDataset DiscardDataset ElementFlow Deflate.

(** ** The exports *)

Record Exports `{Dictionary} `{RawDeflate} : Type := mkExports {
  export_toBytesFlow : Part -> list Bytes;
  export_tagFilter :
    (TagPath -> bool) -> option (Part -> bool) -> option bool -> Stage FlowState;
  export_whitelistFilter : list TagPath -> Stage FlowState;
  export_blacklistFilter : list TagPath -> Stage FlowState;
  export_headerFilter : (Part -> bool) -> option bool -> Stage FlowState;
  export_groupLengthDiscardFilter : Stage FlowState;
  export_fmiDiscardFilter : Stage FlowState;
  export_toIndeterminateLengthSequences : Stage FlowState;
  export_deflateDatasetFlow : DeflateState
}.

Definition module_exports `{Dictionary} `{RawDeflate} : Exports := {|
  export_toBytesFlow := toBytesFlow;
  export_tagFilter := tagFilter;
  export_whitelistFilter := whitelistFilter;
  export_blacklistFilter := blacklistFilter;
  export_headerFilter := headerFilter;
  export_groupLengthDiscardFilter := groupLengthDiscardFilter;
  export_fmiDiscardFilter := fmiDiscardFilter;
  export_toIndeterminateLengthSequences := toIndeterminateLengthSequences;
  export_deflateDatasetFlow := deflateDatasetFlow
|}.

(** ** The value event a tag filter guarantees *)

(** Every header of length zero is directly followed by the empty last
    chunk. *)
Fixpoint valuesGuaranteed (out : list Part) : bool :=
  match out with
  | [] => true
  | p :: rest =>
      (if isHeaderPart p && (partLength p =? 0)
       then match rest with
            | q :: _ => bool_decide (q = valueChunkMarker)
            | [] => false
            end
       else true)
      && valuesGuaranteed rest
  end.

Lemma valuesGuaranteed_app (a b : list Part) :
  valuesGuaranteed a = true -> valuesGuaranteed b = true ->
  valuesGuaranteed (a ++ b) = true.
Proof.
  intros Ha Hb; induction a as [|p a IH]; [exact Hb|].
  cbn [valuesGuaranteed app] in *. apply andb_true_iff in Ha as [Hp Ha].
  rewrite (IH Ha), andb_true_r.
  destruct (isHeaderPart p && (partLength p =? 0)); [|reflexivity].
  destruct a; [discriminate | exact Hp].
Qed.

Section Stages.
Context `{Dictionary}.
Variables (keepCondition : TagPath -> bool) (defaultCondition : option (Part -> bool))
  (warnings : option bool).

Lemma tagFilter_step_guaranteed (part : Part) (s : FlowState) :
  valuesGuaranteed
    (fst (tagFilter_step keepCondition (tagFilter_defCond defaultCondition) part s)) = true.
Proof.
  rewrite tagFilter_step_out. case_if; [|reflexivity].
  destruct (isHeaderPart part && (partLength part =? 0)) eqn:Eh.
  - destruct part; try discriminate. unfold isDelimitationMarker.
    cbn [isSequenceDelimitationPart isItemDelimitationPart orb andb app valuesGuaranteed].
    rewrite Eh. reflexivity.
  - destruct (isDelimitationMarker part); cbn [app valuesGuaranteed]; rewrite ?Eh;
      reflexivity.
Qed.

(** A tag filter guarantees the value event: in what it emits, on any
    stream and from any state, every header of length zero is directly
    followed by an empty value chunk marked last. *)
Theorem tagFilter_values_guaranteed (ps : list Part) (s : FlowState) :
  valuesGuaranteed
    (fst (runFrom (tagFilter keepCondition defaultCondition warnings) ps s)) = true.
Proof.
  revert s; induction ps as [|p ps IH]; intros s; [reflexivity|].
  rewrite runFrom_cons; cbn [fst]. rewrite tagFilter_accept.
  apply valuesGuaranteed_app; [apply tagFilter_step_guaranteed | apply IH].
Qed.

(** A tag filter emits parts of its input and empty value chunks only. *)
Lemma tagFilter_Forall (P : Part -> Prop) (ps : list Part) (s : FlowState) :
  P valueChunkMarker -> Forall P ps ->
  Forall P (fst (runFrom (tagFilter keepCondition defaultCondition warnings) ps s)).
Proof.
  intros Hm Hps. unfold runFrom.
  apply (flatMapM_Forall_on _ P (fun _ => True)); auto.
  intros p s' Hp _; split; [exact I|].
  rewrite tagFilter_accept, tagFilter_step_out.
  case_if; [|constructor]. apply Forall_app; split; repeat case_if; repeat constructor; auto.
Qed.

(** ** Rewriting, then filtering *)

(** Rewriting to indeterminate length before filtering by tag path
    gives a stream a reader can frame: on a stream of parts whose
    declared lengths agree with their bytes, whatever the filter keeps,
    every part that leaves the chain has a declared length that agrees
    with its bytes, and every sequence is indeterminate. *)
Theorem rewrite_then_filter (ps : list Part) :
  Forall (fun p => lengthConsistent p = true) ps ->
  Forall (fun p => lengthConsistent p = true /\
                   (isSequencePart p = true -> indeterminate p = true))
    (run (pipe toIndeterminateLengthSequences
            (tagFilter keepCondition defaultCondition warnings)) ps).
Proof.
  intros Hps. rewrite run_pipe. unfold run at 1.
  apply tagFilter_Forall; [split; [reflexivity | discriminate]|].
  apply Forall_and; split.
  - apply toIndeterminateLengthSequences_consistent; [reflexivity | exact Hps].
  - apply toIndeterminate_runFrom_Forall.
    + intros d (Hs & _)%isEncodedDelimitation_kind; congruence.
    + congruence.
    + intros part this _; apply onSequence_rewrite_indeterminate.
    + intros part this (_ & Hs & _)%(onItem_rewrite_kind _ this); congruence.
Qed.

(** Rewriting, then filtering, on datasets: the chain emits the parts
    the keep condition accepts of the dataset with every scope made
    indeterminate.  The filter sees the delimitations the rewriter made,
    and judges them at the path of their scope. *)
Theorem rewrite_then_filter_dataset (ns : Nodes) :
  wfNodes ns ->
  run (pipe toIndeterminateLengthSequences
         (tagFilter keepCondition defaultCondition warnings)) (nodesParts ns) =
    filterNodes keepCondition emptyTagPath (rewriteNodes ns).
Proof. intros Hwf. rewrite (on_datasets (st := pipe _ _)) by exact Hwf. reflexivity. Qed.

(** *** Filtering, then rewriting

    A segment of a stream is neutral when the rewriter leaves it alone
    and is outside fragments behind it as it was before it. *)
Definition neutral (seg : list Part) : Prop :=
  stableStream false seg = true /\ fold_left flagAfter seg false = false.

Lemma neutral_nil : neutral [].
Proof. split; reflexivity. Qed.

Lemma neutral_app (a b : list Part) : neutral a -> neutral b -> neutral (a ++ b).
Proof.
  intros (Ha & Hfa) (Hb & Hfb). split.
  - rewrite stableStream_app, Ha, Hfa. exact Hb.
  - rewrite fold_left_app, Hfa. exact Hfb.
Qed.

Lemma neutral_kept (path : TagPath) (seg : list Part) :
  neutral seg -> neutral (kept keepCondition path seg).
Proof. unfold kept. destruct (keepCondition path); auto using neutral_nil. Qed.

Lemma neutral_part (p : Part) :
  isStable false p = true -> isFragments p = false -> neutral [p].
Proof.
  intros Hp Hf. split; cbn; [rewrite Hp; reflexivity|]. unfold flagAfter. rewrite Hf.
  destruct p; reflexivity.
Qed.

Lemma neutral_chunks (chunks : list Part) :
  Forall (fun p => isValueChunk p = true) chunks -> neutral chunks.
Proof.
  induction 1 as [|c cs Hc _ IH]; [apply neutral_nil|].
  apply (neutral_app [c]); [|exact IH].
  apply neutral_part; destruct c; try discriminate; reflexivity.
Qed.

Lemma neutral_option (isDelimitation : Part -> bool) (scope : Part) (content : list Part)
    (delimitation : option Part) :
  scopeClosed isDelimitation scope content delimitation ->
  (forall d, isDelimitation d = true ->
     isSequenceDelimitationPart d || isItemDelimitationPart d = true) ->
  neutral (option_list delimitation).
Proof.
  intros Hcl Hk. destruct delimitation as [d|]; [|apply neutral_nil].
  destruct Hcl as (_ & Hd & Hb). apply Hk in Hd. apply isDelimitationMarker_not in Hb.
  apply neutral_part; destruct d; try discriminate; cbn [isStable]; try rewrite Hb;
    reflexivity.
Qed.

Lemma neutral_fragments (header : Part) (fragments : list Part) (d : Part) :
  isFragments header = true -> Forall wfFragment fragments ->
  isSequenceDelimitationPart d = true -> partBytes d <> [] ->
  neutral (header :: fragments ++ [d]).
Proof.
  intros Hh Hfr Hd Hb%isDelimitationMarker_not.
  assert (isHeaderPart header = true) as Hk.
  { unfold isFragments in Hh. destruct (isHeaderPart header); [reflexivity | discriminate]. }
  assert (stableStream true (fragments ++ [d]) = true /\
          fold_left flagAfter (fragments ++ [d]) true = false) as (Hst & Hfl).
  { induction Hfr as [|p fragments (Hp & _) _ IH].
    - destruct d; try discriminate. cbn. rewrite Hb. auto.
    - destruct IH as (IH1 & IH2). destruct p; try discriminate; cbn; auto. }
  assert (flagAfter false header = true) as Hfa
    by (unfold flagAfter; rewrite Hk, Hh; reflexivity).
  split; cbn [stableStream fold_left]; rewrite Hfa;
    [destruct header; try discriminate; exact Hst | exact Hfl].
Qed.

(** What a tag filter emits of a dataset whose scopes all have their
    delimitation is a stream the rewriter leaves alone. *)
Lemma filtered_neutral :
  (forall n context, wfNode n -> delimitedNode n = true ->
     neutral (filterNode keepCondition context n)) /\
  (forall l tag context, wfItems l -> delimitedItems l = true ->
     neutral (filterItems keepCondition tag context l)) /\
  (forall l context, wfNodes l -> delimitedNodes l = true ->
     neutral (filterNodes keepCondition context l)).
Proof.
  apply Dataset_mutind; cbn [wfNode wfItems wfNodes filterNode filterItems filterNodes
    delimitedNode delimitedItems delimitedNodes]; auto using neutral_nil.
  - intros header chunks context (Hh & Hf & _ & Hcs) _. apply neutral_kept.
    apply (neutral_app [header]); [apply neutral_part; destruct header; auto; discriminate|].
    apply neutral_chunks, Forall_app; split.
    + unfold valueEvent. case_match; repeat constructor.
    + eapply Forall_impl; [exact Hcs | intros c Hc; apply Hc].
  - intros header fragments d context (Hh & _ & Hfr & Hd & Hb) _.
    apply neutral_kept, neutral_fragments; assumption.
  - intros sequence items IH [d|] context (Hk & _ & Hwf & Hcl) Hdel; [|discriminate].
    repeat apply neutral_app; auto.
    + apply neutral_kept, neutral_part; destruct sequence; try discriminate; [|reflexivity].
      apply Hcl.
    + apply neutral_kept, (neutral_option _ _ _ _ Hcl). intros d' ->; reflexivity.
  - intros item body IHbody [d|] rest IHrest tag context (Hk & _ & Hwf & Hcl & Hrest) Hdel;
      [|discriminate].
    apply andb_true_iff in Hdel as [Hdb Hdr].
    repeat apply neutral_app; auto.
    + apply neutral_kept, neutral_part; destruct item; try discriminate; [|reflexivity].
      apply Hcl.
    + apply neutral_kept, (neutral_option _ _ _ _ Hcl). intros d' ->; apply orb_true_r.
  - intros node IHnode rest IHrest context (Hn & Hrest) (Hdn & Hdr)%andb_true_iff.
    apply neutral_app; auto.
Qed.

Lemma filtered_stable (ns : Nodes) :
  wfNodes ns -> delimitedNodes ns = true ->
  run toIndeterminateLengthSequences (filterNodes keepCondition emptyTagPath ns) =
    filterNodes keepCondition emptyTagPath ns.
Proof.
  intros Hwf Hdel. apply toIndeterminate_run_stable.
  destruct filtered_neutral as (_ & _ & Hn). apply Hn; assumption.
Qed.

(** Filtering, then rewriting, on a dataset whose scopes all have their
    delimitation: the rewriter has nothing to do behind the filter. *)
Theorem filter_then_rewrite_dataset (ns : Nodes) :
  wfNodes ns -> delimitedNodes ns = true ->
  run (pipe (tagFilter keepCondition defaultCondition warnings)
         toIndeterminateLengthSequences) (nodesParts ns) =
    filterNodes keepCondition emptyTagPath ns.
Proof.
  intros Hwf Hdel. rewrite run_pipe, (on_datasets (st := tagFilter _ _ _)) by exact Hwf.
  apply filtered_stable; assumption.
Qed.

(** C18: the rewriter and a tag filter commute on the datasets whose scopes
    all have their delimitation; on the others the order matters
    ([blacklist_then_rewrite]). *)
Theorem rewrite_filter_commute (ns : Nodes) :
  wfNodes ns -> delimitedNodes ns = true ->
  run (pipe toIndeterminateLengthSequences
         (tagFilter keepCondition defaultCondition warnings)) (nodesParts ns) =
  run (pipe (tagFilter keepCondition defaultCondition warnings)
         toIndeterminateLengthSequences) (nodesParts ns).
Proof.
  intros Hwf Hdel. rewrite (on_datasets (st := pipe toIndeterminateLengthSequences _))
    by exact Hwf.
  destruct rewrite_delimited as (_ & _ & Hid). rewrite Hid by assumption.
  rewrite run_pipe, (on_datasets (st := tagFilter _ _ _)) by exact Hwf.
  symmetry. apply filtered_stable; assumption.
Qed.

End Stages.

(** ** Normalising a dataset

    Once the scopes are rewritten to indeterminate length the group
    length elements no longer say anything, and are discarded.  In that
    order the chain gives the dataset rewritten and without its group
    lengths, which is well formed; in the other order the rewriter counts
    the bytes the filter left and the scopes stay open
    ([discard_then_rewrite_open]). *)

(** C19: rewriting and then discarding the group lengths normalises a
    dataset: on the traversal of a well-formed dataset the chain emits
    the traversal of the dataset with every scope indeterminate and
    without its group lengths, which is well formed and has every scope
    closed by its delimitation. *)
Theorem rewrite_then_discard_dataset `{Dictionary} (ns : Nodes) :
  wfNodes ns -> sequencesKept isDiscardedGroupLength ns = true ->
  run (pipe toIndeterminateLengthSequences groupLengthDiscardFilter) (nodesParts ns) =
    withValueEvents (nodesParts (discardNodes isDiscardedGroupLength (rewriteNodes ns))) /\
  wfNodes (discardNodes isDiscardedGroupLength (rewriteNodes ns)) /\
  delimitedNodes (discardNodes isDiscardedGroupLength (rewriteNodes ns)) = true.
Proof.
  intros Hwf Hk.
  pose proof (dataset_map_wf (st := toIndeterminateLengthSequences) ns Hwf) as Hwf'.
  destruct rewrite_wf as (_ & _ & Hrw). destruct (Hrw ns Hwf) as (_ & Hdel). split.
  - rewrite run_pipe, (dataset_map_run (st := toIndeterminateLengthSequences)) by exact Hwf.
    unfold groupLengthDiscardFilter.
    apply (tagFilter_discards _ _ groupLengthDiscard_by_tag); [exact Hwf'|].
    destruct (sequencesKept_rewrite isDiscardedGroupLength) as (_ & _ & ->). exact Hk.
  - apply discard_wf; assumption.
Qed.

(** ** The order of a chain, at the streams of the tests *)

(** Rewriting first: the element is dropped, its scopes are closed. *)
Example rewrite_then_blacklist :
  run (pipe toIndeterminateLengthSequences (blacklistFilter [path_nameInItem1]))
    stream_determinate =
  [derivationSequence; item1; itemEnd1; sequenceEnd].
Proof. reflexivity. Qed.

(** Filtering first leaves the scopes open: the rewriter closes a
    determinate scope when the bytes it counts use up the declared
    length, and the filter has taken those bytes away.  Both headers
    leave the chain rewritten to indeterminate length and no
    delimitation follows them. *)
Example blacklist_then_rewrite :
  run (pipe (blacklistFilter [path_nameInItem1]) toIndeterminateLengthSequences)
    stream_determinate =
  [derivationSequence; item1].
Proof. reflexivity. Qed.

(** The white list and the black list of one path are not
    complementary on a stream.  The white list keeps the item and the
    element but not the sequence header above them; the black list then
    sees an element at the top level, which the path does not name, and
    keeps all it is given. *)
Example whitelist_then_blacklist :
  run (pipe (whitelistFilter [path_nameInItem1]) (blacklistFilter [path_nameInItem1]))
    stream_indeterminate =
  [item1; patientNameHeader; patientNameValue; itemEnd1].
Proof. reflexivity. Qed.

(** On a dataset without sequences the two are complementary. *)
Example whitelist_then_blacklist_flat :
  run (pipe (whitelistFilter [path_patientName]) (blacklistFilter [path_patientName]))
    stream_elements = [].
Proof. reflexivity. Qed.

(** Two tag filters in a row each make the value event of an element of
    length zero: the second is given the empty chunk of the first and
    forwards it after its own. *)
Example tagFilter_twice_empty_value :
  run (pipe (blacklistFilter []) (blacklistFilter []))
    [studyDateEmpty; patientNameHeader; patientNameValue] =
  [studyDateEmpty; valueChunkMarker; valueChunkMarker; patientNameHeader; patientNameValue].
Proof. reflexivity. Qed.

(** A header filter is not built on the guaranteed value event: a header
    of length zero passes it alone. *)
Example headerFilter_no_value_event :
  run (headerFilter (fun _ => true) None) stream_elements = stream_elements /\
  valuesGuaranteed (run (headerFilter (fun _ => true) None) stream_elements) = false.
Proof. split; reflexivity. Qed.

(** The assembler after the rewriter: the same element between markers
    that now carry the indeterminate length, and the delimitations the
    rewriter made. *)
Example rewrite_then_assemble :
  fst (elementFlow (run toIndeterminateLengthSequences stream_determinate)) =
    [StructuralMarker derivationSequence; StructuralMarker item1;
     Element Tag_PatientName VR_PN false johnDoe;
     StructuralMarker itemEnd1; StructuralMarker sequenceEnd].
Proof. reflexivity. Qed.

Lemma rewrite_then_filter_witness :
  Forall (fun p => lengthConsistent p = true /\
                   (isSequencePart p = true -> indeterminate p = true))
    (run (pipe toIndeterminateLengthSequences
            (tagFilter (blacklist_keepCondition [path_nameInItem1]) None None))
       stream_determinate).
Proof. apply rewrite_then_filter. repeat constructor. Defined.

Lemma rewrite_then_filter_dataset_witness :
  run (pipe toIndeterminateLengthSequences (blacklistFilter [path_nameInItem1]))
    (nodesParts dataset_mixed) =
  filterNodes (blacklist_keepCondition [path_nameInItem1]) emptyTagPath
    (rewriteNodes dataset_mixed).
Proof. apply (rewrite_then_filter_dataset _ None None), dataset_mixed_wf. Defined.

Lemma filter_then_rewrite_dataset_witness :
  run (pipe (blacklistFilter [path_nameInItem1]) toIndeterminateLengthSequences)
    (nodesParts dataset_indeterminate) =
  filterNodes (blacklist_keepCondition [path_nameInItem1]) emptyTagPath dataset_indeterminate.
Proof.
  apply (filter_then_rewrite_dataset _ None None); [apply dataset_indeterminate_wf | reflexivity].
Defined.

Lemma rewrite_filter_commute_witness :
  run (pipe toIndeterminateLengthSequences (blacklistFilter [path_nameInItem1]))
    (nodesParts dataset_indeterminate) =
  run (pipe (blacklistFilter [path_nameInItem1]) toIndeterminateLengthSequences)
    (nodesParts dataset_indeterminate).
Proof.
  apply (rewrite_filter_commute _ None None); [apply dataset_indeterminate_wf | reflexivity].
Defined.

(** A sequence and an item of determinate length, with a group length in
    the item. *)
Definition dataset_lengths : Nodes :=
  ConsNode
    (SequenceNode
       (SequencePart Tag_DerivationCodeSequence 36 false true
          [x08; x00; x15; x92; x53; x51; x00; x00; x24; x00; x00; x00])
       (ConsItem (ItemPart 1 28 false [xfe; xff; x00; xe0; x1c; x00; x00; x00])
          (ConsNode (ElementNode groupLength0010 [groupLength0010Value])
             (ConsNode (ElementNode patientNameHeader [patientNameValue]) NoNodes))
          None NoItems)
       None)
    NoNodes.

Lemma dataset_lengths_wf : wfNodes dataset_lengths.
Proof. cbn. repeat split; try discriminate; repeat constructor; discriminate. Qed.

Example rewrite_then_discard :
  run (pipe toIndeterminateLengthSequences groupLengthDiscardFilter)
    (nodesParts dataset_lengths) = stream_indeterminate.
Proof. reflexivity. Qed.

Example discard_then_rewrite_open :
  run (pipe groupLengthDiscardFilter toIndeterminateLengthSequences)
    (nodesParts dataset_lengths) =
    [derivationSequence; item1; patientNameHeader; patientNameValue].
Proof. reflexivity. Qed.

Lemma rewrite_then_discard_dataset_witness :
  run (pipe toIndeterminateLengthSequences groupLengthDiscardFilter)
    (nodesParts dataset_lengths) =
    withValueEvents
      (nodesParts (discardNodes isDiscardedGroupLength (rewriteNodes dataset_lengths))) /\
  wfNodes (discardNodes isDiscardedGroupLength (rewriteNodes dataset_lengths)) /\
  delimitedNodes (discardNodes isDiscardedGroupLength (rewriteNodes dataset_lengths)) = true.
Proof. apply rewrite_then_discard_dataset; [apply dataset_lengths_wf | reflexivity]. Defined.

